(** * buildkite-ls: a shallow embedding of the language server's core

    The development follows the Go packages of the repository and of what
    they call:
    - [gostrings], [strconv], [filepath], [fmt], [json], [protocol]: the
      functions and types of Go's standard library and of the LSP protocol
      package that the code uses, modelled on byte strings;
    - [bkcontext]: internal/context, the position-aware context analyzer;
    - [schema]: internal/schema, the choice of the primary validation
      error and its message;
    - [plugins]: internal/plugins, plugin references and the popular-plugin
      catalog;
    - [lsp]: internal/lsp, the document manager, completion, the
      diagnostics of a step, file eligibility and semantic tokens.
    The vocabulary of the specification and the theorems come after the
    code, one section per component.

    Conventions.  A Go [string] is a Rocq [string], a sequence of bytes.
    A Go [range] loop over a string decodes runes; the loops here compare
    the rune with ASCII characters and, at most, append it again
    unchanged, which on valid UTF-8 is the same as walking the bytes (all
    text reaches the server through encoding/json, which yields valid
    UTF-8 only).  Go [int] is [Z]: the quantities held in an [int] here
    are string lengths, line counts and indices, far below 2^63, so no
    wrap-around is written for them.  [uint32] is [Z] with the wrap-around
    modulo 2^32 written out ([lsp.u32]).  A pointer that can be nil is an
    [option].  Indexing a slice or a string can panic: a function that
    indexes returns an [option] whose [None] is the panic.  Slice
    expressions [s[i:j]] are total functions that cut off at the end of the
    string; section [SlicesInRange] shows their bounds to hold where the
    code evaluates them.  Network calls (the schema fetch, the plugin
    registry) and the JSON-Schema validator are inputs of the functions
    that use their results. *)

From Stdlib Require Import ZArith Ascii Lia.
From stdpp Require Import base gmap strings list pretty.

Open Scope Z_scope.

(** ** Characters used by the code *)

Definition TAB : ascii := "009"%char.
Definition LF : ascii := "010"%char.
Definition VT : ascii := "011"%char.
Definition FF : ascii := "012"%char.
Definition CR : ascii := "013"%char.
Definition SP : ascii := " "%char.
Definition DQ : ascii := "034"%char.
Definition SQ : ascii := "039"%char.

(** One-character strings, for building literals that hold a newline or a
    double quote. *)
Definition nl : string := String LF "".
Definition cr : string := String CR "".
Definition dq : string := String DQ "".

(** [len(s)] *)
Definition len (s : string) : Z := Z.of_nat (String.length s).

(** ** Package strings of the Go standard library *)
Module gostrings.

(** [strings.HasPrefix(s, prefix)] *)
Fixpoint HasPrefix (s prefix : string) {struct prefix} : bool :=
  match prefix, s with
  | "", _ => true
  | String p prefix', String c s' => Ascii.eqb c p && HasPrefix s' prefix'
  | String _ _, "" => false
  end.

(** [strings.HasSuffix(s, suffix)] *)
Definition HasSuffix (s suffix : string) : bool :=
  HasPrefix (String.rev s) (String.rev suffix).

(** [drop_bytes n s] is [s[n:]] and [take_bytes n s] is [s[:n]], both cut
    off at the end of the string. *)
Fixpoint drop_bytes (n : nat) (s : string) : string :=
  match n, s with
  | O, _ => s
  | S n', String _ s' => drop_bytes n' s'
  | S _, "" => ""
  end.

Fixpoint take_bytes (n : nat) (s : string) : string :=
  match n, s with
  | O, _ => ""
  | S n', String c s' => String c (take_bytes n' s')
  | S _, "" => ""
  end.

(** [strings.TrimPrefix(s, prefix)] *)
Definition TrimPrefix (s prefix : string) : string :=
  if HasPrefix s prefix then drop_bytes (String.length prefix) s else s.

(** [s[i:]] and [s[:j]] for indices within the string (every use below
    is behind a guard that keeps the index in range). *)
Definition slice_from (s : string) (i : Z) : string := drop_bytes (Z.to_nat i) s.
Definition slice_to (s : string) (j : Z) : string := take_bytes (Z.to_nat j) s.
Definition slice (s : string) (i j : Z) : string :=
  take_bytes (Z.to_nat (j - i)) (drop_bytes (Z.to_nat i) s).

(** [s[i]]: the byte at index [i]; [None] stands for the run-time panic
    of an index out of range. *)
Fixpoint nth_byte (n : nat) (s : string) : option ascii :=
  match s, n with
  | "", _ => None
  | String c _, O => Some c
  | String _ s', S n' => nth_byte n' s'
  end.

Definition at_index (s : string) (i : Z) : option ascii :=
  if i <? 0 then None else nth_byte (Z.to_nat i) s.

(** [strings.Index(s, substr)]: index of the first occurrence, or -1. *)
Fixpoint index_from (i : Z) (s substr : string) : Z :=
  if HasPrefix s substr then i
  else match s with
       | "" => -1
       | String _ s' => index_from (i + 1) s' substr
       end.

Definition Index (s substr : string) : Z := index_from 0 s substr.

(** [strings.Contains(s, substr)] *)
Definition Contains (s substr : string) : bool := 0 <=? Index s substr.

(** [c] occurs in the cut set. *)
Fixpoint in_cutset (c : ascii) (cutset : string) : bool :=
  match cutset with
  | "" => false
  | String d cutset' => Ascii.eqb c d || in_cutset c cutset'
  end.

(** [strings.TrimLeft(s, cutset)], for a cut set of ASCII characters. *)
Fixpoint TrimLeft (s cutset : string) : string :=
  match s with
  | "" => ""
  | String c s' => if in_cutset c cutset then TrimLeft s' cutset else s
  end.

Definition TrimRight (s cutset : string) : string :=
  String.rev (TrimLeft (String.rev s) cutset).

(** [strings.Trim(s, cutset)] *)
Definition Trim (s cutset : string) : string :=
  TrimRight (TrimLeft s cutset) cutset.

(** The ASCII white space of [unicode.IsSpace]. *)
Definition ascii_space (c : ascii) : bool :=
  Ascii.eqb c TAB || Ascii.eqb c LF || Ascii.eqb c VT || Ascii.eqb c FF
  || Ascii.eqb c CR || Ascii.eqb c SP.

Definition in_range (lo hi : N) (c : ascii) : bool :=
  (N.leb lo (N_of_ascii c) && N.leb (N_of_ascii c) hi)%N.

(** Leading white space is removed rune by rune.  Beyond ASCII,
    [unicode.IsSpace] holds of U+0085, U+00A0, U+1680, U+2000..U+200A,
    U+2028, U+2029, U+202F, U+205F and U+3000; the patterns are their
    UTF-8 encodings. *)
Fixpoint trimLeftSpace (s : string) : string :=
  match s with
  | "" => ""
  | String c s1 =>
      if ascii_space c then trimLeftSpace s1
      else
        match s1 with
        | String d s2 =>
            if Ascii.eqb c "194"
               && (Ascii.eqb d "133" || Ascii.eqb d "160")
            then trimLeftSpace s2
            else
              match s2 with
              | String e s3 =>
                  if (Ascii.eqb c "225" && Ascii.eqb d "154"
                      && Ascii.eqb e "128")
                     || (Ascii.eqb c "226" && Ascii.eqb d "128"
                         && (in_range 128 138 e || Ascii.eqb e "168"
                             || Ascii.eqb e "169" || Ascii.eqb e "175"))
                     || (Ascii.eqb c "226" && Ascii.eqb d "129"
                         && Ascii.eqb e "159")
                     || (Ascii.eqb c "227" && Ascii.eqb d "128"
                         && Ascii.eqb e "128")
                  then trimLeftSpace s3
                  else s
              | "" => s
              end
        | "" => s
        end
  end.

(** The same on the reversed string: the encodings are read backwards. *)
Fixpoint trimLeftSpace_rev (s : string) : string :=
  match s with
  | "" => ""
  | String e s1 =>
      if ascii_space e then trimLeftSpace_rev s1
      else
        match s1 with
        | String d s2 =>
            if Ascii.eqb d "194"
               && (Ascii.eqb e "133" || Ascii.eqb e "160")
            then trimLeftSpace_rev s2
            else
              match s2 with
              | String c s3 =>
                  if (Ascii.eqb c "225" && Ascii.eqb d "154"
                      && Ascii.eqb e "128")
                     || (Ascii.eqb c "226" && Ascii.eqb d "128"
                         && (in_range 128 138 e || Ascii.eqb e "168"
                             || Ascii.eqb e "169" || Ascii.eqb e "175"))
                     || (Ascii.eqb c "226" && Ascii.eqb d "129"
                         && Ascii.eqb e "159")
                     || (Ascii.eqb c "227" && Ascii.eqb d "128"
                         && Ascii.eqb e "128")
                  then trimLeftSpace_rev s3
                  else s
              | "" => s
              end
        | "" => s
        end
  end.

(** [strings.TrimSpace(s)] *)
Definition TrimSpace (s : string) : string :=
  String.rev (trimLeftSpace_rev (String.rev (trimLeftSpace s))).

(** The text before the first separator byte and, when there is one, the
    text after it. *)
Fixpoint cut (sep : ascii) (s : string) : string * option string :=
  match s with
  | "" => ("", None)
  | String c s' =>
      if Ascii.eqb c sep then ("", Some s')
      else let '(before, after) := cut sep s' in (String c before, after)
  end.

(** [strings.SplitN(s, sep, 2)] *)
Definition SplitN_2 (s : string) (sep : ascii) : list string :=
  match cut sep s with
  | (before, Some after) => [before; after]
  | (before, None) => [before]
  end.

(** [strings.Split(s, sep)] for a one-byte separator. *)
Fixpoint Split (s : string) (sep : ascii) : list string :=
  match s with
  | "" => [""]
  | String c s' =>
      if Ascii.eqb c sep then "" :: Split s' sep
      else match Split s' sep with
           | part :: parts => String c part :: parts
           | [] => [String c ""]
           end
  end.

(** [strings.TrimSuffix(s, suffix)] *)
Definition TrimSuffix (s suffix : string) : string :=
  if HasSuffix s suffix
  then take_bytes (String.length s - String.length suffix) s
  else s.

(** [strings.LastIndex(s, substr)]: index of the last occurrence, or -1.
    [found] is the last occurrence before index [i]. *)
Fixpoint last_index_from (i : Z) (s substr : string) (found : Z) : Z :=
  let found := if HasPrefix s substr then i else found in
  match s with
  | "" => found
  | String _ s' => last_index_from (i + 1) s' substr found
  end.

Definition LastIndex (s substr : string) : Z := last_index_from 0 s substr (-1).

(** [strings.SplitN(s, sep, 2)] for a separator of one byte or more: the
    text before the first occurrence and the text after it, or the text
    alone. *)
Definition SplitN_2s (s sep : string) : list string :=
  let i := Index s sep in
  if i <? 0 then [s]
  else [slice_to s i; slice_from s (i + len sep)].

(** [strings.Replace(s, old, new, n)] for an [old] that is not empty: the
    first [n] occurrences, found from the left and not overlapping, are
    replaced; all of them when [n] is negative.  [skip] counts the bytes of
    an occurrence just replaced that are still to be passed. *)
Fixpoint replace_loop (skip : nat) (n : Z) (s old new : string) : string :=
  match s with
  | "" => ""
  | String c s' =>
      match skip with
      | S skip' => replace_loop skip' n s' old new
      | O =>
          if negb (n =? 0) && HasPrefix s old
          then new +:+ replace_loop (String.length old - 1) (n - 1) s' old new
          else String c (replace_loop O n s' old new)
      end
  end.

Definition Replace (s old new : string) (n : Z) : string :=
  replace_loop O n s old new.

(** [strings.ReplaceAll(s, old, new)] *)
Definition ReplaceAll (s old new : string) : string := Replace s old new (-1).

(** [strings.Join(elems, sep)] *)
Fixpoint Join (elems : list string) (sep : string) : string :=
  match elems with
  | [] => ""
  | [e] => e
  | e :: rest => e +:+ sep +:+ Join rest sep
  end.

End gostrings.

(** ** Package strconv *)
Module strconv.

Definition digit (c : ascii) : option Z :=
  if gostrings.in_range 48 57 c then Some (Z.of_N (N_of_ascii c) - 48) else None.

Fixpoint parse_digits (acc : Z) (s : string) : option Z :=
  match s with
  | "" => Some acc
  | String c s' => d ← digit c; parse_digits (10 * acc + d) s'
  end.

(** [strconv.Atoi(s)]: [Some n] when the error is nil.  The text is an
    optional sign and at least one decimal digit, and the number fits the
    64-bit [int]. *)
Definition Atoi (s : string) : option Z :=
  let '(neg, body) :=
    match s with
    | String c rest =>
        if Ascii.eqb c "-" then (true, rest)
        else if Ascii.eqb c "+" then (false, rest)
        else (false, s)
    | "" => (false, s)
    end in
  if String.eqb body "" then None
  else
    n ← parse_digits 0 body;
    let v := if neg : bool then - n else n in
    if (- 2 ^ 63 <=? v) && (v <=? 2 ^ 63 - 1) then Some v else None.

End strconv.

(** ** Package path/filepath (Unix) *)
Module filepath.

(** The text after the last slash of [s], read on the reversed string. *)
Fixpoint until_slash_rev (s : string) (acc : string) : string :=
  match s with
  | "" => acc
  | String c s' => if Ascii.eqb c "/" then acc else until_slash_rev s' (String c acc)
  end.

(** [filepath.Base(path)]: the last element of the path.  Trailing slashes
    are removed first; the empty path gives ["."], a path of slashes only
    gives ["/"]. *)
Definition Base (path : string) : string :=
  if String.eqb path "" then "."
  else
    let stripped := gostrings.TrimLeft (String.rev path) "/" in
    let last := until_slash_rev stripped "" in
    if String.eqb last "" then "/" else last.

End filepath.

(** ** Package fmt: the verbs the code uses *)
Module fmt.

(** What a [%d], [%s] or [%v] is applied to: an [interface{}] holding nil, a
    string or an integer. *)
Inductive any :=
  | AnyNil
  | AnyString (s : string)
  | AnyInt (n : Z).

(** [%d] of an [int]. *)
Definition verb_d (n : Z) : string := pretty n.

(** [%02d] of an [int]: at least two characters, padded with zeros after
    the sign. *)
Definition verb_02d (n : Z) : string :=
  if (0 <=? n) && (n <? 10) then "0" +:+ pretty n
  else if (-10 <? n) && (n <? 0) then "-0" +:+ pretty (- n)
  else pretty n.

(** [%s] of an [interface{}]. *)
Definition verb_s (a : any) : string :=
  match a with
  | AnyNil => "%!s(<nil>)"
  | AnyString s => s
  | AnyInt n => "%!s(int=" +:+ pretty n +:+ ")"
  end.

(** [%v] of an [interface{}]. *)
Definition verb_v (a : any) : string :=
  match a with
  | AnyNil => "<nil>"
  | AnyString s => s
  | AnyInt n => pretty n
  end.

End fmt.

(** ** encoding/json: the values [json.Unmarshal] stores in an [interface{}] *)
Module json.

#[warnings="-register-all"]
Inductive value :=
  | Nil
  | Bool (b : bool)
  | Float64 (bits : Z)
  | String_ (s : string)
  | Array (items : list value)
  | Object (fields : gmap string value).

(** [v != nil] *)
Definition not_nil (v : option value) : bool :=
  match v with
  | Some Nil | None => false
  | Some _ => true
  end.

(** [v.(string)] with its ok flag folded into the option. *)
Definition as_string (v : option value) : option string :=
  match v with
  | Some (String_ s) => Some s
  | _ => None
  end.

(** [%T] of a value other than nil. *)
Definition type_name (v : value) : string :=
  match v with
  | Nil => "<nil>"
  | Bool _ => "bool"
  | Float64 _ => "float64"
  | String_ _ => "string"
  | Array _ => "[]interface {}"
  | Object _ => "map[string]interface {}"
  end.

End json.

(** ** Package protocol (go.lsp.dev/protocol): the data the code reads *)
Module protocol.

(** [protocol.Position]: both fields are [uint32]. *)
Record Position := { Line : Z; Character : Z }.

Record Range := { Start : Position; End_ : Position }.

Inductive DiagnosticSeverity :=
  | DiagnosticSeverityError
  | DiagnosticSeverityWarning
  | DiagnosticSeverityInformation
  | DiagnosticSeverityHint.

Record Diagnostic := {
  Range_ : Range;
  Severity : DiagnosticSeverity;
  Message : string;
  Source : string;
  Code : string
}.

Inductive CompletionItemKind :=
  | CompletionItemKindNone
  | CompletionItemKindKeyword
  | CompletionItemKindProperty
  | CompletionItemKindModule
  | CompletionItemKindSnippet.

Inductive InsertTextFormat :=
  | InsertTextFormatNone
  | InsertTextFormatSnippet.

(** [protocol.CompletionItem], with the fields the server fills in.
    [Documentation] holds the value of the Markdown content ([None] for a
    nil pointer). *)
Record CompletionItem := {
  Label : string;
  Kind : CompletionItemKind;
  Detail : string;
  Documentation : option string;
  InsertText : string;
  InsertTextFormat_ : InsertTextFormat;
  FilterText : string;
  SortText : string
}.

(** [protocol.ParameterInformation] and [protocol.SignatureInformation];
    [Documentation] holds the value of the Markdown content. *)
Record ParameterInformation := {
  ParameterLabel : string;
  ParameterDocumentation : string
}.

Record SignatureInformation := {
  SignatureLabel : string;
  SignatureDocumentation : string;
  Parameters : list ParameterInformation
}.

Record SignatureHelp := {
  Signatures : list SignatureInformation;
  ActiveSignature : Z;
  ActiveParameter : Z
}.

Record Location := {
  LocationURI : string;
  LocationRange : Range
}.

Record TextEdit := {
  EditRange : Range;
  NewText : string
}.

Inductive CodeActionKind :=
  | QuickFix
  | Refactor
  | RefactorRewrite.

(** [protocol.CodeAction]: [Edit] holds the field [Changes] of the
    workspace edit, [None] for a nil pointer. *)
Record CodeAction := {
  Title : string;
  ActionKind : CodeActionKind;
  Edit : option (gmap string (list TextEdit))
}.

Inductive SymbolKind :=
  | SymbolKindObject
  | SymbolKindArray
  | SymbolKindEvent
  | SymbolKindString
  | SymbolKindNumber.

#[warnings="-register-all"]
Inductive DocumentSymbol :=
  | Build_DocumentSymbol (name : string) (kind : SymbolKind)
      (range selectionRange : Range) (detail : string)
      (children : list DocumentSymbol).

Definition SymbolName (d : DocumentSymbol) : string :=
  let 'Build_DocumentSymbol name _ _ _ _ _ := d in name.
Definition SymbolKind_ (d : DocumentSymbol) : SymbolKind :=
  let 'Build_DocumentSymbol _ kind _ _ _ _ := d in kind.
Definition SymbolRange (d : DocumentSymbol) : Range :=
  let 'Build_DocumentSymbol _ _ range _ _ _ := d in range.
Definition SelectionRange (d : DocumentSymbol) : Range :=
  let 'Build_DocumentSymbol _ _ _ selectionRange _ _ := d in selectionRange.
Definition SymbolDetail (d : DocumentSymbol) : string :=
  let 'Build_DocumentSymbol _ _ _ _ detail _ := d in detail.
Definition Children (d : DocumentSymbol) : list DocumentSymbol :=
  let 'Build_DocumentSymbol _ _ _ _ _ children := d in children.

End protocol.

(** ** internal/context: the context analyzer *)
Module bkcontext.
Import gostrings.

Inductive CompletionContext :=
  | ContextUnknown
  | ContextTopLevel
  | ContextStep
  | ContextPlugins
  | ContextPluginConfig.

#[global] Instance CompletionContext_eq_dec : EqDecision CompletionContext.
Proof. solve_decision. Defined.

Module ContextInfo.
Record t := {
  Type_ : CompletionContext;
  IndentLevel : Z;
  InArray : bool;
  ArrayContext : string;
  ParentKeys : list string;
  CurrentKey : string;
  PluginName : string;
  NearestStepIndex : Z
}.

Definition set_Type (c : t) (v : CompletionContext) : t :=
  {| Type_ := v; IndentLevel := IndentLevel c; InArray := InArray c;
     ArrayContext := ArrayContext c; ParentKeys := ParentKeys c;
     CurrentKey := CurrentKey c; PluginName := PluginName c;
     NearestStepIndex := NearestStepIndex c |}.

Definition set_IndentLevel (c : t) (v : Z) : t :=
  {| Type_ := Type_ c; IndentLevel := v; InArray := InArray c;
     ArrayContext := ArrayContext c; ParentKeys := ParentKeys c;
     CurrentKey := CurrentKey c; PluginName := PluginName c;
     NearestStepIndex := NearestStepIndex c |}.

Definition set_InArray (c : t) (v : bool) : t :=
  {| Type_ := Type_ c; IndentLevel := IndentLevel c; InArray := v;
     ArrayContext := ArrayContext c; ParentKeys := ParentKeys c;
     CurrentKey := CurrentKey c; PluginName := PluginName c;
     NearestStepIndex := NearestStepIndex c |}.

Definition set_ArrayContext (c : t) (v : string) : t :=
  {| Type_ := Type_ c; IndentLevel := IndentLevel c; InArray := InArray c;
     ArrayContext := v; ParentKeys := ParentKeys c;
     CurrentKey := CurrentKey c; PluginName := PluginName c;
     NearestStepIndex := NearestStepIndex c |}.

Definition set_ParentKeys (c : t) (v : list string) : t :=
  {| Type_ := Type_ c; IndentLevel := IndentLevel c; InArray := InArray c;
     ArrayContext := ArrayContext c; ParentKeys := v;
     CurrentKey := CurrentKey c; PluginName := PluginName c;
     NearestStepIndex := NearestStepIndex c |}.

Definition set_PluginName (c : t) (v : string) : t :=
  {| Type_ := Type_ c; IndentLevel := IndentLevel c; InArray := InArray c;
     ArrayContext := ArrayContext c; ParentKeys := ParentKeys c;
     CurrentKey := CurrentKey c; PluginName := v;
     NearestStepIndex := NearestStepIndex c |}.

Definition set_NearestStepIndex (c : t) (v : Z) : t :=
  {| Type_ := Type_ c; IndentLevel := IndentLevel c; InArray := InArray c;
     ArrayContext := ArrayContext c; ParentKeys := ParentKeys c;
     CurrentKey := CurrentKey c; PluginName := PluginName c;
     NearestStepIndex := v |}.
End ContextInfo.

Module PositionContext.
Record t := {
  URI : string;
  Position : protocol.Position;
  CurrentLine : string;
  CharIndex : Z;
  ContextLines : list string;
  FullContent : string
}.
End PositionContext.

Module KeyInfo.
Record t := {
  Key : string;
  IndentLevel : Z;
  IsArray : bool;
  HasValue : bool
}.
End KeyInfo.

(** [getIndentLevel]: a space counts 1 and a tab 2; the first other
    character ends the count. *)
Fixpoint getIndentLevel_from (indent : Z) (line : string) : Z :=
  match line with
  | "" => indent
  | String char rest =>
      if Ascii.eqb char SP then getIndentLevel_from (indent + 1) rest
      else if Ascii.eqb char TAB then getIndentLevel_from (indent + 2) rest
      else indent
  end.

Definition getIndentLevel (line : string) : Z := getIndentLevel_from 0 line.

(** [popKeysAtOrAboveIndent]: keeps, in order, the keys indented less than
    [indent]. *)
Fixpoint popKeysAtOrAboveIndent (keyStack : list KeyInfo.t) (indent : Z)
  : list KeyInfo.t :=
  match keyStack with
  | [] => []
  | key :: keys =>
      if KeyInfo.IndentLevel key <? indent
      then key :: popKeysAtOrAboveIndent keys indent
      else popKeysAtOrAboveIndent keys indent
  end.

(** The [KeyInfo] both branches of [parseKeyFromLine] build from the text
    around the first colon. *)
Definition keyInfoAtColon (content : string) (colonIndex indent : Z)
  : KeyInfo.t :=
  let key := TrimSpace (slice_to content colonIndex) in
  let afterColon := TrimSpace (slice_from content (colonIndex + 1)) in
  {| KeyInfo.Key := key;
     KeyInfo.IndentLevel := indent;
     KeyInfo.IsArray := String.eqb afterColon "" || String.eqb afterColon "[]";
     KeyInfo.HasValue :=
       negb (String.eqb afterColon "") && negb (String.eqb afterColon "[]") |}.

(** [parseKeyFromLine]: [None] is the nil result. *)
Definition parseKeyFromLine (line : string) (indent : Z) : option KeyInfo.t :=
  let trimmed := TrimSpace line in
  if HasPrefix trimmed "- " then
    let arrayItemContent := TrimSpace (slice_from trimmed 2) in
    let colonIndex := Index arrayItemContent ":" in
    if negb (colonIndex =? -1)
    then Some (keyInfoAtColon arrayItemContent colonIndex indent)
    else None
  else
    let colonIndex := Index trimmed ":" in
    if negb (colonIndex =? -1)
    then Some (keyInfoAtColon trimmed colonIndex indent)
    else None.

(** The downward loop of [determineContextFromStack]: [scanStack n] looks at
    the indices [n-1], ..., [0].  The outer [option] is [None] for an index
    out of range (a panic); the inner one is [None] when the loop ends
    without returning. *)
Fixpoint scanStack (n : nat) (context : ContextInfo.t)
    (keyStack : list KeyInfo.t) : option (option ContextInfo.t) :=
  match n with
  | O => Some None
  | S i =>
      key ← keyStack !! i;
      if String.eqb (KeyInfo.Key key) "plugins" then
        let context := ContextInfo.set_Type context ContextPlugins in
        let context := ContextInfo.set_InArray context true in
        let context := ContextInfo.set_ArrayContext context "plugins" in
        if (Z.of_nat i <? Z.of_nat (length keyStack) - 1) then
          let context := ContextInfo.set_Type context ContextPluginConfig in
          next ← keyStack !! S i;
          Some (Some (ContextInfo.set_PluginName context (KeyInfo.Key next)))
        else Some (Some context)
      else if String.eqb (KeyInfo.Key key) "steps" then
        Some (Some (ContextInfo.set_Type context ContextStep))
      else scanStack i context keyStack
  end.

(** [determineContextFromStack] *)
Definition determineContextFromStack (context : ContextInfo.t)
    (keyStack : list KeyInfo.t) (currentLine : string) (charIndex : Z)
  : option ContextInfo.t :=
  let context := ContextInfo.set_ParentKeys context (KeyInfo.Key <$> keyStack) in
  if Z.of_nat (length keyStack) =? 0 then
    Some (ContextInfo.set_Type context ContextTopLevel)
  else
    found ← scanStack (length keyStack) context keyStack;
    match found with
    | Some context => Some context
    | None =>
        if Z.of_nat (length keyStack) <=? 1
        then Some (ContextInfo.set_Type context ContextTopLevel)
        else Some (ContextInfo.set_Type context ContextStep)
    end.

(** The body of the loop of [analyzeYAMLStructure] over the lines; the line
    is the current one when no line follows it. *)
Fixpoint analyzeLines (lines : list string) (currentLine : string)
    (charIndex : Z) (context : ContextInfo.t) (keyStack : list KeyInfo.t)
  : option ContextInfo.t :=
  match lines with
  | [] => Some context
  | line :: rest =>
      let isCurrentLine := match rest with [] => true | _ => false end in
      let trimmed := TrimSpace line in
      if (String.eqb trimmed "" || HasPrefix trimmed "#") && negb isCurrentLine
      then analyzeLines rest currentLine charIndex context keyStack
      else
        let indent := getIndentLevel line in
        let keyStack := popKeysAtOrAboveIndent keyStack indent in
        let '(context, keyStack) :=
          if isCurrentLine
          then (ContextInfo.set_IndentLevel context indent, keyStack)
          else
            match parseKeyFromLine line indent with
            | Some keyInfo =>
                (if String.eqb (KeyInfo.Key keyInfo) "steps"
                    && KeyInfo.IsArray keyInfo
                 then ContextInfo.set_NearestStepIndex context 0
                 else context,
                 keyStack ++ [keyInfo])
            | None => (context, keyStack)
            end in
        context ←
          (if Contains trimmed "- " && (0 <? Z.of_nat (length keyStack)) then
             lastKey ← keyStack !! (length keyStack - 1)%nat;
             if String.eqb (KeyInfo.Key lastKey) "steps"
             then Some (ContextInfo.set_NearestStepIndex context
                          (ContextInfo.NearestStepIndex context + 1))
             else Some context
           else Some context);
        context ←
          (if isCurrentLine
           then determineContextFromStack context keyStack currentLine charIndex
           else Some context);
        analyzeLines rest currentLine charIndex context keyStack
  end.

(** [analyzeYAMLStructure] *)
Definition analyzeYAMLStructure (lines : list string) (currentLine : string)
    (charIndex : Z) : option ContextInfo.t :=
  let context :=
    {| ContextInfo.Type_ := ContextUnknown;
       ContextInfo.IndentLevel := 0;
       ContextInfo.InArray := false;
       ContextInfo.ArrayContext := "";
       ContextInfo.ParentKeys := [];
       ContextInfo.CurrentKey := "";
       ContextInfo.PluginName := "";
       ContextInfo.NearestStepIndex := -1 |} in
  analyzeLines lines currentLine charIndex context [].

(** [AnalyzeContext]: the argument is [None] for a nil pointer; the result is
    [None] if the analysis panics. *)
Definition AnalyzeContext (posCtx : option PositionContext.t)
  : option ContextInfo.t :=
  match posCtx with
  | None =>
      Some {| ContextInfo.Type_ := ContextUnknown;
              ContextInfo.IndentLevel := 0;
              ContextInfo.InArray := false;
              ContextInfo.ArrayContext := "";
              ContextInfo.ParentKeys := [];
              ContextInfo.CurrentKey := "";
              ContextInfo.PluginName := "";
              ContextInfo.NearestStepIndex := 0 |}
  | Some posCtx =>
      analyzeYAMLStructure (PositionContext.ContextLines posCtx)
        (PositionContext.CurrentLine posCtx)
        (PositionContext.CharIndex posCtx)
  end.

(** [IsInPluginsArray], [IsAtTopLevel], [IsInStepContext] *)
Definition IsInPluginsArray (info : ContextInfo.t) : bool :=
  bool_decide (ContextInfo.Type_ info = ContextPlugins).

Definition IsAtTopLevel (info : ContextInfo.t) : bool :=
  bool_decide (ContextInfo.Type_ info = ContextTopLevel).

Definition IsInStepContext (info : ContextInfo.t) : bool :=
  bool_decide (ContextInfo.Type_ info = ContextStep).

(** [GetKeyPath] *)
Definition GetKeyPath (info : ContextInfo.t) : string :=
  if Z.of_nat (length (ContextInfo.ParentKeys info)) =? 0 then ""
  else Join (ContextInfo.ParentKeys info) ".".

End bkcontext.

(** ** gopkg.in/yaml.v3: what the code reads of it *)
Module yaml.

(** The values [yaml.Unmarshal] stores in an [interface{}] for a document
    whose mapping keys are strings: an integer is an [int], a number with a
    fraction a [float64]. *)
#[warnings="-register-all"]
Inductive value :=
  | Nil
  | Bool (b : bool)
  | Int (n : Z)
  | Float64 (bits : Z)
  | String_ (s : string)
  | Array (items : list value)
  | Object (fields : gmap string value).

Inductive Kind :=
  | DocumentNode
  | SequenceNode
  | MappingNode
  | ScalarNode
  | AliasNode.

#[global] Instance Kind_eq_dec : EqDecision Kind.
Proof. solve_decision. Defined.

(** [yaml.Node]: the fields the parser package reads.  [Content] holds the
    children; in a mapping node they are key, value, key, value, ... *)
#[warnings="-register-all"]
Inductive Node :=
  | Build_Node (kind : Kind) (value : string) (content : list Node).

Definition Kind_ (n : Node) : Kind := let 'Build_Node k _ _ := n in k.
Definition Value (n : Node) : string := let 'Build_Node _ v _ := n in v.
Definition Content (n : Node) : list Node := let 'Build_Node _ _ c := n in c.

End yaml.

(** ** internal/parser: the parsed pipeline *)
Module parser.
Import gostrings.

(** [Pipeline]: [YAMLNode] is [None] for a nil pointer. *)
Module Pipeline.
Record t := {
  Content : string;
  JSONBytes : string;
  YAMLNode : option yaml.Node
}.
End Pipeline.

(** [findNodeRecursive].  The outer [option] is [None] for an index out of
    range (a panic); the inner one is [None] for the nil result.  The inner
    loop takes the children two by two: a key and its value. *)
Fixpoint findNodeRecursive (node : yaml.Node) (path : list string) (depth : Z)
    {struct node} : option (option yaml.Node) :=
  if Z.of_nat (length path) <=? depth then Some (Some node)
  else
    match node with
    | yaml.Build_Node kind _ content =>
        if negb (bool_decide (kind = yaml.MappingNode)) then Some None
        else
          if depth <? 0 then None
          else
            target ← path !! Z.to_nat depth;
            (fix pairs (content : list yaml.Node)
               : option (option yaml.Node) :=
               match content with
               | key :: value :: rest =>
                   if String.eqb (yaml.Value key) target
                   then findNodeRecursive value path (depth + 1)
                   else pairs rest
               | _ => Some None
               end) content
    end.

(** [FindNodeByPath] *)
Definition FindNodeByPath (p : Pipeline.t) (path : list string)
  : option (option yaml.Node) :=
  match Pipeline.YAMLNode p with
  | None => Some None
  | Some root =>
      if Z.of_nat (length (yaml.Content root)) =? 0 then Some None
      else
        first ← yaml.Content root !! 0%nat;
        findNodeRecursive first path 0
  end.

(** The slice literal [invalidPatterns] of [GetLineForError]. *)
Definition invalidPatterns : list string :=
  [ "invalid_field"; "unknown_property"; "bad_field" ].

(** The loop over the lines from index [i] on: the number, counted from 1,
    of the first line in which [test] holds. *)
Fixpoint firstLine (test : string → bool) (lines : list string) (i : Z)
  : option Z :=
  match lines with
  | [] => None
  | line :: rest =>
      if test line then Some (i + 1) else firstLine test rest (i + 1)
  end.

(** The outer loop over the patterns. *)
Fixpoint firstPattern (patterns lines : list string) : option Z :=
  match patterns with
  | [] => None
  | pattern :: rest =>
      match firstLine (λ line, Contains line pattern) lines 0 with
      | Some n => Some n
      | None => firstPattern rest lines
      end
  end.

(** [GetLineForError] *)
Definition GetLineForError (p : Pipeline.t) (errorMsg : string) : Z :=
  let lines := Split (Pipeline.Content p) LF in
  match firstPattern invalidPatterns lines with
  | Some n => n
  | None =>
      if Contains errorMsg "evaluation failed" then
        match firstLine
                (λ line, Contains (TrimSpace line) "invalid_field:") lines 0 with
        | Some n => n
        | None => 1
        end
      else 1
  end.

Section Parse.

(** The two calls of [yaml.Unmarshal], into a node and into an
    [interface{}], and [json.Marshal] are inputs ([inl] is the error). *)
Variable unmarshalNode : string → string + yaml.Node.
Variable unmarshalData : string → string + yaml.value.
Variable marshal : yaml.value → string + string.

(** [ParseYAML]: [inl] is the error. *)
Definition ParseYAML (content : string) : string + Pipeline.t :=
  match unmarshalNode content with
  | inl err => inl ("failed to parse YAML: " +:+ err)
  | inr yamlNode =>
      match unmarshalData content with
      | inl err => inl ("failed to parse YAML data: " +:+ err)
      | inr yamlData =>
          match marshal yamlData with
          | inl err => inl ("failed to convert YAML to JSON: " +:+ err)
          | inr jsonBytes =>
              inr {| Pipeline.Content := content;
                     Pipeline.JSONBytes := jsonBytes;
                     Pipeline.YAMLNode := Some yamlNode |}
          end
      end
  end.

End Parse.

End parser.

(** ** internal/schema: the primary validation error *)
Module schema.
Import gostrings.

(** [gojsonschema.ResultError], by what its methods return.  [Details]
    holds the values the messages print. *)
Module ResultError.
Record t := {
  Type_ : string;
  Field : string;
  Description : string;
  Details : gmap string fmt.any
}.
End ResultError.

(** [gojsonschema.Result]: the errors found; the result is valid when
    there is none (the library's [Valid] is [len(v.errors) == 0]). *)
Module Result.
Record t := {
  Errors : list ResultError.t
}.

Definition Valid (result : t) : bool :=
  Z.of_nat (length (Errors result)) =? 0.
End Result.

Module ValidationError.
Record t := {
  Message : string;
  Path : string;
  Line : Z
}.
End ValidationError.

(** The map literal [errorPriority] of [ValidateJSON]. *)
Definition errorPriority : gmap string Z :=
  list_to_map
    [ ("additional_property_not_allowed", 1);
      ("required", 2);
      ("invalid_type", 3);
      ("enum", 4);
      ("string_gte", 5);
      ("string_lte", 6);
      ("array_min_items", 7);
      ("array_max_items", 8);
      ("number_gte", 9);
      ("number_lte", 10) ].

(** The loop of [ValidateJSON] over [result.Errors()]. *)
Fixpoint selectBest (errs : list ResultError.t) (bestError : ResultError.t)
    (highestPriority : Z) : ResultError.t * Z :=
  match errs with
  | [] => (bestError, highestPriority)
  | err :: rest =>
      match errorPriority !! ResultError.Type_ err with
      | Some priority =>
          if priority <? highestPriority
          then selectBest rest err priority
          else selectBest rest bestError highestPriority
      | None => selectBest rest bestError highestPriority
      end
  end.

(** [bestError] once the loop is over; [None] when there is no error to
    start from. *)
Definition primaryError (errs : list ResultError.t) : option ResultError.t :=
  first ← errs !! 0%nat;
  Some (fst (selectBest errs first 999)).

(** [isNumeric] *)
Fixpoint all_digits (s : string) : bool :=
  match s with
  | "" => true
  | String char rest =>
      if (N_of_ascii char <? 48)%N || (57 <? N_of_ascii char)%N
      then false
      else all_digits rest
  end.

Definition isNumeric (s : string) : bool :=
  if String.eqb s "" then false else all_digits s.

(** The backward loop of [extractFieldName], on the reversed list of
    parts. *)
Fixpoint lastNonNumeric (rev_parts : list string) : option string :=
  match rev_parts with
  | [] => None
  | part :: rest => if negb (isNumeric part) then Some part else lastNonNumeric rest
  end.

(** [extractFieldName] *)
Definition extractFieldName (fieldPath : string) : string :=
  let parts := Split fieldPath "." in
  match lastNonNumeric (rev parts) with
  | Some part => part
  | None => fieldPath
  end.

(** [extractPropertyFromDescription] *)
Definition extractPropertyFromDescription (description : string) : string :=
  if Contains description "Additional property "
     && Contains description " is not allowed"
  then
    let start := Index description "Additional property "
                 + len "Additional property " in
    let end_ := Index description " is not allowed" in
    if (start <? end_) && (end_ >? start)
    then slice description start end_
    else ""
  else "".

Definition detail (err : ResultError.t) (key : string) : fmt.any :=
  default fmt.AnyNil (ResultError.Details err !! key).

(** [friendlyErrorMessage] *)
Definition friendlyErrorMessage (err : ResultError.t) : string :=
  let ty := ResultError.Type_ err in
  let name := extractFieldName (ResultError.Field err) in
  if String.eqb ty "additional_property_not_allowed" then
    let propertyName :=
      extractPropertyFromDescription (ResultError.Description err) in
    if negb (String.eqb propertyName "")
    then "Unknown property '" +:+ propertyName +:+ "' is not allowed"
    else ResultError.Description err
  else if String.eqb ty "required" then
    "Missing required property '" +:+ ResultError.Field err +:+ "'"
  else if String.eqb ty "invalid_type" then
    "Property '" +:+ name +:+ "' has wrong type (expected "
      +:+ fmt.verb_s (detail err "expected") +:+ ")"
  else if String.eqb ty "enum" then
    "Property '" +:+ name +:+ "' must be one of: "
      +:+ fmt.verb_v (detail err "allowed")
  else if String.eqb ty "string_gte" then
    "Property '" +:+ name +:+ "' is too short (minimum "
      +:+ fmt.verb_v (detail err "min") +:+ " characters)"
  else if String.eqb ty "string_lte" then
    "Property '" +:+ name +:+ "' is too long (maximum "
      +:+ fmt.verb_v (detail err "max") +:+ " characters)"
  else if String.eqb ty "array_min_items" then
    "Array '" +:+ name +:+ "' needs at least "
      +:+ fmt.verb_v (detail err "min") +:+ " items"
  else if String.eqb ty "array_max_items" then
    "Array '" +:+ name +:+ "' can have at most "
      +:+ fmt.verb_v (detail err "max") +:+ " items"
  else ResultError.Description err.

(** What [GetSchemaData] and [gojsonschema.Validate] hand to
    [ValidateJSON]: an error from either, or the validation result. *)
Inductive validation :=
  | SchemaError (err : string)
  | ValidateError (err : string)
  | Validated (result : Result.t).

(** [ValidateJSON], after the two library calls.  [inl] is the error
    result; [inr None] is the pair of nils. *)
Definition ValidateJSON (v : validation)
  : string + option ValidationError.t :=
  match v with
  | SchemaError err => inl ("failed to get schema: " +:+ err)
  | ValidateError err => inl ("validation failed: " +:+ err)
  | Validated result =>
      if negb (Result.Valid result)
         && (0 <? Z.of_nat (length (Result.Errors result)))
      then
        match primaryError (Result.Errors result) with
        | Some bestError =>
            inr (Some {| ValidationError.Message := friendlyErrorMessage bestError;
                         ValidationError.Path := ResultError.Field bestError;
                         ValidationError.Line := 1 |})
        | None => inr None
        end
      else inr None
  end.

End schema.

(** ** internal/plugins: plugin references and the popular plugins *)
Module plugins.
Import gostrings.

Module PopularPlugin.
Record t := {
  Name : string;
  Version : string;
  Description : string
}.
End PopularPlugin.

(** [GetPopularPlugins] *)
Definition GetPopularPlugins : list PopularPlugin.t :=
  [ PopularPlugin.Build_t "docker" "v5.13.0" "Run build steps in Docker containers";
    PopularPlugin.Build_t "docker-compose" "v5.10.0" "Run build steps with Docker Compose";
    PopularPlugin.Build_t "cache" "v1.7.0" "Cache files between builds";
    PopularPlugin.Build_t "artifacts" "v1.9.4" "Upload and download build artifacts";
    PopularPlugin.Build_t "test-collector" "v1.11.0" "Collect and analyze test results";
    PopularPlugin.Build_t "junit-annotate" "v2.7.0" "Annotate builds with JUnit test results";
    PopularPlugin.Build_t "shellcheck" "v1.4.0" "Run ShellCheck on shell scripts";
    PopularPlugin.Build_t "ecr" "v2.10.0" "Build and push Docker images to AWS ECR";
    PopularPlugin.Build_t "monorepo-diff" "v1.5.1" "Skip builds for unchanged parts of monorepos";
    PopularPlugin.Build_t "plugin-linter" "v3.3.0" "Lint Buildkite plugins";
    PopularPlugin.Build_t "docker-login" "v3.0.0" "Log in to Docker registries" ].

Module ParsedPluginRef.
Record t := {
  Org : string;
  Name : string;
  Version : string;
  FullRef : string
}.
End ParsedPluginRef.

(** [ParsePluginReference].  The outer [option] is [None] for an index out
    of range (a panic); the inner one is [None] for the nil result. *)
Definition ParsePluginReference (ref : string)
  : option (option ParsedPluginRef.t) :=
  if String.eqb ref "" then Some None
  else
    let parts := SplitN_2 ref "#" in
    pluginPart ← parts !! 0%nat;
    version ← (if Z.of_nat (length parts) =? 2
               then parts !! 1%nat
               else Some "latest");
    '(org, name) ←
      (if Contains pluginPart "/" then
         let orgParts := SplitN_2 pluginPart "/" in
         org ← orgParts !! 0%nat;
         name ← orgParts !! 1%nat;
         Some (org, name)
       else Some ("buildkite-plugins", pluginPart));
    Some (Some {| ParsedPluginRef.Org := org;
                  ParsedPluginRef.Name := name;
                  ParsedPluginRef.Version := version;
                  ParsedPluginRef.FullRef := ref |}).

(** [GetRepositoryURL] *)
Definition GetRepositoryURL (p : ParsedPluginRef.t) : string :=
  "https://github.com/" +:+ ParsedPluginRef.Org p +:+ "/"
    +:+ ParsedPluginRef.Name p +:+ "-buildkite-plugin".

(** [GetAllSchemaURLs] *)
Definition GetAllSchemaURLs (p : ParsedPluginRef.t) : list string :=
  [ "https://raw.githubusercontent.com/" +:+ ParsedPluginRef.Org p +:+ "/"
      +:+ ParsedPluginRef.Name p +:+ "-buildkite-plugin/"
      +:+ ParsedPluginRef.Version p +:+ "/plugin.yml";
    "https://raw.githubusercontent.com/" +:+ ParsedPluginRef.Org p +:+ "/"
      +:+ ParsedPluginRef.Name p +:+ "-buildkite-plugin/main/plugin.yml";
    "https://raw.githubusercontent.com/" +:+ ParsedPluginRef.Org p +:+ "/"
      +:+ ParsedPluginRef.Name p +:+ "-buildkite-plugin/master/plugin.yml" ].

(** [GetSchemaURL]: the first of the three. *)
Definition GetSchemaURL (p : ParsedPluginRef.t) : option string :=
  GetAllSchemaURLs p !! 0%nat.

(** *** The registry and its cache *)

(** [PluginSchema]: [Configuration] and [SchemaData] are [None] when
    nil. *)
Module PluginSchema.
Record t := {
  Name : string;
  Description : string;
  Author : string;
  Requirements : list string;
  Configuration : option (gmap string yaml.value);
  SchemaData : option string
}.
End PluginSchema.

(** [CachedPluginSchema].  A [time.Time] is an instant on the time line,
    a [time.Duration] a difference of instants, both in nanoseconds.
    [Schema] is [None] for a nil pointer. *)
Module CachedPluginSchema.
Record t := {
  Schema : option PluginSchema.t;
  CachedAt : Z;
  ExpiresAt : Z
}.
End CachedPluginSchema.

(** [IsExpired]: [now] is what [time.Now()] returns in the call. *)
Definition IsExpired (c : CachedPluginSchema.t) (now : Z) : bool :=
  CachedPluginSchema.ExpiresAt c <? now.

(** [Registry]: the fields under the lock. *)
Module Registry.
Record t := {
  plugins : gmap string CachedPluginSchema.t;
  cacheTTL : Z;
  maxRetries : Z
}.
End Registry.

Definition Hour : Z := 3600 * 1000000000.

(** [NewRegistry] and [NewRegistryWithTTL] *)
Definition NewRegistry : Registry.t :=
  {| Registry.plugins := ∅;
     Registry.cacheTTL := 24 * Hour;
     Registry.maxRetries := 3 |}.

Definition NewRegistryWithTTL (ttl : Z) : Registry.t :=
  {| Registry.plugins := ∅;
     Registry.cacheTTL := ttl;
     Registry.maxRetries := 3 |}.

(** What the calls of one round of the loop of [fetchPluginSchema] come
    to for a URL: an error of [http.Get], a status other than 200, an
    error of [io.ReadAll] or of [yaml.Unmarshal], or the schema decoded
    from the body. *)
Inductive response :=
  | GetError (err : string)
  | BadStatus (code : Z)
  | ReadError (err : string)
  | UnmarshalError (err : string)
  | Decoded (schema : PluginSchema.t).

(** [PluginReference] *)
Module PluginReference.
Record t := {
  Name : string;
  Config : json.value
}.
End PluginReference.

(** [ParsePluginFromStep].  Go leaves open the order in which the keys of
    a map are visited; the model takes them in the order of
    [map_to_list]. *)
Definition ParsePluginFromStep (stepData : gmap string json.value)
  : list PluginReference.t :=
  match stepData !! "plugins" with
  | Some (json.Array pluginsList) =>
      pluginsList ≫= λ pluginItem,
        match pluginItem with
        | json.Object pluginMap =>
            (λ entry, {| PluginReference.Name := entry.1;
                         PluginReference.Config := entry.2 |})
              <$> map_to_list pluginMap
        | _ => []
        end
  | _ => []
  end.

Section RegistryCalls.

(** The network and the two libraries are inputs: what the requests for a
    URL come to, [json.Marshal] of a schema's configuration and of a
    plugin's configuration, and [gojsonschema.Validate] on the two JSON
    texts ([inl] is the error). *)
Variable httpGet : string → response.
Variable marshalConfiguration : gmap string yaml.value → string + string.
Variable marshalConfig : json.value → string + string.
Variable validate : string → string → string + schema.Result.t.

(** The loop of [fetchPluginSchema] over the URLs; [lastErr] is the text
    of the last error, [None] while it is nil. *)
Fixpoint fetchFrom (urls : list string) (lastErr : option string)
  : option string + PluginSchema.t :=
  match urls with
  | [] => inl lastErr
  | url :: rest =>
      match httpGet url with
      | GetError err => fetchFrom rest (Some err)
      | BadStatus code =>
          fetchFrom rest (Some ("HTTP " +:+ fmt.verb_d code +:+ " from " +:+ url))
      | ReadError err => fetchFrom rest (Some err)
      | UnmarshalError err => fetchFrom rest (Some err)
      | Decoded schema =>
          match PluginSchema.Configuration schema with
          | Some configuration =>
              match marshalConfiguration configuration with
              | inl err => fetchFrom rest (Some err)
              | inr configJSON =>
                  inr {| PluginSchema.Name := PluginSchema.Name schema;
                         PluginSchema.Description := PluginSchema.Description schema;
                         PluginSchema.Author := PluginSchema.Author schema;
                         PluginSchema.Requirements := PluginSchema.Requirements schema;
                         PluginSchema.Configuration := PluginSchema.Configuration schema;
                         PluginSchema.SchemaData := Some configJSON |}
              end
          | None => inr schema
          end
      end
  end.

(** [fetchPluginSchema]: [None] is a panic, [inl] the error. *)
Definition fetchPluginSchema (pluginName : string)
  : option (string + PluginSchema.t) :=
  parsed ← ParsePluginReference pluginName;
  match parsed with
  | None => Some (inl ("invalid plugin reference: " +:+ pluginName))
  | Some parsed =>
      match fetchFrom (GetAllSchemaURLs parsed) None with
      | inr schema => Some (inr schema)
      | inl lastErr =>
          Some (inl ("failed to fetch plugin schema for " +:+ pluginName
                     +:+ " (org: " +:+ ParsedPluginRef.Org parsed
                     +:+ ", name: " +:+ ParsedPluginRef.Name parsed
                     +:+ ", version: " +:+ ParsedPluginRef.Version parsed
                     +:+ "): " +:+ default "<nil>" lastErr))
      end
  end.

(** [GetPluginSchema]: the registry afterwards and the result ([inl] is
    the error, [inr None] a nil schema); [None] is a panic.  [now1],
    [now2] and [now3] are what [time.Now()] returns at the check under the
    read lock, at the check under the write lock and when the schema is
    stored. *)
Definition GetPluginSchema (r : Registry.t) (pluginName : string)
    (now1 now2 now3 : Z)
  : option (Registry.t * (string + option PluginSchema.t)) :=
  let fresh (now : Z) : option CachedPluginSchema.t :=
    match Registry.plugins r !! pluginName with
    | Some cached => if negb (IsExpired cached now) then Some cached else None
    | None => None
    end in
  match fresh now1 with
  | Some cached => Some (r, inr (CachedPluginSchema.Schema cached))
  | None =>
      match fresh now2 with
      | Some cached => Some (r, inr (CachedPluginSchema.Schema cached))
      | None =>
          fetched ← fetchPluginSchema pluginName;
          match fetched with
          | inl err => Some (r, inl err)
          | inr schema =>
              Some ({| Registry.plugins :=
                         <[pluginName :=
                             {| CachedPluginSchema.Schema := Some schema;
                                CachedPluginSchema.CachedAt := now3;
                                CachedPluginSchema.ExpiresAt :=
                                  now3 + Registry.cacheTTL r |}]>
                           (Registry.plugins r);
                       Registry.cacheTTL := Registry.cacheTTL r;
                       Registry.maxRetries := Registry.maxRetries r |},
                    inr (Some schema))
          end
      end
  end.

(** [ValidatePluginConfig]: the registry afterwards and the error, [None]
    when it is nil; the outer [None] is a panic (a nil schema is
    dereferenced). *)
Definition ValidatePluginConfig (r : Registry.t) (pluginName : string)
    (config : json.value) (now1 now2 now3 : Z)
  : option (Registry.t * option string) :=
  '(r, got) ← GetPluginSchema r pluginName now1 now2 now3;
  match got with
  | inl err =>
      Some (r, Some ("failed to get schema for plugin " +:+ pluginName
                     +:+ ": " +:+ err))
  | inr None => None
  | inr (Some schema) =>
      match PluginSchema.SchemaData schema with
      | None => Some (r, None)
      | Some schemaData =>
          match marshalConfig config with
          | inl err =>
              Some (r, Some ("plugin " +:+ pluginName
                             +:+ " config serialization failed: " +:+ err))
          | inr configJSON =>
              match validate schemaData configJSON with
              | inl err =>
                  Some (r, Some ("plugin " +:+ pluginName
                                 +:+ " validation failed: " +:+ err))
              | inr result =>
                  if negb (schema.Result.Valid result) then
                    if 0 <? Z.of_nat (length (schema.Result.Errors result)) then
                      first ← schema.Result.Errors result !! 0%nat;
                      Some (r, Some ("plugin " +:+ pluginName
                                     +:+ " configuration error: "
                                     +:+ schema.ResultError.Description first))
                    else
                      Some (r, Some ("plugin " +:+ pluginName
                                     +:+ " configuration is invalid"))
                  else Some (r, None)
              end
          end
      end
  end.

End RegistryCalls.

(** [ClearExpiredCache].  The loop visits every entry once, whatever the
    order, and reads the clock for each: [now key] is what [time.Now()]
    returns when the entry of [key] is looked at. *)
Definition ClearExpiredCache (r : Registry.t) (now : string → Z)
  : Registry.t :=
  {| Registry.plugins :=
       filter (λ entry, IsExpired entry.2 (now entry.1) = false)
         (Registry.plugins r);
     Registry.cacheTTL := Registry.cacheTTL r;
     Registry.maxRetries := Registry.maxRetries r |}.

(** [GetCacheStats]: the pair (total, expired). *)
Definition GetCacheStats (r : Registry.t) (now : string → Z) : Z * Z :=
  (Z.of_nat (size (Registry.plugins r)),
   Z.of_nat (size (filter (λ entry, IsExpired entry.2 (now entry.1) = true)
                     (Registry.plugins r)))).

(** [InvalidateCache] *)
Definition InvalidateCache (r : Registry.t) (pluginName : string)
  : Registry.t :=
  {| Registry.plugins := delete pluginName (Registry.plugins r);
     Registry.cacheTTL := Registry.cacheTTL r;
     Registry.maxRetries := Registry.maxRetries r |}.

End plugins.

(** ** internal/lsp: documents, completion, diagnostics, semantic tokens *)
Module lsp.
Import gostrings protocol.

(** *** The document manager *)

Module Document.
Record t := {
  URI : string;
  Version : Z;
  Content : string;
  Lines : list string
}.
End Document.

(** The loop of [splitLines]: [lines] and [current] after the characters
    of [content]. *)
Fixpoint splitLines_loop (content : string) (lines : list string)
    (current : string) : list string * string :=
  match content with
  | "" => (lines, current)
  | String char rest =>
      if Ascii.eqb char LF then splitLines_loop rest (lines ++ [current]) ""
      else if negb (Ascii.eqb char CR)
      then splitLines_loop rest lines (current +:+ String char "")
      else splitLines_loop rest lines current
  end.

(** [splitLines] *)
Definition splitLines (content : string) : list string :=
  if String.eqb content "" then []
  else
    let '(lines, current) := splitLines_loop content [] "" in
    if negb (String.eqb current "") || (Z.of_nat (length lines) =? 0)
    then lines ++ [current]
    else lines.

(** The field [documents] of the [DocumentManager]: a map from URI to
    document.  The lock around it orders the operations; each one below is
    what runs while the lock is held. *)
Abbreviation DocumentManager := (gmap string Document.t).

(** [NewDocumentManager] *)
Definition NewDocumentManager : DocumentManager := ∅.

(** [OpenDocument] *)
Definition OpenDocument (dm : DocumentManager) (uri : string) (version : Z)
    (content : string) : DocumentManager :=
  <[uri := {| Document.URI := uri;
              Document.Version := version;
              Document.Content := content;
              Document.Lines := splitLines content |}]> dm.

(** [UpdateDocument]: an existing document keeps its [URI] field. *)
Definition UpdateDocument (dm : DocumentManager) (uri : string) (version : Z)
    (content : string) : DocumentManager :=
  match dm !! uri with
  | Some doc =>
      <[uri := {| Document.URI := Document.URI doc;
                  Document.Version := version;
                  Document.Content := content;
                  Document.Lines := splitLines content |}]> dm
  | None =>
      <[uri := {| Document.URI := uri;
                  Document.Version := version;
                  Document.Content := content;
                  Document.Lines := splitLines content |}]> dm
  end.

(** [CloseDocument] *)
Definition CloseDocument (dm : DocumentManager) (uri : string)
  : DocumentManager :=
  delete uri dm.

(** [GetDocument]: [None] when the flag [exists] is false. *)
Definition GetDocument (dm : DocumentManager) (uri : string)
  : option Document.t :=
  dm !! uri.

(** [GetContentAtPosition].  The outer [option] is [None] for an index out
    of range (a panic); the inner one is [None] for the nil context. *)
Definition GetContentAtPosition (dm : DocumentManager) (uri : string)
    (position : Position) : option (option bkcontext.PositionContext.t) :=
  match dm !! uri with
  | None => Some None
  | Some doc =>
      let lineIndex := Line position in
      let charIndex := Character position in
      if Z.of_nat (length (Document.Lines doc)) <=? lineIndex then Some None
      else
        currentLine ← Document.Lines doc !! Z.to_nat lineIndex;
        let contextLines := take (Z.to_nat (lineIndex + 1)) (Document.Lines doc) in
        Some (Some {| bkcontext.PositionContext.URI := uri;
                      bkcontext.PositionContext.Position := position;
                      bkcontext.PositionContext.CurrentLine := currentLine;
                      bkcontext.PositionContext.CharIndex := charIndex;
                      bkcontext.PositionContext.ContextLines := contextLines;
                      bkcontext.PositionContext.FullContent := Document.Content doc |})
  end.

(** *** Completion *)

(** A completion item with no insertion text, and one with a snippet. *)
Definition plain (kind : CompletionItemKind) (label detail doc : string)
  : CompletionItem :=
  {| Label := label; Kind := kind; Detail := detail;
     Documentation := Some doc; InsertText := "";
     InsertTextFormat_ := InsertTextFormatNone;
     FilterText := ""; SortText := "" |}.

Definition snippet (kind : CompletionItemKind)
    (label detail doc insertText : string) : CompletionItem :=
  {| Label := label; Kind := kind; Detail := detail;
     Documentation := Some doc; InsertText := insertText;
     InsertTextFormat_ := InsertTextFormatSnippet;
     FilterText := ""; SortText := "" |}.

(** [getTopLevelCompletions] *)
Definition getTopLevelCompletions : list CompletionItem :=
  [ snippet CompletionItemKindProperty "steps"
      "Pipeline steps array"
      ("An array of build steps to be run")
      ("steps:" +:+ nl +:+ "  - $0");
    snippet CompletionItemKindProperty "env"
      "Environment variables"
      ("Environment variables for the pipeline")
      ("env:" +:+ nl +:+ "  $0");
    snippet CompletionItemKindProperty "agents"
      "Agent requirements"
      ("Requirements for agents to run this pipeline")
      ("agents:" +:+ nl +:+ "  $0");
    plain CompletionItemKindProperty "timeout_in_minutes"
      "Pipeline timeout"
      ("The maximum number of minutes a job created by this step will run");
    plain CompletionItemKindProperty "cancel_running_branch_builds"
      "Cancel running builds"
      ("Cancel running builds for the same branch when a new build is created");
    plain CompletionItemKindProperty "skip_intermediate_builds"
      "Skip intermediate builds"
      ("Skip intermediate builds and only run the latest");
    plain CompletionItemKindProperty "skip"
      "Skip entire pipeline"
      ("Skip this pipeline entirely");
    snippet CompletionItemKindProperty "notify"
      "Build notifications"
      ("Configure Slack, email, or webhook notifications")
      ("notify:" +:+ nl +:+ "  - ${1|slack,email,webhook|}: " +:+ dq +:+ "$2"
       +:+ dq);
    snippet CompletionItemKindProperty "group"
      "Group steps together"
      ("Group related steps together in the pipeline UI")
      ("group: " +:+ dq +:+ "$1" +:+ dq);
    snippet CompletionItemKindProperty "x-buildkite-repository-provider"
      "Repository provider settings"
      ("Configure repository provider specific settings")
      ("x-buildkite-repository-provider:" +:+ nl +:+ "  webhook_url: " +:+ dq
       +:+ "${1:https://api.buildkite.com/v2/webhooks/}" +:+ dq +:+ nl
       +:+ "  build_branches: ${2|true,false|}");
    snippet CompletionItemKindProperty "x-buildkite-plugins"
      "Global plugin configuration"
      ("Define plugins that apply to all steps")
      ("x-buildkite-plugins:" +:+ nl +:+ "  - ${1:plugin-name}#${2:version}:"
       +:+ nl +:+ "      ${3:config}: " +:+ dq +:+ "${4:value}" +:+ dq);
    snippet CompletionItemKindProperty "repository_provider_settings"
      "Repository provider configuration"
      ("Settings specific to your repository provider (GitHub, GitLab, etc.)")
      ("repository_provider_settings:" +:+ nl
       +:+ "  build_pull_requests: ${1|true,false|}" +:+ nl
       +:+ "  build_branches: ${2|true,false|}" +:+ nl
       +:+ "  publish_commit_status: ${3|true,false|}") ].

(** [getStepCompletions] *)
Definition getStepCompletions : list CompletionItem :=
  [ plain CompletionItemKindProperty "label"
      "Step label"
      ("The label that will be displayed in the pipeline");
    plain CompletionItemKindProperty "command"
      "Command to run"
      ("The command/script to be executed by this step");
    snippet CompletionItemKindProperty "commands"
      "Multiple commands"
      ("An array of commands to run in sequence")
      ("commands:" +:+ nl +:+ "  - " +:+ dq +:+ "$0" +:+ dq);
    snippet CompletionItemKindProperty "agents"
      "Agent requirements for step"
      ("Agent query rules to target specific agents")
      ("agents:" +:+ nl +:+ "  $0");
    plain CompletionItemKindProperty "artifact_paths"
      "Paths to upload as artifacts"
      ("Glob patterns for files to upload as build artifacts");
    plain CompletionItemKindProperty "branches"
      "Branch filtering"
      ("Restrict step to certain branches");
    plain CompletionItemKindProperty "if"
      "Conditional step"
      ("A boolean condition to determine if the step should run");
    plain CompletionItemKindProperty "depends_on"
      "Step dependencies"
      ("A list of step keys that this step depends on");
    snippet CompletionItemKindProperty "retry"
      "Retry configuration"
      ("The conditions for retrying this step")
      ("retry:" +:+ nl +:+ "  automatic: ${1:true}" +:+ nl
       +:+ "  manual: ${2:true}");
    plain CompletionItemKindProperty "timeout_in_minutes"
      "Step timeout"
      ("The number of minutes to time out a job");
    plain CompletionItemKindProperty "skip"
      "Skip this step"
      ("Whether to skip this step");
    snippet CompletionItemKindProperty "plugins"
      "Build step plugins"
      ("List of plugins to run for this step")
      ("plugins:" +:+ nl +:+ "  - $0");
    plain CompletionItemKindProperty "key"
      "Step key identifier"
      ("A unique identifier for this step, used for dependencies");
    plain CompletionItemKindProperty "concurrency"
      "Concurrency limit"
      ("Number of concurrent jobs allowed for this step");
    plain CompletionItemKindProperty "concurrency_group"
      "Concurrency group name"
      ("Name of the concurrency group to limit parallel execution");
    snippet CompletionItemKindProperty "concurrency_method"
      "Concurrency method"
      ("How to handle concurrency limits (eager or ordered)")
      ("concurrency_method: ${1|eager,ordered|}");
    plain CompletionItemKindProperty "parallelism"
      "Number of parallel jobs"
      ("Number of parallel jobs to run for this step");
    snippet CompletionItemKindProperty "soft_fail"
      "Allow step to fail"
      ("Allow the step to fail without failing the entire build")
      ("soft_fail: ${1|true,false|}");
    plain CompletionItemKindProperty "priority"
      "Step priority"
      ("Priority of this step (-5 to 5, higher values run first)");
    snippet CompletionItemKindProperty "matrix"
      "Matrix build configuration"
      ("Create multiple variations of this step with different variable combinations")
      ("matrix:" +:+ nl +:+ "  setup:" +:+ nl +:+ "    ${1:environment}: ["
       +:+ dq +:+ "${2:production}" +:+ dq +:+ ", " +:+ dq +:+ "${3:staging}"
       +:+ dq +:+ "]" +:+ nl +:+ "    ${4:node_version}: [" +:+ dq
       +:+ "${5:16}" +:+ dq +:+ ", " +:+ dq +:+ "${6:18}" +:+ dq +:+ ", "
       +:+ dq +:+ "${7:20}" +:+ dq +:+ "]" +:+ nl +:+ "  adjustments:" +:+ nl
       +:+ "    - with:" +:+ nl +:+ "        ${8:environment}: " +:+ dq
       +:+ "${9:production}" +:+ dq +:+ nl
       +:+ "      ${10|skip,soft_fail|}: ${11|true,false|}");
    snippet CompletionItemKindProperty "notify"
      "Step-specific notifications"
      ("Configure notifications for this specific step")
      ("notify:" +:+ nl +:+ "  - ${1|slack,email,webhook|}: " +:+ dq +:+ "$2"
       +:+ dq);
    snippet CompletionItemKindKeyword "wait"
      "Wait step"
      ("Wait for all previous steps to complete")
      ("wait: ${1|~,null|}");
    plain CompletionItemKindKeyword "block"
      "Block/manual step"
      ("Manual approval step that blocks pipeline execution");
    plain CompletionItemKindKeyword "input"
      "Input step"
      ("Collect user input before continuing");
    plain CompletionItemKindKeyword "trigger"
      "Trigger step"
      ("Trigger another pipeline");
    snippet CompletionItemKindProperty "group"
      "Group step"
      ("Group multiple steps together")
      ("group: " +:+ dq +:+ "$1" +:+ dq +:+ nl +:+ "steps:" +:+ nl +:+ "  - $0");
    plain CompletionItemKindProperty "prompt"
      "Block step prompt"
      ("Prompt text shown for manual approval steps");
    snippet CompletionItemKindProperty "fields"
      "Input step fields"
      ("Fields to collect from user input")
      ("fields:" +:+ nl +:+ "  - ${1|text,select,boolean|}: " +:+ dq +:+ "$2"
       +:+ dq);
    plain CompletionItemKindProperty "pipeline"
      "Pipeline to trigger"
      ("Pipeline slug to trigger");
    snippet CompletionItemKindProperty "build"
      "Trigger build configuration"
      ("Build configuration for triggered pipeline")
      ("build:" +:+ nl +:+ "  message: " +:+ dq +:+ "$1" +:+ dq +:+ nl
       +:+ "  commit: " +:+ dq +:+ "${2:HEAD}" +:+ dq +:+ nl +:+ "  branch: "
       +:+ dq +:+ "${3:main}" +:+ dq);
    plain CompletionItemKindProperty "async"
      "Async trigger"
      ("Don't wait for triggered pipeline to complete");
    plain CompletionItemKindProperty "group"
      "Step group"
      ("Group steps together in the UI");
    snippet CompletionItemKindProperty "parallelism"
      "Parallel job count"
      ("Number of parallel jobs to run for this step")
      ("parallelism: ${1:5}");
    snippet CompletionItemKindProperty "signature"
      "Step signature"
      ("Digital signature for step verification")
      ("signature:" +:+ nl +:+ "  algorithm: " +:+ dq +:+ "${1:sha256}" +:+ dq
       +:+ nl +:+ "  signed_fields:" +:+ nl +:+ "    - " +:+ dq
       +:+ "${2:command}" +:+ dq);
    snippet CompletionItemKindProperty "cache"
      "Step-level cache"
      ("Cache configuration for this specific step")
      ("cache:" +:+ nl +:+ "  - " +:+ dq +:+ "${1:.cache}" +:+ dq);
    snippet CompletionItemKindProperty "concurrency_method"
      "Concurrency control method"
      ("How to handle concurrency conflicts")
      ("concurrency_method: ${1|eager,ordered|}");
    snippet CompletionItemKindProperty "cancel_on_build_failing"
      "Cancel on build failure"
      ("Cancel this step if any other step fails")
      ("cancel_on_build_failing: ${1|true,false|}") ].

(** [getDefaultCompletions] *)
Definition getDefaultCompletions : list CompletionItem :=
  getTopLevelCompletions ++ getStepCompletions.

(** [needsListItemSuggestion] *)
Definition needsListItemSuggestion
    (posCtx : option bkcontext.PositionContext.t)
    (contextInfo : option bkcontext.ContextInfo.t) : bool :=
  match posCtx, contextInfo with
  | Some posCtx, Some contextInfo =>
      let currentLine := bkcontext.PositionContext.CurrentLine posCtx in
      let trimmedLine := TrimSpace currentLine in
      if HasPrefix trimmedLine "-" then false
      else if String.eqb trimmedLine ""
              && bool_decide (bkcontext.ContextInfo.Type_ contextInfo
                              = bkcontext.ContextPlugins)
      then true
      else false
  | _, _ => false
  end.

(** The list-item helper of [getPluginCompletions]. *)
Definition listItemSuggestion : CompletionItem :=
  {| Label := "- (add plugin)";
     Kind := CompletionItemKindSnippet;
     Detail := "Add a plugin to the list";
     Documentation := Some "Insert a list item for adding a plugin";
     InsertText := "- ${1:plugin-name}#${2:version}:" +:+ nl
                   +:+ "    ${3:config}: " +:+ dq +:+ "${4:value}" +:+ dq;
     InsertTextFormat_ := InsertTextFormatSnippet;
     FilterText := "";
     SortText := "00-list-item" |}.

(** The snippet [getPluginCompletions] chooses by the plugin's name. *)
Definition pluginInsertText (name fullName : string) : string :=
  if String.eqb name "docker" then
    fullName +:+ ":" +:+ nl +:+ "    image: " +:+ dq +:+ "${1:node:18}" +:+ dq
  else if String.eqb name "docker-compose" then
    fullName +:+ ":" +:+ nl +:+ "    run: " +:+ dq +:+ "${1:app}" +:+ dq
  else if String.eqb name "cache" then
    fullName +:+ ":" +:+ nl +:+ "    key: " +:+ dq +:+ "${1:v1-cache-key}"
      +:+ dq +:+ nl +:+ "    paths:" +:+ nl +:+ "      - " +:+ dq
      +:+ "${2:.cache}" +:+ dq
  else if String.eqb name "artifacts" then
    fullName +:+ ":" +:+ nl +:+ "    download: " +:+ dq +:+ "${1:build/*}"
      +:+ dq
  else if String.eqb name "test-collector" then
    fullName +:+ ":" +:+ nl +:+ "    files: " +:+ dq
      +:+ "${1:test-results.xml}" +:+ dq
  else if String.eqb name "slack" then
    fullName +:+ ":" +:+ nl +:+ "    message: " +:+ dq
      +:+ "${1:Build completed}" +:+ dq
  else if String.eqb name "junit-annotate" then
    fullName +:+ ":" +:+ nl +:+ "    artifacts: " +:+ dq
      +:+ "${1:test-results.xml}" +:+ dq
  else if String.eqb name "shellcheck" then
    fullName +:+ ":" +:+ nl +:+ "    files: " +:+ dq +:+ "${1:scripts/*.sh}"
      +:+ dq
  else
    fullName +:+ ":" +:+ nl +:+ "    ${1:property}: " +:+ dq +:+ "${2:value}"
      +:+ dq.

(** The item [getPluginCompletions] appends for one popular plugin. *)
Definition pluginCompletion (plugin : plugins.PopularPlugin.t)
  : CompletionItem :=
  let name := plugins.PopularPlugin.Name plugin in
  let description := plugins.PopularPlugin.Description plugin in
  let fullName := name +:+ "#" +:+ plugins.PopularPlugin.Version plugin in
  {| Label := fullName;
     Kind := CompletionItemKindModule;
     Detail := description;
     Documentation :=
       Some ("**" +:+ name +:+ " Plugin**" +:+ nl +:+ nl +:+ description
             +:+ nl +:+ nl
             +:+ "[Plugin Directory](https://buildkite.com/plugins)");
     InsertText := pluginInsertText name fullName;
     InsertTextFormat_ := InsertTextFormatSnippet;
     FilterText := name;
     SortText := fmt.verb_02d (len name) +:+ "-" +:+ name |}.

(** [getPluginCompletions] *)
Definition getPluginCompletions (posCtx : option bkcontext.PositionContext.t)
    (contextInfo : option bkcontext.ContextInfo.t) : list CompletionItem :=
  (if needsListItemSuggestion posCtx contextInfo
   then [listItemSuggestion] else [])
  ++ (pluginCompletion <$> plugins.GetPopularPlugins).

(** [getGenericPluginConfigCompletions] *)
Definition getGenericPluginConfigCompletions : list CompletionItem :=
  [ snippet CompletionItemKindProperty "enabled"
      "Enable/disable plugin"
      "Whether this plugin should be enabled"
      "enabled: ${1|true,false|}" ].

Section Completion.

(** The plugin registry answers over the network, and the completions made
    from a schema follow the iteration order of a Go map.  The section
    takes what [GetPluginSchema] followed by [generateCompletionsFromSchema]
    yields for a plugin name and an indent level: [None] when the schema
    cannot be fetched. *)
Variable completionsFromRegistry : string → Z → option (list CompletionItem).

(** [getPluginConfigCompletions] *)
Definition getPluginConfigCompletions (contextInfo : bkcontext.ContextInfo.t)
  : list CompletionItem :=
  if String.eqb (bkcontext.ContextInfo.PluginName contextInfo) ""
  then getGenericPluginConfigCompletions
  else
    match completionsFromRegistry
            (bkcontext.ContextInfo.PluginName contextInfo)
            (bkcontext.ContextInfo.IndentLevel contextInfo) with
    | None => getGenericPluginConfigCompletions
    | Some items => items
    end.

(** [GetCompletions]: [None] if the analysis panics. *)
Definition GetCompletions (posCtx : option bkcontext.PositionContext.t)
  : option (list CompletionItem) :=
  match posCtx with
  | None => Some []
  | Some _ =>
      contextInfo ← bkcontext.AnalyzeContext posCtx;
      match bkcontext.ContextInfo.Type_ contextInfo with
      | bkcontext.ContextTopLevel => Some getTopLevelCompletions
      | bkcontext.ContextStep => Some getStepCompletions
      | bkcontext.ContextPlugins =>
          Some (getPluginCompletions posCtx (Some contextInfo))
      | bkcontext.ContextPluginConfig =>
          Some (getPluginConfigCompletions contextInfo)
      | bkcontext.ContextUnknown => Some getDefaultCompletions
      end
  end.

End Completion.

(** *** Diagnostics for one step *)

(** [uint32(n)] *)
Definition u32 (n : Z) : Z := n mod 2 ^ 32.

(** A diagnostic of source ["buildkite-ls"] from (line, character) to
    (line, character). *)
Definition diagnostic (startLine startChar endLine endChar : Z)
    (severity : DiagnosticSeverity) (message code : string) : Diagnostic :=
  {| Range_ := {| Start := {| Line := startLine; Character := startChar |};
                  End_ := {| Line := endLine; Character := endChar |} |};
     Severity := severity;
     Message := message;
     Source := "buildkite-ls";
     Code := code |}.

Definition b2z (b : bool) : Z := if b then 1 else 0.

(** The local variables of [validateSingleStep].  A step type is present
    when its value is not nil; for [wait] the key alone decides (the value
    can be nil). *)
Definition hasCommand (stepData : gmap string json.value) : bool :=
  json.not_nil (stepData !! "command")
  || json.not_nil (stepData !! "commands").

Definition hasWait (stepData : gmap string json.value) : bool :=
  bool_decide (is_Some (stepData !! "wait")).

Definition hasBlock (stepData : gmap string json.value) : bool :=
  json.not_nil (stepData !! "block").

Definition hasInput (stepData : gmap string json.value) : bool :=
  json.not_nil (stepData !! "input").

Definition hasTrigger (stepData : gmap string json.value) : bool :=
  json.not_nil (stepData !! "trigger").

Definition hasGroup (stepData : gmap string json.value) : bool :=
  json.not_nil (stepData !! "group").

Definition hasPlugins (stepData : gmap string json.value) : bool :=
  json.not_nil (stepData !! "plugins").

Definition stepTypeCount (stepData : gmap string json.value) : Z :=
  b2z (hasCommand stepData) + b2z (hasWait stepData)
  + b2z (hasBlock stepData) + b2z (hasInput stepData)
  + b2z (hasTrigger stepData) + b2z (hasGroup stepData).

(** [validateSingleStep]: the diagnostics in the order they are appended. *)
Definition validateSingleStep (stepData : gmap string json.value)
    (lineNum : Z) (stepNumber : Z) : list Diagnostic :=
  (if stepTypeCount stepData =? 0 then
     if hasPlugins stepData then
       [ diagnostic lineNum 2 (u32 (lineNum + 2)) 0
           DiagnosticSeverityInformation
           ("Step " +:+ fmt.verb_d stepNumber
            +:+ " has no explicit step type, but plugins may provide command execution via hooks")
           "no-step-type-with-plugins" ]
     else
       [ diagnostic lineNum 2 (u32 (lineNum + 2)) 0
           DiagnosticSeverityError
           ("Step " +:+ fmt.verb_d stepNumber
            +:+ " must specify a step type: command, wait, block, input, trigger, or group")
           "missing-step-type" ]
   else if 1 <? stepTypeCount stepData then
     [ diagnostic lineNum 2 (u32 (lineNum + 3)) 0
         DiagnosticSeverityError
         ("Step " +:+ fmt.verb_d stepNumber
          +:+ " has multiple step types - only one is allowed per step")
         "multiple-step-types" ]
   else [])
  ++ (if hasCommand stepData then
        (match json.as_string (stepData !! "command") with
         | Some command =>
             if String.eqb (TrimSpace command) "" then
               if hasPlugins stepData then
                 [ diagnostic (u32 (lineNum + 1)) 4 (u32 (lineNum + 1)) 999
                     DiagnosticSeverityInformation
                     "Command is empty, but plugins may provide command execution via hooks"
                     "empty-command-with-plugins" ]
               else
                 [ diagnostic (u32 (lineNum + 1)) 4 (u32 (lineNum + 1)) 999
                     DiagnosticSeverityWarning
                     "Command should not be empty"
                     "empty-command" ]
             else []
         | None => []
         end)
        ++ (if json.not_nil (stepData !! "name")
               && negb (json.not_nil (stepData !! "label"))
            then
              [ diagnostic lineNum 2 (u32 (lineNum + 2)) 0
                  DiagnosticSeverityInformation
                  "Use 'label' instead of 'name' - 'label' is the standard Buildkite field for step display names"
                  "use-label-not-name" ]
            else [])
        ++ (if negb (json.not_nil (stepData !! "label"))
               && negb (json.not_nil (stepData !! "name"))
            then
              [ diagnostic lineNum 2 lineNum 999
                  DiagnosticSeverityInformation
                  "Consider adding a 'label' to make this step easier to identify in the UI"
                  "missing-label" ]
            else [])
      else [])
  ++ (match stepData !! "wait" with
      | Some wait =>
          match wait with
          | json.String_ _ | json.Float64 _ | json.Nil => []
          | v =>
              [ diagnostic (u32 (lineNum + 1)) 4 (u32 (lineNum + 1)) 999
                  DiagnosticSeverityError
                  ("Wait value must be null, a string message, or a number of seconds, got "
                   +:+ json.type_name v)
                  "invalid-wait-value" ]
          end
      | None => []
      end)
  ++ ( if hasBlock stepData then
        match json.as_string (stepData !! "block") with
        | Some block =>
            if String.eqb (TrimSpace block) "" then
              [ diagnostic (u32 (lineNum + 1)) 4 (u32 (lineNum + 1)) 999
                  DiagnosticSeverityError
                  "Block step must have a non-empty message"
                  "empty-block-message" ]
            else []
        | None =>
            [ diagnostic (u32 (lineNum + 1)) 4 (u32 (lineNum + 1)) 999
                DiagnosticSeverityError
                "Block step must have a non-empty message"
                "empty-block-message" ]
        end
      else [])
  ++ ( if hasTrigger stepData then
        match json.as_string (stepData !! "trigger") with
        | Some trigger =>
            if String.eqb (TrimSpace trigger) "" then
              [ diagnostic (u32 (lineNum + 1)) 4 (u32 (lineNum + 1)) 999
                  DiagnosticSeverityError
                  "Trigger step must specify a pipeline slug"
                  "empty-trigger-pipeline" ]
            else []
        | None =>
            [ diagnostic (u32 (lineNum + 1)) 4 (u32 (lineNum + 1)) 999
                DiagnosticSeverityError
                "Trigger step must specify a pipeline slug"
                "empty-trigger-pipeline" ]
        end
      else [])
  ++ ( if hasInput stepData then
        match json.as_string (stepData !! "input") with
        | Some input =>
            if String.eqb (TrimSpace input) "" then
              [ diagnostic (u32 (lineNum + 1)) 4 (u32 (lineNum + 1)) 999
                  DiagnosticSeverityError
                  "Input step must have a non-empty prompt message"
                  "empty-input-prompt" ]
            else []
        | None =>
            [ diagnostic (u32 (lineNum + 1)) 4 (u32 (lineNum + 1)) 999
                DiagnosticSeverityError
                "Input step must have a non-empty prompt message"
                "empty-input-prompt" ]
        end
      else []).

(** *** File eligibility *)

(** [isBuildkiteFile] *)
Definition isBuildkiteFile (uri : string) : bool :=
  let filePath :=
    if HasPrefix uri "file://" then TrimPrefix uri "file://" else uri in
  if Contains filePath ".buildkite/" then
    HasSuffix filePath ".yml" || HasSuffix filePath ".yaml"
  else
    let fileName := filepath.Base filePath in
    String.eqb fileName "pipeline.yml" || String.eqb fileName "pipeline.yaml"
    || String.eqb fileName "buildkite.yml"
    || String.eqb fileName "buildkite.yaml".

(** *** Semantic tokens *)

(** [s.getIndentLevel]: here a tab counts 4. *)
Fixpoint getIndentLevel_from (count : Z) (line : string) : Z :=
  match line with
  | "" => count
  | String char rest =>
      if Ascii.eqb char SP then getIndentLevel_from (count + 1) rest
      else if Ascii.eqb char TAB then getIndentLevel_from (count + 4) rest
      else count
  end.

Definition getIndentLevel (line : string) : Z := getIndentLevel_from 0 line.

(** The slice literal [tokenTypes] of [getTokenTypeIndex]. *)
Definition tokenTypes : list string :=
  [ "keyword"; "string"; "property"; "variable"; "function"; "namespace";
    "operator"; "comment" ].

Fixpoint indexOf (i : Z) (l : list string) (x : string) : option Z :=
  match l with
  | [] => None
  | t :: l' => if String.eqb t x then Some i else indexOf (i + 1) l' x
  end.

(** [getTokenTypeIndex] *)
Definition getTokenTypeIndex (tokenType : string) : Z :=
  default 0 (indexOf 0 tokenTypes tokenType).

(** The map literal [modifierMap] of [getTokenModifierBits]. *)
Definition modifierMap : gmap string Z :=
  list_to_map
    [ ("definition", Z.shiftl 1 0);
      ("readonly", Z.shiftl 1 1);
      ("deprecated", Z.shiftl 1 2) ].

(** [getTokenModifierBits] *)
Fixpoint getTokenModifierBits_from (bits : Z) (modifiers : list string) : Z :=
  match modifiers with
  | [] => bits
  | modifier :: rest =>
      match modifierMap !! modifier with
      | Some bit => getTokenModifierBits_from (Z.lor bits bit) rest
      | None => getTokenModifierBits_from bits rest
      end
  end.

Definition getTokenModifierBits (modifiers : list string) : Z :=
  getTokenModifierBits_from 0 modifiers.

(** [createToken]: five [uint32]. *)
Definition createToken (line start length : Z) (tokenType : string)
    (modifiers : list string) : list Z :=
  [ line; start; length;
    u32 (getTokenTypeIndex tokenType);
    u32 (getTokenModifierBits modifiers) ].

(** The keys of the map literal [stepTypes]. *)
Definition stepTypes : list string :=
  [ "command"; "commands"; "wait"; "block"; "input"; "trigger"; "group" ].

Definition isStepType (key : string) : bool :=
  existsb (String.eqb key) stepTypes.

(** [getKeyTokenType] *)
Definition getKeyTokenType (key : string) (inStep : bool) : string :=
  if isStepType key then "keyword"
  else if String.eqb key "key" || String.eqb key "label" then "namespace"
  else if String.eqb key "env" then "variable"
  else if String.eqb key "plugins" || Contains key "#" then "function"
  else "property".

(** [getKeyModifiers] *)
Definition getKeyModifiers (key : string) (inStep : bool) : list string :=
  (if isStepType key && inStep then ["definition"] else [])
  ++ (if String.eqb key "key" || String.eqb key "timeout_in_minutes"
      then ["readonly"] else []).

(** The cut set of the call to [strings.Trim]: the double and the single
    quote. *)
Definition quotes : string := String DQ (String SQ "").

(** [getValueTokenType] *)
Definition getValueTokenType (key value : string) (inStep : bool)
  : string * list string :=
  let cleanValue := Trim value quotes in
  if Contains cleanValue "#" then ("function", [])
  else if String.eqb key "env" then ("variable", [])
  else if String.eqb key "key" || String.eqb key "label"
  then ("namespace", [])
  else if String.eqb cleanValue "true" || String.eqb cleanValue "false"
          || String.eqb cleanValue "null" || String.eqb cleanValue "~"
  then ("keyword", ["readonly"])
  else if bool_decide (is_Some (strconv.Atoi cleanValue))
  then ("keyword", ["readonly"])
  else ("string", []).

(** The loop [for i < len(s) && p(s[i]) { i++ }], where [rest] is
    [s[i:]]. *)
Fixpoint advance (p : ascii → bool) (rest : string) (i : Z) : Z :=
  match rest with
  | "" => i
  | String c rest' => if p c then advance p rest' (i + 1) else i
  end.

(** The loop of [parseStepContent] that moves [valueStart] over spaces,
    in [uint32].  [valueStart] grows towards the bound of the loop's
    guard, so [n] steps are enough when [n] is the distance to the bound.
    [None] is an index out of range. *)
Fixpoint skipSpaces (n : nat) (content : string)
    (startChar colonIndex valueStart : Z) : option Z :=
  if valueStart <? u32 (startChar + u32 (len content)) then
    c ← at_index content
          (colonIndex + 1 + u32 (valueStart - startChar - u32 (colonIndex + 1)));
    if Ascii.eqb c SP then
      match n with
      | O => Some valueStart
      | S n' => skipSpaces n' content startChar colonIndex (u32 (valueStart + 1))
      end
    else Some valueStart
  else Some valueStart.

(** [parseStepContent] *)
Definition parseStepContent (content : string) (line startChar : Z)
  : option (list Z) :=
  let colonIndex := Index content ":" in
  if negb (colonIndex =? -1) then
    let key := TrimSpace (slice_to content colonIndex) in
    let value := TrimSpace (slice_from content (colonIndex + 1)) in
    let keyTokenType := getKeyTokenType key true in
    let keyModifiers := getKeyModifiers key true in
    let tokens :=
      createToken line startChar (u32 (len key)) keyTokenType keyModifiers
      ++ createToken line (u32 (startChar + u32 (len key))) 1 "operator" [] in
    if negb (String.eqb value "") then
      let valueStart0 := u32 (startChar + u32 (colonIndex + 1)) in
      valueStart ←
        skipSpaces (Z.to_nat (u32 (startChar + u32 (len content)) - valueStart0))
          content startChar colonIndex valueStart0;
      let '(valueTokenType, valueModifiers) :=
        getValueTokenType key value true in
      if negb (String.eqb valueTokenType "")
      then Some (tokens ++ createToken line valueStart (u32 (len value))
                             valueTokenType valueModifiers)
      else Some tokens
    else Some tokens
  else Some [].

(** What [tokenizeLine] reads and writes through its three pointers. *)
Module TokenizerState.
Record t := {
  inSteps : bool;
  inStep : bool;
  stepIndent : Z
}.
End TokenizerState.

Definition isIndentChar (c : ascii) : bool :=
  Ascii.eqb c SP || Ascii.eqb c TAB.

(** [tokenizeLine]: the tokens of the line and the state afterwards;
    [None] is an index out of range. *)
Definition tokenizeLine (line : string) (lineNumber : Z)
    (st : TokenizerState.t) : option (list Z * TokenizerState.t) :=
  let trimmed := TrimSpace line in
  if String.eqb trimmed "" || HasPrefix trimmed "#" then
    if HasPrefix trimmed "#" then
      let commentStart := Index line "#" in
      Some (createToken lineNumber (u32 commentStart) (u32 (len trimmed))
              "comment" [], st)
    else Some ([], st)
  else
    let indent := getIndentLevel line in
    if String.eqb trimmed "steps:" then
      Some (createToken lineNumber 0 (u32 (len "steps")) "keyword" []
            ++ createToken lineNumber (u32 (len "steps")) 1 "operator" [],
            {| TokenizerState.inSteps := true;
               TokenizerState.inStep := false;
               TokenizerState.stepIndent := TokenizerState.stepIndent st |})
    else
      let st :=
        if TokenizerState.inSteps st && (indent =? 0)
           && negb (HasPrefix trimmed "- ")
        then {| TokenizerState.inSteps := false;
                TokenizerState.inStep := false;
                TokenizerState.stepIndent := TokenizerState.stepIndent st |}
        else st in
      if TokenizerState.inSteps st
         && HasPrefix (TrimLeft line (String SP (String TAB ""))) "- "
         && (indent =? 2)
      then
        let st :=
          {| TokenizerState.inSteps := TokenizerState.inSteps st;
             TokenizerState.inStep := true;
             TokenizerState.stepIndent := indent |} in
        let dashPos := Index line "- " in
        let tokens := createToken lineNumber (u32 dashPos) 1 "operator" [] in
        let stepContent := TrimSpace (slice_from line (dashPos + 2)) in
        if negb (String.eqb stepContent "") then
          stepTokens ← parseStepContent stepContent lineNumber (u32 (dashPos + 2));
          Some (tokens ++ stepTokens, st)
        else Some (tokens, st)
      else
        let st :=
          if TokenizerState.inStep st
             && (indent <=? TokenizerState.stepIndent st)
             && negb (HasPrefix trimmed "- ")
          then {| TokenizerState.inSteps := TokenizerState.inSteps st;
                  TokenizerState.inStep := false;
                  TokenizerState.stepIndent := TokenizerState.stepIndent st |}
          else st in
        let colonIndex := Index line ":" in
        if negb (colonIndex =? -1) then
          let keyStart := advance isIndentChar line 0 in
          let key := TrimSpace (slice line keyStart colonIndex) in
          let value := TrimSpace (slice_from line (colonIndex + 1)) in
          let keyTokenType := getKeyTokenType key (TokenizerState.inStep st) in
          let keyModifiers := getKeyModifiers key (TokenizerState.inStep st) in
          let tokens :=
            createToken lineNumber (u32 keyStart) (u32 (len key))
              keyTokenType keyModifiers
            ++ createToken lineNumber (u32 colonIndex) 1 "operator" [] in
          if negb (String.eqb value "") then
            let valueStart :=
              advance (Ascii.eqb SP) (slice_from line (colonIndex + 1))
                (colonIndex + 1) in
            let '(valueTokenType, valueModifiers) :=
              getValueTokenType key value (TokenizerState.inStep st) in
            if negb (String.eqb valueTokenType "")
            then Some (tokens ++ createToken lineNumber (u32 valueStart)
                                   (u32 (len value)) valueTokenType
                                   valueModifiers, st)
            else Some (tokens, st)
          else Some (tokens, st)
        else Some ([], st).

(** The inner loop of [generateSemanticTokensForRange]: it reads
    [lineTokens] five at a time and appends the delta form to [data];
    [None] is an index out of range. *)
Fixpoint encodeDeltas (lineTokens data : list Z) (prevLine prevStart : Z)
  : option (list Z * Z * Z) :=
  match lineTokens with
  | [] => Some (data, prevLine, prevStart)
  | currentLine :: currentStart :: length :: tokenType :: tokenModifiers
      :: rest =>
      let deltaLine := u32 (currentLine - prevLine) in
      let deltaStart :=
        if deltaLine =? 0 then u32 (currentStart - prevStart)
        else currentStart in
      encodeDeltas rest
        (data ++ [deltaLine; deltaStart; length; tokenType; tokenModifiers])
        currentLine currentStart
  | _ => None
  end.

(** The outer loop, over the lines from index [lineIndex] on. *)
Fixpoint tokensOfLines (lines : list string) (lineIndex startLineOffset : Z)
    (st : TokenizerState.t) (data : list Z) (prevLine prevStart : Z)
  : option (list Z) :=
  match lines with
  | [] => Some data
  | line :: rest =>
      let actualLineNumber := u32 (lineIndex + startLineOffset) in
      '(lineTokens, st) ← tokenizeLine line actualLineNumber st;
      '(data, prevLine, prevStart) ←
        encodeDeltas lineTokens data prevLine prevStart;
      tokensOfLines rest (lineIndex + 1) startLineOffset st data
        prevLine prevStart
  end.

(** [generateSemanticTokensForRange]: the field [Data] of the result. *)
Definition generateSemanticTokensForRange (lines : list string)
    (startLineOffset : Z) : option (list Z) :=
  tokensOfLines lines 0 startLineOffset
    {| TokenizerState.inSteps := false;
       TokenizerState.inStep := false;
       TokenizerState.stepIndent := -1 |}
    [] 0 0.

(** [generateSemanticTokens] *)
Definition generateSemanticTokens (lines : list string) : option (list Z) :=
  generateSemanticTokensForRange lines 0.

(** *** Lines of a pipeline, as the server reads them *)

(** The cut set [" \t"]. *)
Definition indentChars : string := String SP (String TAB "").

(** [strings.HasPrefix(strings.TrimLeft(line, " \t"), "- ")
    && s.getIndentLevel(line) == 2]: a list item at the level of the
    steps. *)
Definition isStepStart (line : string) : bool :=
  HasPrefix (TrimLeft line indentChars) "- " && (getIndentLevel line =? 2).

(** [len(line) > 0 && line[0] != ' ' && line[0] != '\t'] *)
Definition startsUnindented (line : string) : bool :=
  match line with
  | String c _ => negb (Ascii.eqb c SP) && negb (Ascii.eqb c TAB)
  | "" => false
  end.

(** [len(guard) > 0 && line[0] != ' ' && line[0] != '\t'], where the
    length tested is that of another string; [None] is an index out of
    range. *)
Definition unindented (guard line : string) : option bool :=
  if 0 <? len guard then
    c ← at_index line 0;
    Some (negb (Ascii.eqb c SP) && negb (Ascii.eqb c TAB))
  else Some false.

(** The loop [for start > 0 && p(s[start-1]) { start-- }]; [None] is an
    index out of range. *)
Fixpoint backward (p : ascii → bool) (s : string) (start : nat)
  : option nat :=
  match start with
  | O => Some O
  | S i =>
      c ← nth_byte i s;
      if p c then backward p s i else Some start
  end.

(** *** Hover *)

(** [isAlphanumeric] *)
Definition isAlphanumeric (b : ascii) : bool :=
  in_range 97 122 b || in_range 65 90 b || in_range 48 57 b
  || Ascii.eqb b "." || Ascii.eqb b "@".

(** The characters of a word in [extractWordAtPosition]. *)
Definition isHoverWordByte (b : ascii) : bool :=
  isAlphanumeric b || Ascii.eqb b "_" || Ascii.eqb b "-" || Ascii.eqb b "#".

(** [extractWordAtPosition]; [None] is an index out of range. *)
Definition extractWordAtPosition (posCtx : bkcontext.PositionContext.t)
  : option string :=
  let currentLine := bkcontext.PositionContext.CurrentLine posCtx in
  let charIndex := bkcontext.PositionContext.CharIndex posCtx in
  if len currentLine <=? charIndex then Some ""
  else
    start ←
      (if 0 <? charIndex
       then Z.of_nat <$> backward isHoverWordByte currentLine (Z.to_nat charIndex)
       else Some charIndex);
    end_ ←
      (if charIndex <? 0 then None
       else Some (advance isHoverWordByte (slice_from currentLine charIndex)
                    charIndex));
    if end_ <=? start then Some ""
    else Some (TrimSuffix (slice currentLine start end_) ":").

(** [getPluginHoverContent], after the call of [GetPluginSchema], whose
    result is [got]; [None] is the dereference of a nil schema. *)
Definition getPluginHoverContent (got : string + option plugins.PluginSchema.t)
    (pluginName : string) : option string :=
  match got with
  | inl _ =>
      Some ("Plugin: " +:+ pluginName +:+ nl +:+ nl
            +:+ "Unable to load plugin information.")
  | inr None => None
  | inr (Some schema) =>
      let content :=
        "# " +:+ plugins.PluginSchema.Name schema +:+ " Plugin" +:+ nl +:+ nl
        +:+ plugins.PluginSchema.Description schema +:+ nl +:+ nl in
      let content :=
        if negb (String.eqb (plugins.PluginSchema.Author schema) "")
        then content +:+ "**Author**: " +:+ plugins.PluginSchema.Author schema
                     +:+ nl +:+ nl
        else content in
      let content :=
        if 0 <? Z.of_nat (length (plugins.PluginSchema.Requirements schema))
        then
          foldl (λ content req, content +:+ "- " +:+ req +:+ nl)
            (content +:+ "**Requirements**:" +:+ nl)
            (plugins.PluginSchema.Requirements schema)
          +:+ nl
        else content in
      let content :=
        match plugins.PluginSchema.Configuration schema with
        | Some _ =>
            content
            +:+ "**Configuration Options**: Available via schema validation"
            +:+ nl +:+ nl
        | None => content
        end in
      Some (content +:+ "[Plugin Documentation](https://buildkite.com/plugins)")
  end.

(** The map literal [propertyDocs] of [getPropertyHoverContent]. *)
Definition propertyDocs : gmap string string :=
  list_to_map
    [ ("steps",
       "**steps** - Array of build steps to be executed" +:+ nl +:+ nl
       +:+ "Defines the sequence of operations for your build pipeline. Each step can be a command step, wait step, block step, input step, or trigger step."
       +:+ nl +:+ nl
       +:+ "[Steps Documentation](https://buildkite.com/docs/pipelines/defining-steps)");
      ("env",
       "**env** - Environment variables for the pipeline" +:+ nl +:+ nl
       +:+ "Defines environment variables that will be available to all steps in the pipeline unless overridden at the step level."
       +:+ nl +:+ nl +:+ "Example:" +:+ nl +:+ "```yaml" +:+ nl +:+ "env:"
       +:+ nl +:+ "  NODE_ENV: production" +:+ nl +:+ "  DEBUG: " +:+ dq
       +:+ "false" +:+ dq +:+ nl +:+ "```");
      ("agents",
       "**agents** - Agent requirements for running steps" +:+ nl +:+ nl
       +:+ "Specifies which agents can run this pipeline or step using key-value pairs for targeting."
       +:+ nl +:+ nl +:+ "Example:" +:+ nl +:+ "```yaml" +:+ nl
       +:+ "agents:" +:+ nl +:+ "  queue: " +:+ dq +:+ "default" +:+ dq
       +:+ nl +:+ "  os: " +:+ dq +:+ "linux" +:+ dq +:+ nl +:+ "```");
      ("label",
       "**label** - Human-readable name for the step" +:+ nl +:+ nl
       +:+ "Displayed in the Buildkite UI and used to identify the step. Supports emoji and can include environment variable substitutions."
       +:+ nl +:+ nl +:+ "Example: `label: " +:+ dq
       +:+ ":rocket: Deploy to production" +:+ dq +:+ "`");
      ("command",
       "**command** - Shell command(s) to execute" +:+ nl +:+ nl
       +:+ "Can be a single command or multiple commands. Supports multiline YAML syntax for complex scripts."
       +:+ nl +:+ nl +:+ "Example:" +:+ nl +:+ "```yaml" +:+ nl
       +:+ "command: |" +:+ nl +:+ "  echo " +:+ dq +:+ "Building..." +:+ dq
       +:+ nl +:+ "  make build" +:+ nl +:+ "  make test" +:+ nl +:+ "```");
      ("plugins",
       "**plugins** - List of plugins to enhance the step" +:+ nl +:+ nl
       +:+ "Each plugin provides additional functionality like Docker support, caching, or artifact management. Plugins are specified with their name and version."
       +:+ nl +:+ nl +:+ "[Plugin Directory](https://buildkite.com/plugins)");
      ("depends_on",
       "**depends_on** - Step dependencies" +:+ nl +:+ nl
       +:+ "Specifies which steps must complete before this step runs. Can reference steps by label or use step keys."
       +:+ nl +:+ nl +:+ "Example:" +:+ nl +:+ "```yaml" +:+ nl
       +:+ "depends_on:" +:+ nl +:+ "  - " +:+ dq +:+ "build" +:+ dq +:+ nl
       +:+ "  - step: " +:+ dq +:+ "test" +:+ dq +:+ nl
       +:+ "    allow_failure: true" +:+ nl +:+ "```");
      ("if",
       "**if** - Conditional execution" +:+ nl +:+ nl
       +:+ "Step will only run if the condition evaluates to true. Supports environment variables and build metadata."
       +:+ nl +:+ nl +:+ "Example: `if: build.branch == " +:+ dq +:+ "main"
       +:+ dq +:+ "`");
      ("retry",
       "**retry** - Automatic and manual retry configuration" +:+ nl +:+ nl
       +:+ "Defines how the step should be retried on failure." +:+ nl
       +:+ nl +:+ "Example:" +:+ nl +:+ "```yaml" +:+ nl +:+ "retry:" +:+ nl
       +:+ "  automatic:" +:+ nl +:+ "    - exit_status: -1" +:+ nl
       +:+ "      limit: 2" +:+ nl +:+ "  manual:" +:+ nl
       +:+ "    allowed: true" +:+ nl +:+ "```");
      ("timeout_in_minutes",
       "**timeout_in_minutes** - Step timeout" +:+ nl +:+ nl
       +:+ "Maximum time the step can run before being cancelled. Defaults to no timeout."
       +:+ nl +:+ nl +:+ "Example: `timeout_in_minutes: 30`");
      ("artifact_paths",
       "**artifact_paths** - Glob patterns for build artifacts" +:+ nl
       +:+ nl
       +:+ "Specifies which files/directories to upload as build artifacts after the step completes."
       +:+ nl +:+ nl +:+ "Example: `artifact_paths: " +:+ dq +:+ "dist/**/*"
       +:+ dq +:+ "`");
      ("branches",
       "**branches** - Branch filtering" +:+ nl +:+ nl
       +:+ "Controls which branches this step runs on. Supports glob patterns and negation."
       +:+ nl +:+ nl +:+ "Example: `branches: " +:+ dq +:+ "main release/*"
       +:+ dq +:+ "`");
      ("concurrency",
       "**concurrency** - Parallel execution limit" +:+ nl +:+ nl
       +:+ "Limits how many instances of this step can run simultaneously across all agents."
       +:+ nl +:+ nl +:+ "Example: `concurrency: 1`");
      ("concurrency_group",
       "**concurrency_group** - Concurrency grouping" +:+ nl +:+ nl
       +:+ "Groups steps together for concurrency limiting. Steps in the same group share concurrency limits."
       +:+ nl +:+ nl +:+ "Example: `concurrency_group: " +:+ dq +:+ "deploy"
       +:+ dq +:+ "`");
      ("wait",
       "**wait** - Wait step" +:+ nl +:+ nl
       +:+ "Pauses the pipeline until all previous steps have completed. Useful for creating pipeline phases."
       +:+ nl +:+ nl +:+ "Example: `wait: ~` or `wait: " +:+ dq
       +:+ "Continue to deploy?" +:+ dq +:+ "`");
      ("block",
       "**block** - Manual approval step" +:+ nl +:+ nl
       +:+ "Pauses the pipeline and waits for manual approval before continuing."
       +:+ nl +:+ nl +:+ "Example: `block: " +:+ dq
       +:+ "Deploy to production?" +:+ dq +:+ "`");
      ("input",
       "**input** - Input step" +:+ nl +:+ nl
       +:+ "Collects input from users before continuing the pipeline."
       +:+ nl +:+ nl +:+ "Example:" +:+ nl +:+ "```yaml" +:+ nl
       +:+ "input: " +:+ dq +:+ "Release details" +:+ dq +:+ nl
       +:+ "fields:" +:+ nl +:+ "  - text: " +:+ dq +:+ "version" +:+ dq
       +:+ nl +:+ "    required: true" +:+ nl +:+ "```");
      ("trigger",
       "**trigger** - Trigger another pipeline" +:+ nl +:+ nl
       +:+ "Triggers another pipeline and optionally waits for it to complete."
       +:+ nl +:+ nl +:+ "Example:" +:+ nl +:+ "```yaml" +:+ nl
       +:+ "trigger: " +:+ dq +:+ "my-deployment-pipeline" +:+ dq +:+ nl
       +:+ "build:" +:+ nl +:+ "  message: " +:+ dq
       +:+ "Triggered from ${BUILDKITE_MESSAGE}" +:+ dq +:+ nl +:+ "```");
      ("image",
       "**image** - Docker image to use" +:+ nl +:+ nl
       +:+ "Specifies the Docker image for the docker plugin." +:+ nl +:+ nl
       +:+ "Example: `image: " +:+ dq +:+ "node:18" +:+ dq +:+ "`");
      ("volumes",
       "**volumes** - Docker volume mounts" +:+ nl +:+ nl
       +:+ "Mounts host directories or volumes into the Docker container."
       +:+ nl +:+ nl +:+ "Example:" +:+ nl +:+ "```yaml" +:+ nl
       +:+ "volumes:" +:+ nl +:+ "  - " +:+ dq +:+ ".:/app" +:+ dq +:+ nl
       +:+ "  - " +:+ dq +:+ "./cache:/cache" +:+ dq +:+ nl +:+ "```");
      ("key",
       "**key** - Cache key" +:+ nl +:+ nl
       +:+ "Unique identifier for the cache entry in the cache plugin."
       +:+ nl +:+ nl +:+ "Example: `key: " +:+ dq
       +:+ "v1-{{ checksum 'package-lock.json' }}" +:+ dq +:+ "`");
      ("paths",
       "**paths** - Cache paths" +:+ nl +:+ nl
       +:+ "Directories or files to cache." +:+ nl +:+ nl +:+ "Example:"
       +:+ nl +:+ "```yaml" +:+ nl +:+ "paths:" +:+ nl +:+ "  - " +:+ dq
       +:+ "node_modules" +:+ dq +:+ nl +:+ "  - " +:+ dq +:+ ".cache"
       +:+ dq +:+ nl +:+ "```") ].

(** [getPropertyHoverContent] *)
Definition getPropertyHoverContent (property : string)
    (contextInfo : bkcontext.ContextInfo.t) : string :=
  match propertyDocs !! property with
  | Some doc => doc
  | None =>
      let contextType :=
        if bkcontext.IsAtTopLevel contextInfo then "pipeline-level"
        else if bkcontext.IsInStepContext contextInfo then "step-level"
        else if bkcontext.IsInPluginsArray contextInfo then "plugin"
        else "unknown" in
      "**" +:+ property +:+ "** - " +:+ contextType +:+ " property" +:+ nl
      +:+ nl +:+ "No specific documentation available for this property."
      +:+ nl +:+ nl
      +:+ "[Buildkite Documentation](https://buildkite.com/docs)"
  end.

(** *** Signature help: where the cursor is *)

(** The loop of [isInPluginContext] over the lines [n-1], ..., [0]: the
    flags [inStepsSection] and [inPluginsSection] when it ends. *)
Fixpoint isInPluginContext_loop (lines : list string) (n : nat)
    (inStepsSection : bool) : option (bool * bool) :=
  match n with
  | O => Some (inStepsSection, false)
  | S i =>
      match lines !! i with
      | None => isInPluginContext_loop lines i inStepsSection
      | Some raw =>
          let line := TrimSpace raw in
          if HasPrefix line "plugins:" && (0 <? getIndentLevel raw)
          then Some (inStepsSection, true)
          else
            let inStepsSection :=
              if isStepStart raw then true else inStepsSection in
            top ← unindented line raw;
            if top : bool then Some (inStepsSection, false)
            else isInPluginContext_loop lines i inStepsSection
      end
  end.

(** [isInPluginContext]; [None] is an index out of range. *)
Definition isInPluginContext (ctx : bkcontext.PositionContext.t)
  : option bool :=
  let lines := Split (bkcontext.PositionContext.FullContent ctx) LF in
  let currentLine := Line (bkcontext.PositionContext.Position ctx) in
  '(inStepsSection, inPluginsSection) ←
    isInPluginContext_loop lines (Z.to_nat (currentLine + 1)) false;
  Some (inStepsSection && inPluginsSection).

Fixpoint isInStepContext_loop (lines : list string) (n : nat) : option bool :=
  match n with
  | O => Some false
  | S i =>
      match lines !! i with
      | None => isInStepContext_loop lines i
      | Some line =>
          if isStepStart line then Some true
          else
            top ← unindented (TrimSpace line) line;
            if top : bool then Some false else isInStepContext_loop lines i
      end
  end.

(** [s.isInStepContext] *)
Definition isInStepContext (ctx : bkcontext.PositionContext.t)
  : option bool :=
  let lines := Split (bkcontext.PositionContext.FullContent ctx) LF in
  let currentLine := Line (bkcontext.PositionContext.Position ctx) in
  isInStepContext_loop lines (Z.to_nat (currentLine + 1)).

Fixpoint detectPluginName_loop (lines : list string) (n : nat) : string :=
  match n with
  | O => ""
  | S i =>
      match lines !! i with
      | None => detectPluginName_loop lines i
      | Some raw =>
          let line := TrimSpace raw in
          if Contains line ":" && negb (HasPrefix line "-") then
            match Split line ":" with
            | part :: _ => Trim (TrimSpace part) quotes
            | [] => detectPluginName_loop lines i
            end
          else detectPluginName_loop lines i
      end
  end.

(** [detectPluginName] *)
Definition detectPluginName (ctx : bkcontext.PositionContext.t) : string :=
  let lines := Split (bkcontext.PositionContext.FullContent ctx) LF in
  let currentLine := Line (bkcontext.PositionContext.Position ctx) in
  detectPluginName_loop lines (Z.to_nat (currentLine + 1)).

(** The inner loop of [detectStepType], from the line [j] on, where [rest]
    holds the lines from [j]; [i] is the line of the step's start.  The
    result is what the function returns: the enclosing loop ends after
    it. *)
Fixpoint detectStepType_inner (rest : list string) (j i currentLine : Z)
  : string :=
  match rest with
  | [] => ""
  | raw :: rest' =>
      if currentLine + 10 <? j then ""
      else
        let stepLine := TrimSpace raw in
        if String.eqb stepLine ""
        then detectStepType_inner rest' (j + 1) i currentLine
        else if (i <? j)
                && (HasPrefix (TrimLeft raw indentChars) "- "
                    || startsUnindented raw)
        then ""
        else if Contains stepLine "command:" || Contains stepLine "commands:"
        then "command"
        else if Contains stepLine "wait:" then "wait"
        else if Contains stepLine "block:" then "block"
        else if Contains stepLine "input:" then "input"
        else if Contains stepLine "trigger:" then "trigger"
        else if Contains stepLine "group:" then "group"
        else detectStepType_inner rest' (j + 1) i currentLine
  end.

Fixpoint detectStepType_loop (lines : list string) (n : nat)
    (currentLine : Z) : string :=
  match n with
  | O => ""
  | S i =>
      match lines !! i with
      | None => detectStepType_loop lines i currentLine
      | Some raw =>
          if isStepStart raw
          then detectStepType_inner (drop i lines) (Z.of_nat i) (Z.of_nat i)
                 currentLine
          else detectStepType_loop lines i currentLine
      end
  end.

(** [detectStepType] *)
Definition detectStepType (ctx : bkcontext.PositionContext.t) : string :=
  let lines := Split (bkcontext.PositionContext.FullContent ctx) LF in
  let currentLine := Line (bkcontext.PositionContext.Position ctx) in
  detectStepType_loop lines (Z.to_nat (currentLine + 1)) currentLine.

(** [getPluginParameters] *)
Definition getPluginParameters : list ParameterInformation :=
  [ {| ParameterLabel := "configuration";
       ParameterDocumentation := "Plugin configuration object" |} ].

Definition parameter (label doc : string) : ParameterInformation :=
  {| ParameterLabel := label; ParameterDocumentation := doc |}.

(** [getStepTypeSignature]: [None] is the nil result. *)
Definition getStepTypeSignature (stepType : string)
  : option SignatureInformation :=
  if String.eqb stepType "command" then
    Some {| SignatureLabel := "Command Step";
            SignatureDocumentation :=
              "A command step runs shell commands on an agent";
            Parameters :=
              [ parameter "command" "Shell command(s) to execute";
                parameter "label" "Display name for the step";
                parameter "agents" "Agent targeting rules";
                parameter "env" "Environment variables";
                parameter "plugins" "Plugins to use" ] |}
  else if String.eqb stepType "wait" then
    Some {| SignatureLabel := "Wait Step";
            SignatureDocumentation :=
              "A wait step waits for previous steps to complete";
            Parameters :=
              [ parameter "wait" "Wait message or duration";
                parameter "continue_on_failure"
                  "Continue if previous steps fail";
                parameter "depends_on" "Specific step dependencies" ] |}
  else if String.eqb stepType "block" then
    Some {| SignatureLabel := "Block Step";
            SignatureDocumentation :=
              "A block step pauses the pipeline and waits for manual approval";
            Parameters :=
              [ parameter "block" "Block message shown to users";
                parameter "prompt" "Additional prompt text";
                parameter "fields" "Input fields for user interaction" ] |}
  else if String.eqb stepType "input" then
    Some {| SignatureLabel := "Input Step";
            SignatureDocumentation :=
              "An input step collects information from users";
            Parameters :=
              [ parameter "input" "Input prompt message";
                parameter "fields" "Input field definitions" ] |}
  else if String.eqb stepType "trigger" then
    Some {| SignatureLabel := "Trigger Step";
            SignatureDocumentation := "A trigger step starts another pipeline";
            Parameters :=
              [ parameter "trigger" "Pipeline slug to trigger";
                parameter "build" "Build configuration";
                parameter "async" "Don't wait for completion" ] |}
  else None.

(** [getStepSignatures] *)
Definition getStepSignatures (ctx : bkcontext.PositionContext.t)
  : list SignatureInformation :=
  let stepType := detectStepType ctx in
  if String.eqb stepType "" then []
  else
    match getStepTypeSignature stepType with
    | Some signature => [signature]
    | None => []
    end.

(** [getActiveParameter] *)
Definition getActiveParameter (ctx : bkcontext.PositionContext.t)
    (signature : SignatureInformation) : Z := 0.

(** *** Go to definition *)

(** [isAlphaNumeric] *)
Definition isAlphaNumeric (c : ascii) : bool :=
  in_range 97 122 c || in_range 65 90 c || in_range 48 57 c.

(** The characters of a word in [getWordAtPosition]. *)
Definition isWordByte (c : ascii) : bool :=
  isAlphaNumeric c || Ascii.eqb c "-" || Ascii.eqb c "_".

(** [getWordAtPosition]; [None] is an index out of range. *)
Definition getWordAtPosition (ctx : bkcontext.PositionContext.t)
  : option string :=
  let line := bkcontext.PositionContext.CurrentLine ctx in
  let charIndex := bkcontext.PositionContext.CharIndex ctx in
  if len line <=? charIndex then Some ""
  else
    start ←
      (if 0 <? charIndex
       then Z.of_nat <$> backward isWordByte line (Z.to_nat charIndex)
       else Some charIndex);
    end_ ←
      (if charIndex <? 0 then None
       else Some (advance isWordByte (slice_from line charIndex) charIndex));
    let word := slice line start end_ in
    if 2 <=? len word then
      first ← at_index word 0;
      if Ascii.eqb first DQ || Ascii.eqb first SQ then
        last ← at_index word (len word - 1);
        if Ascii.eqb last first
        then Some (slice word 1 (len word - 1))
        else Some word
      else Some word
    else Some word.

(** [isStepReference] *)
Definition isStepReference (ctx : bkcontext.PositionContext.t)
    (word : string) : bool :=
  let line := TrimSpace (bkcontext.PositionContext.CurrentLine ctx) in
  Contains line "depends_on"
  || Contains line ("- " +:+ dq +:+ word +:+ dq)
  || Contains line ("- '" +:+ word +:+ "'").

Fixpoint isPluginReference_loop (lines : list string) (n : nat)
  : option bool :=
  match n with
  | O => Some false
  | S i =>
      match lines !! i with
      | None => isPluginReference_loop lines i
      | Some raw =>
          let line := TrimSpace raw in
          if HasPrefix line "plugins:" then Some true
          else if isStepStart raw then Some false
          else
            top ← unindented line raw;
            if top : bool then Some false else isPluginReference_loop lines i
      end
  end.

(** [isPluginReference]; [None] is an index out of range. *)
Definition isPluginReference (ctx : bkcontext.PositionContext.t)
    (word : string) : option bool :=
  let lines := Split (bkcontext.PositionContext.FullContent ctx) LF in
  let currentLine := Line (bkcontext.PositionContext.Position ctx) in
  isPluginReference_loop lines (Z.to_nat (currentLine + 1)).

(** [i > stepStartLine && (strings.HasPrefix(strings.TrimLeft(lines[i],
    " \t"), "- ") || (len(lines[i]) > 0 && lines[i][0] != ' ' &&
    lines[i][0] != '\t'))]: the line ends the step. *)
Definition endsStep (first : bool) (raw : string) : bool :=
  negb first
  && (HasPrefix (TrimLeft raw indentChars) "- " || startsUnindented raw).

(** The first loop of [findStepKey], where [rest] holds the lines from the
    current index on and [first] says that the index is [stepStartLine].
    [None]: the loop ends without returning. *)
Fixpoint findExplicitKey (rest : list string) (first : bool) : option string :=
  match rest with
  | [] => None
  | raw :: rest' =>
      let line := TrimSpace raw in
      if endsStep first raw then None
      else if Contains line "key:" then
        let keyStart := Index line "key:" in
        if negb (keyStart =? -1) then
          let keyPart := slice_from line keyStart in
          let parts := SplitN_2 keyPart ":" in
          match parts with
          | [_; value] => Some (Trim (TrimSpace value) quotes)
          | _ => findExplicitKey rest' false
          end
        else findExplicitKey rest' false
      else findExplicitKey rest' false
  end.

Section StepKeys.

(** [strings.ToLower] maps every letter of Unicode to its lower case; it
    is an input here. *)
Variable ToLower : string → string.

(** The second loop of [findStepKey]. *)
Fixpoint findLabelKey (rest : list string) (first : bool) : option string :=
  match rest with
  | [] => None
  | raw :: rest' =>
      let line := TrimSpace raw in
      if endsStep first raw then None
      else if Contains line "label:" then
        let labelStart := Index line "label:" in
        if negb (labelStart =? -1) then
          let labelPart := slice_from line labelStart in
          let parts := SplitN_2 labelPart ":" in
          match parts with
          | [_; value] =>
              let labelValue := Trim (TrimSpace value) quotes in
              let key := ToLower labelValue in
              let key := ReplaceAll key " " "-" in
              let key := ReplaceAll key ":" "" in
              Some key
          | _ => findLabelKey rest' false
          end
        else findLabelKey rest' false
      else findLabelKey rest' false
  end.

(** [findStepKey]; [None] is an index out of range (a start below 0). *)
Definition findStepKey (lines : list string) (stepStartLine : Z)
  : option string :=
  if stepStartLine <? 0 then None
  else
    let rest := drop (Z.to_nat stepStartLine) lines in
    match findExplicitKey rest true with
    | Some keyValue => Some keyValue
    | None =>
        match findLabelKey rest true with
        | Some key => Some key
        | None => Some ""
        end
    end.

(** The loop of [findStepDefinition], where [rest] holds the lines from
    index [i] on.  The outer [option] is [None] for an index out of range;
    the inner one is [None] for the nil result. *)
Fixpoint findStepDefinition_loop (lines rest : list string) (i : Z)
    (inSteps : bool) (uri stepKey : string) : option (option Location) :=
  match rest with
  | [] => Some None
  | line :: rest' =>
      let trimmed := TrimSpace line in
      if String.eqb trimmed "steps:"
      then findStepDefinition_loop lines rest' (i + 1) true uri stepKey
      else if inSteps && startsUnindented line then Some None
      else if inSteps && isStepStart line then
        foundStepKey ← findStepKey lines i;
        if String.eqb foundStepKey stepKey then
          Some (Some {| LocationURI := uri;
                        LocationRange :=
                          {| Start := {| Line := u32 i; Character := 0 |};
                             End_ := {| Line := u32 i;
                                        Character := u32 (len line) |} |} |})
        else findStepDefinition_loop lines rest' (i + 1) inSteps uri stepKey
      else findStepDefinition_loop lines rest' (i + 1) inSteps uri stepKey
  end.

(** [findStepDefinition] *)
Definition findStepDefinition (ctx : bkcontext.PositionContext.t)
    (stepKey : string) : option (option Location) :=
  let lines := Split (bkcontext.PositionContext.FullContent ctx) LF in
  findStepDefinition_loop lines lines 0 false
    (bkcontext.PositionContext.URI ctx) stepKey.

(** [findPluginDefinitions] *)
Definition findPluginDefinitions (ctx : bkcontext.PositionContext.t)
    (pluginName : string) : list Location := [].

(** [findDefinitions]; [None] is an index out of range. *)
Definition findDefinitions (ctx : bkcontext.PositionContext.t)
  : option (list Location) :=
  word ← getWordAtPosition ctx;
  if String.eqb word "" then Some []
  else
    locations ←
      (if isStepReference ctx word then
         stepLocation ← findStepDefinition ctx word;
         match stepLocation with
         | Some location => Some [location]
         | None => Some []
         end
       else Some []);
    plugin ← isPluginReference ctx word;
    if plugin : bool then
      let pluginLocations := findPluginDefinitions ctx word in
      if 0 <? Z.of_nat (length pluginLocations)
      then Some (locations ++ pluginLocations)
      else Some locations
    else Some locations.

End StepKeys.

(** *** Code actions *)

Module StepInfo.
Record t := {
  StartLine : Z;
  EndLine : Z;
  IsCommandStep : bool;
  HasLabel : bool;
  HasKey : bool;
  HasName : bool;
  HasStepType : bool;
  HasEmptyCommand : bool;
  HasSingleCommand : bool;
  LabelLine : Z;
  CommandLine : Z;
  StepTypeLine : Z;
  NameLine : Z
}.
End StepInfo.

(** The first loop of [analyzeStepAtRange], over the lines [n-1], ..., [0]
    above a step's first line: whether a line [steps:] is met before an
    unindented one.  [None] is an index out of range. *)
Fixpoint underSteps (lines : list string) (n : nat) : option bool :=
  match n with
  | O => Some false
  | S i =>
      raw ← lines !! i;
      let line := TrimSpace raw in
      if String.eqb line "steps:" then Some true
      else
        top ← unindented line raw;
        if top : bool then Some false else underSteps lines i
  end.

(** The second loop, over the lines [n-1], ..., [0]: the value of
    [stepStart] when it ends. *)
Fixpoint stepStartAbove (lines : list string) (n : nat) (inSteps : bool)
  : option Z :=
  match n with
  | O => Some (-1)
  | S i =>
      match lines !! i with
      | None => stepStartAbove lines i inSteps
      | Some raw =>
          let line := TrimSpace raw in
          if String.eqb line "steps:" then stepStartAbove lines i true
          else if inSteps && isStepStart raw then Some (Z.of_nat i)
          else
            top ← (if negb inSteps then unindented line raw else Some false);
            if top : bool then Some (-1) else stepStartAbove lines i inSteps
      end
  end.

(** The third loop, from the line [i] on, where [rest] holds the lines
    from [i]: the value of [stepEnd] when it ends. *)
Fixpoint stepEndBelow (rest : list string) (i : Z) : option Z :=
  match rest with
  | [] => Some (-1)
  | line :: rest' =>
      ends ← (if isStepStart line then Some true
              else unindented (TrimSpace line) line);
      if ends : bool then Some (i - 1) else stepEndBelow rest' (i + 1)
  end.

(** One round of the last loop: what the line [i] adds to [info]. *)
Definition analyzeStepLine (info : StepInfo.t) (i : Z) (raw : string)
  : StepInfo.t :=
  let line := TrimSpace raw in
  let label := Contains line "label:" in
  let name := Contains line "name:" in
  let key := Contains line "key:" in
  let command := Contains line "command:" in
  let cmdValue :=
    match SplitN_2s line "command:" with
    | [_; value] => Some (Trim (TrimSpace value) quotes)
    | _ => None
    end in
  let empty :=
    command && match cmdValue with Some v => String.eqb v "" | None => false end in
  let single :=
    command
    && match cmdValue with Some v => negb (String.eqb v "") | None => false end in
  let other :=
    Contains line "wait:" || Contains line "block:" || Contains line "input:"
    || Contains line "trigger:" || Contains line "group:" in
  {| StepInfo.StartLine := StepInfo.StartLine info;
     StepInfo.EndLine := StepInfo.EndLine info;
     StepInfo.IsCommandStep := if command then true else StepInfo.IsCommandStep info;
     StepInfo.HasLabel := if label then true else StepInfo.HasLabel info;
     StepInfo.HasKey := if key then true else StepInfo.HasKey info;
     StepInfo.HasName := if name then true else StepInfo.HasName info;
     StepInfo.HasStepType :=
       if command || other then true else StepInfo.HasStepType info;
     StepInfo.HasEmptyCommand :=
       if empty then true else StepInfo.HasEmptyCommand info;
     StepInfo.HasSingleCommand :=
       if single then true else StepInfo.HasSingleCommand info;
     StepInfo.LabelLine := if label then i else StepInfo.LabelLine info;
     StepInfo.CommandLine := if command then i else StepInfo.CommandLine info;
     StepInfo.StepTypeLine :=
       if command || other then i else StepInfo.StepTypeLine info;
     StepInfo.NameLine := if name then i else StepInfo.NameLine info |}.

(** The last loop, over the lines from [i] to [stepEnd], where [rest] holds
    the lines from [i] on. *)
Fixpoint analyzeStepLines (rest : list string) (i stepEnd : Z)
    (info : StepInfo.t) : StepInfo.t :=
  match rest with
  | [] => info
  | raw :: rest' =>
      if stepEnd <? i then info
      else analyzeStepLines rest' (i + 1) stepEnd (analyzeStepLine info i raw)
  end.

(** [analyzeStepAtRange].  The outer [option] is [None] for an index out of
    range; the inner one is [None] for the nil result. *)
Definition analyzeStepAtRange (rang : Range) (lines : list string)
  : option (option StepInfo.t) :=
  let startLine := Line (Start rang) in
  stepStart ←
    (if startLine <? Z.of_nat (length lines) then
       currentLine ← (if startLine <? 0 then None
                      else lines !! Z.to_nat startLine);
       if isStepStart currentLine then
         found ← underSteps lines (Z.to_nat startLine);
         Some (if found : bool then startLine else -1)
       else Some (-1)
     else Some (-1));
  stepStart ←
    (if stepStart =? -1
     then stepStartAbove lines (Z.to_nat (startLine + 1)) false
     else Some stepStart);
  if stepStart =? -1 then Some None
  else
    stepEnd ← stepEndBelow (drop (Z.to_nat (stepStart + 1)) lines) (stepStart + 1);
    let stepEnd :=
      if stepEnd =? -1 then Z.of_nat (length lines) - 1 else stepEnd in
    let info :=
      {| StepInfo.StartLine := stepStart;
         StepInfo.EndLine := stepEnd;
         StepInfo.IsCommandStep := false;
         StepInfo.HasLabel := false;
         StepInfo.HasKey := false;
         StepInfo.HasName := false;
         StepInfo.HasStepType := false;
         StepInfo.HasEmptyCommand := false;
         StepInfo.HasSingleCommand := false;
         StepInfo.LabelLine := 0;
         StepInfo.CommandLine := 0;
         StepInfo.StepTypeLine := 0;
         StepInfo.NameLine := 0 |} in
    Some (Some (analyzeStepLines (drop (Z.to_nat stepStart) lines)
                  stepStart stepEnd info)).

(** A code action with one edit of the document [uri]. *)
Definition editAction (title : string) (kind : CodeActionKind) (uri : string)
    (startLine startChar endLine endChar : Z) (newText : string)
  : CodeAction :=
  {| Title := title;
     ActionKind := kind;
     Edit :=
       Some {[ uri :=
                 [ {| EditRange :=
                        {| Start := {| Line := startLine;
                                       Character := startChar |};
                           End_ := {| Line := endLine;
                                      Character := endChar |} |};
                      NewText := newText |} ] ]} |}.

(** [createConvertNameToLabelAction]; [None] is an index out of range. *)
Definition createConvertNameToLabelAction (dm : DocumentManager)
    (uri : string) (stepInfo : StepInfo.t) : option CodeAction :=
  let fallback :=
    editAction "Convert 'name' to 'label'" QuickFix uri
      (u32 (StepInfo.NameLine stepInfo)) 0
      (u32 (StepInfo.NameLine stepInfo)) 999
      ("    label: " +:+ dq +:+ "TODO: Add label" +:+ dq) in
  match GetDocument dm uri with
  | None => Some fallback
  | Some doc =>
      if Z.of_nat (length (Document.Lines doc)) <=? StepInfo.NameLine stepInfo
      then Some fallback
      else
        originalLine ←
          (if StepInfo.NameLine stepInfo <? 0 then None
           else Document.Lines doc !! Z.to_nat (StepInfo.NameLine stepInfo));
        let newLine := Replace originalLine "name:" "label:" 1 in
        Some (editAction "Convert 'name' to 'label'" QuickFix uri
                (u32 (StepInfo.NameLine stepInfo)) 0
                (u32 (StepInfo.NameLine stepInfo)) (u32 (len originalLine))
                newLine)
  end.

(** [createAddLabelAction] *)
Definition createAddLabelAction (uri : string) (stepInfo : StepInfo.t)
  : CodeAction :=
  let suggestedLabel := "Step " +:+ fmt.verb_d (StepInfo.StartLine stepInfo) in
  let insertLine := StepInfo.StartLine stepInfo + 1 in
  let newText := "    label: " +:+ dq +:+ suggestedLabel +:+ dq +:+ nl in
  editAction "Add label to step" QuickFix uri
    (u32 insertLine) 0 (u32 insertLine) 0 newText.

(** [createAddKeyAction] *)
Definition createAddKeyAction (uri : string) (stepInfo : StepInfo.t)
  : CodeAction :=
  let suggestedKey := "step-" +:+ fmt.verb_d (StepInfo.StartLine stepInfo) in
  let insertLine := StepInfo.LabelLine stepInfo + 1 in
  let newText := "    key: " +:+ dq +:+ suggestedKey +:+ dq +:+ nl in
  editAction "Add key to step" QuickFix uri
    (u32 insertLine) 0 (u32 insertLine) 0 newText.

(** The placeholder command of two of the quick fixes. *)
Definition todoCommand : string :=
  "    command: " +:+ dq +:+ "echo 'TODO: Add command'" +:+ dq.

(** [createFixEmptyCommandAction] *)
Definition createFixEmptyCommandAction (uri : string) (stepInfo : StepInfo.t)
  : CodeAction :=
  editAction "Fix empty command" QuickFix uri
    (u32 (StepInfo.CommandLine stepInfo)) 0
    (u32 (StepInfo.CommandLine stepInfo + 1)) 0
    (todoCommand +:+ nl).

(** [createAddStepTypeAction] *)
Definition createAddStepTypeAction (uri : string) (stepInfo : StepInfo.t)
  : CodeAction :=
  let insertLine := StepInfo.StartLine stepInfo + 1 in
  editAction "Add command to step" QuickFix uri
    (u32 insertLine) 0 (u32 insertLine) 0 (todoCommand +:+ nl).

(** [createConvertToCommandsArrayAction] *)
Definition createConvertToCommandsArrayAction (uri : string)
    (stepInfo : StepInfo.t) : CodeAction :=
  let newText :=
    "    commands:" +:+ nl
    +:+ "      - " +:+ dq +:+ "echo 'TODO: Add first command'" +:+ dq +:+ nl
    +:+ "      - " +:+ dq +:+ "echo 'TODO: Add second command'" +:+ dq in
  editAction "Convert to commands array" RefactorRewrite uri
    (u32 (StepInfo.CommandLine stepInfo)) 0
    (u32 (StepInfo.CommandLine stepInfo + 1)) 0
    (newText +:+ nl).

(** [createExtractStepAction] *)
Definition createExtractStepAction (uri : string) (stepInfo : StepInfo.t)
  : CodeAction :=
  {| Title := "Extract to separate step";
     ActionKind := Refactor;
     Edit := None |}.

(** [getQuickFixActions], for the range and the URI of the parameters;
    [None] is an index out of range. *)
Definition getQuickFixActions (dm : DocumentManager) (uri : string)
    (rang : Range) (doc : Document.t) : option (list CodeAction) :=
  stepInfo ← analyzeStepAtRange rang (Document.Lines doc);
  match stepInfo with
  | None => Some []
  | Some stepInfo =>
      convert ←
        (if StepInfo.HasName stepInfo && negb (StepInfo.HasLabel stepInfo)
         then action ← createConvertNameToLabelAction dm uri stepInfo;
              Some [action]
         else Some []);
      Some (convert
            ++ (if negb (StepInfo.HasLabel stepInfo)
                   && negb (StepInfo.HasName stepInfo)
                   && StepInfo.IsCommandStep stepInfo
                then [createAddLabelAction uri stepInfo] else [])
            ++ (if negb (StepInfo.HasKey stepInfo)
                   && (StepInfo.HasLabel stepInfo || StepInfo.HasName stepInfo)
                then [createAddKeyAction uri stepInfo] else [])
            ++ (if StepInfo.IsCommandStep stepInfo
                   && StepInfo.HasEmptyCommand stepInfo
                then [createFixEmptyCommandAction uri stepInfo] else [])
            ++ (if negb (StepInfo.HasStepType stepInfo)
                then [createAddStepTypeAction uri stepInfo] else []))
  end.

(** [getRefactorActions] *)
Definition getRefactorActions (uri : string) (rang : Range)
    (doc : Document.t) : option (list CodeAction) :=
  stepInfo ← analyzeStepAtRange rang (Document.Lines doc);
  match stepInfo with
  | None => Some []
  | Some stepInfo =>
      Some ((if StepInfo.IsCommandStep stepInfo
                && StepInfo.HasSingleCommand stepInfo
             then [createConvertToCommandsArrayAction uri stepInfo] else [])
            ++ (if StepInfo.IsCommandStep stepInfo
                then [createExtractStepAction uri stepInfo] else []))
  end.

(** [CodeAction]: the actions returned, [Some []] for the nil slice;
    [None] is an index out of range. *)
Definition CodeAction_ (dm : DocumentManager) (uri : string) (rang : Range)
  : option (list CodeAction) :=
  if negb (isBuildkiteFile uri) then Some []
  else
    match GetDocument dm uri with
    | None => Some []
    | Some doc =>
        quickFixes ← getQuickFixActions dm uri rang doc;
        refactors ← getRefactorActions uri rang doc;
        Some (quickFixes ++ refactors)
    end.

(** *** Document symbols *)

(** [extractQuotedValue] *)
Definition extractQuotedValue (line : string) : string :=
  let colonIndex := Index line ":" in
  if negb (colonIndex =? -1) then
    let afterColon := TrimSpace (slice_from line (colonIndex + 1)) in
    let quotedValue :=
      match afterColon with
      | String quote _ =>
          if (2 <=? len afterColon)
             && (Ascii.eqb quote DQ || Ascii.eqb quote SQ)
          then
            let endQuote := LastIndex afterColon (String quote "") in
            if 0 <? endQuote then Some (slice afterColon 1 endQuote) else None
          else None
      | "" => None
      end in
    match quotedValue with
    | Some value => value
    | None =>
        if negb (String.eqb afterColon "") && negb (HasPrefix afterColon "[")
           && negb (HasPrefix afterColon "{")
        then afterColon
        else ""
    end
  else "".

(** One round of the loop of [createStepSymbol]: the type, the label and
    the kind after the line. *)
Definition describeStepLine (st : string * string * SymbolKind) (raw : string)
  : string * string * SymbolKind :=
  let '(stepType, stepLabel, stepKind) := st in
  let line := TrimSpace raw in
  if HasPrefix line "label:" || HasPrefix line "- label:" then
    let label := extractQuotedValue line in
    if negb (String.eqb label "") then ("Command Step", label, stepKind)
    else st
  else if HasPrefix line "wait:" || String.eqb line "wait"
          || HasPrefix line "- wait" then
    let value := extractQuotedValue line in
    ("Wait",
     if negb (String.eqb value "") then "Wait: " +:+ value else "Wait Step",
     SymbolKindEvent)
  else if HasPrefix line "block:" || HasPrefix line "- block:" then
    let value := extractQuotedValue line in
    ("Block",
     if negb (String.eqb value "") then "Block: " +:+ value
     else "Manual Approval",
     SymbolKindEvent)
  else if HasPrefix line "input:" || HasPrefix line "- input:" then
    let value := extractQuotedValue line in
    ("Input",
     if negb (String.eqb value "") then "Input: " +:+ value else "Input Step",
     SymbolKindEvent)
  else if HasPrefix line "trigger:" || HasPrefix line "- trigger:" then
    let value := extractQuotedValue line in
    ("Trigger",
     if negb (String.eqb value "") then "Trigger: " +:+ value
     else "Trigger Step",
     SymbolKindEvent)
  else st.

(** The loop, over the lines from [i] to [endLine], where [rest] holds the
    lines from [i] on. *)
Fixpoint describeStep (rest : list string) (i endLine : Z)
    (st : string * string * SymbolKind) : string * string * SymbolKind :=
  match rest with
  | [] => st
  | raw :: rest' =>
      if endLine <? i then st
      else describeStep rest' (i + 1) endLine (describeStepLine st raw)
  end.

(** [createStepSymbol].  The outer [option] is [None] for an index out of
    range; the inner one is [None] for the nil result. *)
Definition createStepSymbol (lines : list string) (index startLine endLine : Z)
  : option (option DocumentSymbol) :=
  if Z.of_nat (length lines) <=? startLine then Some None
  else
    let '(stepType, stepLabel, stepKind) :=
      describeStep (drop (Z.to_nat startLine) lines) startLine endLine
        ("Step", "Step " +:+ fmt.verb_d (index + 1), SymbolKindObject) in
    first ← (if startLine <? 0 then None else lines !! Z.to_nat startLine);
    Some (Some (Build_DocumentSymbol stepLabel stepKind
                  {| Start := {| Line := u32 startLine; Character := 0 |};
                     End_ := {| Line := u32 endLine; Character := 0 |} |}
                  {| Start := {| Line := u32 startLine; Character := 0 |};
                     End_ := {| Line := u32 startLine;
                                Character := u32 (len first) |} |}
                  stepType [])).

(** The first loop of [extractStepsSymbol]: the index of the first line
    that is [steps:] once trimmed, or -1. *)
Fixpoint findStepsLine (lines : list string) (i : Z) : Z :=
  match lines with
  | [] => -1
  | line :: rest =>
      if String.eqb (TrimSpace line) "steps:" then i
      else findStepsLine rest (i + 1)
  end.

(** [len(line) - len(strings.TrimLeft(line, " "))] *)
Definition leadingSpaces (line : string) : Z :=
  len line - len (TrimLeft line " ").

(** The second loop, from the line [i] on: [children],
    [currentStepStart] and [stepIndex] when it ends. *)
Fixpoint collectSteps (lines rest : list string) (i : Z)
    (children : list DocumentSymbol) (currentStepStart stepIndex : Z)
  : option (list DocumentSymbol * Z * Z) :=
  match rest with
  | [] => Some (children, currentStepStart, stepIndex)
  | line :: rest' =>
      if startsUnindented line
      then Some (children, currentStepStart, stepIndex)
      else
        let trimmedLeft := TrimLeft line indentChars in
        if HasPrefix trimmedLeft "- " && (leadingSpaces line =? 2) then
          '(children, stepIndex) ←
            (if negb (currentStepStart =? -1) then
               stepSymbol ←
                 createStepSymbol lines stepIndex currentStepStart (i - 1);
               Some (match stepSymbol with
                     | Some symbol => children ++ [symbol]
                     | None => children
                     end, stepIndex + 1)
             else Some (children, stepIndex));
          collectSteps lines rest' (i + 1) children i stepIndex
        else
          collectSteps lines rest' (i + 1) children currentStepStart stepIndex
  end.

(** The loops that look for the end of a section, from the line [i] on:
    the index before the first unindented line, or [None]. *)
Fixpoint sectionEnd (rest : list string) (i : Z) : option Z :=
  match rest with
  | [] => None
  | line :: rest' =>
      if startsUnindented line then Some (i - 1) else sectionEnd rest' (i + 1)
  end.

(** [extractStepsSymbol] *)
Definition extractStepsSymbol (lines : list string)
  : option (option DocumentSymbol) :=
  let stepsLine := findStepsLine lines 0 in
  if stepsLine =? -1 then Some None
  else
    '(children, currentStepStart, stepIndex) ←
      collectSteps lines (drop (Z.to_nat (stepsLine + 1)) lines)
        (stepsLine + 1) [] (-1) 0;
    children ←
      (if negb (currentStepStart =? -1) then
         stepSymbol ←
           createStepSymbol lines stepIndex currentStepStart
             (Z.of_nat (length lines) - 1);
         Some (match stepSymbol with
               | Some symbol => children ++ [symbol]
               | None => children
               end)
       else Some children);
    let endLine :=
      default (Z.of_nat (length lines) - 1)
        (sectionEnd (drop (Z.to_nat (stepsLine + 1)) lines) (stepsLine + 1)) in
    Some (Some (Build_DocumentSymbol
                  ("steps (" +:+ fmt.verb_d (Z.of_nat (length children)) +:+ ")")
                  SymbolKindArray
                  {| Start := {| Line := u32 stepsLine; Character := 0 |};
                     End_ := {| Line := u32 endLine; Character := 0 |} |}
                  {| Start := {| Line := u32 stepsLine; Character := 0 |};
                     End_ := {| Line := u32 stepsLine;
                                Character := u32 (len "steps:") |} |}
                  "" children)).

(** The inner loop of [extractTopLevelSymbol], from the line [j] on: the
    value of [endLine] when it ends. *)
Fixpoint propertyEnd (rest : list string) (j last endLine : Z) : Z :=
  match rest with
  | [] => endLine
  | nextLine :: rest' =>
      if startsUnindented nextLine then j - 1
      else propertyEnd rest' (j + 1) last (if j =? last then j else endLine)
  end.

(** [extractTopLevelSymbol]: [None] is the nil result. *)
Fixpoint extractTopLevelSymbol_loop (rest : list string) (i last : Z)
    (property : string) (kind : SymbolKind) (detail : string)
  : option DocumentSymbol :=
  match rest with
  | [] => None
  | line :: rest' =>
      let trimmed := TrimSpace line in
      if String.eqb trimmed (property +:+ ":")
         || HasPrefix trimmed (property +:+ ":")
      then
        let endLine := propertyEnd rest' (i + 1) last i in
        Some (Build_DocumentSymbol property kind
                {| Start := {| Line := u32 i; Character := 0 |};
                   End_ := {| Line := u32 endLine; Character := 0 |} |}
                {| Start := {| Line := u32 i; Character := 0 |};
                   End_ := {| Line := u32 i;
                              Character := u32 (len property) |} |}
                detail [])
      else extractTopLevelSymbol_loop rest' (i + 1) last property kind detail
  end.

Definition extractTopLevelSymbol (lines : list string) (property : string)
    (kind : SymbolKind) (detail : string) : option DocumentSymbol :=
  extractTopLevelSymbol_loop lines 0 (Z.of_nat (length lines) - 1)
    property kind detail.

(** [extractEnvSymbol] and [extractAgentsSymbol] *)
Definition extractEnvSymbol (lines : list string) : option DocumentSymbol :=
  extractTopLevelSymbol lines "env" SymbolKindObject "Environment Variables".

Definition extractAgentsSymbol (lines : list string) : option DocumentSymbol :=
  extractTopLevelSymbol lines "agents" SymbolKindObject "Agent Requirements".

(** [extractOtherTopLevelSymbols] *)
Definition extractOtherTopLevelSymbols (lines : list string)
  : list DocumentSymbol :=
  [ ("notify", SymbolKindObject, "Notifications");
    ("skip", SymbolKindString, "Skip Condition");
    ("group", SymbolKindObject, "Pipeline Group");
    ("timeout_in_minutes", SymbolKindNumber, "Pipeline Timeout") ]
  ≫= λ '(name, kind, detail),
       match extractTopLevelSymbol lines name kind detail with
       | Some symbol => [symbol]
       | None => []
       end.

(** *** Diagnostics of a pipeline *)

(** [findLineForProperty] *)
Fixpoint findLineForProperty_from (property : string) (rest : list string)
    (i : Z) : option Z :=
  match rest with
  | [] => None
  | line :: rest' =>
      if String.eqb (TrimSpace line) (property +:+ ":") then Some i
      else findLineForProperty_from property rest' (i + 1)
  end.

Definition findLineForProperty (property : string) (lines : list string) : Z :=
  default (Z.of_nat (length lines) - 1)
    (findLineForProperty_from property lines 0).

(** [findStepLines]: the loop from the line [i] on. *)
Fixpoint findStepLines_from (rest : list string) (i : Z) (inSteps : bool)
    (stepLines : list Z) : list Z :=
  match rest with
  | [] => stepLines
  | line :: rest' =>
      if String.eqb (TrimSpace line) "steps:"
      then findStepLines_from rest' (i + 1) true stepLines
      else if inSteps && startsUnindented line then stepLines
      else if inSteps && HasPrefix (TrimLeft line indentChars) "- "
              && (leadingSpaces line =? 2)
      then findStepLines_from rest' (i + 1) inSteps (stepLines ++ [i])
      else findStepLines_from rest' (i + 1) inSteps stepLines
  end.

Definition findStepLines (lines : list string) : list Z :=
  findStepLines_from lines 0 false [].

(** A diagnostic on the whole of the line [lineNum]; [None] is an index out
    of range. *)
Definition lineDiagnostic (lines : list string) (lineNum : Z)
    (message code : string) : option Diagnostic :=
  line ← (if lineNum <? 0 then None else lines !! Z.to_nat lineNum);
  Some (diagnostic (u32 lineNum) 0 (u32 lineNum) (u32 (len line))
          DiagnosticSeverityError message code).

(** [validatePipelineStructure]; [None] is an index out of range. *)
Definition validatePipelineStructure (pipelineData : gmap string json.value)
    (lines : list string) : option (list Diagnostic) :=
  steps ←
    (match pipelineData !! "steps" with
     | None =>
         d ← lineDiagnostic lines (findLineForProperty "steps" lines)
               "Pipeline must contain a 'steps' array" "missing-steps";
         Some [d]
     | Some _ => Some []
     end);
  env ←
    (match pipelineData !! "env" with
     | Some (json.Object _) | None => Some []
     | Some _ =>
         d ← lineDiagnostic lines (findLineForProperty "env" lines)
               "Environment variables must be an object with string keys and values"
               "invalid-env";
         Some [d]
     end);
  Some (steps ++ env).

(** The line of the step of index [stepIndex]. *)
Definition stepLineNum (stepLines : list Z) (stepIndex : nat) : Z :=
  match stepLines !! stepIndex with
  | Some line => u32 line
  | None => u32 (Z.of_nat stepIndex)
  end.

(** [validateSteps] *)
Definition validateSteps (pipelineData : gmap string json.value)
    (lines : list string) : list Diagnostic :=
  match pipelineData !! "steps" with
  | Some (json.Array steps) =>
      let stepLines := findStepLines lines in
      mjoin (imap (λ stepIndex stepItem,
                     match stepItem with
                     | json.Object stepData =>
                         validateSingleStep stepData
                           (stepLineNum stepLines stepIndex)
                           (Z.of_nat stepIndex + 1)
                     | _ => []
                     end) steps)
  | _ => []
  end.

(** What the handlers read and write of the [Server]. *)
Module Server.
Record t := {
  documentManager : DocumentManager;
  pluginRegistry : plugins.Registry.t
}.
End Server.

(** [s.getContextualHoverContent], [getPluginSignatures] and the handlers
    read the plugin registry, the YAML parser and the schema loader. *)
Section Handlers.

(** [s.pluginRegistry.GetPluginSchema] and [ValidatePluginConfig], with
    the registry before and after; [parser.ParseYAML];
    [s.schemaLoader.ValidateJSON] up to the result of the library's
    validation; [json.Unmarshal] of the pipeline's JSON text into a map
    ([None] is its error); [strings.ToLower]; and the completions the
    registry leads to, as in section [Completion]. *)
Variable GetPluginSchema :
  plugins.Registry.t → string
  → option (plugins.Registry.t * (string + option plugins.PluginSchema.t)).
Variable ValidatePluginConfig :
  plugins.Registry.t → string → json.value
  → option (plugins.Registry.t * option string).
Variable ParseYAML : string → string + parser.Pipeline.t.
Variable validateSchema : string → schema.validation.
Variable unmarshalPipeline : string → option (gmap string json.value).
Variable ToLower : string → string.
Variable completionsFromRegistry : string → Z → option (list CompletionItem).

(** The loop of [validatePluginConfigurations] over the plugins of a
    step. *)
Fixpoint validatePluginRefs (registry : plugins.Registry.t)
    (pluginRefs : list plugins.PluginReference.t) (lineNum : Z)
  : option (plugins.Registry.t * list Diagnostic) :=
  match pluginRefs with
  | [] => Some (registry, [])
  | pluginRef :: rest =>
      '(registry, err) ←
        ValidatePluginConfig registry
          (plugins.PluginReference.Name pluginRef)
          (plugins.PluginReference.Config pluginRef);
      '(registry, diagnostics) ← validatePluginRefs registry rest lineNum;
      Some (registry,
            match err with
            | Some err =>
                diagnostic lineNum 0 (u32 (lineNum + 2)) 0
                  DiagnosticSeverityError
                  ("Plugin '" +:+ plugins.PluginReference.Name pluginRef
                   +:+ "' configuration error: " +:+ err)
                  "plugin-config-error"
                :: diagnostics
            | None => diagnostics
            end)
  end.

(** The loop over the steps, from the index [stepIndex] on. *)
Fixpoint validatePluginSteps (registry : plugins.Registry.t)
    (steps : list json.value) (stepIndex : nat) (stepLines : list Z)
  : option (plugins.Registry.t * list Diagnostic) :=
  match steps with
  | [] => Some (registry, [])
  | stepItem :: rest =>
      '(registry, here) ←
        (match stepItem with
         | json.Object stepData =>
             validatePluginRefs registry (plugins.ParsePluginFromStep stepData)
               (stepLineNum stepLines stepIndex)
         | _ => Some (registry, [])
         end);
      '(registry, diagnostics) ←
        validatePluginSteps registry rest (S stepIndex) stepLines;
      Some (registry, here ++ diagnostics)
  end.

(** [validatePluginConfigurations]: the registry afterwards and the
    diagnostics. *)
Definition validatePluginConfigurations (registry : plugins.Registry.t)
    (pipelineData : gmap string json.value) (lines : list string)
  : option (plugins.Registry.t * list Diagnostic) :=
  match pipelineData !! "steps" with
  | Some (json.Array steps) =>
      validatePluginSteps registry steps 0 (findStepLines lines)
  | _ => Some (registry, [])
  end.

(** [validatePlugins] *)
Definition validatePlugins (registry : plugins.Registry.t)
    (pipeline : parser.Pipeline.t)
  : option (plugins.Registry.t * list Diagnostic) :=
  match unmarshalPipeline (parser.Pipeline.JSONBytes pipeline) with
  | None => Some (registry, [])
  | Some pipelineData =>
      let lines := Split (parser.Pipeline.Content pipeline) LF in
      structure ← validatePipelineStructure pipelineData lines;
      '(registry, configurations) ←
        validatePluginConfigurations registry pipelineData lines;
      Some (registry,
            structure ++ validateSteps pipelineData lines ++ configurations)
  end.

(** A diagnostic with no source and no code, as [validateDocument] builds
    them. *)
Definition bareDiagnostic (startLine endChar : Z) (message : string)
  : Diagnostic :=
  {| Range_ := {| Start := {| Line := startLine; Character := 0 |};
                  End_ := {| Line := startLine; Character := endChar |} |};
     Severity := DiagnosticSeverityError;
     Message := message;
     Source := "";
     Code := "" |}.

(** [validateDocument]: the registry afterwards and the diagnostics handed
    to [sendDiagnostics], [None] when it is not called. *)
Definition validateDocument (registry : plugins.Registry.t)
    (uri content : string)
  : option (plugins.Registry.t * option (list Diagnostic)) :=
  if negb (isBuildkiteFile uri) then Some (registry, None)
  else
    match ParseYAML content with
    | inl err =>
        Some (registry,
              Some [bareDiagnostic 0 0 ("YAML parse error: " +:+ err)])
    | inr pipeline =>
        match schema.ValidateJSON
                (validateSchema (parser.Pipeline.JSONBytes pipeline)) with
        | inl err =>
            Some (registry,
                  Some [bareDiagnostic 0 0 ("Schema loading error: " +:+ err)])
        | inr (Some validationErr) =>
            let line :=
              parser.GetLineForError pipeline
                (schema.ValidationError.Message validationErr) in
            Some (registry,
                  Some [bareDiagnostic (u32 (line - 1)) 999
                          ("Schema validation error: "
                           +:+ schema.ValidationError.Message validationErr)])
        | inr None =>
            '(registry, diagnostics) ← validatePlugins registry pipeline;
            Some (registry, Some diagnostics)
        end
    end.

(** *** The handlers *)

(** [DidOpen]: the server afterwards and the diagnostics handed to
    [sendDiagnostics]; [None] is a panic. *)
Definition DidOpen (s : Server.t) (uri : string) (version : Z) (text : string)
  : option (Server.t * option (list Diagnostic)) :=
  let dm := OpenDocument (Server.documentManager s) uri version text in
  '(registry, sent) ← validateDocument (Server.pluginRegistry s) uri text;
  Some ({| Server.documentManager := dm; Server.pluginRegistry := registry |},
        sent).

(** [DidChange]: [contentChanges] holds the texts of the changes. *)
Definition DidChange (s : Server.t) (uri : string) (version : Z)
    (contentChanges : list string)
  : option (Server.t * option (list Diagnostic)) :=
  if 0 <? Z.of_nat (length contentChanges) then
    lastChange ← contentChanges !! (length contentChanges - 1)%nat;
    let dm := UpdateDocument (Server.documentManager s) uri version lastChange in
    '(registry, sent) ←
      validateDocument (Server.pluginRegistry s) uri lastChange;
    Some ({| Server.documentManager := dm; Server.pluginRegistry := registry |},
          sent)
  else Some (s, None).

(** [DidClose] *)
Definition DidClose (s : Server.t) (uri : string) : Server.t :=
  {| Server.documentManager := CloseDocument (Server.documentManager s) uri;
     Server.pluginRegistry := Server.pluginRegistry s |}.

(** [s.getContextualHoverContent]: the registry afterwards and the text;
    [None] is a panic. *)
Definition getContextualHoverContent (registry : plugins.Registry.t)
    (posCtx : option bkcontext.PositionContext.t)
  : option (plugins.Registry.t * string) :=
  match posCtx with
  | None => Some (registry, "")
  | Some ctx =>
      contextInfo ← bkcontext.AnalyzeContext posCtx;
      currentWord ← extractWordAtPosition ctx;
      if String.eqb currentWord "" then Some (registry, "")
      else if Contains currentWord "#" && bkcontext.IsInPluginsArray contextInfo
      then
        '(registry, got) ← GetPluginSchema registry currentWord;
        content ← getPluginHoverContent got currentWord;
        Some (registry, content)
      else Some (registry, getPropertyHoverContent currentWord contextInfo)
  end.

(** [Hover]: the server afterwards and the Markdown text of the hover,
    [None] for the nil result. *)
Definition Hover (s : Server.t) (uri : string) (position : Position)
  : option (Server.t * option string) :=
  if negb (isBuildkiteFile uri) then Some (s, None)
  else
    posCtx ← GetContentAtPosition (Server.documentManager s) uri position;
    '(registry, hoverContent) ←
      getContextualHoverContent (Server.pluginRegistry s) posCtx;
    let s := {| Server.documentManager := Server.documentManager s;
                Server.pluginRegistry := registry |} in
    if String.eqb hoverContent "" then Some (s, None)
    else Some (s, Some hoverContent).

(** [Completion]: the items of the list returned; [None] is a panic, and
    the context is dereferenced, for the log, before it is tested. *)
Definition Completion (s : Server.t) (uri : string) (position : Position)
  : option (list CompletionItem) :=
  if negb (isBuildkiteFile uri) then Some []
  else
    positionContext ←
      GetContentAtPosition (Server.documentManager s) uri position;
    match positionContext with
    | None => None
    | Some _ => GetCompletions completionsFromRegistry positionContext
    end.

(** [getPluginSignatures] *)
Definition getPluginSignatures (registry : plugins.Registry.t)
    (ctx : bkcontext.PositionContext.t)
  : option (plugins.Registry.t * list SignatureInformation) :=
  let pluginName := detectPluginName ctx in
  if String.eqb pluginName "" then Some (registry, [])
  else
    '(registry, got) ← GetPluginSchema registry pluginName;
    match got with
    | inr (Some pluginSchema) =>
        Some (registry,
              [ {| SignatureLabel := pluginName +:+ " plugin configuration";
                   SignatureDocumentation :=
                     "Configuration options for the **" +:+ pluginName
                     +:+ "** plugin";
                   Parameters := getPluginParameters |} ])
    | _ => Some (registry, [])
    end.

(** [getSignatureHelp] *)
Definition getSignatureHelp (registry : plugins.Registry.t)
    (ctx : bkcontext.PositionContext.t)
  : option (plugins.Registry.t * list SignatureInformation) :=
  inPlugin ← isInPluginContext ctx;
  if inPlugin : bool then getPluginSignatures registry ctx
  else
    inStep ← isInStepContext ctx;
    if inStep : bool then Some (registry, getStepSignatures ctx)
    else Some (registry, []).

(** [SignatureHelp]: [None] is a panic, as in [Completion]. *)
Definition SignatureHelp_ (s : Server.t) (uri : string) (position : Position)
  : option (Server.t * option SignatureHelp) :=
  if negb (isBuildkiteFile uri) then Some (s, None)
  else
    positionContext ←
      GetContentAtPosition (Server.documentManager s) uri position;
    match positionContext with
    | None => None
    | Some ctx =>
        '(registry, signatures) ← getSignatureHelp (Server.pluginRegistry s) ctx;
        let s := {| Server.documentManager := Server.documentManager s;
                    Server.pluginRegistry := registry |} in
        if Z.of_nat (length signatures) =? 0 then Some (s, None)
        else
          first ← signatures !! 0%nat;
          Some (s, Some {| Signatures := signatures;
                           ActiveSignature := 0;
                           ActiveParameter := getActiveParameter ctx first |})
    end.

(** [Definition]: the locations returned. *)
Definition Definition_ (s : Server.t) (uri : string) (position : Position)
  : option (list Location) :=
  if negb (isBuildkiteFile uri) then Some []
  else
    positionContext ←
      GetContentAtPosition (Server.documentManager s) uri position;
    match positionContext with
    | None => None
    | Some ctx => findDefinitions ToLower ctx
    end.

(** [extractDocumentSymbols]: [inl] is the error. *)
Definition extractDocumentSymbols (content : string) (lines : list string)
  : option (string + list DocumentSymbol) :=
  match ParseYAML content with
  | inl err => Some (inl ("failed to parse YAML: " +:+ err))
  | inr _ =>
      stepsSymbol ← extractStepsSymbol lines;
      Some (inr (option_list (extractEnvSymbol lines)
                 ++ option_list (extractAgentsSymbol lines)
                 ++ option_list stepsSymbol
                 ++ extractOtherTopLevelSymbols lines))
  end.

(** [DocumentSymbol]: [inl] is the error returned, [inr] the symbols
    ([[]] for the nil slice). *)
Definition DocumentSymbol_ (s : Server.t) (uri : string)
  : option (string + list DocumentSymbol) :=
  if negb (isBuildkiteFile uri) then Some (inr [])
  else
    match GetDocument (Server.documentManager s) uri with
    | None => Some (inl ("document not found: " +:+ uri))
    | Some doc =>
        symbols ← extractDocumentSymbols (Document.Content doc)
                    (Document.Lines doc);
        match symbols with
        | inl _ => Some (inr [])
        | inr symbols => Some (inr symbols)
        end
    end.

(** [SemanticTokensFull]: the field [Data] of the result. *)
Definition SemanticTokensFull (s : Server.t) (uri : string)
  : option (list Z) :=
  if negb (isBuildkiteFile uri) then Some []
  else
    match GetDocument (Server.documentManager s) uri with
    | None => Some []
    | Some doc => generateSemanticTokens (Document.Lines doc)
    end.

(** [SemanticTokensRange] *)
Definition SemanticTokensRange (s : Server.t) (uri : string) (rang : Range)
  : option (list Z) :=
  if negb (isBuildkiteFile uri) then Some []
  else
    match GetDocument (Server.documentManager s) uri with
    | None => Some []
    | Some doc =>
        let startLine := Line (Start rang) in
        let endLine := Line (End_ rang) in
        if (startLine <? 0)
           || (Z.of_nat (length (Document.Lines doc)) <=? endLine)
           || (endLine <? startLine)
        then Some []
        else
          let rangeLines :=
            take (Z.to_nat (endLine + 1 - startLine))
              (drop (Z.to_nat startLine) (Document.Lines doc)) in
          generateSemanticTokensForRange rangeLines startLine
    end.

End Handlers.

End lsp.

(** * The vocabulary of the specification

    What the statements below say about the code: predicates on texts and
    on results, and the concrete inputs they are evaluated at. *)

Import gostrings.

(** ** Texts *)

(** The byte [c] does not occur in [s]. *)
Fixpoint free_of (c : ascii) (s : string) : bool :=
  match s with
  | "" => true
  | String d s' => negb (Ascii.eqb d c) && free_of c s'
  end.

(** The text without its carriage returns. *)
Fixpoint dropCR (s : string) : string :=
  match s with
  | "" => ""
  | String c s' => if Ascii.eqb c CR then dropCR s' else String c (dropCR s')
  end.

(** No character of the string is a line feed or a carriage return. *)
Fixpoint plain_line (s : string) : bool :=
  match s with
  | "" => true
  | String c s' => negb (Ascii.eqb c LF) && negb (Ascii.eqb c CR) && plain_line s'
  end.

(** The lines, each followed by a line feed. *)
Fixpoint terminated (lines : list string) : string :=
  match lines with
  | [] => ""
  | line :: rest => line +:+ nl +:+ terminated rest
  end.

(** ** Documents *)

(** Every document of the manager keeps the lines of its text. *)
Definition lines_in_step (dm : gmap string lsp.Document.t) : Prop :=
  ∀ uri doc, lsp.GetDocument dm uri = Some doc →
             lsp.Document.Lines doc
             = lsp.splitLines (lsp.Document.Content doc).

(** ** The context analyzer *)

(** The kinds the analyzer gives a position it has looked at. *)
Definition known (kind : bkcontext.CompletionContext) : Prop :=
  kind = bkcontext.ContextTopLevel ∨ kind = bkcontext.ContextStep
  ∨ kind = bkcontext.ContextPlugins ∨ kind = bkcontext.ContextPluginConfig.

(** A position context with no context line at all. *)
Definition noLines : bkcontext.PositionContext.t :=
  {| bkcontext.PositionContext.URI := "file:///p/.buildkite/pipeline.yml";
     bkcontext.PositionContext.Position := {| protocol.Line := 0; protocol.Character := 0 |};
     bkcontext.PositionContext.CurrentLine := "";
     bkcontext.PositionContext.CharIndex := 0;
     bkcontext.PositionContext.ContextLines := [];
     bkcontext.PositionContext.FullContent := "" |}.

(** ** Validation errors *)

(** The priority of an error: its type's entry in the table, 999 for a
    type the table does not list. *)
Definition priority (err : schema.ResultError.t) : Z :=
  default 999 (schema.errorPriority !! schema.ResultError.Type_ err).

(** A result with four errors: two of the least priority that occurs,
    after one of a greater priority and before one of a type outside the
    table. *)
Definition sampleErrors : list schema.ResultError.t :=
  [ {| schema.ResultError.Type_ := "enum";
       schema.ResultError.Field := "steps.0.concurrency_method";
       schema.ResultError.Description := "steps.0.concurrency_method must be one of the following";
       schema.ResultError.Details := {[ "allowed" := fmt.AnyString "eager, ordered" ]} |};
    {| schema.ResultError.Type_ := "required";
       schema.ResultError.Field := "steps.0";
       schema.ResultError.Description := "label is required";
       schema.ResultError.Details := ∅ |};
    {| schema.ResultError.Type_ := "required";
       schema.ResultError.Field := "steps.1";
       schema.ResultError.Description := "label is required";
       schema.ResultError.Details := ∅ |};
    {| schema.ResultError.Type_ := "number_one_of";
       schema.ResultError.Field := "steps";
       schema.ResultError.Description := "Must validate one and only one schema (oneOf)";
       schema.ResultError.Details := ∅ |} ].

Definition sampleResult : schema.Result.t :=
  {| schema.Result.Errors := sampleErrors |}.

(** ** Diagnostics *)

(** The diagnostics hold one with this code and severity. *)
Definition reports (diagnostics : list protocol.Diagnostic) (code : string)
    (severity : protocol.DiagnosticSeverity) : Prop :=
  ∃ d, d ∈ diagnostics ∧ protocol.Code d = code ∧ protocol.Severity d = severity.

(** A step whose [command] and [wait] keys are both present with the value
    null. *)
Definition nullCommandAndWait : gmap string json.value :=
  {[ "command" := json.Nil; "wait" := json.Nil ]}.

(** A wait step with no label and no name. *)
Definition waitStep : gmap string json.value :=
  {[ "wait" := json.Nil ]}.

(** A step with a command and a null wait, as in the test of the
    repository. *)
Definition commandAndWait : gmap string json.value :=
  {[ "command" := json.String_ "test"; "wait" := json.Nil ]}.

(** ** Plugin references and completion labels *)

(** What [ParsePluginReference] returns when it neither panics nor
    returns nil. *)
Definition parsed (ref org name version : string)
  : option (option plugins.ParsedPluginRef.t) :=
  Some (Some {| plugins.ParsedPluginRef.Org := org;
                plugins.ParsedPluginRef.Name := name;
                plugins.ParsedPluginRef.Version := version;
                plugins.ParsedPluginRef.FullRef := ref |}).

(** The text of a reference: the field [FullRef]. *)
Definition format (p : plugins.ParsedPluginRef.t) : string := plugins.ParsedPluginRef.FullRef p.

(** One decimal digit or more, and nothing else. *)
Definition number (s : string) : bool :=
  negb (String.eqb s "") && schema.all_digits s.

(** The text after the patch number: nothing, or a suffix after '-'. *)
Fixpoint patch_and_suffix (seen_digit : bool) (s : string) : bool :=
  match s with
  | "" => seen_digit
  | String c s' =>
      if in_range 48 57 c then patch_and_suffix true s'
      else seen_digit && Ascii.eqb c "-" && negb (String.eqb s' "")
  end.

(** [v<major>.<minor>.<patch>], with or without a suffix [-...]. *)
Definition version_tag (s : string) : bool :=
  match s with
  | String c rest =>
      Ascii.eqb c "v"
      && match cut "." rest with
         | (major, Some rest) =>
             number major
             && match cut "." rest with
                | (minor, Some rest) => number minor && patch_and_suffix false rest
                | _ => false
                end
         | _ => false
         end
  | "" => false
  end.

(** [<name>#<version tag>] with a name that is not empty. *)
Definition plugin_label (label : string) : bool :=
  match cut "#" label with
  | (name, Some version) => negb (String.eqb name "") && version_tag version
  | _ => false
  end.

(** The cursor on a blank line of a plugins list. *)
Definition blankPluginsLine : bkcontext.PositionContext.t :=
  {| bkcontext.PositionContext.URI := "file:///p/.buildkite/pipeline.yml";
     bkcontext.PositionContext.Position := {| protocol.Line := 3; protocol.Character := 6 |};
     bkcontext.PositionContext.CurrentLine := "      ";
     bkcontext.PositionContext.CharIndex := 6;
     bkcontext.PositionContext.ContextLines :=
       [ "steps:"; "  - label: test"; "    plugins:"; "      " ];
     bkcontext.PositionContext.FullContent :=
       "steps:" +:+ nl +:+ "  - label: test" +:+ nl +:+ "    plugins:"
       +:+ nl +:+ "      " |}.

(** The cursor after the dash of an item of a plugins list. *)
Definition pluginsItemLine : bkcontext.PositionContext.t :=
  {| bkcontext.PositionContext.URI := "file:///p/.buildkite/pipeline.yml";
     bkcontext.PositionContext.Position := {| protocol.Line := 3; protocol.Character := 8 |};
     bkcontext.PositionContext.CurrentLine := "      - ";
     bkcontext.PositionContext.CharIndex := 8;
     bkcontext.PositionContext.ContextLines :=
       [ "steps:"; "  - label: test"; "    plugins:"; "      - " ];
     bkcontext.PositionContext.FullContent :=
       "steps:" +:+ nl +:+ "  - label: test" +:+ nl +:+ "    plugins:"
       +:+ nl +:+ "      - " |}.

(** A registry that cannot fetch any schema. *)
Definition offline : string → Z → option (list protocol.CompletionItem) :=
  λ _ _, None.

(** ** File eligibility *)

(** The path of a URI: the URI without a leading [file://]. *)
Definition pathOf (uri : string) : string := TrimPrefix uri "file://".

(** The base names of the pipeline files taken anywhere. *)
Definition standaloneNames : list string :=
  [ "pipeline.yml"; "pipeline.yaml"; "buildkite.yml"; "buildkite.yaml" ].

(** The predicate as the specification words it: the path contains
    [/.buildkite/] and ends with [.yml] or [.yaml], or its base name is one
    of the four. *)
Definition eligible_as_specified (uri : string) : bool :=
  (Contains (pathOf uri) "/.buildkite/"
   && (HasSuffix (pathOf uri) ".yml" || HasSuffix (pathOf uri) ".yaml"))
  || bool_decide (filepath.Base (pathOf uri) ∈ standaloneNames).

(** ** Semantic tokens *)

(** A token stream: groups of five numbers whose fourth, the index of the
    token type, is below 8 (the legend has 8 entries) and whose fifth, the
    modifier bits, is below 8 (three bits are defined). *)
Inductive token_stream : list Z → Prop :=
  | token_stream_nil : token_stream []
  | token_stream_cons (line start length tokenType modifiers : Z)
      (rest : list Z) :
      0 ≤ tokenType < 8 →
      0 ≤ modifiers < 8 →
      token_stream rest →
      token_stream (line :: start :: length :: tokenType :: modifiers :: rest).

(** ** Texts of the repository's tests *)

(** A text between double quotes. *)
Definition quoted (s : string) : string := dq +:+ s +:+ dq.

(** A position context for the last of the lines (the analyzer reads the
    lines only). *)
Definition cursorAfter (lines : list string)
  : option bkcontext.PositionContext.t :=
  Some {| bkcontext.PositionContext.URI := "";
          bkcontext.PositionContext.Position :=
            {| protocol.Line := Z.of_nat (length lines) - 1;
               protocol.Character := 0 |};
          bkcontext.PositionContext.CurrentLine := default "" (last lines);
          bkcontext.PositionContext.CharIndex := 0;
          bkcontext.PositionContext.ContextLines := lines;
          bkcontext.PositionContext.FullContent := "" |}.

(** The pipeline of [TestAnalyzeContext_ComplexNesting], line by line. *)
Definition complexNesting : list string :=
  [ "env:";
    "  DEBUG: " +:+ quoted "true";
    "steps:";
    "  - label: " +:+ quoted "Build";
    "    command: " +:+ quoted "make build";
    "    agents:";
    "      queue: " +:+ quoted "default";
    "  - label: " +:+ quoted "Test with Docker";
    "    command: " +:+ quoted "make test";
    "    plugins:";
    "      - docker#v5.13.0:";
    "          image: " +:+ quoted "node:18";
    "          volumes:";
    "            - " +:+ quoted ".:/app";
    "      - cache#v2.4.10:";
    "          key: " +:+ quoted "cache-v1";
    "    retry:";
    "      automatic: true" ].

(** The pipeline of [TestAnalyzeContext_IndentationEdgeCases]. *)
Definition indentationEdgeCases : list string :=
  [ "steps:";
    "  - label: " +:+ quoted "test";
    "    ";
    "    command: " +:+ quoted "echo" +:+ "    # Comment";
    "    plugins:";
    "      # Plugin comment";
    "      - docker#v5.13.0:";
    "          image: " +:+ quoted "test";
    "          ";
    "          volumes: []" ].

(** ** Vocabulary of the further properties *)

(** Every character of the string satisfies [p]. *)
Fixpoint all_bytes (p : ascii → bool) (s : string) : bool :=
  match s with
  | "" => true
  | String c s' => p c && all_bytes p s'
  end.

(** The key stack of the analyzer: indentation levels that grow strictly
    from the bottom of the stack, the first at least [lo]. *)
Fixpoint increasing (lo : Z) (keyStack : list bkcontext.KeyInfo.t) : Prop :=
  match keyStack with
  | [] => True
  | key :: keys =>
      lo ≤ bkcontext.KeyInfo.IndentLevel key
      ∧ increasing (bkcontext.KeyInfo.IndentLevel key + 1) keys
  end.

(** The text of a line in which [parseKeyFromLine] looks for a colon: the
    line without the white space around it and without a leading
    ["- "]. *)
Definition keyText (line : string) : string :=
  if HasPrefix (TrimSpace line) "- "
  then TrimSpace (slice_from (TrimSpace line) 2)
  else TrimSpace line.

(** The fields of the analysis that the loop over the lines leaves as they
    start. *)
Definition fresh (c : bkcontext.ContextInfo.t) : Prop :=
  bkcontext.ContextInfo.InArray c = false
  ∧ bkcontext.ContextInfo.ArrayContext c = ""
  ∧ bkcontext.ContextInfo.PluginName c = ""
  ∧ bkcontext.ContextInfo.CurrentKey c = ""
  ∧ -1 ≤ bkcontext.ContextInfo.NearestStepIndex c.

(** A key that is neither [plugins] nor [steps]. *)
Definition plainKey (key : string) : Prop := key ≠ "plugins" ∧ key ≠ "steps".

(** The document managers that the operations build from the empty
    one. *)
Inductive reachable : lsp.DocumentManager → Prop :=
  | reachable_new : reachable lsp.NewDocumentManager
  | reachable_open (dm : lsp.DocumentManager) (uri : string) (version : Z)
      (content : string) :
      reachable dm → reachable (lsp.OpenDocument dm uri version content)
  | reachable_update (dm : lsp.DocumentManager) (uri : string) (version : Z)
      (content : string) :
      reachable dm → reachable (lsp.UpdateDocument dm uri version content)
  | reachable_close (dm : lsp.DocumentManager) (uri : string) :
      reachable dm → reachable (lsp.CloseDocument dm uri).

(** The string is empty or starts with a character outside [p]; the
    string is empty or ends with a character outside [p]. *)
Definition starts_other (p : ascii → bool) (s : string) : Prop :=
  match s with
  | "" => True
  | String c _ => p c = false
  end.

Definition ends_other (p : ascii → bool) (s : string) : Prop :=
  s = "" ∨ ∃ s' c, s = s' +:+ String c "" ∧ p c = false.

(** The position context of a document of one line with the cursor at a
    character of it. *)
Definition atChar (line : string) (charIndex : Z) : bkcontext.PositionContext.t :=
  {| bkcontext.PositionContext.URI := "file:///p/.buildkite/pipeline.yml";
     bkcontext.PositionContext.Position :=
       {| protocol.Line := 0; protocol.Character := charIndex |};
     bkcontext.PositionContext.CurrentLine := line;
     bkcontext.PositionContext.CharIndex := charIndex;
     bkcontext.PositionContext.ContextLines := [line];
     bkcontext.PositionContext.FullContent := line |}.

(** The line [i] of [lines] lies between [lo] and [hi] and holds [text],
    white space around the line apart. *)
Definition holdsAt (lines : list string) (lo hi i : Z) (text : string) : Prop :=
  lo ≤ i ≤ hi
  ∧ ∃ raw, lines !! Z.to_nat i = Some raw ∧ Contains (TrimSpace raw) text = true.

(** What the flags of a [StepInfo] say about the lines [lo], ..., [hi]: a
    flag that is set comes with the line that set it, a command step has
    a step type, and it is one exactly when its command was seen empty or
    not empty. *)
Definition stepFlagsOk (lines : list string) (lo hi : Z) (info : lsp.StepInfo.t)
  : Prop :=
  (lsp.StepInfo.HasLabel info = true →
   holdsAt lines lo hi (lsp.StepInfo.LabelLine info) "label:")
  ∧ (lsp.StepInfo.HasName info = true →
     holdsAt lines lo hi (lsp.StepInfo.NameLine info) "name:")
  ∧ (lsp.StepInfo.IsCommandStep info = true →
     holdsAt lines lo hi (lsp.StepInfo.CommandLine info) "command:")
  ∧ (lsp.StepInfo.HasStepType info = true →
     lo ≤ lsp.StepInfo.StepTypeLine info ≤ hi)
  ∧ lsp.StepInfo.IsCommandStep info
    = lsp.StepInfo.HasEmptyCommand info || lsp.StepInfo.HasSingleCommand info
  ∧ (lsp.StepInfo.IsCommandStep info = true →
     lsp.StepInfo.HasStepType info = true).

(** A line that the outline and the diagnostics take for the start of a
    step: a list item behind exactly two spaces. *)
Definition startsStepItem (line : string) : bool :=
  HasPrefix (TrimLeft line lsp.indentChars) "- " && (lsp.leadingSpaces line =? 2).

(** The state of the loop of [extractStepsSymbol] before the line [i]:
    [all] holds the lines between [lo] and [i] that start steps, in
    order, the last of them being the step that is still open; the
    children are the symbols of the steps before it, each ending on the
    line before the next start. *)
Definition stepsSoFar (lines : list string) (lo i : Z)
    (children : list protocol.DocumentSymbol) (currentStepStart stepIndex : Z)
    (all : list Z) : Prop :=
  stepIndex = Z.of_nat (length children)
  ∧ (if currentStepStart =? -1 then all = [] ∧ children = []
     else ∃ closed, all = closed ++ [currentStepStart]
                    ∧ length closed = length children)
  ∧ Forall (λ s, lo < s < i
                 ∧ ∃ line, lines !! Z.to_nat s = Some line
                           ∧ startsStepItem line = true) all
  ∧ (∀ (k : nat) s s', all !! k = Some s → all !! S k = Some s' → s < s')
  ∧ (∀ (k : nat) child, children !! k = Some child →
       ∃ s next,
         all !! k = Some s ∧ all !! S k = Some next
         ∧ lsp.createStepSymbol lines (Z.of_nat k) s (next - 1)
           = Some (Some child)).

(** Numbers that grow strictly along the list. *)
Definition ascending (l : list Z) : Prop :=
  ∀ (k : nat) s s', l !! k = Some s → l !! S k = Some s' → s < s'.

(** The value of the first key of a mapping node's children that bears the
    name [target]; the children are key, value, key, value, ... *)
Fixpoint mappingValue (content : list yaml.Node) (target : string)
  : option yaml.Node :=
  match content with
  | key :: value :: rest =>
      if String.eqb (yaml.Value key) target then Some value
      else mappingValue rest target
  | _ => None
  end.

(** * Facts about byte strings and the functions of package strings *)
Section StringFacts.

Lemma app_cons (c : ascii) (s t : string) :
  String c s +:+ t = String c (s +:+ t).
Proof. reflexivity. Qed.

Lemma app_empty_l (s : string) : "" +:+ s = s.
Proof. reflexivity. Qed.

Lemma app_empty_r (s : string) : s +:+ "" = s.
Proof. induction s as [|c s IH]; [done|]. by rewrite app_cons, IH. Qed.

Lemma app_assoc_s (s t u : string) : (s +:+ t) +:+ u = s +:+ (t +:+ u).
Proof. induction s as [|c s IH]; [done|]. by rewrite !app_cons, IH. Qed.

Lemma eqb_empty_false (c : ascii) (s : string) :
  String.eqb (String c s) "" = false.
Proof. reflexivity. Qed.

Lemma length_app_s (s t : string) :
  String.length (s +:+ t) = (String.length s + String.length t)%nat.
Proof. induction s as [|c s IH]; [done|]. rewrite app_cons. simpl. lia. Qed.

(** Reversal. *)
Lemma rev_app_swap (s t u : string) :
  String.rev_app (String.rev_app s t) u = String.rev_app t (s +:+ u).
Proof.
  revert t. induction s as [|c s IH]; intros t; [done|].
  simpl. rewrite IH. reflexivity.
Qed.

Lemma rev_involutive_s (s : string) : String.rev (String.rev s) = s.
Proof. unfold String.rev. rewrite rev_app_swap. simpl. apply app_empty_r. Qed.

Lemma rev_app_acc (s t : string) :
  String.rev_app s t = String.rev_app s "" +:+ t.
Proof.
  revert t. induction s as [|c s IH]; intros t; [done|].
  simpl. rewrite (IH (String c t)), (IH (String c "")).
  by rewrite app_assoc_s.
Qed.

Lemma rev_app_distr (s t : string) :
  String.rev (s +:+ t) = String.rev t +:+ String.rev s.
Proof.
  unfold String.rev. revert t.
  induction s as [|c s IH]; intros t.
  - by rewrite app_empty_l, app_empty_r.
  - rewrite app_cons. simpl.
    rewrite (rev_app_acc (s +:+ t) (String c "")), IH.
    rewrite (rev_app_acc s (String c "")). by rewrite app_assoc_s.
Qed.

(** [HasPrefix], [HasSuffix] and [Contains] say what their names say. *)
Lemma HasPrefix_spec (s prefix : string) :
  HasPrefix s prefix = true ↔ ∃ t, s = prefix +:+ t.
Proof.
  revert s. induction prefix as [|p prefix IH]; intros s; simpl.
  - split; [|done]. intros _. by exists s.
  - destruct s as [|c s].
    + split; [done|]. intros [t Ht]. by rewrite app_cons in Ht.
    + rewrite andb_true_iff, IH, Ascii.eqb_eq. split.
      * intros [-> [t ->]]. by exists t.
      * intros [t Ht]. rewrite app_cons in Ht. injection Ht as -> ->. eauto.
Qed.

Lemma HasSuffix_spec (s suffix : string) :
  HasSuffix s suffix = true ↔ ∃ t, s = t +:+ suffix.
Proof.
  unfold HasSuffix. rewrite HasPrefix_spec. split.
  - intros [t Ht]. exists (String.rev t).
    rewrite <- (rev_involutive_s s), Ht, rev_app_distr.
    by rewrite rev_involutive_s.
  - intros [t ->]. exists (String.rev t). apply rev_app_distr.
Qed.

Lemma index_from_spec (s substr : string) :
  ∀ i, 0 ≤ i →
    (index_from i s substr = -1 ∧ ¬ ∃ a b, s = a +:+ substr +:+ b)
    ∨ (i ≤ index_from i s substr ≤ i + len s
       ∧ ∃ a b, s = a +:+ substr +:+ b
                ∧ len a = index_from i s substr - i).
Proof.
  unfold len.
  induction s as [|c s IH]; intros i Hi; cbn [index_from].
  - destruct (HasPrefix "" substr) eqn:Hp.
    + right. split; [simpl; lia|]. apply HasPrefix_spec in Hp as [t Ht].
      exists "", t. split; [done|]. simpl. lia.
    + left. split; [done|]. intros (a & b & Hab).
      destruct a; [|by rewrite app_cons in Hab].
      rewrite app_empty_l in Hab.
      assert (HasPrefix "" substr = true) by (apply HasPrefix_spec; eauto).
      congruence.
  - destruct (HasPrefix (String c s) substr) eqn:Hp.
    + right. split; [simpl; lia|]. apply HasPrefix_spec in Hp as [t Ht].
      exists "", t. split; [done|]. simpl. lia.
    + destruct (IH (i + 1) ltac:(lia)) as [[-> Hno]|[Hr (a & b & -> & Hlen)]].
      * left. split; [done|]. intros (a & b & Hab).
        destruct a as [|d a].
        -- rewrite app_empty_l in Hab.
           assert (HasPrefix (String c s) substr = true)
             by (apply HasPrefix_spec; eauto).
           congruence.
        -- rewrite app_cons in Hab. injection Hab as -> ->. apply Hno. eauto.
      * right. split; [simpl String.length; lia|].
        exists (String c a), b. split; [done|]. simpl String.length. lia.
Qed.

Lemma Contains_spec (s substr : string) :
  Contains s substr = true ↔ ∃ a b, s = a +:+ substr +:+ b.
Proof.
  unfold Contains, Index.
  destruct (index_from_spec s substr 0 ltac:(lia)) as [[-> Hno]|[Hr (a & b & -> & _)]].
  - split; [done|]. intros H. by destruct Hno.
  - split; [eauto|]. intros _. apply Z.leb_le. lia.
Qed.

(** A found index is within the string, so the slices at it are in
    range. *)
Lemma Index_range (s substr : string) :
  Index s substr = -1
  ∨ (0 ≤ Index s substr ∧ Index s substr + len substr ≤ len s).
Proof.
  unfold Index.
  destruct (index_from_spec s substr 0 ltac:(lia)) as [[-> _]|[Hr (a & b & -> & Hl)]];
    [by left|right].
  split; [lia|]. unfold len in *. rewrite !length_app_s. lia.
Qed.

Lemma TrimPrefix_spec (s prefix : string) :
  (∃ t, s = prefix +:+ t ∧ TrimPrefix s prefix = t)
  ∨ ((¬ ∃ t, s = prefix +:+ t) ∧ TrimPrefix s prefix = s).
Proof.
  unfold TrimPrefix. destruct (HasPrefix s prefix) eqn:Hp.
  - left. apply HasPrefix_spec in Hp as [t ->]. exists t. split; [done|].
    clear. induction prefix as [|p prefix IH]; [done|]. by rewrite app_cons.
  - right. split; [|done]. intros H. apply HasPrefix_spec in H. congruence.
Qed.

End StringFacts.

(** * The slices of the code are in range

    The model cuts strings with total functions.  The bounds of every
    slice expression of the code hold where it is evaluated, so none of
    them panics. *)
Section SlicesInRange.

Lemma HasPrefix_len (s prefix : string) :
  HasPrefix s prefix = true → len prefix ≤ len s.
Proof.
  intros [t ->]%HasPrefix_spec. unfold len. rewrite length_app_s. lia.
Qed.

Lemma TrimLeft_suffix (s cutset : string) :
  ∃ a, s = a +:+ TrimLeft s cutset.
Proof.
  induction s as [|c s [a IH]]; [by exists ""|]. simpl.
  destruct (in_cutset c cutset).
  - exists (String c a). by rewrite app_cons, <- IH.
  - by exists "".
Qed.

(** [trimmed[2:]] in [parseKeyFromLine], behind
    [HasPrefix(trimmed, "- ")]. *)
Lemma item_content_in_range (trimmed : string) :
  HasPrefix trimmed "- " = true → 2 ≤ len trimmed.
Proof. apply HasPrefix_len. Qed.

(** [s[:colonIndex]] and [s[colonIndex+1:]], behind [colonIndex != -1]. *)
Lemma colon_in_range (s : string) :
  Index s ":" ≠ -1 → 0 ≤ Index s ":" ∧ Index s ":" + 1 ≤ len s.
Proof. intros H. by destruct (Index_range s ":") as [|]. Qed.

(** [line[dashPos+2:]] in [tokenizeLine], behind
    [HasPrefix(TrimLeft(line, " \t"), "- ")]. *)
Lemma dash_in_range (line cutset : string) :
  HasPrefix (TrimLeft line cutset) "- " = true →
  0 ≤ Index line "- " ∧ Index line "- " + 2 ≤ len line.
Proof.
  intros [t Ht]%HasPrefix_spec.
  destruct (TrimLeft_suffix line cutset) as [a Ha]. rewrite Ht in Ha.
  assert (Contains line "- " = true) as Hc by (apply Contains_spec; eauto).
  unfold Contains in Hc. apply Z.leb_le in Hc.
  destruct (Index_range line "- ") as [|[_ ?]]; [lia|]. done.
Qed.

Lemma advance_bound (p : ascii → bool) (a : string) (c : ascii) (b : string) :
  p c = false →
  ∀ i, i ≤ lsp.advance p (a +:+ String c b) i ≤ i + len a.
Proof.
  intros Hc. unfold len.
  induction a as [|d a IH]; intros i.
  - rewrite app_empty_l. simpl. rewrite Hc. simpl. lia.
  - rewrite app_cons. simpl. destruct (p d).
    + specialize (IH (i + 1)). lia.
    + lia.
Qed.

(** [line[keyStart:colonIndex]] in [tokenizeLine]: the key starts before
    the first colon. *)
Lemma key_in_range (line : string) :
  Index line ":" ≠ -1 →
  0 ≤ lsp.advance lsp.isIndentChar line 0 ≤ Index line ":"
  ∧ Index line ":" ≤ len line.
Proof.
  intros Hne. unfold Index in *.
  destruct (index_from_spec line ":" 0 ltac:(lia))
    as [[? _]|[Hr (a & b & Hline & Hlen)]]; [done|].
  split; [|lia].
  pose proof (advance_bound lsp.isIndentChar a ":" b eq_refl 0) as Hadv.
  change (String ":" b) with (":" +:+ b) in Hadv. rewrite <- Hline in Hadv.
  lia.
Qed.

(** [description[start:end]] in [extractPropertyFromDescription], behind
    [start < end]. *)
Lemma property_in_range (description : string) :
  let start := Index description "Additional property "
               + len "Additional property " in
  let end_ := Index description " is not allowed" in
  Contains description "Additional property " = true →
  start < end_ →
  0 ≤ start ∧ start ≤ end_ ∧ end_ ≤ len description.
Proof.
  intros start end_ Hc Hlt. unfold Contains in Hc. apply Z.leb_le in Hc.
  destruct (Index_range description " is not allowed") as [Hno|[? ?]].
  - unfold end_, start in *. change (len "Additional property ") with 20 in *.
    lia.
  - unfold end_, start in *. change (len "Additional property ") with 20 in *.
    change (len " is not allowed") with 15 in *. lia.
Qed.

(** [doc.Lines[lineIndex]] in [GetContentAtPosition]: the manager answers
    for every position (the line of a position is a [uint32]). *)
Lemma GetContentAtPosition_total (dm : gmap string lsp.Document.t)
    (uri : string) (position : protocol.Position) :
  0 ≤ protocol.Line position →
  ∃ posCtx, lsp.GetContentAtPosition dm uri position = Some posCtx.
Proof.
  intros Hpos. unfold lsp.GetContentAtPosition.
  destruct (dm !! uri) as [doc|]; [|by eexists].
  destruct (Z.leb_spec (Z.of_nat (length (lsp.Document.Lines doc)))
              (protocol.Line position)) as [|Hlt]; [by eexists|].
  destruct (lookup_lt_is_Some_2 (lsp.Document.Lines doc)
              (Z.to_nat (protocol.Line position))) as [l ->]; [lia|].
  by eexists.
Qed.

End SlicesInRange.

(** * The tests of the repository, on the model

    The cases of the Go tests that call the modelled functions, evaluated
    on the definitions above. *)
Section RepositoryTests.
Import bkcontext.

(** analyzer_test.go *)
Lemma TestAnalyzeContext :
  ContextInfo.Type_
    <$> AnalyzeContext
          (cursorAfter ["steps:"; "  - label: " +:+ quoted "test"; "env:"])
  = Some ContextTopLevel
  ∧ ContextInfo.Type_
      <$> AnalyzeContext
            (cursorAfter ["steps:"; "  - label: " +:+ quoted "test";
                          "    command:"])
    = Some ContextStep
  ∧ (λ info, (ContextInfo.Type_ info, ContextInfo.ArrayContext info))
      <$> AnalyzeContext
            (cursorAfter ["steps:"; "  - label: " +:+ quoted "test";
                          "    command: " +:+ quoted "echo hello";
                          "    plugins:"; "      - "])
    = Some (ContextPlugins, "plugins")
  ∧ (λ info, (ContextInfo.Type_ info, ContextInfo.PluginName info))
      <$> AnalyzeContext
            (cursorAfter ["steps:"; "  - label: " +:+ quoted "test";
                          "    plugins:"; "      - docker#v5.13.0:";
                          "          image:"])
    = Some (ContextPluginConfig, "docker#v5.13.0")
  ∧ ContextInfo.Type_ <$> AnalyzeContext (cursorAfter (take 14 complexNesting))
    = Some ContextPluginConfig
  ∧ ContextInfo.Type_ <$> AnalyzeContext (cursorAfter (take 15 complexNesting))
    = Some ContextPlugins
  ∧ ContextInfo.Type_
      <$> AnalyzeContext (cursorAfter (take 7 indentationEdgeCases))
    = Some ContextPlugins.
Proof. repeat split; vm_compute; reflexivity. Qed.

Lemma TestGetIndentLevel :
  getIndentLevel
    <$> [ "steps:"; "  - label: test"; "    command: echo";
          "      - docker#v5.13.0:"; "        image: node";
          String TAB (String TAB "image: node"); ""; "no-indent" ]
  = [0; 2; 4; 6; 8; 4; 0; 0].
Proof. reflexivity. Qed.

Lemma TestParseKeyFromLine :
  parseKeyFromLine "steps:" 0
  = Some {| KeyInfo.Key := "steps"; KeyInfo.IndentLevel := 0;
            KeyInfo.IsArray := true; KeyInfo.HasValue := false |}
  ∧ parseKeyFromLine "  plugins:" 2
    = Some {| KeyInfo.Key := "plugins"; KeyInfo.IndentLevel := 2;
              KeyInfo.IsArray := true; KeyInfo.HasValue := false |}
  ∧ parseKeyFromLine "    command: echo hello" 4
    = Some {| KeyInfo.Key := "command"; KeyInfo.IndentLevel := 4;
              KeyInfo.IsArray := false; KeyInfo.HasValue := true |}
  ∧ parseKeyFromLine "    retry: []" 4
    = Some {| KeyInfo.Key := "retry"; KeyInfo.IndentLevel := 4;
              KeyInfo.IsArray := true; KeyInfo.HasValue := false |}
  ∧ parseKeyFromLine "  - docker#v5.13.0:" 2
    = Some {| KeyInfo.Key := "docker#v5.13.0"; KeyInfo.IndentLevel := 2;
              KeyInfo.IsArray := true; KeyInfo.HasValue := false |}
  ∧ parseKeyFromLine "" 0 = None.
Proof. repeat split; vm_compute; reflexivity. Qed.

(** The tests of the plugins package. *)
Lemma TestParsePluginReference :
  plugins.ParsePluginReference "docker#v5.13.0"
  = parsed "docker#v5.13.0" "buildkite-plugins" "docker" "v5.13.0"
  ∧ plugins.ParsePluginReference "docker"
    = parsed "docker" "buildkite-plugins" "docker" "latest"
  ∧ plugins.ParsePluginReference "mcncl/foo#v3.0.0"
    = parsed "mcncl/foo#v3.0.0" "mcncl" "foo" "v3.0.0"
  ∧ plugins.ParsePluginReference "company/internal"
    = parsed "company/internal" "company" "internal" "latest"
  ∧ plugins.ParsePluginReference "buildkite/test#v1.2.3-alpha"
    = parsed "buildkite/test#v1.2.3-alpha" "buildkite" "test" "v1.2.3-alpha"
  ∧ plugins.ParsePluginReference "" = Some None.
Proof. repeat split; vm_compute; reflexivity. Qed.

Lemma TestParsedPluginRef_GetRepositoryURL :
  plugins.GetRepositoryURL
    {| plugins.ParsedPluginRef.Org := "buildkite-plugins";
       plugins.ParsedPluginRef.Name := "docker";
       plugins.ParsedPluginRef.Version := "";
       plugins.ParsedPluginRef.FullRef := "" |}
  = "https://github.com/buildkite-plugins/docker-buildkite-plugin"
  ∧ plugins.GetRepositoryURL
      {| plugins.ParsedPluginRef.Org := "mcncl";
         plugins.ParsedPluginRef.Name := "foo";
         plugins.ParsedPluginRef.Version := "";
         plugins.ParsedPluginRef.FullRef := "" |}
    = "https://github.com/mcncl/foo-buildkite-plugin".
Proof. split; reflexivity. Qed.

(** diagnostics_test.go: the steps of the pipelines of
    [TestServer_EnhancedDiagnostics], as decoded by the YAML parser, give
    the codes, severities and messages the test expects. *)
Lemma TestServer_EnhancedDiagnostics_steps :
  let report (stepData : gmap string json.value) :=
    (λ d, (protocol.Code d, protocol.Severity d, protocol.Message d))
      <$> lsp.validateSingleStep stepData 1 1 in
  let missingLabel :=
    ("missing-label", protocol.DiagnosticSeverityInformation,
     "Consider adding a 'label' to make this step easier to identify in the UI")
  in
  report {[ "command" := json.String_ "test" ]} = [missingLabel]
  ∧ report {[ "label" := json.String_ "No Command" ]}
    = [("missing-step-type", protocol.DiagnosticSeverityError,
        "Step 1 must specify a step type: command, wait, block, input, trigger, or group")]
  ∧ report {[ "command" := json.String_ "test"; "wait" := json.Nil ]}
    = [("multiple-step-types", protocol.DiagnosticSeverityError,
        "Step 1 has multiple step types - only one is allowed per step");
       missingLabel]
  ∧ report {[ "label" := json.String_ "Build"; "command" := json.String_ "" ]}
    = [("empty-command", protocol.DiagnosticSeverityWarning,
        "Command should not be empty")]
  ∧ report {[ "command" := json.String_ "make build" ]} = [missingLabel]
  ∧ report {[ "wait" := json.Bool true ]}
    = [("invalid-wait-value", protocol.DiagnosticSeverityError,
        "Wait value must be null, a string message, or a number of seconds, got bool")]
  ∧ report {[ "block" := json.String_ "" ]}
    = [("empty-block-message", protocol.DiagnosticSeverityError,
        "Block step must have a non-empty message")]
  ∧ report {[ "trigger" := json.String_ "" ]}
    = [("empty-trigger-pipeline", protocol.DiagnosticSeverityError,
        "Trigger step must specify a pipeline slug")]
  ∧ report {[ "input" := json.String_ "" ]}
    = [("empty-input-prompt", protocol.DiagnosticSeverityError,
        "Input step must have a non-empty prompt message")]
  ∧ report {[ "wait" := json.Nil ]} = []
  ∧ report {[ "wait" := json.String_ "Waiting for deployment" ]} = []
  ∧ report {[ "block" := json.String_ "Deploy to production?" ]} = []
  ∧ report {[ "trigger" := json.String_ "deploy-pipeline" ]} = []
  ∧ report {[ "label" := json.String_ "Build with plugin";
              "plugins" := json.Array [] ]}
    = [("no-step-type-with-plugins", protocol.DiagnosticSeverityInformation,
        "Step 1 has no explicit step type, but plugins may provide command execution via hooks")]
  ∧ report {[ "label" := json.String_ "Build with plugin";
              "command" := json.String_ "";
              "plugins" := json.Array [] ]}
    = [("empty-command-with-plugins", protocol.DiagnosticSeverityInformation,
        "Command is empty, but plugins may provide command execution via hooks")]
  ∧ report {[ "name" := json.String_ "Build App";
              "command" := json.String_ "make build" ]}
    = [("use-label-not-name", protocol.DiagnosticSeverityInformation,
        "Use 'label' instead of 'name' - 'label' is the standard Buildkite field for step display names")].
Proof. repeat split; vm_compute; reflexivity. Qed.

(** The tests of the document manager and of the schema loader. *)
Lemma TestSplitLines :
  lsp.splitLines "" = []
  ∧ lsp.splitLines "single line" = ["single line"]
  ∧ lsp.splitLines ("line1" +:+ nl +:+ "line2") = ["line1"; "line2"]
  ∧ lsp.splitLines ("line1" +:+ nl +:+ "line2" +:+ nl) = ["line1"; "line2"]
  ∧ lsp.splitLines ("line1" +:+ cr +:+ nl +:+ "line2") = ["line1"; "line2"]
  ∧ lsp.splitLines ("line1" +:+ nl +:+ nl +:+ "line3") = ["line1"; ""; "line3"]
  ∧ lsp.splitLines nl = [""].
Proof. repeat split; vm_compute; reflexivity. Qed.

Lemma TestExtractPropertyFromDescription :
  schema.extractPropertyFromDescription
    <$> [ "Additional property invalid_field is not allowed";
          "Additional property some_other_field is not allowed";
          "Some other error message";
          "Additional property  is not allowed";
          "" ]
  = ["invalid_field"; "some_other_field"; ""; ""; ""].
Proof. vm_compute; reflexivity. Qed.

Lemma TestExtractFieldName :
  schema.extractFieldName
    <$> [ "steps.1.invalid_field"; "steps.0.plugins.2.image"; "env.DEBUG";
          "timeout_in_minutes"; "1"; "" ]
  = ["invalid_field"; "image"; "DEBUG"; "timeout_in_minutes"; "1"; ""].
Proof. vm_compute; reflexivity. Qed.

(** semantic_tokens_test.go: the first pipeline gives twelve tokens, and
    the two lines of its first step, asked for as a range from line 3,
    give six. *)
Lemma TestServer_SemanticTokens :
  lsp.generateSemanticTokens
    [ "steps:"; "  - label: " +:+ quoted "Build";
      "    command: " +:+ quoted "make build";
      "    key: " +:+ quoted "build-step"; "    " ]
  = Some [ 0; 0; 5; 0; 0;   0; 5; 1; 6; 0;
           1; 2; 1; 6; 0;   0; 2; 5; 5; 0;   0; 5; 1; 6; 0;   0; 2; 7; 5; 0;
           1; 4; 7; 0; 1;   0; 7; 1; 6; 0;   0; 2; 12; 1; 0;
           1; 4; 3; 5; 2;   0; 3; 1; 6; 0;   0; 2; 12; 5; 0 ]
  ∧ lsp.generateSemanticTokensForRange
      [ "  - label: " +:+ quoted "Build";
        "    command: " +:+ quoted "make build" ] 3
    = Some [ 3; 2; 7; 2; 0;   0; 7; 1; 6; 0;   0; 2; 7; 1; 0;
             1; 4; 7; 0; 0;   0; 7; 1; 6; 0;   0; 2; 12; 1; 0 ].
Proof. split; vm_compute; reflexivity. Qed.

End RepositoryTests.

(** * The line index of a document *)
Section SplitLines.
Import lsp.

Lemma terminated_app (l1 l2 : list string) :
  terminated (l1 ++ l2) = terminated l1 +:+ terminated l2.
Proof.
  induction l1 as [|x l1 IH]; [done|].
  simpl. by rewrite IH, !app_assoc_s.
Qed.

Lemma plain_line_app (s t : string) :
  plain_line (s +:+ t) = plain_line s && plain_line t.
Proof.
  induction s as [|c s IH]; [done|].
  rewrite app_cons. simpl. rewrite IH. by rewrite andb_assoc.
Qed.

(** The loop keeps the text read so far, carriage returns dropped, as the
    finished lines followed by the segment being read. *)
Lemma splitLines_loop_text (content : string) :
  ∀ lines current,
    terminated (splitLines_loop content lines current).1
      +:+ (splitLines_loop content lines current).2
    = terminated lines +:+ current +:+ dropCR content.
Proof.
  induction content as [|c content IH]; intros lines current; simpl.
  - by rewrite app_empty_r.
  - destruct (Ascii.eqb_spec c LF) as [->|HLF].
    + rewrite IH. rewrite terminated_app. simpl.
      rewrite app_empty_r. change (String LF (dropCR content)) with (nl +:+ dropCR content).
      by rewrite !app_assoc_s.
    + destruct (Ascii.eqb_spec c CR) as [->|HCR]; simpl.
      * apply IH.
      * rewrite IH. by rewrite !app_assoc_s.
Qed.

Lemma splitLines_loop_plain (content : string) :
  ∀ lines current,
    forallb plain_line lines = true → plain_line current = true →
    forallb plain_line (splitLines_loop content lines current).1 = true
    ∧ plain_line (splitLines_loop content lines current).2 = true.
Proof.
  induction content as [|c content IH]; intros lines current Hl Hc; simpl.
  - done.
  - destruct (Ascii.eqb_spec c LF) as [->|HLF].
    + apply IH; [|done]. rewrite forallb_app. simpl. by rewrite Hl, Hc.
    + destruct (Ascii.eqb_spec c CR) as [->|HCR]; simpl.
      * by apply IH.
      * apply IH; [done|]. rewrite plain_line_app. simpl. rewrite Hc.
        apply Ascii.eqb_neq in HLF, HCR. by rewrite HLF, HCR.
Qed.

(** A text is split into plain lines and a plain last segment in one way
    only. *)
Lemma plain_cut (x y r r' : string) :
  plain_line x = true → plain_line y = true →
  x +:+ nl +:+ r = y +:+ nl +:+ r' → x = y ∧ r = r'.
Proof.
  unfold nl. revert y.
  induction x as [|c x IH]; intros [|d y] Hx Hy H;
    rewrite ?app_cons, ?app_empty_l in H; simpl in Hx, Hy.
  - by inversion H.
  - inversion H; subst. by rewrite Ascii.eqb_refl in Hy.
  - inversion H; subst. by rewrite Ascii.eqb_refl in Hx.
  - inversion H; subst.
    apply andb_true_iff in Hx as [_ Hx], Hy as [_ Hy].
    destruct (IH y Hx Hy) as [-> ->]; done.
Qed.

Lemma plain_no_nl (c x r : string) :
  plain_line c = true → c ≠ x +:+ nl +:+ r.
Proof.
  unfold nl. revert x.
  induction c as [|a c IH]; intros [|b x] Hc H;
    rewrite ?app_cons, ?app_empty_l in H; simpl in Hc.
  - done.
  - done.
  - inversion H; subst. by rewrite Ascii.eqb_refl in Hc.
  - inversion H; subst.
    apply andb_true_iff in Hc as [_ Hc]. by eapply IH.
Qed.

Lemma terminated_unique (l l' : list string) (c c' : string) :
  forallb plain_line l = true → plain_line c = true →
  forallb plain_line l' = true → plain_line c' = true →
  terminated l +:+ c = terminated l' +:+ c' → l = l' ∧ c = c'.
Proof.
  revert l'. induction l as [|x l IH]; intros [|y l'] Hl Hc Hl' Hc' H; simpl in *.
  - done.
  - rewrite !app_assoc_s in H. by apply plain_no_nl in H.
  - rewrite !app_assoc_s in H. symmetry in H. by apply plain_no_nl in H.
  - apply andb_true_iff in Hl as [Hx Hl], Hl' as [Hy Hl'].
    rewrite !app_assoc_s in H. apply plain_cut in H as [-> H]; [|done..].
    destruct (IH l' Hl Hc Hl' Hc' H) as [-> ->]. done.
Qed.

(** The general law.  When the text, carriage returns dropped, is the
    lines [lines], each ended by a line feed, followed by a last segment
    [last], the result is [lines], with [last] after them when it is not
    empty or there is no line. *)
Lemma splitLines_general (content : string) (lines : list string)
    (last : string) :
  content ≠ "" →
  forallb plain_line lines = true → plain_line last = true →
  dropCR content = terminated lines +:+ last →
  splitLines content
  = if negb (String.eqb last "") || bool_decide (lines = [])
    then lines ++ [last] else lines.
Proof.
  intros Hne Hl Hlast Htext. unfold splitLines.
  destruct content as [|c content]; [done|]. rewrite eqb_empty_false.
  pose proof (splitLines_loop_text (String c content) [] "") as Ht.
  destruct (splitLines_loop_plain (String c content) [] "" eq_refl eq_refl)
    as [Hp1 Hp2].
  destruct (splitLines_loop (String c content) [] "") as [l cur].
  simpl fst in *. simpl snd in *.
  change (terminated [] +:+ "" +:+ dropCR (String c content))
    with (dropCR (String c content)) in Ht.
  rewrite Htext in Ht.
  apply terminated_unique in Ht as [-> ->]; [|done..].
  destruct lines; simpl; [by rewrite orb_true_r|].
  by destruct (String.eqb last "").
Qed.

Lemma dropCR_plain (s : string) : plain_line s = true → dropCR s = s.
Proof.
  induction s as [|c s IH]; [done|]. simpl.
  intros [[_ Hc]%andb_true_iff Hs]%andb_true_iff.
  apply negb_true_iff in Hc. rewrite Hc. by rewrite IH.
Qed.

Lemma dropCR_app (s t : string) : dropCR (s +:+ t) = dropCR s +:+ dropCR t.
Proof.
  induction s as [|c s IH]; [done|]. rewrite app_cons. simpl.
  destruct (Ascii.eqb c CR); [done|]. by rewrite app_cons, IH.
Qed.

Lemma dropCR_terminated (lines : list string) :
  forallb plain_line lines = true → dropCR (terminated lines) = terminated lines.
Proof.
  induction lines as [|l lines IH]; [done|]. simpl.
  intros [Hl Hlines]%andb_true_iff.
  rewrite !dropCR_app, (dropCR_plain l Hl), (IH Hlines). reflexivity.
Qed.

(** Lines written out with a line feed after each are read back as they
    are: the final line feed adds no empty line.  A last line without line
    feed is read as well. *)
Lemma splitLines_terminated (lines : list string) (last : string) :
  forallb plain_line lines = true → plain_line last = true →
  (lines ≠ [] → splitLines (terminated lines) = lines)
  ∧ (last ≠ "" → splitLines (terminated lines +:+ last) = lines ++ [last]).
Proof.
  intros Hl Hlast. split.
  - intros Hne.
    rewrite (splitLines_general (terminated lines) lines ""); try done.
    + destruct lines; [done|]. reflexivity.
    + destruct lines as [|l lines]; [done|]. simpl. by destruct l.
    + by rewrite app_empty_r, dropCR_terminated.
  - intros Hne.
    rewrite (splitLines_general (terminated lines +:+ last) lines last);
      try done.
    + destruct last; [done|]. reflexivity.
    + destruct lines as [|l lines]; simpl.
      * by destruct last.
      * by destruct l.
    + by rewrite dropCR_app, dropCR_terminated, dropCR_plain.
Qed.



End SplitLines.

(** * The document manager *)
Section DocumentManager.
Import lsp.

Lemma GetDocument_Update (dm : DocumentManager) (uri : string) (version : Z)
    (content : string) :
  ∃ doc, GetDocument (UpdateDocument dm uri version content) uri = Some doc
         ∧ Document.Version doc = version
         ∧ Document.Content doc = content
         ∧ Document.Lines doc = splitLines content.
Proof.
  unfold GetDocument, UpdateDocument.
  destruct (dm !! uri) as [doc|]; rewrite lookup_insert_eq; eauto.
Qed.

(** The operations on one URI leave the documents of the others alone. *)
Lemma GetDocument_other (dm : DocumentManager) (uri uri' : string)
    (version : Z) (content : string) :
  uri ≠ uri' →
  GetDocument (OpenDocument dm uri version content) uri' = GetDocument dm uri'
  ∧ GetDocument (UpdateDocument dm uri version content) uri' = GetDocument dm uri'
  ∧ GetDocument (CloseDocument dm uri) uri' = GetDocument dm uri'.
Proof.
  intros Hne. unfold GetDocument, OpenDocument, UpdateDocument, CloseDocument.
  repeat split.
  - by rewrite lookup_insert_ne.
  - destruct (dm !! uri); by rewrite lookup_insert_ne.
  - by rewrite lookup_delete_ne.
Qed.

Lemma lines_in_step_preserved (dm : DocumentManager) (uri : string)
    (version : Z) (content : string) :
  lines_in_step dm →
  lines_in_step (OpenDocument dm uri version content)
  ∧ lines_in_step (UpdateDocument dm uri version content)
  ∧ lines_in_step (CloseDocument dm uri).
Proof.
  unfold lines_in_step, GetDocument, OpenDocument, UpdateDocument, CloseDocument.
  intros Hdm. repeat split; intros uri' doc'.
  - destruct (decide (uri = uri')) as [->|Hne].
    + rewrite lookup_insert_eq. by intros [= <-].
    + rewrite lookup_insert_ne by done. apply Hdm.
  - destruct (dm !! uri) as [doc|];
      (destruct (decide (uri = uri')) as [->|Hne];
       [ rewrite lookup_insert_eq; by intros [= <-]
       | rewrite lookup_insert_ne by done; apply Hdm ]).
  - destruct (decide (uri = uri')) as [->|Hne].
    + by rewrite lookup_delete_eq.
    + rewrite lookup_delete_ne by done. apply Hdm.
Qed.

(** C2.  After [OpenDocument] and then [UpdateDocument] of the same URI,
    [GetDocument] finds a document with the version and text of the update
    and with the lines of that text; after [CloseDocument] it finds none. *)
Theorem open_update_get_close (dm : DocumentManager) (d : string)
    (v0 v : Z) (t0 t : string) :
  let dm1 := UpdateDocument (OpenDocument dm d v0 t0) d v t in
  GetDocument dm1 d
  = Some {| Document.URI := d; Document.Version := v;
            Document.Content := t; Document.Lines := splitLines t |}
  ∧ GetDocument (CloseDocument dm1 d) d = None
  ∧ GetDocument (CloseDocument dm d) d = None.
Proof.
  unfold GetDocument, UpdateDocument, OpenDocument, CloseDocument. simpl.
  rewrite lookup_insert_eq. simpl.
  rewrite lookup_insert_eq, !lookup_delete_eq. done.
Qed.

End DocumentManager.

(** * The context analyzer *)
Section Analyzer.
Import bkcontext.

Lemma scanStack_total (n : nat) (context : ContextInfo.t)
    (keyStack : list KeyInfo.t) :
  (n ≤ length keyStack)%nat →
  ∃ found, scanStack n context keyStack = Some found
           ∧ ∀ c, found = Some c → known (ContextInfo.Type_ c).
Proof.
  induction n as [|i IH]; intros Hn; simpl.
  - eexists; split; [done|]. intros c [=].
  - destruct (lookup_lt_is_Some_2 keyStack i) as [key Hkey]; [lia|].
    rewrite Hkey. simpl.
    destruct (String.eqb (KeyInfo.Key key) "plugins").
    + destruct (Z.ltb_spec (Z.of_nat i) (Z.of_nat (length keyStack) - 1)) as [Hlt|Hge].
      * destruct (lookup_lt_is_Some_2 keyStack (S i)) as [next Hnext]; [lia|].
        rewrite Hnext. simpl. eexists; split; [done|].
        intros c [= <-]. unfold known. simpl. auto.
      * eexists; split; [done|]. intros c [= <-]. unfold known. simpl. auto.
    + destruct (String.eqb (KeyInfo.Key key) "steps").
      * eexists; split; [done|]. intros c [= <-]. unfold known. simpl. auto.
      * apply IH. lia.
Qed.

Lemma determineContextFromStack_total (context : ContextInfo.t)
    (keyStack : list KeyInfo.t) (currentLine : string) (charIndex : Z) :
  ∃ c, determineContextFromStack context keyStack currentLine charIndex = Some c
       ∧ known (ContextInfo.Type_ c).
Proof.
  unfold determineContextFromStack.
  destruct (Z.of_nat (length keyStack) =? 0).
  { eexists; split; [done|]. unfold known. simpl. auto. }
  destruct (scanStack_total (length keyStack)
              (ContextInfo.set_ParentKeys context (KeyInfo.Key <$> keyStack))
              keyStack) as (found & -> & Hfound); [lia|].
  simpl. destruct found as [c|].
  - eexists; split; [done|]. by apply Hfound.
  - destruct (Z.of_nat (length keyStack) <=? 1);
      (eexists; split; [done|]); unfold known; simpl; auto.
Qed.

Lemma determineContextFromStack_empty (context : ContextInfo.t)
    (currentLine : string) (charIndex : Z) :
  ContextInfo.Type_
    <$> determineContextFromStack context [] currentLine charIndex
  = Some ContextTopLevel.
Proof. reflexivity. Qed.

(** The count of array items reads the top of a stack that is not empty. *)
Lemma stepIndex_total (trimmed : string) (context : ContextInfo.t)
    (keyStack : list KeyInfo.t) :
  ∃ c,
    (if gostrings.Contains trimmed "- " && (0 <? Z.of_nat (length keyStack)) then
       lastKey ← keyStack !! (length keyStack - 1)%nat;
       if String.eqb (KeyInfo.Key lastKey) "steps"
       then Some (ContextInfo.set_NearestStepIndex context
                    (ContextInfo.NearestStepIndex context + 1))
       else Some context
     else Some context) = Some c
    ∧ ContextInfo.Type_ c = ContextInfo.Type_ context.
Proof.
  destruct (gostrings.Contains trimmed "- "); simpl; [|by eexists].
  destruct (Z.ltb_spec 0 (Z.of_nat (length keyStack))); [|by eexists].
  destruct (lookup_lt_is_Some_2 keyStack (length keyStack - 1)) as [k ->]; [lia|].
  simpl. destruct (String.eqb (KeyInfo.Key k) "steps"); by eexists.
Qed.

Lemma analyzeLines_total (lines : list string) (currentLine : string)
    (charIndex : Z) :
  ∀ context keyStack,
    ∃ c, analyzeLines lines currentLine charIndex context keyStack = Some c
         ∧ (lines ≠ [] → known (ContextInfo.Type_ c))
         ∧ (lines = [] → c = context).
Proof.
  induction lines as [|line rest IH]; intros context keyStack.
  { exists context. done. }
  cbn [analyzeLines].
  set (skip := (String.eqb (gostrings.TrimSpace line) ""
                || gostrings.HasPrefix (gostrings.TrimSpace line) "#")).
  destruct rest as [|next rest].
  - (* the current line *)
    rewrite andb_false_r.
    set (ks := popKeysAtOrAboveIndent keyStack (getIndentLevel line)).
    cbv zeta.
    destruct (stepIndex_total (gostrings.TrimSpace line)
                (ContextInfo.set_IndentLevel context (getIndentLevel line)) ks)
      as (c1 & -> & _).
    simpl.
    destruct (determineContextFromStack_total c1 ks currentLine charIndex)
      as (c2 & -> & Hk).
    simpl. exists c2. done.
  - (* a line before it *)
    rewrite andb_true_r. destruct skip.
    + destruct (IH context keyStack) as (c & Hc & Hk & _).
      exists c. split; [done|]. split; [|done]. intros _. by apply Hk.
    + cbv zeta.
      set (ks := popKeysAtOrAboveIndent keyStack (getIndentLevel line)).
      destruct (parseKeyFromLine line (getIndentLevel line)) as [keyInfo|].
      * destruct (stepIndex_total (gostrings.TrimSpace line)
                    (if String.eqb (KeyInfo.Key keyInfo) "steps"
                        && KeyInfo.IsArray keyInfo
                     then ContextInfo.set_NearestStepIndex context 0
                     else context) (ks ++ [keyInfo]))
          as (c1 & -> & _).
        simpl.
        destruct (IH c1 (ks ++ [keyInfo])) as (c & Hc & Hk & _).
        exists c. split; [done|]. split; [|done]. intros _. by apply Hk.
      * destruct (stepIndex_total (gostrings.TrimSpace line) context ks)
          as (c1 & -> & _).
        simpl.
        destruct (IH c1 ks) as (c & Hc & Hk & _).
        exists c. split; [done|]. split; [|done]. intros _. by apply Hk.
Qed.

Lemma analyzeLines_single (line currentLine : string) (charIndex : Z)
    (context : ContextInfo.t) :
  ContextInfo.Type_
    <$> analyzeLines [line] currentLine charIndex context []
  = Some ContextTopLevel.
Proof.
  cbn [analyzeLines]. rewrite andb_false_r. cbv zeta.
  cbn [popKeysAtOrAboveIndent length]. rewrite andb_false_r.
  reflexivity.
Qed.

(** The analyzer returns for every input: no index is out of range. *)
Lemma AnalyzeContext_total (posCtx : option PositionContext.t) :
  ∃ info, AnalyzeContext posCtx = Some info.
Proof.
  destruct posCtx as [p|]; simpl; [|by eexists].
  unfold analyzeYAMLStructure.
  match goal with
  | |- ∃ info, analyzeLines ?l ?cl ?ci ?c ?ks = _ =>
      destruct (analyzeLines_total l cl ci c ks) as (info & Hinfo & _)
  end.
  by exists info.
Qed.

(** C3, as stated, fails: a position context that is not nil and has an
    empty list of context lines gets the kind Unknown, not TopLevel. *)
Lemma AnalyzeContext_noLines_Unknown :
  ContextInfo.Type_ <$> AnalyzeContext (Some noLines) = Some ContextUnknown
  ∧ ContextInfo.Type_ <$> AnalyzeContext (Some noLines) ≠ Some ContextTopLevel.
Proof. split; [reflexivity | discriminate]. Qed.

(** C3, amended.  The analyzer returns for every input (it does not
    panic).  The kind is Unknown exactly when the position context is nil
    or has no context line; with at least one context line it is one of
    TopLevel, Step, Plugins, PluginConfig, and with exactly one line (the
    cursor on the first line of the text) it is TopLevel. *)
Theorem AnalyzeContext_kind (posCtx : option PositionContext.t) :
  ∃ info,
    AnalyzeContext posCtx = Some info
    ∧ (ContextInfo.Type_ info = ContextUnknown
       ↔ posCtx = None
         ∨ ∃ p, posCtx = Some p ∧ PositionContext.ContextLines p = [])
    ∧ (∀ p, posCtx = Some p → PositionContext.ContextLines p ≠ [] →
            known (ContextInfo.Type_ info))
    ∧ (∀ p line, posCtx = Some p → PositionContext.ContextLines p = [line] →
                 ContextInfo.Type_ info = ContextTopLevel).
Proof.
  destruct posCtx as [p|]; simpl.
  - unfold analyzeYAMLStructure.
    set (context0 := {| ContextInfo.Type_ := ContextUnknown |}).
    destruct (analyzeLines_total (PositionContext.ContextLines p)
                (PositionContext.CurrentLine p) (PositionContext.CharIndex p)
                context0 []) as (c & Hc & Hk & He).
    exists c. split; [done|]. repeat split.
    + intros HU. right. exists p. split; [done|].
      destruct (PositionContext.ContextLines p) as [|l ls] eqn:E; [done|].
      destruct Hk as [H|[H|[H|H]]]; [done|..]; congruence.
    + intros [[=]|(p' & [= <-] & Hp)]. by rewrite (He Hp).
    + intros p' [= <-] Hne. by apply Hk.
    + intros p' line [= <-] Hp. rewrite Hp in Hc.
      pose proof (analyzeLines_single line (PositionContext.CurrentLine p)
                    (PositionContext.CharIndex p) context0) as Hs.
      rewrite Hc in Hs. by injection Hs.
  - eexists. split; [done|]. simpl. repeat split; try done.
    + by left.
Qed.

(** The theorem at the cursor on an empty first line. *)
Lemma AnalyzeContext_kind_witness :
  ∃ info,
    AnalyzeContext
      (Some {| PositionContext.URI := "";
               PositionContext.Position :=
                 {| protocol.Line := 0; protocol.Character := 0 |};
               PositionContext.CurrentLine := "";
               PositionContext.CharIndex := 0;
               PositionContext.ContextLines := [""];
               PositionContext.FullContent := "" |}) = Some info
    ∧ ContextInfo.Type_ info = ContextTopLevel.
Proof.
  destruct (AnalyzeContext_kind
              (Some {| PositionContext.URI := "";
                       PositionContext.Position :=
                         {| protocol.Line := 0; protocol.Character := 0 |};
                       PositionContext.CurrentLine := "";
                       PositionContext.CharIndex := 0;
                       PositionContext.ContextLines := [""];
                       PositionContext.FullContent := "" |}))
    as (info & Hinfo & _ & _ & Hone).
  exists info. split; [exact Hinfo|].
  apply (Hone _ "" eq_refl eq_refl).
Defined.

(** The document manager never hands the analyzer a context without
    lines: the lines run up to the cursor's line, included. *)
Lemma GetContentAtPosition_lines (dm : gmap string lsp.Document.t)
    (uri : string) (position : protocol.Position)
    (p : PositionContext.t) :
  0 ≤ protocol.Line position →
  lsp.GetContentAtPosition dm uri position = Some (Some p) →
  PositionContext.ContextLines p ≠ [].
Proof.
  intros Hpos. unfold lsp.GetContentAtPosition.
  destruct (dm !! uri) as [doc|]; [|done].
  destruct (Z.leb_spec (Z.of_nat (length (lsp.Document.Lines doc)))
              (protocol.Line position)) as [|Hlt]; [done|].
  destruct (lsp.Document.Lines doc !! Z.to_nat (protocol.Line position));
    [|done].
  simpl. intros [= <-]. simpl.
  destruct (lsp.Document.Lines doc) as [|l ls]; [simpl in Hlt; lia|].
  replace (Z.to_nat (protocol.Line position + 1))
    with (S (Z.to_nat (protocol.Line position))) by lia.
  done.
Qed.

End Analyzer.

(** * The primary validation error *)
Section PrimaryError.
Import schema.

Lemma errorPriority_table :
  errorPriority !! "additional_property_not_allowed" = Some 1
  ∧ errorPriority !! "required" = Some 2
  ∧ errorPriority !! "invalid_type" = Some 3
  ∧ errorPriority !! "enum" = Some 4
  ∧ errorPriority !! "string_gte" = Some 5
  ∧ errorPriority !! "string_lte" = Some 6
  ∧ errorPriority !! "array_min_items" = Some 7
  ∧ errorPriority !! "array_max_items" = Some 8
  ∧ errorPriority !! "number_gte" = Some 9
  ∧ errorPriority !! "number_lte" = Some 10.
Proof. repeat split; reflexivity. Qed.

Lemma errorPriority_below (ty : string) (p : Z) :
  errorPriority !! ty = Some p → 1 ≤ p ≤ 10.
Proof.
  intros H. apply elem_of_list_to_map_2 in H.
  repeat (apply elem_of_cons in H as [[= -> ->]|H]; [lia|]).
  by apply elem_of_nil in H.
Qed.

(** Where the loop leaves [bestError]: unchanged when no listed priority
    in the list is below [highestPriority]; otherwise at the first error
    of the least listed priority. *)
Lemma selectBest_spec (errs : list ResultError.t) :
  ∀ (bestError : ResultError.t) (highestPriority : Z),
    let r := selectBest errs bestError highestPriority in
    (r = (bestError, highestPriority)
     ∧ ∀ j e p, errs !! j = Some e →
                errorPriority !! ResultError.Type_ e = Some p →
                highestPriority ≤ p)
    ∨ (∃ i, errs !! i = Some r.1
            ∧ errorPriority !! ResultError.Type_ r.1 = Some r.2
            ∧ r.2 < highestPriority
            ∧ (∀ j e p, errs !! j = Some e →
                        errorPriority !! ResultError.Type_ e = Some p →
                        r.2 ≤ p)
            ∧ (∀ j e p, (j < i)%nat → errs !! j = Some e →
                        errorPriority !! ResultError.Type_ e = Some p →
                        r.2 < p)).
Proof.
  induction errs as [|err rest IH]; intros bestError highestPriority; simpl.
  { left. split; [done|]. intros j e p Hj. by rewrite lookup_nil in Hj. }
  destruct (errorPriority !! ResultError.Type_ err) as [priority0|] eqn:Hp.
  - destruct (Z.ltb_spec priority0 highestPriority) as [Hlt|Hge].
    + (* the error becomes the best one *)
      right. destruct (IH err priority0) as [[-> Hall]|(i & Hi & Hpi & Hlti & Hall & Hbefore)].
      * exists 0%nat. simpl. repeat split; [done|lia|..].
        -- intros [|j] e p Hj He; simpl in Hj.
           ++ injection Hj as <-. rewrite Hp in He. injection He as <-. lia.
           ++ eauto.
        -- intros j e p Hj. lia.
      * exists (S i). simpl. repeat split; [done..|lia| |].
        -- intros [|j] e p Hj He; simpl in Hj.
           ++ injection Hj as <-. rewrite Hp in He. injection He as <-. lia.
           ++ eauto.
        -- intros [|j] e p Hlt' Hj He; simpl in Hj.
           ++ injection Hj as <-. rewrite Hp in He. injection He as <-. lia.
           ++ eapply Hbefore; [|done..]. lia.
    + destruct (IH bestError highestPriority) as [[-> Hall]|(i & Hi & Hpi & Hlti & Hall & Hbefore)].
      * left. split; [done|].
        intros [|j] e p Hj He; simpl in Hj.
        -- injection Hj as <-. rewrite Hp in He. injection He as <-. lia.
        -- eauto.
      * right. exists (S i). simpl. repeat split; [done..| |].
        -- intros [|j] e p Hj He; simpl in Hj.
           ++ injection Hj as <-. rewrite Hp in He. injection He as <-. lia.
           ++ eauto.
        -- intros [|j] e p Hlt' Hj He; simpl in Hj.
           ++ injection Hj as <-. rewrite Hp in He. injection He as <-. lia.
           ++ eapply Hbefore; [|done..]. lia.
  - destruct (IH bestError highestPriority) as [[-> Hall]|(i & Hi & Hpi & Hlti & Hall & Hbefore)].
    + left. split; [done|].
      intros [|j] e p Hj He; simpl in Hj.
      * injection Hj as <-. congruence.
      * eauto.
    + right. exists (S i). simpl. repeat split; [done..| |].
      * intros [|j] e p Hj He; simpl in Hj.
        -- injection Hj as <-. congruence.
        -- eauto.
      * intros [|j] e p Hlt' Hj He; simpl in Hj.
        -- injection Hj as <-. congruence.
        -- eapply Hbefore; [|done..]. lia.
Qed.

(** The error [ValidateJSON] reports is the first one of least priority. *)
Lemma primaryError_first_least (errs : list ResultError.t) :
  errs ≠ [] →
  ∃ i best,
    primaryError errs = Some best
    ∧ errs !! i = Some best
    ∧ (∀ j e, errs !! j = Some e → priority best ≤ priority e)
    ∧ (∀ j e, (j < i)%nat → errs !! j = Some e → priority best < priority e).
Proof.
  intros Hne. destruct errs as [|first rest]; [done|].
  unfold primaryError. cbn [lookup list_lookup mbind option_bind].
  pose proof (selectBest_spec (first :: rest) first 999) as Hspec.
  cbv zeta in Hspec.
  destruct Hspec as [[-> Hall]|(i & Hi & Hpi & Hlti & Hall & Hbefore)].
  - (* no error of a listed type *)
    exists 0%nat, first. simpl.
    split; [done|]. split; [done|]. split; [|intros; lia].
    assert (Hnone : ∀ j e, (first :: rest) !! j = Some e → priority e = 999).
    { intros j e Hj. unfold priority.
      destruct (errorPriority !! ResultError.Type_ e) as [p|] eqn:Hp; [|done].
      pose proof (Hall j e p Hj Hp). apply errorPriority_below in Hp. lia. }
    intros j e Hj. rewrite (Hnone 0%nat first eq_refl), (Hnone j e Hj). done.
  - destruct (selectBest (first :: rest) first 999) as [best h].
    cbn [fst snd] in *.
    exists i, best.
    split; [done|]. split; [done|].
    assert (Hbest : priority best = h) by (unfold priority; by rewrite Hpi).
    rewrite Hbest. split.
    + intros j e Hj. unfold priority.
      destruct (errorPriority !! ResultError.Type_ e) as [p|] eqn:Hp;
        cbn [default from_option]; [eauto | lia].
    + intros j e Hji Hj. unfold priority.
      destruct (errorPriority !! ResultError.Type_ e) as [p|] eqn:Hp;
        cbn [default from_option]; [eauto | lia].
Qed.

(** C4.  On a result with at least one error, [ValidateJSON] returns the
    path and the message of one error of the result: the one of least
    priority in the table (999 for a type outside it) and, among those of
    that priority, the first. *)
Theorem ValidateJSON_primary_error (result : Result.t) :
  Result.Errors result ≠ [] →
  ∃ i best,
    Result.Errors result !! i = Some best
    ∧ ValidateJSON (Validated result)
      = inr (Some {| ValidationError.Message := friendlyErrorMessage best;
                     ValidationError.Path := ResultError.Field best;
                     ValidationError.Line := 1 |})
    ∧ (∀ j e, Result.Errors result !! j = Some e → priority best ≤ priority e)
    ∧ (∀ j e, (j < i)%nat → Result.Errors result !! j = Some e →
              priority best < priority e)
    ∧ (∀ ty, priority {| ResultError.Type_ := ty; ResultError.Field := "";
                         ResultError.Description := "";
                         ResultError.Details := ∅ |}
             = if String.eqb ty "additional_property_not_allowed" then 1
               else if String.eqb ty "required" then 2
               else if String.eqb ty "invalid_type" then 3
               else if String.eqb ty "enum" then 4
               else if String.eqb ty "string_gte" then 5
               else if String.eqb ty "string_lte" then 6
               else if String.eqb ty "array_min_items" then 7
               else if String.eqb ty "array_max_items" then 8
               else if String.eqb ty "number_gte" then 9
               else if String.eqb ty "number_lte" then 10
               else 999).
Proof.
  intros Herrs.
  destruct (primaryError_first_least _ Herrs) as (i & best & Hbest & Hi & Hle & Hlt).
  exists i, best. split; [done|]. split; [|split; [done|split;[done|]]].
  - unfold ValidateJSON, Result.Valid. rewrite Hbest.
    destruct (Result.Errors result); [done|]. reflexivity.
  - intros ty. unfold priority. simpl.
    repeat match goal with
           | |- context [String.eqb ty ?s] =>
               destruct (String.eqb_spec ty s) as [->|?]; [reflexivity|]
           end.
    destruct (errorPriority !! ty) as [p|] eqn:Hp; [|done].
    apply elem_of_list_to_map_2 in Hp.
    repeat (apply elem_of_cons in Hp as [[= ? ?]|Hp]; [congruence|]).
    by apply elem_of_nil in Hp.
Qed.

(** The theorem at a result with four errors: the first of the two
    [required] errors is reported. *)
Lemma ValidateJSON_primary_error_witness :
  ValidateJSON (Validated sampleResult)
  = inr (Some {| ValidationError.Message := "Missing required property 'steps.0'";
                 ValidationError.Path := "steps.0";
                 ValidationError.Line := 1 |})
  ∧ ∃ i best,
      Result.Errors sampleResult !! i = Some best
      ∧ ValidateJSON (Validated sampleResult)
        = inr (Some {| ValidationError.Message := friendlyErrorMessage best;
                       ValidationError.Path := ResultError.Field best;
                       ValidationError.Line := 1 |})
      ∧ (∀ j e, Result.Errors sampleResult !! j = Some e →
                priority best ≤ priority e)
      ∧ (∀ j e, (j < i)%nat → Result.Errors sampleResult !! j = Some e →
                priority best < priority e).
Proof.
  split; [reflexivity|].
  destruct (ValidateJSON_primary_error sampleResult)
    as (i & best & H1 & H2 & H3 & H4 & _); [discriminate|].
  exists i, best. repeat split; assumption.
Defined.

End PrimaryError.

(** * Diagnostics for one step *)
Section StepDiagnostics.
Import protocol lsp.

Lemma b2z_range (b : bool) : 0 ≤ b2z b ≤ 1.
Proof. destruct b; simpl; lia. Qed.

(** C5, as stated, fails: with the keys [command] and [wait] both present
    and both null, one step type is counted and no diagnostic is made. *)
Lemma null_command_counts_once :
  is_Some (nullCommandAndWait !! "command")
  ∧ nullCommandAndWait !! "wait" = Some json.Nil
  ∧ stepTypeCount nullCommandAndWait = 1
  ∧ validateSingleStep nullCommandAndWait 1 1 = [].
Proof. repeat split; try reflexivity. by eexists. Qed.

(** C5, amended.  The test for [wait] is the presence of the key: a step
    whose [command] or [commands] value is not null and that has the key
    [wait], whatever its value (null too), counts at least two step types,
    and its first diagnostic has code multiple-step-types and severity
    Error. *)
Theorem wait_key_counts_as_step_type (stepData : gmap string json.value)
    (lineNum stepNumber : Z) :
  hasCommand stepData = true →
  is_Some (stepData !! "wait") →
  2 ≤ stepTypeCount stepData
  ∧ (∃ d, validateSingleStep stepData lineNum stepNumber !! 0%nat = Some d
          ∧ Code d = "multiple-step-types"
          ∧ Severity d = DiagnosticSeverityError)
  ∧ reports (validateSingleStep stepData lineNum stepNumber)
      "multiple-step-types" DiagnosticSeverityError.
Proof.
  intros Hcmd Hwait.
  assert (Hcount : 2 ≤ stepTypeCount stepData).
  { unfold stepTypeCount. rewrite Hcmd. unfold hasWait.
    rewrite (bool_decide_eq_true_2 _ Hwait). simpl.
    pose proof (b2z_range (hasBlock stepData)).
    pose proof (b2z_range (hasInput stepData)).
    pose proof (b2z_range (hasTrigger stepData)).
    pose proof (b2z_range (hasGroup stepData)). lia. }
  split; [done|].
  assert (Hfirst : ∃ d, validateSingleStep stepData lineNum stepNumber !! 0%nat = Some d
          ∧ Code d = "multiple-step-types"
          ∧ Severity d = DiagnosticSeverityError).
  { unfold validateSingleStep.
    destruct (Z.eqb_spec (stepTypeCount stepData) 0) as [|_]; [lia|].
    destruct (Z.ltb_spec 1 (stepTypeCount stepData)) as [_|]; [|lia].
    eexists. split; [reflexivity|]. done. }
  split; [done|].
  destruct Hfirst as (d & Hd & Hcode & Hsev).
  exists d. split; [|done]. by eapply list_elem_of_lookup_2.
Qed.

Lemma wait_key_counts_as_step_type_witness :
  2 ≤ stepTypeCount commandAndWait
  ∧ (∃ d, validateSingleStep commandAndWait 1 1 !! 0%nat = Some d
          ∧ Code d = "multiple-step-types"
          ∧ Severity d = DiagnosticSeverityError)
  ∧ reports (validateSingleStep commandAndWait 1 1)
      "multiple-step-types" DiagnosticSeverityError.
Proof.
  apply wait_key_counts_as_step_type; [reflexivity | by eexists].
Defined.

(** C6, as stated, fails: a wait step has neither [label] nor [name], and
    gets no diagnostic at all. *)
Lemma wait_step_no_missing_label :
  waitStep !! "label" = None
  ∧ waitStep !! "name" = None
  ∧ validateSingleStep waitStep 1 1 = [].
Proof. repeat split; reflexivity. Qed.

Ltac diag_cases H :=
  repeat first
    [ apply elem_of_app in H as [H|H]
    | apply elem_of_nil in H; destruct H
    | apply list_elem_of_singleton in H; subst; simpl in *; discriminate
    | match type of H with
      | _ ∈ (if ?b then _ else _) => destruct b eqn:?
      | _ ∈ match ?x with _ => _ end => destruct x eqn:?
      end ].

(** C6, amended.  The check for a label is made for command steps only: a
    diagnostic with code missing-label is among those of a step exactly
    when its [command] or [commands] value is not null while [label] and
    [name] are both absent or null; its severity is Information. *)
Theorem missing_label_for_command_steps (stepData : gmap string json.value)
    (lineNum stepNumber : Z) :
  (hasCommand stepData = true
   ∧ json.not_nil (stepData !! "label") = false
   ∧ json.not_nil (stepData !! "name") = false
   ↔ ∃ d, d ∈ validateSingleStep stepData lineNum stepNumber
          ∧ Code d = "missing-label")
  ∧ (∀ d, d ∈ validateSingleStep stepData lineNum stepNumber →
          Code d = "missing-label" →
          Severity d = DiagnosticSeverityInformation).
Proof.
  split; [split|].
  - intros (Hcmd & Hlabel & Hname).
    eexists. split.
    + unfold validateSingleStep. rewrite Hcmd, Hlabel, Hname.
      cbn [negb andb]. cbv iota.
      apply elem_of_app. right. apply elem_of_app. left.
      apply elem_of_app. right. apply elem_of_app. right.
      apply list_elem_of_singleton. reflexivity.
    + reflexivity.
  - intros (d & Hd & Hcode). unfold validateSingleStep in Hd.
    apply elem_of_app in Hd as [Hd|Hd]; [diag_cases Hd|].
    apply elem_of_app in Hd as [Hd|Hd]; [|diag_cases Hd].
    destruct (hasCommand stepData); [|by apply elem_of_nil in Hd].
    split; [done|].
    apply elem_of_app in Hd as [Hd|Hd]; [diag_cases Hd|].
    apply elem_of_app in Hd as [Hd|Hd]; [diag_cases Hd|].
    destruct (json.not_nil (stepData !! "label"));
      destruct (json.not_nil (stepData !! "name")); simpl in Hd;
      try by apply elem_of_nil in Hd.
    done.
  - intros d Hd Hcode. unfold validateSingleStep in Hd.
    apply elem_of_app in Hd as [Hd|Hd]; [diag_cases Hd|].
    apply elem_of_app in Hd as [Hd|Hd]; [|diag_cases Hd].
    destruct (hasCommand stepData); [|by apply elem_of_nil in Hd].
    apply elem_of_app in Hd as [Hd|Hd]; [diag_cases Hd|].
    apply elem_of_app in Hd as [Hd|Hd]; [diag_cases Hd|].
    destruct (negb (json.not_nil (stepData !! "label"))
              && negb (json.not_nil (stepData !! "name")));
      [|by apply elem_of_nil in Hd].
    apply list_elem_of_singleton in Hd. by subst.
Qed.

(** The theorem at the command step of the repository's test. *)
Lemma missing_label_for_command_steps_witness :
  ∃ d, d ∈ validateSingleStep commandAndWait 1 1
       ∧ Code d = "missing-label"
       ∧ Severity d = DiagnosticSeverityInformation.
Proof.
  destruct (missing_label_for_command_steps commandAndWait 1 1) as [[H _] Hsev].
  destruct H as (d & Hd & Hcode); [repeat split; reflexivity|].
  exists d. split; [exact Hd|]. split; [exact Hcode|].
  exact (Hsev d Hd Hcode).
Defined.

End StepDiagnostics.

(** * Plugin references *)
Section PluginReference.
Import plugins.

Lemma free_of_app (c : ascii) (s t : string) :
  free_of c (s +:+ t) = free_of c s && free_of c t.
Proof.
  induction s as [|d s IH]; [done|].
  rewrite app_cons. simpl. by rewrite IH, andb_assoc.
Qed.

Lemma cut_free (sep : ascii) (s : string) :
  free_of sep s = true → cut sep s = (s, None).
Proof.
  induction s as [|c s IH]; [done|]. simpl.
  intros [Hc Hs]%andb_true_iff. apply negb_true_iff in Hc.
  by rewrite Hc, IH.
Qed.

Lemma cut_first (sep : ascii) (s t : string) :
  free_of sep s = true →
  cut sep (s +:+ String sep t) = (s, Some t).
Proof.
  induction s as [|c s IH]; simpl.
  - intros _. change ("" +:+ String sep t) with (String sep t). simpl. by rewrite Ascii.eqb_refl.
  - intros [Hc Hs]%andb_true_iff. apply negb_true_iff in Hc.
    rewrite ?app_cons. simpl. by rewrite Hc, IH.
Qed.

Lemma index_from_char (c : ascii) (s : string) :
  ∀ i, 0 ≤ i →
       if free_of c s then index_from i s (String c "") = -1
       else i ≤ index_from i s (String c "").
Proof.
  induction s as [|d s IH]; intros i Hi; [done|].
  cbn [index_from HasPrefix free_of].
  destruct (Ascii.eqb d c); simpl; [lia|].
  specialize (IH (i + 1) ltac:(lia)).
  destruct (free_of c s); lia.
Qed.

Lemma Contains_char (c : ascii) (s : string) :
  Contains s (String c "") = negb (free_of c s).
Proof.
  unfold Contains, Index.
  pose proof (index_from_char c s 0 ltac:(lia)) as H.
  destruct (free_of c s); simpl.
  - rewrite H. reflexivity.
  - by apply Z.leb_le.
Qed.

Lemma parse_name (name : string) :
  name ≠ "" → free_of "/" name = true → free_of "#" name = true →
  ParsePluginReference name = parsed name "buildkite-plugins" name "latest".
Proof.
  intros Hne Hslash Hhash. unfold ParsePluginReference, SplitN_2.
  destruct (String.eqb_spec name "") as [|_]; [done|].
  rewrite (cut_free _ _ Hhash). simpl.
  rewrite (Contains_char "/" name), Hslash. reflexivity.
Qed.

Lemma parse_name_version (name version : string) :
  free_of "/" name = true → free_of "#" name = true →
  ParsePluginReference (name +:+ "#" +:+ version)
  = parsed (name +:+ "#" +:+ version) "buildkite-plugins" name version.
Proof.
  intros Hslash Hhash. unfold ParsePluginReference, SplitN_2.
  destruct (String.eqb_spec (name +:+ "#" +:+ version) "") as [E|_].
  { by destruct name. }
  change ("#" +:+ version) with (String "#" version).
  rewrite (cut_first _ _ _ Hhash). simpl.
  rewrite (Contains_char "/" name), Hslash. reflexivity.
Qed.

Lemma parse_org_name (org name : string) :
  free_of "/" org = true → free_of "#" org = true → free_of "#" name = true →
  ParsePluginReference (org +:+ "/" +:+ name)
  = parsed (org +:+ "/" +:+ name) org name "latest".
Proof.
  intros Hslash Hhash Hname. unfold ParsePluginReference, SplitN_2.
  destruct (String.eqb_spec (org +:+ "/" +:+ name) "") as [E|_].
  { by destruct org. }
  change ("/" +:+ name) with (String "/" name).
  rewrite (cut_free "#" (org +:+ String "/" name)).
  2:{ rewrite free_of_app. simpl. by rewrite Hhash, Hname. }
  simpl.
  rewrite (Contains_char "/" (org +:+ String "/" name)), free_of_app.
  simpl. rewrite andb_false_r. simpl.
  rewrite (cut_first _ _ _ Hslash). reflexivity.
Qed.

Lemma parse_org_name_version (org name version : string) :
  free_of "/" org = true → free_of "#" org = true → free_of "#" name = true →
  ParsePluginReference (org +:+ "/" +:+ name +:+ "#" +:+ version)
  = parsed (org +:+ "/" +:+ name +:+ "#" +:+ version) org name version.
Proof.
  intros Hslash Hhash Hname. unfold ParsePluginReference, SplitN_2.
  destruct (String.eqb_spec (org +:+ "/" +:+ name +:+ "#" +:+ version) "")
    as [E|_].
  { by destruct org. }
  change ("#" +:+ version) with (String "#" version).
  change ("/" +:+ name +:+ String "#" version)
    with (String "/" (name +:+ String "#" version)).
  replace (org +:+ String "/" (name +:+ String "#" version))
    with ((org +:+ String "/" name) +:+ String "#" version).
  2:{ clear. induction org as [|c org IH]; [done|]. by rewrite !app_cons, IH. }
  rewrite (cut_first "#" (org +:+ String "/" name)).
  2:{ rewrite free_of_app. simpl. by rewrite Hhash, Hname. }
  simpl.
  rewrite (Contains_char "/" (org +:+ String "/" name)), free_of_app.
  simpl. rewrite andb_false_r. simpl.
  rewrite (cut_first _ _ _ Hslash). reflexivity.
Qed.

Lemma parse_FullRef (ref : string) :
  ref ≠ "" →
  ∃ p, ParsePluginReference ref = Some (Some p) ∧ format p = ref.
Proof.
  intros Hne. unfold ParsePluginReference, SplitN_2.
  destruct (String.eqb_spec ref "") as [|_]; [done|].
  destruct (cut "#" ref) as [pluginPart [version|]]; simpl.
  - destruct (Contains pluginPart "/") eqn:Hc; simpl; [|by eexists].
    rewrite Contains_char in Hc. apply negb_true_iff in Hc.
    destruct (cut "/" pluginPart) as [org [name|]] eqn:Hcut; simpl;
      [by eexists|].
    exfalso. clear -Hc Hcut. revert org Hcut.
    induction pluginPart as [|c s IH]; intros org Hcut; [done|].
    simpl in Hc, Hcut. destruct (Ascii.eqb c "/"); [done|].
    destruct (cut "/" s) as [b a]. simpl in Hc. injection Hcut as <- ->.
    by eapply IH.
  - destruct (Contains pluginPart "/") eqn:Hc; simpl; [|by eexists].
    rewrite Contains_char in Hc. apply negb_true_iff in Hc.
    destruct (cut "/" pluginPart) as [org [name|]] eqn:Hcut; simpl;
      [by eexists|].
    exfalso. clear -Hc Hcut. revert org Hcut.
    induction pluginPart as [|c s IH]; intros org Hcut; [done|].
    simpl in Hc, Hcut. destruct (Ascii.eqb c "/"); [done|].
    destruct (cut "/" s) as [b a]. simpl in Hc. injection Hcut as <- ->.
    by eapply IH.
Qed.

(** C7.  A reference [name] or [name#version] is parsed with the org
    buildkite-plugins, and [org/name] or [org/name#version] with the org
    given ([name] and [org] hold no '/' and no '#'; after an org the name
    holds no '#'); without a version the version is "latest"; a reference
    that is not empty is parsed (no nil, no panic) and kept in full as
    [FullRef]; and the schema URLs tried are the plugin.yml of the version,
    of main and of master, in this order. *)
Theorem ParsePluginReference_shapes (org name version : string) :
  free_of "/" org = true → free_of "#" org = true →
  free_of "#" name = true →
  (name ≠ "" → free_of "/" name = true →
   ParsePluginReference name = parsed name "buildkite-plugins" name "latest")
  ∧ (free_of "/" name = true →
     ParsePluginReference (name +:+ "#" +:+ version)
     = parsed (name +:+ "#" +:+ version) "buildkite-plugins" name version)
  ∧ ParsePluginReference (org +:+ "/" +:+ name)
    = parsed (org +:+ "/" +:+ name) org name "latest"
  ∧ ParsePluginReference (org +:+ "/" +:+ name +:+ "#" +:+ version)
    = parsed (org +:+ "/" +:+ name +:+ "#" +:+ version) org name version
  ∧ (∀ ref, ref ≠ "" →
            ∃ p, ParsePluginReference ref = Some (Some p) ∧ format p = ref)
  ∧ (∀ p : ParsedPluginRef.t,
       GetAllSchemaURLs p
       = [ "https://raw.githubusercontent.com/" +:+ ParsedPluginRef.Org p
             +:+ "/" +:+ ParsedPluginRef.Name p +:+ "-buildkite-plugin/"
             +:+ ParsedPluginRef.Version p +:+ "/plugin.yml";
           "https://raw.githubusercontent.com/" +:+ ParsedPluginRef.Org p
             +:+ "/" +:+ ParsedPluginRef.Name p
             +:+ "-buildkite-plugin/main/plugin.yml";
           "https://raw.githubusercontent.com/" +:+ ParsedPluginRef.Org p
             +:+ "/" +:+ ParsedPluginRef.Name p
             +:+ "-buildkite-plugin/master/plugin.yml" ]).
Proof.
  intros Hslash Hhash Hname. repeat split.
  - intros Hne Hs. by apply parse_name.
  - intros Hs. by apply parse_name_version.
  - by apply parse_org_name.
  - by apply parse_org_name_version.
  - apply parse_FullRef.
Qed.

(** The theorem at the reference [mcncl/foo#v3.0.0] of the spec's
    scenario, with the three URLs written out. *)
Lemma ParsePluginReference_shapes_witness :
  ParsePluginReference "mcncl/foo#v3.0.0"
  = parsed "mcncl/foo#v3.0.0" "mcncl" "foo" "v3.0.0"
  ∧ ParsePluginReference "foo#v3.0.0"
    = parsed "foo#v3.0.0" "buildkite-plugins" "foo" "v3.0.0"
  ∧ GetAllSchemaURLs
      {| ParsedPluginRef.Org := "mcncl"; ParsedPluginRef.Name := "foo";
         ParsedPluginRef.Version := "v3.0.0";
         ParsedPluginRef.FullRef := "mcncl/foo#v3.0.0" |}
    = [ "https://raw.githubusercontent.com/mcncl/foo-buildkite-plugin/v3.0.0/plugin.yml";
        "https://raw.githubusercontent.com/mcncl/foo-buildkite-plugin/main/plugin.yml";
        "https://raw.githubusercontent.com/mcncl/foo-buildkite-plugin/master/plugin.yml" ].
Proof.
  destruct (ParsePluginReference_shapes "mcncl" "foo" "v3.0.0"
              eq_refl eq_refl eq_refl) as (_ & Hnv & _ & Honv & _ & Hurls).
  split; [exact Honv|]. split; [exact (Hnv eq_refl)|].
  rewrite Hurls. reflexivity.
Defined.

End PluginReference.

(** * Completion labels *)
Section CompletionLabels.
Import protocol bkcontext lsp.

(** C8, as stated, fails: on a blank line of a plugins list the context is
    Plugins and the first item returned is the list-item helper, whose
    label holds no '#'. *)
Lemma plugins_helper_label_without_hash :
  ContextInfo.Type_ <$> AnalyzeContext (Some blankPluginsLine)
  = Some ContextPlugins
  ∧ ∃ items item,
      GetCompletions offline (Some blankPluginsLine) = Some items
      ∧ items !! 0%nat = Some item
      ∧ Label item = "- (add plugin)"
      ∧ free_of "#" (Label item) = true
      ∧ plugin_label (Label item) = false.
Proof.
  split; [reflexivity|].
  eexists _, _. split; [reflexivity|]. split; [reflexivity|].
  repeat split.
Qed.

Lemma cut_Some_not_free (sep : ascii) (s : string) :
  ∀ before after, cut sep s = (before, Some after) → free_of sep s = false.
Proof.
  induction s as [|c s IH]; intros before after H; [done|].
  simpl in *. destruct (Ascii.eqb c sep); [done|].
  destruct (cut sep s) as [b [a|]]; [|done]. simpl. by eapply IH.
Qed.

Lemma plugin_label_hash (label : string) :
  plugin_label label = true → free_of "#" label = false.
Proof.
  unfold plugin_label.
  destruct (cut "#" label) as [name [version|]] eqn:Hcut; [|done].
  intros _. by eapply cut_Some_not_free.
Qed.

Lemma popular_plugin_labels :
  forallb (λ item, plugin_label (Label item))
    (pluginCompletion <$> plugins.GetPopularPlugins) = true.
Proof. vm_compute. reflexivity. Qed.

Lemma top_level_labels :
  forallb (λ item, free_of "#" (Label item)) getTopLevelCompletions = true.
Proof. vm_compute. reflexivity. Qed.

Lemma step_labels :
  forallb (λ item, free_of "#" (Label item)) getStepCompletions = true.
Proof. vm_compute. reflexivity. Qed.

Lemma forallb_elem_of {A} (f : A → bool) (l : list A) (x : A) :
  forallb f l = true → x ∈ l → f x = true.
Proof.
  intros H Hx. rewrite forallb_forall in H. apply H. by apply list_elem_of_In.
Qed.

(** C8, amended.  In the Plugins context every item returned is either one
    of a popular plugin, whose label is [<name>#v<major>.<minor>.<patch>]
    with or without a suffix [-...] (so it holds '#'), or the list-item
    helper [- (add plugin)], which is returned only when the current line
    is blank.  In the Step and TopLevel contexts no label holds '#'. *)
Theorem completion_labels
    (completionsFromRegistry : string → Z → option (list CompletionItem))
    (posCtx : PositionContext.t) :
  ∃ info items,
    AnalyzeContext (Some posCtx) = Some info
    ∧ GetCompletions completionsFromRegistry (Some posCtx) = Some items
    ∧ (ContextInfo.Type_ info = ContextPlugins →
       ∀ item, item ∈ items →
         (plugin_label (Label item) = true ∧ free_of "#" (Label item) = false)
         ∨ (item = listItemSuggestion
            ∧ TrimSpace (PositionContext.CurrentLine posCtx) = ""))
    ∧ (ContextInfo.Type_ info = ContextStep
       ∨ ContextInfo.Type_ info = ContextTopLevel →
       ∀ item, item ∈ items → free_of "#" (Label item) = true).
Proof.
  destruct (AnalyzeContext_total (Some posCtx)) as [info Hinfo].
  exists info. unfold GetCompletions. rewrite Hinfo. cbn [mbind option_bind].
  destruct (ContextInfo.Type_ info) eqn:Hty; eexists;
    (split; [reflexivity|]); (split; [reflexivity|]);
    (split; [intros [=] | intros [[=]|[=]]]).
  - intros item Hitem. exact (forallb_elem_of _ _ _ top_level_labels Hitem).
  - intros item Hitem. exact (forallb_elem_of _ _ _ step_labels Hitem).
  - intros item Hitem. unfold getPluginCompletions in Hitem.
    apply elem_of_app in Hitem as [Hitem|Hitem].
    + right. unfold needsListItemSuggestion in Hitem.
      destruct (HasPrefix _ "-"); [by apply elem_of_nil in Hitem|].
      destruct (String.eqb_spec (TrimSpace (PositionContext.CurrentLine posCtx)) "")
        as [Hblank|]; [|by apply elem_of_nil in Hitem].
      simpl in Hitem. destruct (bool_decide _); [|by apply elem_of_nil in Hitem].
      by apply list_elem_of_singleton in Hitem.
    + left.
      pose proof (forallb_elem_of _ _ _ popular_plugin_labels Hitem) as Hl.
      split; [done|]. by apply plugin_label_hash.
Qed.

(** The theorem after the dash of a plugins item: the eleven labels. *)
Lemma completion_labels_witness :
  ∃ items,
    GetCompletions offline (Some pluginsItemLine) = Some items
    ∧ ∀ item, item ∈ items →
        (plugin_label (Label item) = true ∧ free_of "#" (Label item) = false)
        ∨ (item = listItemSuggestion
           ∧ TrimSpace (PositionContext.CurrentLine pluginsItemLine) = "").
Proof.
  destruct (completion_labels offline pluginsItemLine)
    as (info & items & Hinfo & Hitems & Hplugins & _).
  exists items. split; [exact Hitems|]. apply Hplugins.
  vm_compute in Hinfo. by injection Hinfo as <-.
Defined.

End CompletionLabels.

(** * File eligibility *)
Section FileEligibility.
Import lsp.

(** The cases of the repository's test. *)
Lemma isBuildkiteFile_tests :
  isBuildkiteFile "file:///project/.buildkite/pipeline.yml" = true
  ∧ isBuildkiteFile "file:///project/.buildkite/pipeline.yaml" = true
  ∧ isBuildkiteFile "file:///project/.buildkite/steps.yml" = true
  ∧ isBuildkiteFile "file:///project/buildkite.yml" = true
  ∧ isBuildkiteFile "file:///project/buildkite.yaml" = true
  ∧ isBuildkiteFile "file:///project/pipeline.yml" = true
  ∧ isBuildkiteFile "file:///project/other.yml" = false
  ∧ isBuildkiteFile "file:///project/test.json" = false.
Proof. repeat split; reflexivity. Qed.

(** C9, as stated, fails in both directions.  A YAML file under a
    directory whose name only ends with [.buildkite] is taken, though its
    path does not contain [/.buildkite/] and its base name is not one of
    the four; and a path under [/.buildkite/] that ends with a slash after
    [pipeline.yml] is refused, though its base name is [pipeline.yml]. *)
Lemma isBuildkiteFile_differs_from_spec :
  isBuildkiteFile "file:///repo/my.buildkite/deploy.yml" = true
  ∧ eligible_as_specified "file:///repo/my.buildkite/deploy.yml" = false
  ∧ isBuildkiteFile "file:///repo/.buildkite/pipeline.yml/" = false
  ∧ eligible_as_specified "file:///repo/.buildkite/pipeline.yml/" = true.
Proof. repeat split; reflexivity. Qed.

Lemma isBuildkiteFile_path (uri : string) :
  isBuildkiteFile uri
  = if Contains (pathOf uri) ".buildkite/"
    then HasSuffix (pathOf uri) ".yml" || HasSuffix (pathOf uri) ".yaml"
    else bool_decide (filepath.Base (pathOf uri) ∈ standaloneNames).
Proof.
  unfold isBuildkiteFile, pathOf, TrimPrefix.
  destruct (HasPrefix uri "file://");
    (destruct (Contains _ ".buildkite/"); [done|]);
    unfold standaloneNames;
    repeat match goal with
           | |- context [String.eqb ?a ?b] =>
               destruct (String.eqb_spec a b) as [->|?]; [done|]
           end;
    simpl; symmetry; apply bool_decide_eq_false;
    rewrite !elem_of_cons, elem_of_nil; tauto.
Qed.

(** C9, amended.  With the path of a URI being the URI without a leading
    [file://]: [isBuildkiteFile] is true exactly when the path contains
    [.buildkite/] (no slash needed before it) and ends with [.yml] or
    [.yaml], or the path does not contain [.buildkite/] and its base name
    is one of pipeline.yml, pipeline.yaml, buildkite.yml,
    buildkite.yaml. *)
Theorem isBuildkiteFile_iff (uri : string) :
  ((∃ path, uri = "file://" +:+ path ∧ pathOf uri = path)
   ∨ ((¬ ∃ path, uri = "file://" +:+ path) ∧ pathOf uri = uri))
  ∧ (isBuildkiteFile uri = true
     ↔ ((∃ a b, pathOf uri = a +:+ ".buildkite/" +:+ b)
        ∧ ((∃ a, pathOf uri = a +:+ ".yml")
           ∨ (∃ a, pathOf uri = a +:+ ".yaml")))
       ∨ ((¬ ∃ a b, pathOf uri = a +:+ ".buildkite/" +:+ b)
          ∧ filepath.Base (pathOf uri) ∈ standaloneNames)).
Proof.
  split; [apply TrimPrefix_spec|].
  rewrite isBuildkiteFile_path.
  rewrite <- Contains_spec, <- !HasSuffix_spec.
  destruct (Contains (pathOf uri) ".buildkite/").
  - rewrite orb_true_iff. split; [intros H; left; by split|].
    intros [[_ H]|[H _]]; [done|]. by destruct H.
  - rewrite bool_decide_eq_true. split; [intros H; right; by split|].
    intros [[H _]|[_ H]]; done.
Qed.

End FileEligibility.

(** * Semantic tokens *)
Section SemanticTokens.
Import lsp.

Lemma token_stream_app (a b : list Z) :
  token_stream a → token_stream b → token_stream (a ++ b).
Proof.
  intros Ha Hb. induction Ha as [|a0 b0 c0 ty m rest Hty Hm Hrest IH]; [done|].
  simpl. by constructor.
Qed.

Lemma token_stream_shape (data : list Z) :
  token_stream data →
  (length data mod 5 = 0)%nat
  ∧ (∀ k tokenType, data !! (5 * k + 3)%nat = Some tokenType →
                    0 ≤ tokenType < 8)
  ∧ (∀ k modifiers, data !! (5 * k + 4)%nat = Some modifiers →
                    0 ≤ modifiers < 8).
Proof.
  induction 1 as [|a b c ty m rest Hty Hm Hrest (IHlen & IHty & IHm)].
  - split; [done|]. split; intros k x Hx; by rewrite lookup_nil in Hx.
  - split; [|split].
    + cbn [length].
      replace (S (S (S (S (S (length rest))))))
        with (length rest + 1 * 5)%nat by lia.
      by rewrite Nat.Div0.mod_add.
    + intros [|k] x Hx.
      * simpl in Hx. by injection Hx as <-.
      * replace (5 * S k + 3)%nat
          with (S (S (S (S (S (5 * k + 3)))))) in Hx by lia.
        simpl in Hx. apply (IHty k). rewrite <- Hx. f_equal; lia.
    + intros [|k] x Hx.
      * simpl in Hx. by injection Hx as <-.
      * replace (5 * S k + 4)%nat
          with (S (S (S (S (S (5 * k + 4)))))) in Hx by lia.
        simpl in Hx. apply (IHm k). rewrite <- Hx. f_equal; lia.
Qed.

(** ** The tokens [createToken] makes *)

Lemma indexOf_range (l : list string) (x : string) :
  ∀ i k, indexOf i l x = Some k → i ≤ k < i + Z.of_nat (length l).
Proof.
  induction l as [|t l IH]; intros i k; simpl; [done|].
  destruct (String.eqb t x).
  - intros [= <-]. lia.
  - intros H%IH. lia.
Qed.

Lemma getTokenTypeIndex_range (tokenType : string) :
  0 ≤ getTokenTypeIndex tokenType < 8.
Proof.
  unfold getTokenTypeIndex.
  destruct (indexOf 0 tokenTypes tokenType) as [k|] eqn:Hk; simpl; [|lia].
  apply indexOf_range in Hk. simpl in Hk. lia.
Qed.

Lemma modifierMap_bits (modifier : string) (bit : Z) :
  modifierMap !! modifier = Some bit → bit = 1 ∨ bit = 2 ∨ bit = 4.
Proof.
  intros H. apply elem_of_list_to_map_2 in H.
  repeat (apply elem_of_cons in H as [[= -> ->]|H]; [cbv; tauto|]).
  by apply elem_of_nil in H.
Qed.

Lemma getTokenModifierBits_from_range (modifiers : list string) :
  ∀ bits, 0 ≤ bits < 8 → 0 ≤ getTokenModifierBits_from bits modifiers < 8.
Proof.
  induction modifiers as [|modifier rest IH]; intros bits Hbits; simpl; [done|].
  destruct (modifierMap !! modifier) as [bit|] eqn:Hbit; [|by apply IH].
  apply IH. apply modifierMap_bits in Hbit.
  assert (bits = 0 ∨ bits = 1 ∨ bits = 2 ∨ bits = 3 ∨ bits = 4 ∨ bits = 5
          ∨ bits = 6 ∨ bits = 7) as Hcases by lia.
  destruct Hbit as [->|[->| ->]];
    destruct Hcases as [->|[->|[->|[->|[->|[->|[->| ->]]]]]]];
    match goal with
    | |- context [Z.lor ?a ?b] =>
        let v := eval vm_compute in (Z.lor a b) in
        change (Z.lor a b) with v
    end; lia.
Qed.

Lemma getTokenModifierBits_range (modifiers : list string) :
  0 ≤ getTokenModifierBits modifiers < 8.
Proof. apply getTokenModifierBits_from_range. lia. Qed.

Lemma u32_small (n : Z) : 0 ≤ n < 2 ^ 32 → u32 n = n.
Proof. intros H. unfold u32. by apply Z.mod_small. Qed.

Lemma u32_range (n : Z) : 0 ≤ u32 n < 2 ^ 32.
Proof. unfold u32. apply Z.mod_pos_bound. lia. Qed.

Lemma createToken_stream (line start length : Z) (tokenType : string)
    (modifiers : list string) :
  token_stream (createToken line start length tokenType modifiers).
Proof.
  unfold createToken.
  pose proof (getTokenTypeIndex_range tokenType).
  pose proof (getTokenModifierBits_range modifiers).
  rewrite !u32_small by lia.
  constructor; [done..|constructor].
Qed.

(** ** No index out of range in [parseStepContent] *)

Lemma nth_byte_drop_bytes (s : string) :
  ∀ i j, nth_byte j (drop_bytes i s) = nth_byte (i + j) s.
Proof.
  induction s as [|c s IH]; intros [|i] j; simpl; try done.
  by destruct j.
Qed.

Lemma TrimSpace_space (s : string) : TrimSpace (String SP s) = TrimSpace s.
Proof. reflexivity. Qed.

(** A text that is not all white space has a first character that is not
    a space. *)
Lemma TrimSpace_first_nonspace (s : string) :
  TrimSpace s ≠ "" →
  ∃ k c, nth_byte k s = Some c ∧ c ≠ SP
         ∧ ∀ j, (j < k)%nat → nth_byte j s = Some SP.
Proof.
  induction s as [|c s IH]; [done|].
  destruct (Ascii.eqb_spec c SP) as [->|Hc].
  - rewrite TrimSpace_space. intros H.
    destruct (IH H) as (k & d & Hk & Hd & Hbefore).
    exists (S k), d. split; [done|]. split; [done|].
    intros [|j] Hj; [done|]. simpl. apply Hbefore. lia.
  - intros _. exists 0%nat, c. split; [done|]. split; [done|]. lia.
Qed.

Lemma skipSpaces_eq (n : nat) (content : string)
    (startChar colonIndex valueStart : Z) :
  skipSpaces n content startChar colonIndex valueStart
  = if valueStart <? u32 (startChar + u32 (len content)) then
      c ← at_index content
            (colonIndex + 1
             + u32 (valueStart - startChar - u32 (colonIndex + 1)));
      if Ascii.eqb c SP then
        match n with
        | O => Some valueStart
        | S n' =>
            skipSpaces n' content startChar colonIndex (u32 (valueStart + 1))
        end
      else Some valueStart
    else Some valueStart.
Proof. destruct n; reflexivity. Qed.

Lemma u32_offset (startChar c1 j : Z) :
  0 ≤ j < 2 ^ 32 →
  u32 (u32 (startChar + c1) + j - startChar - c1) = j.
Proof.
  intros Hj. unfold u32.
  pose proof (Z.div_mod (startChar + c1) (2 ^ 32) ltac:(lia)) as Hdm.
  replace ((startChar + c1) mod 2 ^ 32 + j - startChar - c1)
    with (j + (- ((startChar + c1) / 2 ^ 32)) * 2 ^ 32) by lia.
  rewrite Z_mod_plus_full. by apply Z.mod_small.
Qed.

Lemma skipSpaces_total (content : string) (startChar colonIndex : Z)
    (k : nat) (c : ascii) :
  0 ≤ colonIndex + 1 →
  nth_byte k (slice_from content (colonIndex + 1)) = Some c →
  c ≠ SP →
  (∀ j, (j < k)%nat →
        nth_byte j (slice_from content (colonIndex + 1)) = Some SP) →
  ∀ n j, (j ≤ k)%nat →
    ∃ r, skipSpaces n content startChar colonIndex
           (u32 (startChar + u32 (colonIndex + 1)) + Z.of_nat j) = Some r.
Proof.
  intros Hci Hk Hc Hbefore.
  induction n as [|n IH]; intros j Hj; rewrite skipSpaces_eq.
  all: destruct (Z.ltb_spec
                   (u32 (startChar + u32 (colonIndex + 1)) + Z.of_nat j)
                   (u32 (startChar + u32 (len content)))) as [Hlt|_];
    [|by eexists].
  all: pose proof (u32_range (startChar + u32 (len content)));
    pose proof (u32_range (startChar + u32 (colonIndex + 1)));
    rewrite u32_offset by lia;
    unfold at_index;
    destruct (Z.ltb_spec (colonIndex + 1 + Z.of_nat j) 0) as [|_]; [lia|];
    replace (Z.to_nat (colonIndex + 1 + Z.of_nat j))
      with (Z.to_nat (colonIndex + 1) + j)%nat by lia;
    rewrite <- nth_byte_drop_bytes;
    fold (slice_from content (colonIndex + 1));
    destruct (decide (j = k)) as [->|Hne].
  - rewrite Hk. simpl. apply Ascii.eqb_neq in Hc. rewrite Hc. by eexists.
  - rewrite Hbefore by lia. simpl. by eexists.
  - rewrite Hk. simpl. apply Ascii.eqb_neq in Hc. rewrite Hc. by eexists.
  - rewrite Hbefore by lia. simpl.
    rewrite u32_small by lia.
    replace (u32 (startChar + u32 (colonIndex + 1)) + Z.of_nat j + 1)
      with (u32 (startChar + u32 (colonIndex + 1)) + Z.of_nat (S j)) by lia.
    apply IH. lia.
Qed.

(** The count given to [skipSpaces] in [parseStepContent] is never used
    up: any count from the distance to the bound on gives the same
    result. *)
Lemma skipSpaces_enough (content : string) (startChar colonIndex : Z) :
  ∀ n m valueStart,
    0 ≤ valueStart →
    u32 (startChar + u32 (len content)) - valueStart ≤ Z.of_nat n →
    u32 (startChar + u32 (len content)) - valueStart ≤ Z.of_nat m →
    skipSpaces n content startChar colonIndex valueStart
    = skipSpaces m content startChar colonIndex valueStart.
Proof.
  induction n as [|n IH]; intros m valueStart Hpos Hn Hm;
    rewrite (skipSpaces_eq _ content), (skipSpaces_eq m content);
    destruct (Z.ltb_spec valueStart (u32 (startChar + u32 (len content))))
      as [Hlt|]; try done; [lia|].
  destruct (at_index content _) as [c|]; [|done]. cbn [mbind option_bind].
  destruct (Ascii.eqb c SP); [|done].
  destruct m as [|m]; [lia|].
  pose proof (u32_range (startChar + u32 (len content))).
  rewrite u32_small by lia. apply IH; lia.
Qed.

Lemma parseStepContent_stream (content : string) (line startChar : Z) :
  ∃ tokens, parseStepContent content line startChar = Some tokens
            ∧ token_stream tokens.
Proof.
  unfold parseStepContent.
  destruct (Z.eqb_spec (Index content ":") (-1)) as [|Hci]; cbn [negb].
  { eexists. split; [done|]. constructor. }
  set (colonIndex := Index content ":") in *.
  set (key := TrimSpace (slice_to content colonIndex)).
  set (value := TrimSpace (slice_from content (colonIndex + 1))).
  assert (Hkey : token_stream
            (createToken line startChar (u32 (len key))
               (getKeyTokenType key true) (getKeyModifiers key true)
             ++ createToken line (u32 (startChar + u32 (len key))) 1
                  "operator" [])).
  { apply token_stream_app; apply createToken_stream. }
  destruct (String.eqb_spec value "") as [|Hvalue]; cbn [negb].
  { eexists. by split. }
  destruct (TrimSpace_first_nonspace _ Hvalue) as (k & c & Hk & Hc & Hbefore).
  assert (0 ≤ colonIndex + 1) as Hpos.
  { destruct (Index_range content ":") as [|[? _]]; [done|].
    unfold colonIndex. lia. }
  destruct (skipSpaces_total content startChar colonIndex k c Hpos Hk Hc
              Hbefore
              (Z.to_nat (u32 (startChar + u32 (len content))
                         - u32 (startChar + u32 (colonIndex + 1))))
              0%nat ltac:(lia)) as [r Hr].
  rewrite Z.add_0_r in Hr. rewrite Hr. cbn [mbind option_bind].
  destruct (getValueTokenType key value true) as [valueTokenType valueModifiers].
  destruct (negb (String.eqb valueTokenType ""));
    (eexists; split; [done|]); [|done].
  apply token_stream_app; [done|]. apply createToken_stream.
Qed.

Lemma tokenizeLine_stream (line : string) (lineNumber : Z)
    (st : TokenizerState.t) :
  ∃ tokens st', tokenizeLine line lineNumber st = Some (tokens, st')
                ∧ token_stream tokens.
Proof.
  unfold tokenizeLine.
  destruct (String.eqb (TrimSpace line) "" || HasPrefix (TrimSpace line) "#").
  { destruct (HasPrefix (TrimSpace line) "#"); eexists _, _;
      (split; [done|]); [apply createToken_stream | constructor]. }
  destruct (String.eqb (TrimSpace line) "steps:").
  { eexists _, _. split; [done|].
    apply token_stream_app; apply createToken_stream. }
  cbv zeta.
  match goal with
  | |- context [if ?b then {| TokenizerState.inSteps := false |} else st] =>
      set (st1 := if b then _ else st)
  end.
  destruct (TokenizerState.inSteps st1
            && HasPrefix (TrimLeft line (String SP (String TAB ""))) "- "
            && (getIndentLevel line =? 2)).
  { destruct (negb (String.eqb
                      (TrimSpace (slice_from line (Index line "- " + 2))) "")).
    - destruct (parseStepContent_stream
                  (TrimSpace (slice_from line (Index line "- " + 2)))
                  lineNumber (u32 (Index line "- " + 2)))
        as (stepTokens & -> & Hstep).
      cbn [mbind option_bind]. eexists _, _. split; [done|].
      apply token_stream_app; [apply createToken_stream | done].
    - eexists _, _. split; [done|]. apply createToken_stream. }
  match goal with
  | |- context [if ?b then {| TokenizerState.inStep := false |} else st1] =>
      set (st2 := if b then _ else st1)
  end.
  destruct (negb (Index line ":" =? -1)); [|eexists _, _; split; [done|constructor]].
  assert (Hkey : ∀ a b ty mods,
            token_stream (createToken lineNumber a b ty mods
                          ++ createToken lineNumber (u32 (Index line ":")) 1
                               "operator" [])).
  { intros. apply token_stream_app; apply createToken_stream. }
  destruct (negb (String.eqb
                    (TrimSpace (slice_from line (Index line ":" + 1))) ""));
    [|eexists _, _; split; [done|apply Hkey]].
  destruct (getValueTokenType _ _ _) as [valueTokenType valueModifiers].
  destruct (negb (String.eqb valueTokenType ""));
    eexists _, _; (split; [done|]); [|apply Hkey].
  apply token_stream_app; [apply Hkey | apply createToken_stream].
Qed.

Lemma encodeDeltas_stream (lineTokens : list Z) :
  token_stream lineTokens →
  ∀ data prevLine prevStart,
    token_stream data →
    ∃ data' prevLine' prevStart',
      encodeDeltas lineTokens data prevLine prevStart
      = Some (data', prevLine', prevStart')
      ∧ token_stream data'.
Proof.
  induction 1 as [|a b c ty m rest Hty Hm Hrest IH];
    intros data prevLine prevStart Hdata.
  - eexists _, _, _. by split.
  - cbn [encodeDeltas]. apply IH.
    apply token_stream_app; [done|]. constructor; [done..|constructor].
Qed.

Lemma tokensOfLines_stream (lines : list string) :
  ∀ lineIndex startLineOffset st data prevLine prevStart,
    token_stream data →
    ∃ data',
      tokensOfLines lines lineIndex startLineOffset st data prevLine prevStart
      = Some data'
      ∧ token_stream data'.
Proof.
  induction lines as [|line rest IH];
    intros lineIndex startLineOffset st data prevLine prevStart Hdata.
  - eexists. by split.
  - cbn [tokensOfLines].
    destruct (tokenizeLine_stream line (u32 (lineIndex + startLineOffset)) st)
      as (tokens & st' & -> & Htokens).
    cbn [mbind option_bind].
    destruct (encodeDeltas_stream tokens Htokens data prevLine prevStart Hdata)
      as (data' & prevLine' & prevStart' & -> & Hdata').
    cbn [mbind option_bind]. by apply IH.
Qed.

(** C10.  For every list of lines and every offset of the first line,
    [generateSemanticTokensForRange] returns (no index is out of range),
    the length of the data is a multiple of 5, and in every group of five
    the index of the token type is below 8 and the modifier bits are
    below 8. *)
Theorem semantic_tokens_well_formed (lines : list string)
    (startLineOffset : Z) :
  ∃ data,
    generateSemanticTokensForRange lines startLineOffset = Some data
    ∧ (length data mod 5 = 0)%nat
    ∧ (∀ k tokenType, data !! (5 * k + 3)%nat = Some tokenType →
                      0 ≤ tokenType < 8)
    ∧ (∀ k modifiers, data !! (5 * k + 4)%nat = Some modifiers →
                      0 ≤ modifiers < 8).
Proof.
  unfold generateSemanticTokensForRange.
  destruct (tokensOfLines_stream lines 0 startLineOffset
              {| TokenizerState.inSteps := false;
                 TokenizerState.inStep := false;
                 TokenizerState.stepIndent := -1 |}
              [] 0 0 token_stream_nil) as (data & Hdata & Hstream).
  exists data. split; [done|]. by apply token_stream_shape.
Qed.

End SemanticTokens.

(** * Further facts about strings *)
Section MoreStringFacts.

Lemma len_app (s t : string) : len (s +:+ t) = len s + len t.
Proof. unfold len. rewrite length_app_s. lia. Qed.

Lemma len_nonneg (s : string) : 0 ≤ len s.
Proof. unfold len. lia. Qed.

Lemma len_0 (s : string) : len s = 0 → s = "".
Proof. destruct s; [done|]. unfold len. simpl. lia. Qed.

Lemma take_drop_bytes (n : nat) (s : string) :
  take_bytes n s +:+ drop_bytes n s = s.
Proof.
  revert s. induction n as [|n IH]; intros [|c s]; simpl; try done.
  by rewrite app_cons, IH.
Qed.

Lemma drop_bytes_app (a b : string) :
  drop_bytes (String.length a) (a +:+ b) = b.
Proof. induction a as [|c a IH]; [done|]. by rewrite app_cons. Qed.

Lemma take_bytes_app (a b : string) :
  take_bytes (String.length a) (a +:+ b) = a.
Proof.
  induction a as [|c a IH]; [by destruct b|]. rewrite app_cons. simpl.
  by rewrite IH.
Qed.

Lemma length_take_bytes (n : nat) (s : string) :
  String.length (take_bytes n s) = (n `min` String.length s)%nat.
Proof.
  revert s. induction n as [|n IH]; intros [|c s]; simpl; try done.
  by rewrite IH.
Qed.

Lemma length_drop_bytes (n : nat) (s : string) :
  String.length (drop_bytes n s) = (String.length s - n)%nat.
Proof.
  revert s. induction n as [|n IH]; intros [|c s]; simpl; try done.
Qed.

(** White space is trimmed from the two ends only. *)
Lemma trimLeftSpace_suffix (s : string) : ∃ a, s = a +:+ trimLeftSpace s.
Proof.
  remember (String.length s) as n eqn:Hn. revert s Hn.
  induction n as [n IH] using lt_wf_ind. intros s ->.
  destruct s as [|c s1]; [by exists ""|].
  cbn [trimLeftSpace].
  destruct (ascii_space c).
  { destruct (IH (String.length s1) ltac:(simpl; lia) s1 eq_refl) as [a Ha].
    exists (String c a). by rewrite app_cons, <- Ha. }
  destruct s1 as [|d s2]; [by exists ""|].
  destruct (Ascii.eqb c "194" && (Ascii.eqb d "133" || Ascii.eqb d "160")).
  { destruct (IH (String.length s2) ltac:(simpl; lia) s2 eq_refl) as [a Ha].
    exists (String c (String d a)). by rewrite !app_cons, <- Ha. }
  destruct s2 as [|e s3]; [by exists ""|].
  match goal with |- context [if ?b then _ else _] => destruct b end.
  - destruct (IH (String.length s3) ltac:(simpl; lia) s3 eq_refl) as [a Ha].
    exists (String c (String d (String e a))). by rewrite !app_cons, <- Ha.
  - by exists "".
Qed.

Lemma trimLeftSpace_rev_suffix (s : string) :
  ∃ a, s = a +:+ trimLeftSpace_rev s.
Proof.
  remember (String.length s) as n eqn:Hn. revert s Hn.
  induction n as [n IH] using lt_wf_ind. intros s ->.
  destruct s as [|c s1]; [by exists ""|].
  cbn [trimLeftSpace_rev].
  destruct (ascii_space c).
  { destruct (IH (String.length s1) ltac:(simpl; lia) s1 eq_refl) as [a Ha].
    exists (String c a). by rewrite app_cons, <- Ha. }
  destruct s1 as [|d s2]; [by exists ""|].
  destruct (Ascii.eqb d "194" && (Ascii.eqb c "133" || Ascii.eqb c "160")).
  { destruct (IH (String.length s2) ltac:(simpl; lia) s2 eq_refl) as [a Ha].
    exists (String c (String d a)). by rewrite !app_cons, <- Ha. }
  destruct s2 as [|e s3]; [by exists ""|].
  match goal with |- context [if ?b then _ else _] => destruct b end.
  - destruct (IH (String.length s3) ltac:(simpl; lia) s3 eq_refl) as [a Ha].
    exists (String c (String d (String e a))). by rewrite !app_cons, <- Ha.
  - by exists "".
Qed.

Lemma TrimSpace_infix (s : string) : ∃ a b, s = a +:+ TrimSpace s +:+ b.
Proof.
  unfold TrimSpace.
  destruct (trimLeftSpace_suffix s) as [a Ha].
  destruct (trimLeftSpace_rev_suffix (String.rev (trimLeftSpace s))) as [b Hb].
  exists a, (String.rev b).
  rewrite <- rev_app_distr, <- Hb, rev_involutive_s. exact Ha.
Qed.

Lemma TrimSpace_len (s : string) : len (TrimSpace s) ≤ len s.
Proof.
  destruct (TrimSpace_infix s) as (a & b & H).
  rewrite H at 2. rewrite !len_app.
  pose proof (len_nonneg a). pose proof (len_nonneg b). lia.
Qed.

Lemma TrimSpace_empty : TrimSpace "" = "".
Proof. reflexivity. Qed.

Lemma free_of_infix (c : ascii) (s a t b : string) :
  s = a +:+ t +:+ b → free_of c s = true → free_of c t = true.
Proof.
  intros -> H. rewrite !free_of_app in H.
  by apply andb_prop in H as [_ [H _]%andb_prop].
Qed.

Lemma free_of_TrimSpace (c : ascii) (s : string) :
  free_of c s = true → free_of c (TrimSpace s) = true.
Proof.
  destruct (TrimSpace_infix s) as (a & b & H). by apply (free_of_infix c s a _ b).
Qed.

Lemma free_of_take_bytes (c : ascii) (n : nat) (s : string) :
  free_of c s = true → free_of c (take_bytes n s) = true.
Proof.
  intros H. rewrite <- (take_drop_bytes n s), free_of_app in H.
  by apply andb_prop in H as [H _].
Qed.

Lemma free_of_drop_bytes (c : ascii) (n : nat) (s : string) :
  free_of c s = true → free_of c (drop_bytes n s) = true.
Proof.
  intros H. rewrite <- (take_drop_bytes n s), free_of_app in H.
  by apply andb_prop in H as [_ H].
Qed.

(** The first occurrence of a character: none before it. *)
Lemma Index_char (c : ascii) (s : string) :
  (Index s (String c "") = -1 ∧ free_of c s = true)
  ∨ (0 ≤ Index s (String c "") < len s
     ∧ free_of c (take_bytes (Z.to_nat (Index s (String c ""))) s) = true
     ∧ nth_byte (Z.to_nat (Index s (String c ""))) s = Some c).
Proof.
  unfold Index.
  assert (∀ i, 0 ≤ i →
    (index_from i s (String c "") = -1 ∧ free_of c s = true)
    ∨ (i ≤ index_from i s (String c "") < i + len s
       ∧ free_of c (take_bytes (Z.to_nat (index_from i s (String c "") - i)) s)
         = true
       ∧ nth_byte (Z.to_nat (index_from i s (String c "") - i)) s = Some c))
    as H.
  { induction s as [|d s IH]; intros i Hi; [left; done|].
    cbn [index_from HasPrefix].
    destruct (Ascii.eqb_spec d c) as [->|Hne]; simpl.
    - right. replace (i - i) with 0 by lia. simpl.
      unfold len. simpl. split; [lia|done].
    - destruct (IH (i + 1)) as [[H1 H2]|(H1 & H2 & H3)]; [lia|..].
      + left. split; [done|]. simpl.
        destruct (Ascii.eqb_spec d c); [done|]. done.
      + right. unfold len in *. cbn [String.length].
        split; [lia|].
        replace (Z.to_nat (index_from (i + 1) s (String c "") - i))
          with (S (Z.to_nat (index_from (i + 1) s (String c "") - (i + 1))))
          by lia.
        simpl. destruct (Ascii.eqb_spec d c); [done|]. done. }
  destruct (H 0) as [?|(H1 & H2 & H3)]; [lia|by left|right].
  rewrite Z.sub_0_r in H2, H3. split; [lia|done].
Qed.

Lemma Index_char_free (c : ascii) (s : string) :
  Index s (String c "") = -1 ↔ free_of c s = true.
Proof.
  destruct (Index_char c s) as [[H1 H2]|(H1 & H2 & H3)]; [done|].
  split; [lia|]. intros Hf. exfalso.
  clear H1 H2. revert H3.
  generalize (Z.to_nat (Index s (String c ""))). intros n. revert n Hf.
  induction s as [|d s IH]; intros n Hf; [by destruct n|].
  simpl in Hf. apply andb_prop in Hf as [Hd Hf].
  destruct n; simpl.
  - intros [= ->]. by rewrite Ascii.eqb_refl in Hd.
  - by apply IH.
Qed.

End MoreStringFacts.

(** * The context analyzer: the key stack and the fields of the result *)
Section AnalyzerStack.
Import bkcontext.

Lemma getIndentLevel_from_ge (line : string) :
  ∀ indent, indent ≤ getIndentLevel_from indent line.
Proof.
  induction line as [|c line IH]; intros indent; simpl; [lia|].
  destruct (Ascii.eqb c SP); [specialize (IH (indent + 1)); lia|].
  destruct (Ascii.eqb c TAB); [specialize (IH (indent + 2)); lia|lia].
Qed.

Lemma getIndentLevel_nonneg (line : string) : 0 ≤ getIndentLevel line.
Proof. apply getIndentLevel_from_ge. Qed.

Lemma increasing_weaken (lo lo' : Z) (ks : list KeyInfo.t) :
  lo' ≤ lo → increasing lo ks → increasing lo' ks.
Proof. destruct ks as [|k ks]; simpl; [done|]. intros ? [? ?]. split; [lia|done]. Qed.

(** Popping keeps the order and leaves the keys indented less than the
    line. *)
Lemma pop_increasing (ks : list KeyInfo.t) (indent : Z) :
  ∀ lo, increasing lo ks →
        increasing lo (popKeysAtOrAboveIndent ks indent)
        ∧ Forall (λ k, KeyInfo.IndentLevel k < indent)
            (popKeysAtOrAboveIndent ks indent).
Proof.
  induction ks as [|k ks IH]; intros lo; simpl; [done|].
  intros [Hlo Hks].
  destruct (Z.ltb_spec (KeyInfo.IndentLevel k) indent) as [Hlt|Hge].
  - destruct (IH _ Hks) as [H1 H2]. simpl. repeat split; try done.
    by constructor.
  - destruct (IH _ Hks) as [H1 H2]. split; [|done].
    eapply increasing_weaken; [|done]. lia.
Qed.

Lemma push_increasing (ks : list KeyInfo.t) (k : KeyInfo.t) :
  ∀ lo, increasing lo ks → lo ≤ KeyInfo.IndentLevel k →
        Forall (λ k', KeyInfo.IndentLevel k' < KeyInfo.IndentLevel k) ks →
        increasing lo (ks ++ [k]).
Proof.
  induction ks as [|k' ks IH]; intros lo; simpl; [done|].
  intros [Hlo Hks] Hk Hall. apply Forall_cons in Hall as [Hk' Hall].
  split; [done|]. apply IH; [done|lia|done].
Qed.

(** Levels that grow strictly between two bounds: no more keys than
    levels. *)
Lemma increasing_length (ks : list KeyInfo.t) (hi : Z) :
  ∀ lo, increasing lo ks → lo ≤ hi →
        Forall (λ k, KeyInfo.IndentLevel k < hi) ks →
        Z.of_nat (length ks) ≤ hi - lo.
Proof.
  induction ks as [|k ks IH]; intros lo; simpl; [lia|].
  intros [Hlo Hks] Hhi Hall. apply Forall_cons in Hall as [Hk Hall].
  specialize (IH _ Hks ltac:(lia) Hall). lia.
Qed.

Lemma parseKeyFromLine_indent (line : string) (indent : Z) (k : KeyInfo.t) :
  parseKeyFromLine line indent = Some k → KeyInfo.IndentLevel k = indent.
Proof.
  unfold parseKeyFromLine.
  repeat match goal with |- context [if ?b then _ else _] => destruct b end;
    by intros [= <-].
Qed.

Lemma stepIndex_fields (trimmed : string) (context : ContextInfo.t)
    (keyStack : list KeyInfo.t) :
  fresh context →
  ∃ c,
    (if Contains trimmed "- " && (0 <? Z.of_nat (length keyStack)) then
       lastKey ← keyStack !! (length keyStack - 1)%nat;
       if String.eqb (KeyInfo.Key lastKey) "steps"
       then Some (ContextInfo.set_NearestStepIndex context
                    (ContextInfo.NearestStepIndex context + 1))
       else Some context
     else Some context) = Some c
    ∧ fresh c
    ∧ ContextInfo.IndentLevel c = ContextInfo.IndentLevel context.
Proof.
  intros (H1 & H2 & H3 & H4 & H5).
  destruct (Contains trimmed "- "); simpl; [|by eexists].
  destruct (Z.ltb_spec 0 (Z.of_nat (length keyStack))); [|by eexists].
  destruct (lookup_lt_is_Some_2 keyStack (length keyStack - 1)) as [k ->]; [lia|].
  simpl. destruct (String.eqb (KeyInfo.Key k) "steps"); [|by eexists].
  eexists. split; [done|]. unfold fresh. simpl. repeat split; try done. lia.
Qed.

(** The loop over the lines ends with [determineContextFromStack], on a
    context whose fields but the indentation and the count of steps are
    those of the start, and on a stack in order, below the indentation of
    the last line. *)
Lemma analyzeLines_final (lines : list string) (currentLine : string)
    (charIndex : Z) :
  ∀ context keyStack,
    lines ≠ [] → fresh context → increasing 0 keyStack →
    ∃ c0 ks c last,
      lines !! (length lines - 1)%nat = Some last
      ∧ fresh c0
      ∧ ContextInfo.IndentLevel c0 = getIndentLevel last
      ∧ increasing 0 ks
      ∧ Forall (λ k, KeyInfo.IndentLevel k < getIndentLevel last) ks
      ∧ determineContextFromStack c0 ks currentLine charIndex = Some c
      ∧ analyzeLines lines currentLine charIndex context keyStack = Some c.
Proof.
  induction lines as [|line rest IH]; intros context keyStack Hne Hfresh Hinc;
    [done|].
  cbn [analyzeLines].
  destruct rest as [|next rest].
  - rewrite andb_false_r. cbv zeta.
    destruct (pop_increasing keyStack (getIndentLevel line) 0 Hinc) as [Hi Hb].
    set (ks := popKeysAtOrAboveIndent keyStack (getIndentLevel line)) in *.
    destruct (stepIndex_fields (TrimSpace line)
                (ContextInfo.set_IndentLevel context (getIndentLevel line)) ks)
      as (c1 & -> & Hf1 & Hl1).
    { destruct Hfresh as (?&?&?&?&?). by repeat split. }
    simpl.
    destruct (determineContextFromStack_total c1 ks currentLine charIndex)
      as (c2 & Hc2 & _).
    rewrite Hc2. simpl. exists c1, ks, c2, line. split_and!; done.
  - rewrite andb_true_r.
    assert (∀ c ks, fresh c → increasing 0 ks →
      ∃ c0 ks' c' last,
        (line :: next :: rest) !! (length (line :: next :: rest) - 1)%nat
        = Some last
        ∧ fresh c0
        ∧ ContextInfo.IndentLevel c0 = getIndentLevel last
        ∧ increasing 0 ks'
        ∧ Forall (λ k, KeyInfo.IndentLevel k < getIndentLevel last) ks'
        ∧ determineContextFromStack c0 ks' currentLine charIndex = Some c'
        ∧ analyzeLines (next :: rest) currentLine charIndex c ks = Some c')
      as Hrest.
    { intros c ks Hc Hks.
      destruct (IH c ks ltac:(done) Hc Hks)
        as (c0 & ks' & c' & last & Hlast & ?).
      exists c0, ks', c', last. split; [|done].
      cbn [length] in *. rewrite <- Hlast.
      replace (S (S (length rest)) - 1)%nat with (S (S (length rest) - 1)) by lia.
      done. }
    destruct (String.eqb (TrimSpace line) "" || HasPrefix (TrimSpace line) "#").
    { by apply Hrest. }
    cbv zeta.
    destruct (pop_increasing keyStack (getIndentLevel line) 0 Hinc) as [Hi Hb].
    set (ks := popKeysAtOrAboveIndent keyStack (getIndentLevel line)) in *.
    destruct (parseKeyFromLine line (getIndentLevel line)) as [keyInfo|] eqn:Hparse.
    + destruct (stepIndex_fields (TrimSpace line)
                  (if String.eqb (KeyInfo.Key keyInfo) "steps"
                      && KeyInfo.IsArray keyInfo
                   then ContextInfo.set_NearestStepIndex context 0
                   else context) (ks ++ [keyInfo]))
        as (c1 & -> & Hf1 & _).
      { destruct Hfresh as (?&?&?&?&?).
        destruct (String.eqb (KeyInfo.Key keyInfo) "steps"
                  && KeyInfo.IsArray keyInfo); by repeat split. }
      simpl. apply Hrest; [done|].
      apply parseKeyFromLine_indent in Hparse.
      apply push_increasing; [done| |by rewrite Hparse].
      rewrite Hparse. apply getIndentLevel_nonneg.
    + destruct (stepIndex_fields (TrimSpace line) context ks)
        as (c1 & -> & Hf1 & _); [done|].
      simpl. by apply Hrest.
Qed.

(** The result of the scan of the stack, from the top down. *)
Lemma scanStack_spec (context : ContextInfo.t) (ks : list KeyInfo.t) :
  ∀ n, (n ≤ length ks)%nat →
    match scanStack n context ks with
    | None => False
    | Some None =>
        ∀ j key, (j < n)%nat → ks !! j = Some key →
                 KeyInfo.Key key ≠ "plugins" ∧ KeyInfo.Key key ≠ "steps"
    | Some (Some c) =>
        ∃ i key,
          (i < n)%nat ∧ ks !! i = Some key
          ∧ (∀ j key', (i < j < n)%nat → ks !! j = Some key' →
                KeyInfo.Key key' ≠ "plugins" ∧ KeyInfo.Key key' ≠ "steps")
          ∧ ((KeyInfo.Key key = "plugins" ∧ S i = length ks
              ∧ c = ContextInfo.set_ArrayContext
                      (ContextInfo.set_InArray
                         (ContextInfo.set_Type context ContextPlugins) true)
                      "plugins")
             ∨ (KeyInfo.Key key = "plugins"
                ∧ ∃ next, ks !! S i = Some next
                  ∧ c = ContextInfo.set_PluginName
                          (ContextInfo.set_Type
                             (ContextInfo.set_ArrayContext
                                (ContextInfo.set_InArray
                                   (ContextInfo.set_Type context ContextPlugins)
                                   true) "plugins") ContextPluginConfig)
                          (KeyInfo.Key next))
             ∨ (KeyInfo.Key key = "steps"
                ∧ c = ContextInfo.set_Type context ContextStep))
    end.
Proof.
  induction n as [|i IH]; intros Hn; cbn [scanStack].
  { intros j key Hj. lia. }
  destruct (lookup_lt_is_Some_2 ks i) as [key Hkey]; [lia|].
  rewrite Hkey. cbn [mbind option_bind].
  destruct (String.eqb_spec (KeyInfo.Key key) "plugins") as [Hp|Hp].
  - destruct (Z.ltb_spec (Z.of_nat i) (Z.of_nat (length ks) - 1)) as [Hlt|Hge].
    + destruct (lookup_lt_is_Some_2 ks (S i)) as [next Hnext]; [lia|].
      rewrite Hnext. cbn [mbind option_bind].
      exists i, key. repeat split; [lia|done|intros; lia|intros; lia|].
      right. left. split; [done|]. by exists next.
    + exists i, key. repeat split; [lia|done|intros; lia|intros; lia|].
      left. repeat split; [done|lia].
  - destruct (String.eqb_spec (KeyInfo.Key key) "steps") as [Hs|Hs].
    + exists i, key. repeat split; [lia|done|intros; lia|intros; lia|].
      right. right. done.
    + specialize (IH ltac:(lia)).
      destruct (scanStack i context ks) as [[c|]|]; [| |done].
      * destruct IH as (i' & key' & Hi' & Hk' & Hafter & Hcases).
        exists i', key'. split; [lia|]. split; [done|]. split; [|done].
        intros j key'' Hj Hjk.
        destruct (decide (j = i)) as [->|Hne].
        -- rewrite Hkey in Hjk. by injection Hjk as <-.
        -- apply (Hafter j); [lia|done].
      * intros j key' Hj Hjk.
        destruct (decide (j = i)) as [->|Hne].
        -- rewrite Hkey in Hjk. by injection Hjk as <-.
        -- apply (IH j); [lia|done].
Qed.

(** [determineContextFromStack] by cases, on a context as the loop hands
    it over. *)
Lemma determineContextFromStack_cases (c0 c : ContextInfo.t)
    (ks : list KeyInfo.t) (currentLine : string) (charIndex : Z) :
  fresh c0 →
  determineContextFromStack c0 ks currentLine charIndex = Some c →
  let keys := KeyInfo.Key <$> ks in
  ContextInfo.ParentKeys c = keys
  ∧ ContextInfo.IndentLevel c = ContextInfo.IndentLevel c0
  ∧ ContextInfo.CurrentKey c = ""
  ∧ ContextInfo.NearestStepIndex c = ContextInfo.NearestStepIndex c0
  ∧ ((ContextInfo.Type_ c = ContextTopLevel
      ∧ ContextInfo.InArray c = false ∧ ContextInfo.ArrayContext c = ""
      ∧ ContextInfo.PluginName c = ""
      ∧ (length keys ≤ 1)%nat ∧ Forall plainKey keys)
     ∨ (ContextInfo.Type_ c = ContextStep
        ∧ ContextInfo.InArray c = false ∧ ContextInfo.ArrayContext c = ""
        ∧ ContextInfo.PluginName c = ""
        ∧ last keys ≠ Some "plugins" ∧ keys ≠ [])
     ∨ (ContextInfo.Type_ c = ContextPlugins
        ∧ ContextInfo.InArray c = true
        ∧ ContextInfo.ArrayContext c = "plugins"
        ∧ ContextInfo.PluginName c = ""
        ∧ last keys = Some "plugins")
     ∨ (ContextInfo.Type_ c = ContextPluginConfig
        ∧ ContextInfo.InArray c = true
        ∧ ContextInfo.ArrayContext c = "plugins"
        ∧ last keys ≠ Some "plugins"
        ∧ ∃ before after,
            keys = before ++ "plugins" :: ContextInfo.PluginName c :: after
            ∧ Forall plainKey (ContextInfo.PluginName c :: after))).
Proof.
  intros (Hf1 & Hf2 & Hf3 & Hf4 & Hf5). unfold determineContextFromStack.
  destruct (Z.eqb_spec (Z.of_nat (length ks)) 0) as [Hz|Hz].
  { intros [= <-]. destruct ks; [|simpl in Hz; lia]. simpl.
    split_and!; try done. left. split_and!; try done. lia. }
  pose proof (scanStack_spec (ContextInfo.set_ParentKeys c0 (KeyInfo.Key <$> ks))
                ks (length ks) ltac:(lia)) as Hscan.
  destruct (scanStack (length ks) _ ks) as [[c'|]|]; [| |done];
    cbn [mbind option_bind].
  - intros [= <-].
    destruct Hscan as (i & key & Hi & Hkey & Hafter & Hcases).
    assert (last ks ≠ None) as Hlastne.
    { rewrite last_lookup. intros Hn. apply lookup_ge_None in Hn. lia. }
    assert (∀ l, last ks = Some l → i ≠ pred (length ks) →
                 KeyInfo.Key l ≠ "plugins") as Hlast.
    { intros l Hl Hne. rewrite last_lookup in Hl.
      apply (Hafter (pred (length ks)) l); [lia|done]. }
    destruct Hcases as [(Hk & Hlen & ->)|[(Hk & next & Hnext & ->)|(Hk & ->)]];
      simpl; split_and!; try done.
    + right. right. left. split_and!; try done.
      rewrite fmap_last, last_lookup.
      replace (pred (length ks)) with i by lia. by rewrite Hkey, <- Hk.
    + right. right. right. split_and!; try done.
      * rewrite fmap_last. destruct (last ks) as [l|] eqn:Hl; [|done].
        simpl. intros [= Heq]. apply (Hlast l eq_refl); [|done].
        apply lookup_lt_Some in Hnext. lia.
      * exists (KeyInfo.Key <$> take i ks),
               (KeyInfo.Key <$> drop (S (S i)) ks).
        split.
        -- rewrite <- Hk.
           change (?a ++ KeyInfo.Key key :: KeyInfo.Key next :: ?b)
             with (a ++ (KeyInfo.Key <$> (key :: next :: drop (S (S i)) ks))).
           rewrite <- fmap_app. f_equal.
           rewrite <- (drop_S ks next (S i) Hnext).
           symmetry. by apply take_drop_middle.
        -- change (KeyInfo.Key next :: (KeyInfo.Key <$> drop (S (S i)) ks))
             with (KeyInfo.Key <$> (next :: drop (S (S i)) ks)).
           apply Forall_fmap, Forall_lookup_2. intros j x Hx.
           assert (ks !! (S i + j)%nat = Some x) as Hx'.
           { destruct j; simpl in Hx.
             - injection Hx as <-. by rewrite Nat.add_0_r.
             - rewrite lookup_drop in Hx. rewrite <- Hx. f_equal. lia. }
           apply (Hafter (S i + j)%nat x); [|done].
           apply lookup_lt_Some in Hx'. lia.
    + right. left. split_and!; try done.
      * rewrite fmap_last. destruct (last ks) as [l|] eqn:Hl; [|done].
        simpl. intros [= Heq].
        destruct (decide (i = pred (length ks))) as [->|Hne].
        -- rewrite last_lookup, Hkey in Hl. injection Hl as <-.
           rewrite Hk in Heq. done.
        -- by apply (Hlast l eq_refl).
      * destruct ks; [simpl in Hz; lia|done].
  - assert (Forall plainKey (KeyInfo.Key <$> ks)) as Hplain.
    { apply Forall_fmap, Forall_lookup_2. intros j x Hx.
      apply (Hscan j x); [|done]. by apply lookup_lt_Some in Hx. }
    assert (last (KeyInfo.Key <$> ks) ≠ Some "plugins") as Hlast.
    { intros Hl. rewrite last_lookup in Hl.
      rewrite Forall_lookup in Hplain. apply Hplain in Hl as [? _]. done. }
    destruct (Z.leb_spec (Z.of_nat (length ks)) 1) as [Hle|Hgt];
      intros [= <-]; simpl; split_and!; try done.
    + left. split_and!; try done. rewrite length_fmap. lia.
    + right. left. split_and!; try done.
      destruct ks; [simpl in Hz; lia|done].
Qed.

(** X1: the indentation of the cursor's line bounds the nesting.  With at
    least one context line, the analyzer returns the indentation of the
    last of them; the parent keys are no more than that indentation; and
    on a line that is not indented the kind is TopLevel and there is no
    parent key. *)
Theorem AnalyzeContext_indentation (p : PositionContext.t) :
  PositionContext.ContextLines p ≠ [] →
  ∃ info line,
    AnalyzeContext (Some p) = Some info
    ∧ last (PositionContext.ContextLines p) = Some line
    ∧ ContextInfo.IndentLevel info = getIndentLevel line
    ∧ Z.of_nat (length (ContextInfo.ParentKeys info))
      ≤ ContextInfo.IndentLevel info
    ∧ (ContextInfo.IndentLevel info = 0 →
       ContextInfo.Type_ info = ContextTopLevel
       ∧ ContextInfo.ParentKeys info = []).
Proof.
  intros Hne. simpl. unfold analyzeYAMLStructure.
  set (context0 := {| ContextInfo.Type_ := ContextUnknown |}).
  destruct (analyzeLines_final (PositionContext.ContextLines p)
              (PositionContext.CurrentLine p) (PositionContext.CharIndex p)
              context0 [] Hne)
    as (c0 & ks & c & line & Hline & Hfresh & Hindent & Hinc & Hbelow
        & Hdet & Hrun).
  { unfold fresh. simpl. split_and!; try done. }
  { done. }
  destruct (determineContextFromStack_cases c0 c ks _ _ Hfresh Hdet)
    as (Hkeys & Hlevel & _ & _ & _).
  pose proof (increasing_length ks (getIndentLevel line) 0 Hinc
                (getIndentLevel_nonneg line) Hbelow) as Hlen.
  exists c, line. split_and!; try done.
  - rewrite last_lookup. rewrite <- Hline. f_equal. lia.
  - congruence.
  - rewrite Hkeys, length_fmap, Hlevel, Hindent. lia.
  - intros Hzero. rewrite Hlevel, Hindent in Hzero.
    assert (ks = []) as -> by (destruct ks; [done|simpl in Hlen; lia]).
    split; [|done]. unfold determineContextFromStack in Hdet. simpl in Hdet.
    by injection Hdet as <-.
Qed.

(** The theorem at the first test of the repository: the cursor on
    [env:], below a step. *)
Lemma AnalyzeContext_indentation_witness :
  ∃ info,
    AnalyzeContext (cursorAfter ["steps:"; "  - label: test"; "env:"])
    = Some info
    ∧ ContextInfo.Type_ info = ContextTopLevel.
Proof.
  destruct (AnalyzeContext_indentation
              {| PositionContext.URI := "";
                 PositionContext.Position :=
                   {| protocol.Line := 2; protocol.Character := 0 |};
                 PositionContext.CurrentLine := "env:";
                 PositionContext.CharIndex := 0;
                 PositionContext.ContextLines :=
                   ["steps:"; "  - label: test"; "env:"];
                 PositionContext.FullContent := "" |})
    as (info & line & Hinfo & Hline & Hindent & _ & Htop).
  { simpl. discriminate. }
  exists info. split; [exact Hinfo|].
  apply Htop. rewrite Hindent. simpl in Hline. injection Hline as <-.
  reflexivity.
Defined.

(** The analyzer reads the context lines only. *)
Lemma analyzeLines_reads_lines (lines : list string) (cl cl' : string)
    (ci ci' : Z) :
  ∀ context ks,
    analyzeLines lines cl ci context ks = analyzeLines lines cl' ci' context ks.
Proof.
  induction lines as [|line rest IH]; intros context ks; [done|].
  cbn [analyzeLines].
  destruct (_ && _); [apply IH|]. cbv zeta.
  destruct (if match rest with [] => true | _ => false end then _ else _)
    as [c1 ks1].
  destruct (if Contains _ _ && _ then _ else _) as [c2|]; [|done].
  cbn [mbind option_bind].
  destruct rest; [done|]. cbn [mbind option_bind]. apply IH.
Qed.

Lemma analyzeLines_skip (before : list string) (c : string)
    (after : list string) (cl : string) (ci : Z) :
  after ≠ [] →
  String.eqb (TrimSpace c) "" || HasPrefix (TrimSpace c) "#" = true →
  ∀ context ks,
    analyzeLines (before ++ c :: after) cl ci context ks
    = analyzeLines (before ++ after) cl ci context ks.
Proof.
  intros Hafter Hskip.
  induction before as [|line before IH]; intros context ks.
  - cbn [app]. destruct after as [|a after]; [done|].
    cbn [analyzeLines negb]. by rewrite andb_true_r, Hskip.
  - cbn [app analyzeLines].
    assert (∀ l : list string, l ≠ [] →
              match before ++ l with [] => true | _ => false end = false)
      as Hnot by (intros l Hl; destruct before, l; done).
    rewrite !Hnot by done.
    destruct (_ && _); [apply IH|]. cbv zeta.
    destruct (parseKeyFromLine _ _);
      (destruct (if Contains _ _ && _ then _ else _) as [c2|]; [|done]);
      cbn [mbind option_bind]; apply IH.
Qed.

(** X2: blank lines and comment lines above the cursor's line do not count.
    Two position contexts whose context lines differ by one such line, not
    the last, get the same analysis, whatever their other fields. *)
Theorem AnalyzeContext_skips_blank_and_comment_lines
    (p p' : PositionContext.t) (before : list string) (c : string)
    (after : list string) :
  after ≠ [] →
  TrimSpace c = "" ∨ HasPrefix (TrimSpace c) "#" = true →
  PositionContext.ContextLines p = before ++ c :: after →
  PositionContext.ContextLines p' = before ++ after →
  AnalyzeContext (Some p) = AnalyzeContext (Some p').
Proof.
  intros Hafter Hc Hp Hp'. simpl. unfold analyzeYAMLStructure.
  rewrite Hp, Hp'.
  rewrite (analyzeLines_reads_lines _ _ (PositionContext.CurrentLine p')
             _ (PositionContext.CharIndex p')).
  apply analyzeLines_skip; [done|].
  destruct Hc as [->| ->]; [done|]. apply orb_true_r.
Qed.

Lemma AnalyzeContext_skips_blank_and_comment_lines_witness :
  AnalyzeContext
    (cursorAfter ["steps:"; "  # a comment"; "  - label: test"; "    "])
  = AnalyzeContext (cursorAfter ["steps:"; "  - label: test"; "    "]).
Proof.
  apply (AnalyzeContext_skips_blank_and_comment_lines _ _
           ["steps:"] "  # a comment" ["  - label: test"; "    "]).
  - discriminate.
  - right. reflexivity.
  - reflexivity.
  - reflexivity.
Defined.

(** X3: the fields of the analysis agree with its kind.  For every input
    the analyzer returns a result in which: no current key is recorded and
    the count of steps is at least -1; the array flag is set exactly for
    the kinds Plugins and PluginConfig, with the array named [plugins]; the
    kind is Plugins exactly when the innermost parent key is [plugins]; for
    PluginConfig a parent key [plugins] is followed by the plugin's name and
    by keys that are neither [plugins] nor [steps]; a plugin name is
    recorded for PluginConfig only; and for TopLevel there is at most one
    parent key, neither [plugins] nor [steps]. *)
Theorem AnalyzeContext_fields (posCtx : option PositionContext.t) :
  ∃ info,
    AnalyzeContext posCtx = Some info
    ∧ ContextInfo.CurrentKey info = ""
    ∧ -1 ≤ ContextInfo.NearestStepIndex info
    ∧ (ContextInfo.InArray info = true
       ↔ ContextInfo.Type_ info = ContextPlugins
         ∨ ContextInfo.Type_ info = ContextPluginConfig)
    ∧ ContextInfo.ArrayContext info
      = (if ContextInfo.InArray info then "plugins" else "")
    ∧ (ContextInfo.Type_ info = ContextPlugins
       ↔ last (ContextInfo.ParentKeys info) = Some "plugins")
    ∧ (ContextInfo.Type_ info = ContextPluginConfig →
       ∃ before after,
         ContextInfo.ParentKeys info
         = before ++ "plugins" :: ContextInfo.PluginName info :: after
         ∧ Forall (λ key, key ≠ "plugins" ∧ key ≠ "steps")
             (ContextInfo.PluginName info :: after))
    ∧ (ContextInfo.Type_ info ≠ ContextPluginConfig →
       ContextInfo.PluginName info = "")
    ∧ (ContextInfo.Type_ info = ContextTopLevel →
       (length (ContextInfo.ParentKeys info) ≤ 1)%nat
       ∧ Forall (λ key, key ≠ "plugins" ∧ key ≠ "steps")
           (ContextInfo.ParentKeys info)).
Proof.
  destruct posCtx as [p|]; simpl.
  2:{ eexists. split; [done|]. simpl. split_and!; try done; try lia.
      split; [done|intros [|]; done]. }
  unfold analyzeYAMLStructure.
  set (context0 := {| ContextInfo.Type_ := ContextUnknown |}).
  destruct (PositionContext.ContextLines p) as [|l ls] eqn:Hlines.
  { eexists. split; [done|]. simpl. split_and!; try done; try lia.
    split; [done|intros [|]; done]. }
  destruct (analyzeLines_final (l :: ls)
              (PositionContext.CurrentLine p) (PositionContext.CharIndex p)
              context0 [] ltac:(done))
    as (c0 & ks & c & line & Hline & Hfresh & Hindent & Hinc & Hbelow
        & Hdet & Hrun).
  { unfold fresh. simpl. split_and!; try done. }
  { done. }
  exists c. split; [done|].
  destruct (determineContextFromStack_cases c0 c ks _ _ Hfresh Hdet)
    as (Hkeys & _ & Hkey & Hidx & Hcases).
  destruct Hfresh as (_ & _ & _ & _ & Hn).
  rewrite Hkeys.
  destruct Hcases as [(Ht & Ha & Hn' & Hp & Hlen & Hall)
                     |[(Ht & Ha & Hn' & Hp & Hlast & _)
                     |[(Ht & Ha & Hn' & Hp & Hlast)
                      |(Ht & Ha & Hn' & Hlast & before & after & Hk & Hall)]]];
    rewrite Ht, Ha, ?Hn', ?Hp; split_and!; try done; try lia;
    try (intros [|]; done); try (intros; exfalso; congruence).
  - split; [done|intros [|]; done].
  - split; [done|]. intros Hl. rewrite last_lookup in Hl.
    rewrite Forall_lookup in Hall. apply Hall in Hl as [? _]. done.
  - split; [done|intros [|]; done].
  - split; [by left|done].
  - split; [by right|done].
  - intros _. by exists before, after.
Qed.

Lemma nth_byte_split (n : nat) (s : string) (c : ascii) :
  nth_byte n s = Some c →
  s = take_bytes n s +:+ String c (drop_bytes (S n) s).
Proof.
  revert s. induction n as [|n IH]; intros [|d s]; simpl; try done.
  - by intros [= ->].
  - intros H. rewrite app_cons. f_equal. by apply IH.
Qed.

Lemma parseKeyFromLine_keyText (line : string) (indent : Z) :
  parseKeyFromLine line indent
  = if negb (Index (keyText line) ":" =? -1)
    then Some (keyInfoAtColon (keyText line) (Index (keyText line) ":") indent)
    else None.
Proof.
  unfold parseKeyFromLine, keyText.
  by destruct (HasPrefix (TrimSpace line) "- ").
Qed.

(** X4: what [parseKeyFromLine] makes of a line.  It returns no key
    exactly when the text of the line, without the white space around it
    and without a leading dash, holds no colon.  Otherwise the key is the
    text before the first colon, trimmed; its level is the indentation
    given; it has a value when the text after the colon, trimmed, is
    neither empty nor [[]]; and it is taken as an array exactly when it
    has no value. *)
Theorem parseKeyFromLine_shape (line : string) (indent : Z) :
  (parseKeyFromLine line indent = None ↔ free_of ":" (keyText line) = true)
  ∧ (∀ k, parseKeyFromLine line indent = Some k →
       ∃ before after,
         keyText line = before +:+ ":" +:+ after
         ∧ free_of ":" before = true
         ∧ KeyInfo.Key k = TrimSpace before
         ∧ free_of ":" (KeyInfo.Key k) = true
         ∧ KeyInfo.IndentLevel k = indent
         ∧ KeyInfo.IsArray k = negb (KeyInfo.HasValue k)
         ∧ (KeyInfo.HasValue k = true
            ↔ TrimSpace after ≠ "" ∧ TrimSpace after ≠ "[]")).
Proof.
  rewrite parseKeyFromLine_keyText.
  destruct (Index_char ":" (keyText line)) as [[Hi Hf]|(Hi & Hf & Hn)].
  - change (String ":" "") with ":" in Hi. rewrite Hi. simpl.
    split; [done|]. intros k [=].
  - change (String ":" "") with ":" in *.
    destruct (Z.eqb_spec (Index (keyText line) ":") (-1)) as [Heq|Hne]; [lia|].
    simpl. split.
    { split; [done|]. intros Hfree. apply Index_char_free in Hfree.
      change (String ":" "") with ":" in Hfree. lia. }
    intros k [= <-].
    unfold keyInfoAtColon, slice_to, slice_from.
    replace (Z.to_nat (Index (keyText line) ":" + 1))
      with (S (Z.to_nat (Index (keyText line) ":"))) by lia.
    pose proof (nth_byte_split _ _ _ Hn) as Hsplit.
    set (before := take_bytes (Z.to_nat (Index (keyText line) ":"))
                     (keyText line)) in *.
    set (after := drop_bytes (S (Z.to_nat (Index (keyText line) ":")))
                    (keyText line)) in *.
    exists before, after.
    cbn [KeyInfo.Key KeyInfo.IndentLevel KeyInfo.IsArray KeyInfo.HasValue].
    split_and!; try done.
    + by apply free_of_TrimSpace.
    + by destruct (String.eqb _ ""), (String.eqb _ "[]").
    + destruct (String.eqb_spec (TrimSpace after) "") as [Ha|Ha];
        destruct (String.eqb_spec (TrimSpace after) "[]") as [Hb|Hb];
        simpl; split; try done; try (by intros [? ?]).
Qed.

End AnalyzerStack.

(** * The document manager: its invariant and the position context *)
Section DocumentStore.
Import lsp.

Lemma reachable_invariant (dm : DocumentManager) :
  reachable dm →
  (∀ uri doc, GetDocument dm uri = Some doc →
     Document.URI doc = uri
     ∧ Document.Lines doc = splitLines (Document.Content doc))
  ∧ (∀ uri version content,
       UpdateDocument dm uri version content
       = OpenDocument dm uri version content).
Proof.
  intros Hdm.
  assert (∀ uri doc, GetDocument dm uri = Some doc →
            Document.URI doc = uri
            ∧ Document.Lines doc = splitLines (Document.Content doc)) as Hinv.
  { induction Hdm as [|dm uri version content Hdm IH
                      |dm uri version content Hdm IH|dm uri Hdm IH];
      intros uri' doc'; unfold GetDocument, NewDocumentManager, OpenDocument,
        UpdateDocument, CloseDocument in *.
    - by rewrite lookup_empty.
    - destruct (decide (uri = uri')) as [->|Hne].
      + rewrite lookup_insert_eq. by intros [= <-].
      + rewrite lookup_insert_ne by done. apply IH.
    - destruct (dm !! uri) as [doc|] eqn:Hdoc;
        (destruct (decide (uri = uri')) as [->|Hne];
         [ rewrite lookup_insert_eq; intros [= <-]; simpl
         | rewrite lookup_insert_ne by done; apply IH ]).
      + split; [|done]. by apply (IH uri' doc).
      + done.
    - destruct (decide (uri = uri')) as [->|Hne].
      + by rewrite lookup_delete_eq.
      + rewrite lookup_delete_ne by done. apply IH. }
  split; [done|].
  intros uri version content. unfold UpdateDocument, OpenDocument.
  destruct (dm !! uri) as [doc|] eqn:Hdoc; [|done].
  by destruct (Hinv uri doc Hdoc) as [-> _].
Qed.

(** X5: what every document manager built by the operations keeps.  A
    stored document carries the URI it is stored under and the lines of its
    own text; so an update of a URI, open or not, stores what opening it
    with the same version and text would store. *)
Theorem DocumentManager_invariant (dm : DocumentManager) :
  reachable dm →
  (∀ uri doc, GetDocument dm uri = Some doc →
     Document.URI doc = uri
     ∧ Document.Lines doc = splitLines (Document.Content doc))
  ∧ (∀ uri version content,
       UpdateDocument dm uri version content
       = OpenDocument dm uri version content).
Proof. apply reachable_invariant. Qed.

Lemma DocumentManager_invariant_witness :
  UpdateDocument (OpenDocument NewDocumentManager "a.yml" 1 "steps:")
    "a.yml" 2 "env:"
  = OpenDocument (OpenDocument NewDocumentManager "a.yml" 1 "steps:")
      "a.yml" 2 "env:".
Proof.
  apply (DocumentManager_invariant
           (OpenDocument NewDocumentManager "a.yml" 1 "steps:")).
  apply reachable_open, reachable_new.
Defined.



End DocumentStore.

(** * The messages of the schema loader: names taken from paths and
      descriptions *)
Section SchemaNames.
Import schema.

Lemma Split_nonempty (s : string) (sep : ascii) : Split s sep ≠ [].
Proof.
  induction s as [|c s IH]; simpl; [done|].
  destruct (Ascii.eqb c sep); [done|]. by destruct (Split s sep).
Qed.

Lemma Split_free (s : string) (sep : ascii) :
  free_of sep s = true → Split s sep = [s].
Proof.
  induction s as [|c s IH]; simpl; [done|].
  intros [Hc Hs]%andb_prop. destruct (Ascii.eqb c sep); [done|].
  by rewrite (IH Hs).
Qed.

(** The parts of two texts joined by the separator are the parts of the
    one followed by the parts of the other. *)
Lemma Split_app (a b : string) (sep : ascii) :
  Split (a +:+ String sep b) sep = Split a sep ++ Split b sep.
Proof.
  induction a as [|c a IH].
  - rewrite app_empty_l. simpl. by rewrite Ascii.eqb_refl.
  - rewrite app_cons. simpl. destruct (Ascii.eqb c sep).
    + by rewrite IH.
    + rewrite IH. pose proof (Split_nonempty a sep).
      by destruct (Split a sep).
Qed.

Lemma Split_parts_free (s : string) (sep : ascii) :
  Forall (λ part, free_of sep part = true) (Split s sep).
Proof.
  induction s as [|c s IH]; simpl; [by repeat constructor|].
  destruct (Ascii.eqb_spec c sep) as [->|Hne]; [by constructor|].
  pose proof (Split_nonempty s sep).
  destruct (Split s sep) as [|part parts]; [done|].
  apply Forall_cons in IH as [Hp Hps]. constructor; [|done]. simpl.
  rewrite Hp. by destruct (Ascii.eqb_spec c sep).
Qed.

Lemma all_digits_free (s : string) : all_digits s = true → free_of "." s = true.
Proof.
  induction s as [|c s IH]; simpl; [done|].
  destruct ((N_of_ascii c <? 48)%N || (57 <? N_of_ascii c)%N) eqn:Hc; [done|].
  intros Hs. rewrite (IH Hs), andb_true_r.
  destruct (Ascii.eqb_spec c ".") as [->|]; [|done]. done.
Qed.

Lemma isNumeric_free (s : string) : isNumeric s = true → free_of "." s = true.
Proof.
  unfold isNumeric. destruct (String.eqb s ""); [done|]. apply all_digits_free.
Qed.

Lemma lastNonNumeric_elem (parts : list string) (part : string) :
  lastNonNumeric parts = Some part → part ∈ parts ∧ isNumeric part = false.
Proof.
  induction parts as [|p parts IH]; simpl; [done|].
  destruct (isNumeric p) eqn:Hp; simpl.
  - intros H. destruct (IH H). split; [by right|done].
  - intros [= <-]. split; [by left|done].
Qed.

(** X7: the field name shown in a message is the last part of the dotted
    path that is not a number.  A name after a dot is the result; an index
    after a dot is passed over, if a name comes before; a path with no dot
    is the result as it is; and in general the result is the path itself
    or one of its parts, not a number and without a dot. *)
Theorem extractFieldName_last_name :
  (∀ path name, free_of "." name = true → isNumeric name = false →
     extractFieldName (path +:+ "." +:+ name) = name)
  ∧ (∀ path index, isNumeric index = true →
       (∃ part, part ∈ Split path "." ∧ isNumeric part = false) →
       extractFieldName (path +:+ "." +:+ index) = extractFieldName path)
  ∧ (∀ name, free_of "." name = true → extractFieldName name = name)
  ∧ (∀ path, extractFieldName path = path
             ∨ (extractFieldName path ∈ Split path "."
                ∧ isNumeric (extractFieldName path) = false
                ∧ free_of "." (extractFieldName path) = true)).
Proof.
  split_and!.
  - intros path name Hfree Hnum. unfold extractFieldName.
    change ("." +:+ name) with (String "." name).
    rewrite Split_app, (Split_free name) by done.
    rewrite List.rev_app_distr. simpl. by rewrite Hnum.
  - intros path index Hnum (part & Hin & Hpart). unfold extractFieldName.
    change ("." +:+ index) with (String "." index).
    rewrite Split_app, (Split_free index) by (by apply isNumeric_free).
    rewrite List.rev_app_distr. simpl. rewrite Hnum. simpl.
    destruct (lastNonNumeric (rev (Split path "."))) as [p|] eqn:Hp; [done|].
    exfalso. clear -Hin Hpart Hp.
    apply list_elem_of_In, in_rev, list_elem_of_In in Hin.
    induction (rev (Split path ".")) as [|q qs IH]; [by apply elem_of_nil in Hin|].
    simpl in Hp. destruct (isNumeric q) eqn:Hq; [|done]. simpl in Hp.
    apply elem_of_cons in Hin as [->|Hin]; [congruence|by apply IH].
  - intros name Hfree. unfold extractFieldName.
    rewrite (Split_free name) by done. simpl.
    by destruct (isNumeric name).
  - intros path. unfold extractFieldName.
    destruct (lastNonNumeric (rev (Split path "."))) as [p|] eqn:Hp;
      [right|by left].
    apply lastNonNumeric_elem in Hp as [Hin Hnum].
    apply list_elem_of_In, in_rev, list_elem_of_In in Hin. split_and!; [done..|].
    pose proof (Split_parts_free path ".") as Hall.
    rewrite Forall_forall in Hall. by apply Hall.
Qed.

(** The search for a text that begins with a space passes over a text
    without spaces. *)
Lemma index_from_past (p b sub : string) :
  free_of " " p = true → HasPrefix b (String " " sub) = true →
  ∀ i, index_from i (p +:+ b) (String " " sub) = i + len p.
Proof.
  intros Hp Hb. induction p as [|c p IH]; intros i.
  - rewrite app_empty_l. unfold len. simpl.
    destruct b as [|d b]; [done|]. cbn [index_from]. rewrite Hb. lia.
  - simpl in Hp. apply andb_prop in Hp as [Hc Hp].
    rewrite app_cons. cbn [index_from HasPrefix].
    destruct (Ascii.eqb c " "); [done|]. simpl.
    rewrite (IH Hp). unfold len. simpl. lia.
Qed.

Lemma not_allowed_not_inside (p : string) :
  p ≠ "" → free_of " " p = true →
  HasPrefix (p +:+ " is not allowed") "is not allowed" = false.
Proof.
  intros Hne Hp.
  destruct p as [|c1 p]; [done|]. rewrite app_cons. cbn [HasPrefix].
  destruct (Ascii.eqb c1 "i"); [|done]. simpl.
  simpl in Hp. apply andb_prop in Hp as [_ Hp].
  destruct p as [|c2 p]; [done|]. rewrite app_cons. cbn [HasPrefix].
  destruct (Ascii.eqb c2 "s"); [|done]. simpl.
  simpl in Hp. apply andb_prop in Hp as [_ Hp].
  destruct p as [|c3 p]; [done|]. rewrite app_cons. cbn [HasPrefix].
  simpl in Hp. apply andb_prop in Hp as [Hc3 _].
  by destruct (Ascii.eqb c3 " ").
Qed.

Lemma index_from_skip (c : ascii) (s sub : string) (i : Z) :
  Ascii.eqb c " " = false →
  index_from i (String c s) (String " " sub)
  = index_from (i + 1) s (String " " sub).
Proof. intros Hc. cbn [index_from HasPrefix]. by rewrite Hc. Qed.

Lemma index_from_space (s sub : string) (i : Z) :
  HasPrefix s sub = false →
  index_from i (String " " s) (String " " sub)
  = index_from (i + 1) s (String " " sub).
Proof. intros Hs. cbn [index_from HasPrefix]. by rewrite Hs. Qed.

Lemma HasPrefix_mismatch (c d : ascii) (s t : string) :
  Ascii.eqb c d = false → HasPrefix (String c s) (String d t) = false.
Proof. intros H. cbn [HasPrefix]. by rewrite H. Qed.

Lemma Index_not_allowed (p : string) :
  p ≠ "" → free_of " " p = true →
  Index ("Additional property " +:+ p +:+ " is not allowed") " is not allowed"
  = 20 + len p.
Proof.
  intros Hne Hp. unfold Index.
  change ("Additional property " +:+ p +:+ " is not allowed")
    with ("Additional property" +:+ String " " (p +:+ " is not allowed")).
  rewrite !app_cons, app_empty_l.
  rewrite !index_from_skip by reflexivity.
  rewrite index_from_space by (by apply HasPrefix_mismatch).
  rewrite !index_from_skip by reflexivity.
  rewrite index_from_space by (by apply not_allowed_not_inside).
  rewrite index_from_past; [lia|done|done].
Qed.

(** X8: the property named in the validator's description comes back.  For
    a property name that is not empty and holds no space, the name is
    extracted from [Additional property <name> is not allowed], and the
    message for an error of the type additional_property_not_allowed with
    this description names it; a description without one of the two
    phrases gives no name, and then the message is the description. *)
Theorem extractPropertyFromDescription_round_trip :
  (∀ name, name ≠ "" → free_of " " name = true →
     extractPropertyFromDescription
       ("Additional property " +:+ name +:+ " is not allowed") = name
     ∧ ∀ field details,
         friendlyErrorMessage
           {| ResultError.Type_ := "additional_property_not_allowed";
              ResultError.Field := field;
              ResultError.Description :=
                "Additional property " +:+ name +:+ " is not allowed";
              ResultError.Details := details |}
         = "Unknown property '" +:+ name +:+ "' is not allowed")
  ∧ (∀ description,
       Contains description "Additional property " = false
       ∨ Contains description " is not allowed" = false →
       extractPropertyFromDescription description = ""
       ∧ ∀ field details,
           friendlyErrorMessage
             {| ResultError.Type_ := "additional_property_not_allowed";
                ResultError.Field := field;
                ResultError.Description := description;
                ResultError.Details := details |}
           = description).
Proof.
  split.
  - intros name Hne Hfree.
    assert (extractPropertyFromDescription
              ("Additional property " +:+ name +:+ " is not allowed") = name)
      as Hname.
    { unfold extractPropertyFromDescription.
      assert (Contains ("Additional property " +:+ name +:+ " is not allowed")
                "Additional property " = true) as ->.
      { apply Contains_spec. exists "". eexists. by rewrite app_empty_l. }
      assert (Contains ("Additional property " +:+ name +:+ " is not allowed")
                " is not allowed" = true) as ->.
      { apply Contains_spec. exists ("Additional property " +:+ name), "".
        by rewrite app_empty_r, app_assoc_s. }
      cbn [andb].
      rewrite (Index_not_allowed name Hne Hfree).
      assert (Index ("Additional property " +:+ name +:+ " is not allowed")
                "Additional property " = 0) as ->.
      { unfold Index.
        destruct ("Additional property " +:+ name +:+ " is not allowed")
          eqn:E; [done|].
        cbn [index_from]. rewrite <- E.
        assert (HasPrefix ("Additional property " +:+ name +:+ " is not allowed")
                  "Additional property " = true) as ->; [|done].
        apply HasPrefix_spec. by eexists. }
      assert (0 < len name) as Hlen.
      { destruct name; [done|]. unfold len. simpl. lia. }
      change (len "Additional property ") with 20.
      destruct (Z.ltb_spec (0 + 20) (20 + len name)); [|lia].
      destruct (Z.gtb_spec (20 + len name) (0 + 20)); [|lia].
      cbn [andb]. unfold slice.
      replace (Z.to_nat (20 + len name - (0 + 20))) with (String.length name)
        by (unfold len; lia).
      change (Z.to_nat (0 + 20)) with (String.length "Additional property ").
      by rewrite drop_bytes_app, take_bytes_app. }
    split; [done|]. intros field details. unfold friendlyErrorMessage.
    cbn [ResultError.Type_ ResultError.Description String.eqb Ascii.eqb
         Bool.eqb andb].
    rewrite Hname. by destruct name.
  - intros description Hno.
    assert (extractPropertyFromDescription description = "") as Hname.
    { unfold extractPropertyFromDescription. by destruct Hno as [-> | ->];
        [|rewrite andb_false_r]. }
    split; [done|]. intros field details. unfold friendlyErrorMessage.
    cbn [ResultError.Type_ ResultError.Description String.eqb Ascii.eqb
         Bool.eqb andb].
    by rewrite Hname.
Qed.

End SchemaNames.

(** * The plugins of a step and the registry's cache *)
Section PluginRegistry.
Import plugins.

(** X9: the plugins read from a step.  A name with its configuration is
    among the references exactly when the step's [plugins] value is a list
    and one of its items is a map that holds the name with this
    configuration; so an item that is a bare string gives no reference.
    When every item is a map with one key, the references come in the
    order of the list: a list built from references is read back as
    these. *)
Theorem ParsePluginFromStep_members (stepData : gmap string json.value) :
  (∀ name config,
     {| PluginReference.Name := name; PluginReference.Config := config |}
       ∈ ParsePluginFromStep stepData
     ↔ ∃ items fields,
         stepData !! "plugins" = Some (json.Array items)
         ∧ json.Object fields ∈ items
         ∧ fields !! name = Some config)
  ∧ (∀ refs : list PluginReference.t,
       stepData !! "plugins"
       = Some (json.Array
                 ((λ ref, json.Object {[ PluginReference.Name ref
                                          := PluginReference.Config ref ]})
                    <$> refs)) →
       ParsePluginFromStep stepData = refs).
Proof.
  split.
  - intros name config. unfold ParsePluginFromStep. split.
    + destruct (stepData !! "plugins") as [[| | | |items|]|];
        try (by intros ?%elem_of_nil).
      intros (item & Hitem & Hin)%list_elem_of_bind.
      destruct item as [| | | | |fields]; try (by apply elem_of_nil in Hitem).
      apply list_elem_of_fmap in Hitem as ([k v] & [= -> ->] & Hkv).
      apply elem_of_map_to_list in Hkv. by exists items, fields.
    + intros (items & fields & -> & Hitem & Hname).
      apply list_elem_of_bind. exists (json.Object fields). split; [|done].
      apply list_elem_of_fmap. exists (name, config). split; [done|].
      by apply elem_of_map_to_list.
  - intros refs Hrefs. unfold ParsePluginFromStep. rewrite Hrefs.
    clear Hrefs. induction refs as [|[name config] refs IH]; [done|].
    cbn [fmap list_fmap mbind list_bind]. rewrite map_to_list_singleton.
    simpl. f_equal. exact IH.
Qed.

Lemma GetPluginSchema_hit (httpGet : string → response)
    (marshalConfiguration : gmap string yaml.value → string + string)
    (r : Registry.t) (pluginName : string) (cached : CachedPluginSchema.t)
    (t1 t2 t3 : Z) :
  Registry.plugins r !! pluginName = Some cached →
  t1 ≤ CachedPluginSchema.ExpiresAt cached →
  GetPluginSchema httpGet marshalConfiguration r pluginName t1 t2 t3
  = Some (r, inr (CachedPluginSchema.Schema cached)).
Proof.
  intros Hc Ht. unfold GetPluginSchema, IsExpired. rewrite Hc.
  by destruct (Z.ltb_spec (CachedPluginSchema.ExpiresAt cached) t1); [lia|].
Qed.

(** X10: a schema in the cache is served until it expires.  Whatever
    [GetPluginSchema] returns, it changes at most the entry of the name
    asked for, and none when it returns an error.  An entry that is not
    expired at the first reading of the clock is returned as it is, with no
    request made; a schema that had to be fetched is stored to expire after
    the registry's time to live, counted from the reading taken when it
    is stored; and the schema returned is then returned again by every
    call that reads the clock no later than the entry's expiry, whatever
    the network would answer. *)
Theorem GetPluginSchema_cache (httpGet : string → response)
    (marshalConfiguration : gmap string yaml.value → string + string)
    (r r' : Registry.t) (pluginName : string) (now1 now2 now3 : Z)
    (got : string + option PluginSchema.t) :
  GetPluginSchema httpGet marshalConfiguration r pluginName now1 now2 now3
  = Some (r', got) →
  Registry.cacheTTL r' = Registry.cacheTTL r
  ∧ (∀ other, other ≠ pluginName →
       Registry.plugins r' !! other = Registry.plugins r !! other)
  ∧ (∀ err, got = inl err → r' = r)
  ∧ (∀ cached, Registry.plugins r !! pluginName = Some cached →
       now1 ≤ CachedPluginSchema.ExpiresAt cached →
       r' = r ∧ got = inr (CachedPluginSchema.Schema cached))
  ∧ (∀ schema, got = inr schema →
       ∃ cached,
         Registry.plugins r' !! pluginName = Some cached
         ∧ CachedPluginSchema.Schema cached = schema
         ∧ (r' = r
            ∨ (CachedPluginSchema.CachedAt cached = now3
               ∧ CachedPluginSchema.ExpiresAt cached
                 = now3 + Registry.cacheTTL r))
         ∧ ∀ httpGet' marshalConfiguration' t1 t2 t3,
             t1 ≤ CachedPluginSchema.ExpiresAt cached →
             GetPluginSchema httpGet' marshalConfiguration' r' pluginName
               t1 t2 t3
             = Some (r', inr schema)).
Proof.
  intros Hget. pose proof Hget as Hget'. revert Hget'.
  unfold GetPluginSchema, IsExpired.
  assert (∀ schema,
            (∃ cached, Registry.plugins r' !! pluginName = Some cached
               ∧ CachedPluginSchema.Schema cached = schema
               ∧ (r' = r
                  ∨ CachedPluginSchema.CachedAt cached = now3
                    ∧ CachedPluginSchema.ExpiresAt cached
                      = now3 + Registry.cacheTTL r)) →
            ∃ cached, Registry.plugins r' !! pluginName = Some cached
               ∧ CachedPluginSchema.Schema cached = schema
               ∧ (r' = r
                  ∨ CachedPluginSchema.CachedAt cached = now3
                    ∧ CachedPluginSchema.ExpiresAt cached
                      = now3 + Registry.cacheTTL r)
               ∧ ∀ httpGet' marshalConfiguration' t1 t2 t3,
                   t1 ≤ CachedPluginSchema.ExpiresAt cached →
                   GetPluginSchema httpGet' marshalConfiguration' r'
                     pluginName t1 t2 t3
                   = Some (r', inr schema)) as Hserve.
  { intros schema (cached & Hc & <- & Hor). exists cached.
    split_and!; try done. intros. by apply GetPluginSchema_hit. }
  destruct (Registry.plugins r !! pluginName) as [cached|] eqn:Hcached.
  - destruct (Z.ltb_spec (CachedPluginSchema.ExpiresAt cached) now1) as [H1|H1];
      cbn [negb].
    2:{ intros [= <- <-]. split_and!; try done.
        - by intros cached' [= <-] _.
        - intros schema [= <-]. apply Hserve. exists cached.
          split_and!; try done. by left. }
    destruct (Z.ltb_spec (CachedPluginSchema.ExpiresAt cached) now2) as [H2|H2];
      cbn [negb].
    2:{ intros [= <- <-]. split_and!; try done.
        - intros cached' [= <-] ?. lia.
        - intros schema [= <-]. apply Hserve. exists cached.
          split_and!; try done. by left. }
    destruct (fetchPluginSchema httpGet marshalConfiguration pluginName)
      as [[err|schema]|]; cbn [mbind option_bind]; [| |done].
    + intros [= <- <-]. split_and!; try done.
      intros cached' [= <-] ?. lia.
    + intros [= Hr <-]. split_and!; try done.
      * by rewrite <- Hr.
      * intros other Hne. rewrite <- Hr. cbn [Registry.plugins].
        by rewrite lookup_insert_ne.
      * intros cached' [= <-] ?. lia.
      * intros ? [= <-]. apply Hserve. eexists. rewrite <- Hr.
        cbn [Registry.plugins]. rewrite lookup_insert_eq.
        split_and!; [done|done|by right].
  - destruct (fetchPluginSchema httpGet marshalConfiguration pluginName)
      as [[err|schema]|]; cbn [mbind option_bind]; [| |done].
    + intros [= <- <-]. split_and!; try done.
    + intros [= Hr <-]. split_and!; try done.
      * by rewrite <- Hr.
      * intros other Hne. rewrite <- Hr. cbn [Registry.plugins].
        by rewrite lookup_insert_ne.
      * intros ? [= <-]. apply Hserve. eexists. rewrite <- Hr.
        cbn [Registry.plugins]. rewrite lookup_insert_eq.
        split_and!; [done|done|by right].
Qed.

Lemma GetPluginSchema_cache_witness :
  ∃ r' schema,
    GetPluginSchema
      (λ _, Decoded {| PluginSchema.Name := "docker";
                       PluginSchema.Description := "";
                       PluginSchema.Author := "";
                       PluginSchema.Requirements := [];
                       PluginSchema.Configuration := None;
                       PluginSchema.SchemaData := None |})
      (λ _, inr "{}") NewRegistry "docker#v5.0.0" 0 0 5
    = Some (r', inr schema)
    ∧ GetPluginSchema (λ _, GetError "no network") (λ _, inl "unused") r'
        "docker#v5.0.0" (5 + Hour) (6 + Hour) (7 + Hour)
      = Some (r', inr schema).
Proof.
  pose (docker := {| PluginSchema.Name := "docker";
                     PluginSchema.Description := "";
                     PluginSchema.Author := "";
                     PluginSchema.Requirements := [];
                     PluginSchema.Configuration := None;
                     PluginSchema.SchemaData := None |}).
  pose (r' := {| Registry.plugins :=
                   <["docker#v5.0.0" :=
                       {| CachedPluginSchema.Schema := Some docker;
                          CachedPluginSchema.CachedAt := 5;
                          CachedPluginSchema.ExpiresAt := 5 + 24 * Hour |}]>
                     (Registry.plugins NewRegistry);
                 Registry.cacheTTL := 24 * Hour;
                 Registry.maxRetries := 3 |}).
  destruct (GetPluginSchema_cache (λ _, Decoded docker) (λ _, inr "{}")
              NewRegistry r' "docker#v5.0.0" 0 0 5 (inr (Some docker))
              eq_refl)
    as (_ & _ & _ & _ & Hs).
  destruct (Hs _ eq_refl) as (cached & Hc & _ & _ & Hserve).
  exists r', (Some docker). split; [reflexivity|].
  apply Hserve. subst r'. cbn [Registry.plugins] in Hc.
  rewrite lookup_insert_eq in Hc. injection Hc as <-. vm_compute. discriminate.
Defined.

Lemma size_filter_split {A} (P : string * A → bool) (m : gmap string A) :
  size m
  = (size (filter (λ entry, P entry = true) m)
     + size (filter (λ entry, P entry = false) m))%nat.
Proof.
  induction m as [|k v m Hk IH] using map_ind; [done|].
  rewrite map_size_insert_None by done.
  destruct (P (k, v)) eqn:HP.
  - rewrite (map_filter_insert_True (λ entry, P entry = true)) by done.
    rewrite (map_filter_insert_False (λ entry, P entry = false))
      by (simpl; congruence).
    rewrite delete_id by done.
    rewrite map_size_insert_None
      by (apply map_lookup_filter_None; by left). lia.
  - rewrite (map_filter_insert_False (λ entry, P entry = true))
      by (simpl; congruence).
    rewrite (map_filter_insert_True (λ entry, P entry = false)) by done.
    rewrite delete_id by done.
    rewrite (map_size_insert_None _ _ (filter _ m))
      by (apply map_lookup_filter_None; by left). lia.
Qed.

(** X11: the maintenance of the cache.  Of the (total, expired) that
    [GetCacheStats] counts, the expired are among the total;
    [ClearExpiredCache] keeps exactly the entries that are not expired
    when they are looked at, so that the statistics taken at the same
    readings of the clock afterwards are (total - expired, 0); and
    [InvalidateCache] removes the entry of the name given, which lowers
    the total by one when there was one, and touches no other entry. *)
Theorem ClearExpiredCache_stats (r : Registry.t) (now : string → Z) :
  0 ≤ (GetCacheStats r now).2 ≤ (GetCacheStats r now).1
  ∧ GetCacheStats (ClearExpiredCache r now) now
    = ((GetCacheStats r now).1 - (GetCacheStats r now).2, 0)
  ∧ (∀ name cached,
       Registry.plugins (ClearExpiredCache r now) !! name = Some cached
       ↔ Registry.plugins r !! name = Some cached
         ∧ now name ≤ CachedPluginSchema.ExpiresAt cached)
  ∧ (∀ name,
       Registry.plugins (InvalidateCache r name) !! name = None
       ∧ (∀ other, other ≠ name →
            Registry.plugins (InvalidateCache r name) !! other
            = Registry.plugins r !! other)
       ∧ (GetCacheStats (InvalidateCache r name) now).1
         = (GetCacheStats r now).1
           - (if Registry.plugins r !! name is Some _ then 1 else 0)).
Proof.
  unfold GetCacheStats, ClearExpiredCache, InvalidateCache.
  cbn [Registry.plugins fst snd].
  pose proof (size_filter_split (λ entry, IsExpired entry.2 (now entry.1))
                (Registry.plugins r)) as Hsplit.
  cbv beta in Hsplit.
  split_and!.
  - lia.
  - lia.
  - f_equal; [lia|].
    replace (filter _ (filter _ (Registry.plugins r)))
      with (∅ : gmap string CachedPluginSchema.t); [done|].
    symmetry. apply map_empty. intros k. apply map_lookup_filter_None.
    right. intros v [_ Hv]%map_lookup_filter_Some. simpl in *. congruence.
  - intros name cached. rewrite map_lookup_filter_Some. unfold IsExpired.
    simpl. rewrite Z.ltb_ge. done.
  - intros name. split_and!.
    + apply lookup_delete_eq.
    + intros other Hne. by apply lookup_delete_ne.
    + destruct (Registry.plugins r !! name) eqn:Hname.
      * pose proof (map_size_delete_Some name (Registry.plugins r)
                      ltac:(by eexists)).
        pose proof (map_size_ne_0_lookup_2 (Registry.plugins r) name
                      ltac:(by eexists)). lia.
      * rewrite map_size_delete_None by done. lia.
Qed.

(** The loop over the URLs: a schema returned was decoded from one of
    them, all the URLs before it having failed. *)
Lemma fetchFrom_inr (httpGet : string → response)
    (marshalConfiguration : gmap string yaml.value → string + string)
    (urls : list string) (lastErr : option string) (schema : PluginSchema.t) :
  fetchFrom httpGet marshalConfiguration urls lastErr = inr schema →
  ∃ (i : nat) url decoded,
    urls !! i = Some url
    ∧ httpGet url = Decoded decoded
    ∧ match PluginSchema.Configuration decoded with
      | None => schema = decoded
      | Some configuration =>
          ∃ configJSON,
            marshalConfiguration configuration = inr configJSON
            ∧ schema
              = {| PluginSchema.Name := PluginSchema.Name decoded;
                   PluginSchema.Description := PluginSchema.Description decoded;
                   PluginSchema.Author := PluginSchema.Author decoded;
                   PluginSchema.Requirements := PluginSchema.Requirements decoded;
                   PluginSchema.Configuration := Some configuration;
                   PluginSchema.SchemaData := Some configJSON |}
      end
    ∧ ∀ (j : nat) earlier decoded',
        (j < i)%nat → urls !! j = Some earlier →
        httpGet earlier = Decoded decoded' →
        ∃ configuration err,
          PluginSchema.Configuration decoded' = Some configuration
          ∧ marshalConfiguration configuration = inl err.
Proof.
  revert lastErr. induction urls as [|url rest IH]; intros lastErr; [done|].
  assert (∀ err,
            (∀ decoded', httpGet url = Decoded decoded' →
               ∃ configuration err',
                 PluginSchema.Configuration decoded' = Some configuration
                 ∧ marshalConfiguration configuration = inl err') →
            fetchFrom httpGet marshalConfiguration rest err = inr schema →
            ∃ (i : nat) url0 decoded,
              (url :: rest) !! i = Some url0
              ∧ httpGet url0 = Decoded decoded
              ∧ match PluginSchema.Configuration decoded with
                | None => schema = decoded
                | Some configuration =>
                    ∃ configJSON,
                      marshalConfiguration configuration = inr configJSON
                      ∧ schema
                        = {| PluginSchema.Name := PluginSchema.Name decoded;
                             PluginSchema.Description :=
                               PluginSchema.Description decoded;
                             PluginSchema.Author := PluginSchema.Author decoded;
                             PluginSchema.Requirements :=
                               PluginSchema.Requirements decoded;
                             PluginSchema.Configuration := Some configuration;
                             PluginSchema.SchemaData := Some configJSON |}
                end
              ∧ ∀ (j : nat) earlier decoded',
                  (j < i)%nat → (url :: rest) !! j = Some earlier →
                  httpGet earlier = Decoded decoded' →
                  ∃ configuration err',
                    PluginSchema.Configuration decoded' = Some configuration
                    ∧ marshalConfiguration configuration = inl err') as Hnext.
  { intros err Hfail (i & url0 & decoded & Hi & Hget & Hres & Hbefore)%IH.
    exists (S i), url0, decoded. split_and!; try done.
    intros [|j] earlier decoded' Hj Hearlier Hd.
    - injection Hearlier as <-. by apply Hfail.
    - apply (Hbefore j earlier decoded'); [lia|done|done]. }
  cbn [fetchFrom].
  destruct (httpGet url) as [err|code|err|err|decoded] eqn:Hurl;
    try (apply Hnext; intros ? [=]).
  destruct (PluginSchema.Configuration decoded) as [configuration|] eqn:Hconf.
  - destruct (marshalConfiguration configuration) as [err|configJSON] eqn:Hm.
    + apply Hnext. intros ? [= <-]. by exists configuration, err.
    + intros [= <-]. exists 0%nat, url, decoded. rewrite Hconf.
      split_and!; try done; [by exists configJSON|]. intros; lia.
  - intros [= <-]. exists 0%nat, url, decoded. rewrite Hconf.
    split_and!; try done. intros; lia.
Qed.

(** When every URL answers with a status other than 200, the error is the
    one of the last URL. *)
Lemma fetchFrom_BadStatus (httpGet : string → response)
    (marshalConfiguration : gmap string yaml.value → string + string)
    (code : Z) (urls : list string) (lastErr : option string) :
  (∀ url, httpGet url = BadStatus code) →
  fetchFrom httpGet marshalConfiguration urls lastErr
  = inl (match last urls with
         | Some url => Some ("HTTP " +:+ fmt.verb_d code +:+ " from " +:+ url)
         | None => lastErr
         end).
Proof.
  intros Hall. revert lastErr.
  induction urls as [|url rest IH]; intros lastErr; [done|].
  cbn [fetchFrom]. rewrite Hall, IH, last_cons. by destruct (last rest).
Qed.

(** X12: where a plugin's schema is fetched from.  For the empty reference
    the error is the one of an invalid reference and no request is made.
    Otherwise the URLs of [GetAllSchemaURLs] are tried in their order: a
    schema returned was decoded from one of them, every URL before it
    having failed, and it carries the configuration serialized when the
    plugin.yml has one; when all of them answer with a status other than
    200, the error names the reference and ends with the status and the
    URL of the branch master. *)
Theorem fetchPluginSchema_fallback (httpGet : string → response)
    (marshalConfiguration : gmap string yaml.value → string + string)
    (pluginName : string) :
  (pluginName = "" →
   fetchPluginSchema httpGet marshalConfiguration pluginName
   = Some (inl "invalid plugin reference: "))
  ∧ (∀ parsed, ParsePluginReference pluginName = Some (Some parsed) →
       (∀ schema,
            fetchPluginSchema httpGet marshalConfiguration pluginName
            = Some (inr schema) →
            ∃ (i : nat) url decoded,
              GetAllSchemaURLs parsed !! i = Some url
              ∧ httpGet url = Decoded decoded
              ∧ PluginSchema.Name schema = PluginSchema.Name decoded
              ∧ PluginSchema.Configuration schema
                = PluginSchema.Configuration decoded
              ∧ (∀ configuration,
                   PluginSchema.Configuration decoded = Some configuration →
                   ∃ configJSON,
                     marshalConfiguration configuration = inr configJSON
                     ∧ PluginSchema.SchemaData schema = Some configJSON)
              ∧ ∀ (j : nat) earlier decoded',
                  (j < i)%nat →
                  GetAllSchemaURLs parsed !! j = Some earlier →
                  httpGet earlier = Decoded decoded' →
                  ∃ configuration err,
                    PluginSchema.Configuration decoded' = Some configuration
                    ∧ marshalConfiguration configuration = inl err)
       ∧ (∀ code, (∀ url, httpGet url = BadStatus code) →
            fetchPluginSchema httpGet marshalConfiguration pluginName
            = Some (inl ("failed to fetch plugin schema for " +:+ pluginName
                         +:+ " (org: " +:+ ParsedPluginRef.Org parsed
                         +:+ ", name: " +:+ ParsedPluginRef.Name parsed
                         +:+ ", version: " +:+ ParsedPluginRef.Version parsed
                         +:+ "): HTTP " +:+ fmt.verb_d code +:+ " from "
                         +:+ "https://raw.githubusercontent.com/"
                         +:+ ParsedPluginRef.Org parsed +:+ "/"
                         +:+ ParsedPluginRef.Name parsed
                         +:+ "-buildkite-plugin/master/plugin.yml")))).
Proof.
  split.
  - by intros ->.
  - intros parsed Hparsed. unfold fetchPluginSchema. rewrite Hparsed.
    cbn [mbind option_bind]. split_and!.
    + intros schema Hfetch.
      destruct (fetchFrom httpGet marshalConfiguration
                  (GetAllSchemaURLs parsed) None) as [?|fetched] eqn:Hfrom;
        [done|].
      injection Hfetch as ->.
      apply fetchFrom_inr in Hfrom
        as (i & url & decoded & Hi & Hget & Hres & Hbefore).
      exists i, url, decoded. split_and!; try done.
      * destruct (PluginSchema.Configuration decoded);
          [by destruct Hres as (? & _ & ->)|by subst].
      * destruct (PluginSchema.Configuration decoded) eqn:Hc;
          [by destruct Hres as (? & _ & ->)|by subst].
      * intros configuration Hc. rewrite Hc in Hres.
        destruct Hres as (configJSON & Hm & ->). by exists configJSON.
    + intros code Hall.
      rewrite (fetchFrom_BadStatus httpGet marshalConfiguration code) by done.
      done.
Qed.

End PluginRegistry.

(** * The word under the cursor *)
Section Words.
Import lsp.

Lemma all_bytes_app (p : ascii → bool) (a b : string) :
  all_bytes p (a +:+ b) = all_bytes p a && all_bytes p b.
Proof.
  induction a as [|c a IH]; [done|]. rewrite app_cons. simpl.
  by rewrite IH, andb_assoc.
Qed.

Lemma string_snoc (s : string) :
  s = "" ∨ ∃ s' c, s = s' +:+ String c "".
Proof.
  induction s as [|c s IH]; [by left|]. right.
  destruct IH as [->|(s' & c' & ->)].
  - by exists "", c.
  - exists (String c s'), c'. by rewrite app_cons.
Qed.

Lemma nth_byte_app_len (a : string) (c : ascii) (b : string) :
  nth_byte (String.length a) (a +:+ String c b) = Some c.
Proof. induction a as [|c' a IH]; [done|]. by rewrite app_cons. Qed.

(** A string splits into the longest suffix inside [p] and what is before
    it, and into the longest prefix inside [p] and what is after it. *)
Lemma suffix_split (p : ascii → bool) (s : string) :
  ∃ a w, s = a +:+ w ∧ all_bytes p w = true ∧ ends_other p a.
Proof.
  remember (String.length s) as n eqn:Hn. revert s Hn.
  induction n as [|n IH]; intros s Hn.
  - destruct s; [|done]. exists "", "". split_and!; [done|done|by left].
  - destruct (string_snoc s) as [->|(s' & c & ->)]; [done|].
    rewrite length_app_s in Hn. simpl in Hn.
    destruct (p c) eqn:Hc.
    + destruct (IH s' ltac:(lia)) as (a & w & -> & Hw & Ha).
      exists a, (w +:+ String c ""). split_and!; [|  |done].
      * by rewrite app_assoc_s.
      * rewrite all_bytes_app, Hw. simpl. by rewrite Hc.
    + exists (s' +:+ String c ""), "". split_and!; [|done|].
      * by rewrite app_empty_r.
      * right. by exists s', c.
Qed.

Lemma prefix_split (p : ascii → bool) (s : string) :
  ∃ w b, s = w +:+ b ∧ all_bytes p w = true ∧ starts_other p b.
Proof.
  induction s as [|c s (w & b & -> & Hw & Hb)].
  - by exists "", "".
  - destruct (p c) eqn:Hc.
    + exists (String c w), b. split_and!; [by rewrite app_cons| |done].
      simpl. by rewrite Hc.
    + by exists "", (String c (w +:+ b)).
Qed.

(** The loop backwards stops at the start of the run of characters of
    [p] that ends at the index. *)
Lemma backward_run (p : ascii → bool) (before w1 rest : string) :
  all_bytes p w1 = true → ends_other p before →
  backward p (before +:+ w1 +:+ rest) (String.length (before +:+ w1))
  = Some (String.length before).
Proof.
  intros Hw Hb. remember (String.length w1) as n eqn:Hn. revert w1 rest Hw Hn.
  induction n as [|n IH]; intros w1 rest Hw Hn.
  - destruct w1; [|done]. rewrite app_empty_r, app_empty_l.
    destruct Hb as [->|(b & c & -> & Hc)]; [done|].
    rewrite length_app_s, Nat.add_comm. cbn [String.length Nat.add backward].
    rewrite app_assoc_s, app_cons, app_empty_l, nth_byte_app_len.
    cbn [mbind option_bind]. by rewrite Hc.
  - destruct (string_snoc w1) as [->|(w & c & ->)]; [done|].
    rewrite length_app_s in Hn. simpl in Hn.
    rewrite all_bytes_app in Hw. apply andb_true_iff in Hw as [Hw Hc].
    simpl in Hc. rewrite andb_true_r in Hc.
    rewrite <- (app_assoc_s before w (String c "")).
    rewrite (length_app_s (before +:+ w)), Nat.add_comm.
    cbn [String.length Nat.add backward].
    rewrite (app_assoc_s w), app_cons, app_empty_l.
    rewrite <- (app_assoc_s before w), nth_byte_app_len.
    cbn [mbind option_bind]. rewrite Hc. rewrite app_assoc_s.
    apply IH; [done|lia].
Qed.

(** The loop forwards stops at the end of the run of characters of [p]
    that starts at the index. *)
Lemma advance_run (p : ascii → bool) (w2 after : string) (i : Z) :
  all_bytes p w2 = true → starts_other p after →
  advance p (w2 +:+ after) i = i + len w2.
Proof.
  intros Hw Ha. revert i.
  induction w2 as [|c w2 IH]; intros i.
  - rewrite app_empty_l. unfold len. simpl.
    destruct after as [|c after]; simpl; [lia|]. simpl in Ha. rewrite Ha. lia.
  - rewrite app_cons. simpl in Hw. apply andb_true_iff in Hw as [Hc Hw].
    cbn [advance]. rewrite Hc, IH by done. unfold len. simpl. lia.
Qed.

(** The two loops and the slice, for a line cut at the runs around the
    index. *)
Lemma word_bounds (p : ascii → bool) (before w1 w2 after : string) :
  all_bytes p w1 = true → all_bytes p w2 = true →
  ends_other p before → starts_other p after →
  let line := before +:+ w1 +:+ w2 +:+ after in
  let charIndex := len before + len w1 in
  (if 0 <? charIndex
   then Z.of_nat <$> backward p line (Z.to_nat charIndex)
   else Some charIndex) = Some (len before)
  ∧ advance p (slice_from line charIndex) charIndex
    = len before + len w1 + len w2
  ∧ slice line (len before) (len before + len w1 + len w2) = w1 +:+ w2.
Proof.
  intros Hw1 Hw2 Hb Ha line charIndex. subst line charIndex.
  assert (Z.to_nat (len before + len w1) = String.length (before +:+ w1))
    as Hidx by (rewrite length_app_s; unfold len; lia).
  split_and!.
  - destruct (Z.ltb_spec 0 (len before + len w1)) as [Hpos|Hzero].
    + rewrite Hidx, backward_run by done. done.
    + f_equal. pose proof (len_nonneg before). pose proof (len_nonneg w1). lia.
  - unfold slice_from. rewrite Hidx, <- app_assoc_s, drop_bytes_app.
    by rewrite advance_run.
  - unfold slice.
    replace (Z.to_nat (len before)) with (String.length before)
      by (unfold len; lia).
    rewrite drop_bytes_app.
    replace (Z.to_nat (len before + len w1 + len w2 - len before))
      with (String.length (w1 +:+ w2))
      by (rewrite length_app_s; unfold len; lia).
    by rewrite <- app_assoc_s, take_bytes_app.
Qed.

(** Every line is cut in this way at every index. *)
Lemma word_split (p : ascii → bool) (line : string) (charIndex : Z) :
  0 ≤ charIndex ≤ len line →
  ∃ before w1 w2 after,
    line = before +:+ w1 +:+ w2 +:+ after
    ∧ charIndex = len before + len w1
    ∧ all_bytes p w1 = true ∧ all_bytes p w2 = true
    ∧ ends_other p before ∧ starts_other p after.
Proof.
  intros Hrange.
  destruct (suffix_split p (take_bytes (Z.to_nat charIndex) line))
    as (before & w1 & Hpre & Hw1 & Hb).
  destruct (prefix_split p (drop_bytes (Z.to_nat charIndex) line))
    as (w2 & after & Hpost & Hw2 & Ha).
  exists before, w1, w2, after. split_and!; try done.
  - rewrite <- Hpost, <- app_assoc_s, <- Hpre. symmetry. apply take_drop_bytes.
  - rewrite <- len_app, <- Hpre. unfold len in *.
    rewrite length_take_bytes. lia.
Qed.

Lemma all_bytes_first (p : ascii → bool) (s : string) (c : ascii) :
  all_bytes p s = true → at_index s 0 = Some c → p c = true.
Proof.
  destruct s as [|c' s]; [done|]. simpl. intros [Hc _]%andb_true_iff.
  unfold at_index. simpl. by intros [= <-].
Qed.

Lemma all_bytes_no_suffix (p : ascii → bool) (s : string) (c : ascii) :
  all_bytes p s = true → p c = false → TrimSuffix s (String c "") = s.
Proof.
  intros Hs Hc. unfold TrimSuffix.
  destruct (HasSuffix s (String c "")) eqn:Hsuf; [|done].
  apply HasSuffix_spec in Hsuf as [t ->].
  rewrite all_bytes_app in Hs. apply andb_true_iff in Hs as [_ Hs].
  simpl in Hs. rewrite Hc in Hs. done.
Qed.

(** X13: the word that hover looks up.  For a character index that is
    not negative, [extractWordAtPosition] returns; the word is empty when
    the index is not below the length of the line; otherwise it is the
    run of letters, digits and [. @ _ - #] around the index: when the line
    is cut as [before], [w1], [w2], [after] with the index at the start of
    [w2], [w1] and [w2] inside the class, [before] not ending and [after]
    not starting with a character of the class, the word is [w1] followed
    by [w2], so for an index just behind a word it is that word.  The
    word never holds a colon: the removal of the suffix [:] changes
    nothing. *)
Theorem extractWordAtPosition_run (posCtx : bkcontext.PositionContext.t) :
  0 ≤ bkcontext.PositionContext.CharIndex posCtx →
  (len (bkcontext.PositionContext.CurrentLine posCtx)
   ≤ bkcontext.PositionContext.CharIndex posCtx →
   extractWordAtPosition posCtx = Some "")
  ∧ (∀ before w1 w2 after,
       bkcontext.PositionContext.CurrentLine posCtx
       = before +:+ w1 +:+ w2 +:+ after →
       bkcontext.PositionContext.CharIndex posCtx = len before + len w1 →
       w2 +:+ after ≠ "" →
       all_bytes isHoverWordByte w1 = true →
       all_bytes isHoverWordByte w2 = true →
       ends_other isHoverWordByte before →
       starts_other isHoverWordByte after →
       extractWordAtPosition posCtx = Some (w1 +:+ w2))
  ∧ ∃ word,
      extractWordAtPosition posCtx = Some word
      ∧ all_bytes isHoverWordByte word = true
      ∧ Contains word ":" = false.
Proof.
  intros Hpos.
  assert (∀ before w1 w2 after,
            bkcontext.PositionContext.CurrentLine posCtx
            = before +:+ w1 +:+ w2 +:+ after →
            bkcontext.PositionContext.CharIndex posCtx = len before + len w1 →
            w2 +:+ after ≠ "" →
            all_bytes isHoverWordByte w1 = true →
            all_bytes isHoverWordByte w2 = true →
            ends_other isHoverWordByte before →
            starts_other isHoverWordByte after →
            extractWordAtPosition posCtx = Some (w1 +:+ w2)) as Hrun.
  { intros before w1 w2 after Hline Hidx Hne Hw1 Hw2 Hb Ha.
    destruct (word_bounds isHoverWordByte before w1 w2 after Hw1 Hw2 Hb Ha)
      as (Hstart & Hend & Hslice).
    unfold extractWordAtPosition. rewrite Hline, Hidx.
    destruct (Z.leb_spec (len (before +:+ w1 +:+ w2 +:+ after))
                (len before + len w1)) as [Hlen|Hlen].
    { rewrite !len_app in Hlen.
      pose proof (len_nonneg w2). pose proof (len_nonneg after).
      assert (len (w2 +:+ after) = 0) as Hzero by (rewrite len_app; lia).
      by apply len_0 in Hzero. }
    rewrite Hstart. cbn [mbind option_bind].
    destruct (Z.ltb_spec (len before + len w1) 0) as [Hneg|_]; [lia|].
    cbn [mbind option_bind]. rewrite Hend, Hslice.
    destruct (Z.leb_spec (len before + len w1 + len w2) (len before))
      as [Hempty|_].
    - pose proof (len_nonneg w1). pose proof (len_nonneg w2).
      rewrite (len_0 w1), (len_0 w2) by lia. done.
    - rewrite (all_bytes_no_suffix isHoverWordByte); [done| |done].
      rewrite all_bytes_app, Hw1, Hw2. done. }
  split_and!.
  - intros Hlen. unfold extractWordAtPosition.
    by destruct (Z.leb_spec (len (bkcontext.PositionContext.CurrentLine posCtx))
                   (bkcontext.PositionContext.CharIndex posCtx)); [|lia].
  - exact Hrun.
  - destruct (Z.leb_spec (len (bkcontext.PositionContext.CurrentLine posCtx))
                (bkcontext.PositionContext.CharIndex posCtx)) as [Hlen|Hlen].
    + exists "". split_and!; try done. unfold extractWordAtPosition.
      by destruct (Z.leb_spec
                     (len (bkcontext.PositionContext.CurrentLine posCtx))
                     (bkcontext.PositionContext.CharIndex posCtx)); [|lia].
    + destruct (word_split isHoverWordByte
                  (bkcontext.PositionContext.CurrentLine posCtx)
                  (bkcontext.PositionContext.CharIndex posCtx) ltac:(lia))
        as (before & w1 & w2 & after & Hline & Hidx & Hw1 & Hw2 & Hb & Ha).
      exists (w1 +:+ w2).
      assert (all_bytes isHoverWordByte (w1 +:+ w2) = true) as Hall
        by (by rewrite all_bytes_app, Hw1, Hw2).
      split_and!; [|done|].
      * apply Hrun with before after; try done.
        intros Hnil. rewrite Hline, Hidx, !len_app in Hlen.
        assert (len (w2 +:+ after) = 0) as H0 by (by rewrite Hnil).
        rewrite len_app in H0. lia.
      * destruct (Contains (w1 +:+ w2) ":") eqn:Hcolon; [|done].
        apply Contains_spec in Hcolon as (a & b & Hab).
        rewrite Hab, !all_bytes_app in Hall. simpl in Hall.
        by rewrite andb_false_r in Hall.
Qed.

Lemma extractWordAtPosition_run_witness :
  extractWordAtPosition (atChar "  depends_on: build" 12) = Some "depends_on".
Proof.
  apply (extractWordAtPosition_run (atChar "  depends_on: build" 12)
           ltac:(simpl; lia)) with (before := "  ") (after := ": build")
           (w1 := "depends_on") (w2 := ""); try done.
  right. by exists " ", " "%char.
Defined.

Lemma word_without_quotes (word : string) :
  all_bytes isWordByte word = true →
  (if 2 <=? len word then
     first ← at_index word 0;
     if Ascii.eqb first DQ || Ascii.eqb first SQ then
       last ← at_index word (len word - 1);
       if Ascii.eqb last first
       then Some (slice word 1 (len word - 1))
       else Some word
     else Some word
   else Some word) = Some word.
Proof.
  intros Hall. destruct (Z.leb_spec 2 (len word)) as [Hlen|_]; [|done].
  destruct word as [|c word]; [unfold len in Hlen; simpl in Hlen; lia|].
  pose proof (all_bytes_first isWordByte (String c word) c Hall eq_refl) as Hc.
  change (at_index (String c word) 0) with (Some c).
  cbn [mbind option_bind].
  destruct (Ascii.eqb_spec c DQ) as [->|_]; [by vm_compute in Hc|].
  destruct (Ascii.eqb_spec c SQ) as [->|_]; [by vm_compute in Hc|]. done.
Qed.

Lemma getWordAtPosition_cut (ctx : bkcontext.PositionContext.t)
    (before w1 w2 after : string) :
  bkcontext.PositionContext.CurrentLine ctx
  = before +:+ w1 +:+ w2 +:+ after →
  bkcontext.PositionContext.CharIndex ctx = len before + len w1 →
  w2 +:+ after ≠ "" →
  all_bytes isWordByte w1 = true →
  all_bytes isWordByte w2 = true →
  ends_other isWordByte before →
  starts_other isWordByte after →
  getWordAtPosition ctx = Some (w1 +:+ w2).
Proof.
  intros Hline Hidx Hne Hw1 Hw2 Hb Ha.
  destruct (word_bounds isWordByte before w1 w2 after Hw1 Hw2 Hb Ha)
    as (Hstart & Hend & Hslice).
  unfold getWordAtPosition. rewrite Hline, Hidx.
  destruct (Z.leb_spec (len (before +:+ w1 +:+ w2 +:+ after))
              (len before + len w1)) as [Hlen|Hlen].
  { rewrite !len_app in Hlen.
    pose proof (len_nonneg w2). pose proof (len_nonneg after).
    assert (len (w2 +:+ after) = 0) as Hzero by (rewrite len_app; lia).
    by apply len_0 in Hzero. }
  rewrite Hstart. cbn [mbind option_bind].
  pose proof (len_nonneg before). pose proof (len_nonneg w1).
  destruct (Z.ltb_spec (len before + len w1) 0) as [Hneg|_]; [lia|].
  cbn [mbind option_bind]. rewrite Hend, Hslice.
  apply word_without_quotes. by rewrite all_bytes_app, Hw1, Hw2.
Qed.

Lemma getWordAtPosition_returns (ctx : bkcontext.PositionContext.t) :
  0 ≤ bkcontext.PositionContext.CharIndex ctx →
  ∃ word,
    getWordAtPosition ctx = Some word ∧ all_bytes isWordByte word = true.
Proof.
  intros Hpos.
  destruct (Z.leb_spec (len (bkcontext.PositionContext.CurrentLine ctx))
              (bkcontext.PositionContext.CharIndex ctx)) as [Hlen|Hlen].
  - exists "". split; [|done]. unfold getWordAtPosition.
    by destruct (Z.leb_spec
                   (len (bkcontext.PositionContext.CurrentLine ctx))
                   (bkcontext.PositionContext.CharIndex ctx)); [|lia].
  - destruct (word_split isWordByte
                (bkcontext.PositionContext.CurrentLine ctx)
                (bkcontext.PositionContext.CharIndex ctx) ltac:(lia))
      as (before & w1 & w2 & after & Hline & Hidx & Hw1 & Hw2 & Hb & Ha).
    exists (w1 +:+ w2). split; [|by rewrite all_bytes_app, Hw1, Hw2].
    apply getWordAtPosition_cut with before after; try done.
    intros Hnil. rewrite Hline, Hidx, !len_app in Hlen.
    assert (len (w2 +:+ after) = 0) as Hzero by (by rewrite Hnil).
    rewrite len_app in Hzero. lia.
Qed.

(** X14: the word that go-to-definition looks up.  For a character index
    that is not negative, [getWordAtPosition] returns; the word is empty
    when the index is not below the length of the line; otherwise it is
    the run of letters, digits, [-] and [_] around the index, cut as for
    hover but with this smaller class.  A quote is outside the class, so
    the word never starts with one and the removal of quotes changes
    nothing: on a quoted key the word is the key without its quotes. *)
Theorem getWordAtPosition_run (ctx : bkcontext.PositionContext.t) :
  0 ≤ bkcontext.PositionContext.CharIndex ctx →
  (len (bkcontext.PositionContext.CurrentLine ctx)
   ≤ bkcontext.PositionContext.CharIndex ctx →
   getWordAtPosition ctx = Some "")
  ∧ (∀ before w1 w2 after,
       bkcontext.PositionContext.CurrentLine ctx
       = before +:+ w1 +:+ w2 +:+ after →
       bkcontext.PositionContext.CharIndex ctx = len before + len w1 →
       w2 +:+ after ≠ "" →
       all_bytes isWordByte w1 = true →
       all_bytes isWordByte w2 = true →
       ends_other isWordByte before →
       starts_other isWordByte after →
       getWordAtPosition ctx = Some (w1 +:+ w2))
  ∧ ∃ word,
      getWordAtPosition ctx = Some word
      ∧ all_bytes isWordByte word = true.
Proof.
  intros Hpos. split_and!.
  - intros Hlen. unfold getWordAtPosition.
    by destruct (Z.leb_spec (len (bkcontext.PositionContext.CurrentLine ctx))
                   (bkcontext.PositionContext.CharIndex ctx)); [|lia].
  - apply getWordAtPosition_cut.
  - by apply getWordAtPosition_returns.
Qed.

Lemma getWordAtPosition_run_witness :
  getWordAtPosition (atChar ("  - " +:+ dq +:+ "build-step" +:+ dq) 6)
  = Some "build-step".
Proof.
  apply (getWordAtPosition_run
           (atChar ("  - " +:+ dq +:+ "build-step" +:+ dq) 6)
           ltac:(simpl; lia)) with (before := "  - " +:+ dq) (after := dq)
           (w1 := "b") (w2 := "uild-step"); try done.
  right. by exists "  - ", DQ.
Defined.

End Words.

(** * Signature help *)
Section SignatureHelpFacts.
Import lsp protocol.

(** The test [len(trimmed) > 0 && line[0] != ' ' && line[0] != '\t'] reads
    no character of an empty line. *)
Lemma unindented_TrimSpace (line : string) :
  ∃ top, unindented (TrimSpace line) line = Some top.
Proof.
  unfold unindented. destruct (Z.ltb_spec 0 (len (TrimSpace line))); [|eauto].
  destruct line as [|c line]; [by rewrite TrimSpace_empty in *|].
  unfold at_index. simpl. eauto.
Qed.

Lemma isInPluginContext_loop_spec (lines : list string) (n : nat) (s : bool) :
  ∃ a b,
    isInPluginContext_loop lines n s = Some (a, b)
    ∧ (b = true →
       ∃ (j : nat) pluginsLine,
         (j < n)%nat
         ∧ lines !! j = Some pluginsLine
         ∧ HasPrefix (TrimSpace pluginsLine) "plugins:" = true
         ∧ 0 < getIndentLevel pluginsLine
         ∧ (a = true →
            s = true
            ∨ ∃ (k : nat) stepLine,
                (j < k < n)%nat
                ∧ lines !! k = Some stepLine
                ∧ isStepStart stepLine = true)).
Proof.
  revert s. induction n as [|i IH]; intros s.
  - exists s, false. by split.
  - cbn [isInPluginContext_loop].
    destruct (lines !! i) as [raw|] eqn:Hraw.
    2:{ destruct (IH s) as (a & b & Hloop & Hspec). exists a, b.
        split; [done|]. intros Hb.
        destruct (Hspec Hb) as (j & pluginsLine & Hj & Hlook & Hp & Hi & Ha).
        exists j, pluginsLine. split_and!; try done; [lia|].
        intros [?|(k & stepLine & ? & ? & ?)]%Ha; [by left|right].
        exists k, stepLine. split_and!; try done; lia. }
    destruct (HasPrefix (TrimSpace raw) "plugins:") eqn:Hprefix;
      cbn [andb].
    + destruct (Z.ltb_spec 0 (getIndentLevel raw)) as [Hindent|Hindent].
      * exists s, true. split; [done|]. intros _. exists i, raw.
        split_and!; try done; [lia|]. by left.
      * destruct (unindented_TrimSpace raw) as [top ->].
        cbn [mbind option_bind]. destruct top.
        { eexists _, false. by split. }
        destruct (IH (if isStepStart raw then true else s))
          as (a & b & Hloop & Hspec).
        exists a, b. split; [done|]. intros Hb.
        destruct (Hspec Hb) as (j & pluginsLine & Hj & Hlook & Hp & Hi & Ha).
        exists j, pluginsLine. split_and!; try done; [lia|].
        intros [Hs|(k & stepLine & ? & ? & ?)]%Ha.
        -- destruct (isStepStart raw) eqn:Hstep; [|by left].
           right. exists i, raw. split_and!; try done; lia.
        -- right. exists k, stepLine. split_and!; try done; lia.
    + destruct (unindented_TrimSpace raw) as [top ->].
      cbn [mbind option_bind]. destruct top.
      { eexists _, false. by split. }
      destruct (IH (if isStepStart raw then true else s))
        as (a & b & Hloop & Hspec).
      exists a, b. split; [done|]. intros Hb.
      destruct (Hspec Hb) as (j & pluginsLine & Hj & Hlook & Hp & Hi & Ha).
      exists j, pluginsLine. split_and!; try done; [lia|].
      intros [Hs|(k & stepLine & ? & ? & ?)]%Ha.
      * destruct (isStepStart raw) eqn:Hstep; [|by left].
        right. exists i, raw. split_and!; try done; lia.
      * right. exists k, stepLine. split_and!; try done; lia.
Qed.

(** X15: when signature help takes the cursor to be in a plugin's
    configuration.  [isInPluginContext] returns (no index is out of
    range), and it returns true only if, at or above the line of the
    cursor, an indented line starts with [plugins:] and a line strictly
    below that one starts a step.  So for a cursor in the plugin list of
    the step that holds the [plugins:] line, with no step started in
    between, the answer is false. *)
Theorem isInPluginContext_needs_later_step (ctx : bkcontext.PositionContext.t) :
  (∃ answer, isInPluginContext ctx = Some answer)
  ∧ (isInPluginContext ctx = Some true →
     ∃ (j k : nat) pluginsLine stepLine,
       (j < k)%nat
       ∧ Z.of_nat k ≤ Line (bkcontext.PositionContext.Position ctx)
       ∧ Split (bkcontext.PositionContext.FullContent ctx) LF !! j
         = Some pluginsLine
       ∧ HasPrefix (TrimSpace pluginsLine) "plugins:" = true
       ∧ 0 < getIndentLevel pluginsLine
       ∧ Split (bkcontext.PositionContext.FullContent ctx) LF !! k
         = Some stepLine
       ∧ isStepStart stepLine = true).
Proof.
  unfold isInPluginContext.
  destruct (isInPluginContext_loop_spec
              (Split (bkcontext.PositionContext.FullContent ctx) LF)
              (Z.to_nat (Line (bkcontext.PositionContext.Position ctx) + 1))
              false) as (a & b & -> & Hspec).
  cbn [mbind option_bind]. split; [eauto|].
  intros [= [-> ->]%andb_true_iff].
  destruct (Hspec eq_refl) as (j & pluginsLine & Hj & Hlook & Hp & Hi & Ha).
  destruct (Ha eq_refl) as [?|(k & stepLine & Hk & Hstep & Hstart)]; [done|].
  exists j, k, pluginsLine, stepLine. split_and!; try done; lia.
Qed.

Lemma detectStepType_inner_range (rest : list string) (j i currentLine : Z) :
  detectStepType_inner rest j i currentLine
  ∈ [""; "command"; "wait"; "block"; "input"; "trigger"; "group"].
Proof.
  revert j. induction rest as [|raw rest IH]; intros j; cbn [detectStepType_inner].
  - apply list_elem_of_In; simpl; tauto.
  - repeat match goal with
           | |- context [if ?b then _ else _] => destruct b
           end; try apply IH; apply list_elem_of_In; simpl; tauto.
Qed.

Lemma detectStepType_range (ctx : bkcontext.PositionContext.t) :
  detectStepType ctx
  ∈ [""; "command"; "wait"; "block"; "input"; "trigger"; "group"].
Proof.
  unfold detectStepType.
  generalize (Z.to_nat (Line (bkcontext.PositionContext.Position ctx) + 1)).
  generalize (Split (bkcontext.PositionContext.FullContent ctx) LF).
  intros lines n. induction n as [|i IH]; cbn [detectStepType_loop];
    [apply list_elem_of_In; simpl; tauto|].
  destruct (lines !! i) as [raw|]; [|apply IH].
  destruct (isStepStart raw); [|apply IH]. apply detectStepType_inner_range.
Qed.

(** X16: the signatures offered for a step.  The step type detected is
    one of command, wait, block, input, trigger and group, or empty.
    [getStepSignatures] gives no signature exactly when the type is empty
    or group, and otherwise one signature, whose first parameter bears the
    name of the step type and which has no parameter without a
    documentation. *)
Theorem getStepSignatures_shape (ctx : bkcontext.PositionContext.t) :
  detectStepType ctx
    ∈ [""; "command"; "wait"; "block"; "input"; "trigger"; "group"]
  ∧ (getStepSignatures ctx = []
     ↔ detectStepType ctx = "" ∨ detectStepType ctx = "group")
  ∧ (detectStepType ctx ≠ "" → detectStepType ctx ≠ "group" →
     ∃ signature documentation others,
       getStepSignatures ctx = [signature]
       ∧ Parameters signature
         = parameter (detectStepType ctx) documentation :: others
       ∧ Forall (λ p, ParameterLabel p ≠ "" ∧ ParameterDocumentation p ≠ "")
           (Parameters signature)).
Proof.
  pose proof (detectStepType_range ctx) as Hrange.
  split; [done|]. unfold getStepSignatures.
  repeat (apply elem_of_cons in Hrange as [->|Hrange]);
    [..|by apply elem_of_nil in Hrange]; cbn.
  all: split; [split; [try done; intros _; by (left + right)
                      |intros [?|?]; done]|].
  all: intros Hne Hng; try done.
  all: eexists _, _, _; split_and!; [done|done|].
  all: repeat constructor; done.
Qed.

End SignatureHelpFacts.

(** * Go to definition *)
Section DefinitionFacts.
Import lsp protocol.

Variable ToLower : string → string.





End DefinitionFacts.


(** * Code actions *)
Section CodeActionFacts.
Import lsp protocol.

Lemma underSteps_returns (lines : list string) (n : nat) :
  (n ≤ length lines)%nat → ∃ found, underSteps lines n = Some found.
Proof.
  induction n as [|i IH]; intros Hn; cbn [underSteps]; [eauto|].
  destruct (lookup_lt_is_Some_2 lines i ltac:(lia)) as [raw ->].
  cbn [mbind option_bind].
  destruct (String.eqb (TrimSpace raw) "steps:"); [eauto|].
  destruct (unindented_TrimSpace raw) as [top ->]. cbn [mbind option_bind].
  destruct top; [eauto|]. apply IH. lia.
Qed.

Lemma stepStartAbove_spec (lines : list string) (n : nat) (inSteps : bool) :
  ∃ stepStart,
    stepStartAbove lines n inSteps = Some stepStart
    ∧ (stepStart = -1
       ∨ ∃ (k : nat) raw,
           stepStart = Z.of_nat k ∧ (k < n)%nat
           ∧ lines !! k = Some raw ∧ isStepStart raw = true
           ∧ (inSteps = true
              ∨ ∃ (j : nat) header,
                  (k < j < n)%nat ∧ lines !! j = Some header
                  ∧ TrimSpace header = "steps:")).
Proof.
  revert inSteps. induction n as [|i IH]; intros inSteps;
    cbn [stepStartAbove]; [eexists; split; [done|by left]|].
  assert (∀ inSteps',
            (inSteps' = true →
             inSteps = true
             ∨ ∃ header, lines !! i = Some header ∧ TrimSpace header = "steps:") →
            ∃ stepStart,
              stepStartAbove lines i inSteps' = Some stepStart
              ∧ (stepStart = -1
                 ∨ ∃ (k : nat) raw,
                     stepStart = Z.of_nat k ∧ (k < S i)%nat
                     ∧ lines !! k = Some raw ∧ isStepStart raw = true
                     ∧ (inSteps = true
                        ∨ ∃ (j : nat) header,
                            (k < j < S i)%nat ∧ lines !! j = Some header
                            ∧ TrimSpace header = "steps:"))) as Hnext.
  { intros inSteps' Hin.
    destruct (IH inSteps') as (stepStart & -> & Hspec).
    exists stepStart. split; [done|].
    destruct Hspec as [->|(k & raw & -> & Hk & Hraw & Hstart & Hor)]; [by left|].
    right. exists k, raw. split_and!; try done; [lia|].
    destruct Hor as [Hs|(j & header & Hj & Hh & Ht)].
    - destruct (Hin Hs) as [?|(header & Hh & Ht)]; [by left|].
      right. exists i, header. split_and!; try done; lia.
    - right. exists j, header. split_and!; try done; lia. }
  destruct (lines !! i) as [raw|] eqn:Hraw.
  2:{ apply Hnext. intros ->. by left. }
  destruct (String.eqb_spec (TrimSpace raw) "steps:") as [Hheader|_].
  { apply Hnext. intros _. right. by exists raw. }
  destruct inSteps; cbn [andb negb].
  - destruct (isStepStart raw) eqn:Hstart.
    + eexists. split; [done|]. right. exists i, raw.
      split_and!; try done; [lia|by left].
    + cbn [mbind option_bind]. apply Hnext. by left.
  - destruct (unindented_TrimSpace raw) as [top ->]. cbn [mbind option_bind].
    destruct top; [eexists; split; [done|by left]|].
    apply Hnext. done.
Qed.

Lemma stepEndBelow_spec (rest : list string) (i : Z) :
  ∃ stepEnd,
    stepEndBelow rest i = Some stepEnd
    ∧ (stepEnd = -1 ∨ i - 1 ≤ stepEnd < i - 1 + Z.of_nat (length rest)).
Proof.
  revert i. induction rest as [|line rest IH]; intros i; cbn [stepEndBelow].
  - eexists. split; [done|by left].
  - assert (∃ ends,
              (if isStepStart line then Some true
               else unindented (TrimSpace line) line) = Some ends)
      as [ends ->].
    { destruct (isStepStart line); [eauto|apply unindented_TrimSpace]. }
    cbn [mbind option_bind]. destruct ends.
    + eexists. split; [done|]. right. simpl. lia.
    + destruct (IH (i + 1)) as (stepEnd & -> & Hspec).
      eexists. split; [done|]. destruct Hspec; [by left|right]. simpl. lia.
Qed.

Lemma Contains_SplitN_2s (s sep : string) :
  Contains s sep = true → ∃ a b, SplitN_2s s sep = [a; b].
Proof.
  unfold Contains, SplitN_2s. intros Hc%Z.leb_le.
  destruct (Z.ltb_spec (Index s sep) 0); [lia|]. eauto.
Qed.

Lemma holdsAt_weaken (lines : list string) (lo hi hi' i : Z) (text : string) :
  hi ≤ hi' → holdsAt lines lo hi i text → holdsAt lines lo hi' i text.
Proof. intros Hle [Hi Hraw]. split; [lia|done]. Qed.

Lemma stepFlagsOk_weaken (lines : list string) (lo hi hi' : Z)
    (info : StepInfo.t) :
  hi ≤ hi' → stepFlagsOk lines lo hi info → stepFlagsOk lines lo hi' info.
Proof.
  intros Hle (Hl & Hn & Hc & Ht & He & Hs).
  split_and!; try done; intros H.
  - by apply (holdsAt_weaken lines lo hi), Hl.
  - by apply (holdsAt_weaken lines lo hi), Hn.
  - by apply (holdsAt_weaken lines lo hi), Hc.
  - specialize (Ht H). lia.
Qed.

Lemma analyzeStepLine_flags (lines : list string) (lo i : Z) (raw : string)
    (info : StepInfo.t) :
  lo ≤ i → 0 ≤ i → lines !! Z.to_nat i = Some raw →
  stepFlagsOk lines lo (i - 1) info →
  stepFlagsOk lines lo i (analyzeStepLine info i raw).
Proof.
  intros Hlo Hpos Hraw Hinfo.
  apply (stepFlagsOk_weaken lines lo (i - 1) i) in Hinfo; [|lia].
  destruct Hinfo as (Hl & Hn & Hc & Ht & He & Hs).
  unfold analyzeStepLine, stepFlagsOk.
  cbn [StepInfo.HasLabel StepInfo.HasName StepInfo.IsCommandStep
       StepInfo.HasStepType StepInfo.HasEmptyCommand StepInfo.HasSingleCommand
       StepInfo.LabelLine StepInfo.NameLine StepInfo.CommandLine
       StepInfo.StepTypeLine].
  split_and!.
  - destruct (Contains (TrimSpace raw) "label:") eqn:Hcon; [|done].
    intros _. split; [lia|]. by exists raw.
  - destruct (Contains (TrimSpace raw) "name:") eqn:Hcon; [|done].
    intros _. split; [lia|]. by exists raw.
  - destruct (Contains (TrimSpace raw) "command:") eqn:Hcon; [|done].
    intros _. split; [lia|]. by exists raw.
  - destruct (Contains (TrimSpace raw) "command:" || _); [lia|done].
  - destruct (Contains (TrimSpace raw) "command:") eqn:Hcon; cbn [andb];
      [|done].
    destruct (Contains_SplitN_2s _ _ Hcon) as (a & b & ->).
    by destruct (String.eqb _ ""); cbn [negb]; [|rewrite orb_true_r].
  - destruct (Contains (TrimSpace raw) "command:"); cbn [orb]; [done|].
    intros H. rewrite (Hs H).
    by match goal with |- (if ?b then _ else _) = _ => destruct b end.
Qed.

Lemma analyzeStepLines_flags (lines : list string) (lo stepEnd : Z) :
  ∀ (rest : list string) (i : Z) (info : StepInfo.t),
    drop (Z.to_nat i) lines = rest → 0 ≤ i → lo ≤ i ≤ stepEnd + 1 →
    stepFlagsOk lines lo (i - 1) info →
    stepFlagsOk lines lo stepEnd (analyzeStepLines rest i stepEnd info)
    ∧ StepInfo.StartLine (analyzeStepLines rest i stepEnd info)
      = StepInfo.StartLine info
    ∧ StepInfo.EndLine (analyzeStepLines rest i stepEnd info)
      = StepInfo.EndLine info.
Proof.
  intros rest. induction rest as [|raw rest IH]; intros i info Hdrop Hpos Hi Hinfo;
    cbn [analyzeStepLines].
  - split; [|done]. apply (stepFlagsOk_weaken lines lo (i - 1)); [lia|done].
  - destruct (Z.ltb_spec stepEnd i) as [Hend|Hend].
    { split; [|done]. apply (stepFlagsOk_weaken lines lo (i - 1)); [lia|done]. }
    assert (lines !! Z.to_nat i = Some raw) as Hraw.
    { rewrite <- (Nat.add_0_r (Z.to_nat i)), <- lookup_drop, Hdrop. done. }
    destruct (IH (i + 1) (analyzeStepLine info i raw)) as (Hok & Hs & He).
    + rewrite (drop_S lines raw _ Hraw) in Hdrop.
      replace (Z.to_nat (i + 1)) with (S (Z.to_nat i)) by lia.
      by injection Hdrop.
    + lia.
    + lia.
    + replace (i + 1 - 1) with i by lia. apply analyzeStepLine_flags; [lia|lia|done|done].
    + by rewrite Hs, He.
Qed.

Lemma analyzeStepAtRange_spec (rang : Range) (lines : list string) :
  0 ≤ Line (Start rang) →
  ∃ found,
    analyzeStepAtRange rang lines = Some found
    ∧ ∀ info, found = Some info →
        0 ≤ StepInfo.StartLine info ≤ Line (Start rang)
        ∧ StepInfo.StartLine info ≤ StepInfo.EndLine info
        ∧ StepInfo.EndLine info < Z.of_nat (length lines)
        ∧ (∃ raw, lines !! Z.to_nat (StepInfo.StartLine info) = Some raw
                  ∧ isStepStart raw = true)
        ∧ (StepInfo.StartLine info = Line (Start rang)
           ∨ ∃ (j : nat) header,
               StepInfo.StartLine info < Z.of_nat j ≤ Line (Start rang)
               ∧ lines !! j = Some header ∧ TrimSpace header = "steps:")
        ∧ stepFlagsOk lines (StepInfo.StartLine info) (StepInfo.EndLine info)
            info.
Proof.
  intros Hpos. unfold analyzeStepAtRange.
  set (startLine := Line (Start rang)) in *.
  assert (∀ stepStart : Z,
            0 ≤ stepStart ≤ startLine →
            (∃ raw, lines !! Z.to_nat stepStart = Some raw
                    ∧ isStepStart raw = true) →
            (stepStart = startLine
             ∨ ∃ (j : nat) header,
                 stepStart < Z.of_nat j ≤ startLine
                 ∧ lines !! j = Some header ∧ TrimSpace header = "steps:") →
            ∃ found,
              (if stepStart =? -1 then Some None
               else
                 stepEnd ← stepEndBelow (drop (Z.to_nat (stepStart + 1)) lines)
                             (stepStart + 1);
                 let stepEnd :=
                   if stepEnd =? -1 then Z.of_nat (length lines) - 1
                   else stepEnd in
                 let info :=
                   {| StepInfo.StartLine := stepStart;
                      StepInfo.EndLine := stepEnd;
                      StepInfo.IsCommandStep := false;
                      StepInfo.HasLabel := false;
                      StepInfo.HasKey := false;
                      StepInfo.HasName := false;
                      StepInfo.HasStepType := false;
                      StepInfo.HasEmptyCommand := false;
                      StepInfo.HasSingleCommand := false;
                      StepInfo.LabelLine := 0;
                      StepInfo.CommandLine := 0;
                      StepInfo.StepTypeLine := 0;
                      StepInfo.NameLine := 0 |} in
                 Some (Some (analyzeStepLines (drop (Z.to_nat stepStart) lines)
                               stepStart stepEnd info))) = Some found
              ∧ ∀ info, found = Some info →
                  0 ≤ StepInfo.StartLine info ≤ startLine
                  ∧ StepInfo.StartLine info ≤ StepInfo.EndLine info
                  ∧ StepInfo.EndLine info < Z.of_nat (length lines)
                  ∧ (∃ raw, lines !! Z.to_nat (StepInfo.StartLine info) = Some raw
                            ∧ isStepStart raw = true)
                  ∧ (StepInfo.StartLine info = startLine
                     ∨ ∃ (j : nat) header,
                         StepInfo.StartLine info < Z.of_nat j ≤ startLine
                         ∧ lines !! j = Some header
                         ∧ TrimSpace header = "steps:")
                  ∧ stepFlagsOk lines (StepInfo.StartLine info)
                      (StepInfo.EndLine info) info) as Hfound.
  { intros stepStart Hrange (raw & Hraw & Hstart) Hwhere.
    destruct (Z.eqb_spec stepStart (-1)) as [?|_]; [lia|].
    destruct (stepEndBelow_spec (drop (Z.to_nat (stepStart + 1)) lines)
                (stepStart + 1)) as (stepEnd & -> & HstepEnd).
    cbn [mbind option_bind]. eexists. split; [done|].
    intros info [= <-].
    pose proof (lookup_lt_Some _ _ _ Hraw) as Hlen.
    rewrite length_drop in HstepEnd.
    match goal with
    | |- context [analyzeStepLines ?rest ?i ?e ?info] =>
        destruct (analyzeStepLines_flags lines stepStart e rest i info)
          as (Hok & -> & ->)
    end.
    - done.
    - lia.
    - destruct (Z.eqb_spec stepEnd (-1)); lia.
    - unfold stepFlagsOk. cbn. split_and!; done.
    - cbn [StepInfo.StartLine StepInfo.EndLine] in *.
      split_and!; try done; try lia.
      + destruct (Z.eqb_spec stepEnd (-1)); lia.
      + destruct (Z.eqb_spec stepEnd (-1)); lia.
      + by exists raw. }
  assert (∃ found,
            (stepStart ← stepStartAbove lines (Z.to_nat (startLine + 1)) false;
             if stepStart =? -1 then Some None
             else
               stepEnd ← stepEndBelow (drop (Z.to_nat (stepStart + 1)) lines)
                           (stepStart + 1);
               let stepEnd :=
                 if stepEnd =? -1 then Z.of_nat (length lines) - 1
                 else stepEnd in
               let info :=
                 {| StepInfo.StartLine := stepStart;
                    StepInfo.EndLine := stepEnd;
                    StepInfo.IsCommandStep := false;
                    StepInfo.HasLabel := false;
                    StepInfo.HasKey := false;
                    StepInfo.HasName := false;
                    StepInfo.HasStepType := false;
                    StepInfo.HasEmptyCommand := false;
                    StepInfo.HasSingleCommand := false;
                    StepInfo.LabelLine := 0;
                    StepInfo.CommandLine := 0;
                    StepInfo.StepTypeLine := 0;
                    StepInfo.NameLine := 0 |} in
               Some (Some (analyzeStepLines (drop (Z.to_nat stepStart) lines)
                             stepStart stepEnd info))) = Some found
            ∧ ∀ info, found = Some info →
                0 ≤ StepInfo.StartLine info ≤ startLine
                ∧ StepInfo.StartLine info ≤ StepInfo.EndLine info
                ∧ StepInfo.EndLine info < Z.of_nat (length lines)
                ∧ (∃ raw, lines !! Z.to_nat (StepInfo.StartLine info) = Some raw
                          ∧ isStepStart raw = true)
                ∧ (StepInfo.StartLine info = startLine
                   ∨ ∃ (j : nat) header,
                       StepInfo.StartLine info < Z.of_nat j ≤ startLine
                       ∧ lines !! j = Some header
                       ∧ TrimSpace header = "steps:")
                ∧ stepFlagsOk lines (StepInfo.StartLine info)
                    (StepInfo.EndLine info) info) as Habove.
  { destruct (stepStartAbove_spec lines (Z.to_nat (startLine + 1)) false)
      as (stepStart & -> & Hspec).
    cbn [mbind option_bind].
    destruct Hspec as [->|(k & raw & -> & Hk & Hraw & Hstart & Hor)].
    { exists None. by split. }
    apply Hfound.
    - lia.
    - exists raw. by rewrite Nat2Z.id.
    - destruct Hor as [?|(j & header & Hj & Hh & Ht)]; [done|].
      right. exists j, header. split_and!; try done; lia. }
  destruct (Z.ltb_spec startLine (Z.of_nat (length lines))) as [Hin|Hout];
    [|exact Habove].
  destruct (Z.ltb_spec startLine 0) as [?|_]; [lia|].
  destruct (lookup_lt_is_Some_2 lines (Z.to_nat startLine) ltac:(lia))
    as [currentLine HcurrentLine].
  rewrite HcurrentLine. cbn [mbind option_bind].
  destruct (isStepStart currentLine) eqn:Hstart; [|exact Habove].
  destruct (underSteps_returns lines (Z.to_nat startLine) ltac:(lia))
    as [found ->].
  cbn [mbind option_bind]. destruct found; [|exact Habove].
  destruct (Z.eqb_spec startLine (-1)) as [?|_]; [lia|].
  cbn [mbind option_bind]. apply Hfound; [lia|by exists currentLine|by left].
Qed.

(** X18: the step that code actions work on.  For a range whose first
    line is not negative, [analyzeStepAtRange] returns (no index is out of
    range).  A step it finds starts at or above the first line of the
    range, on a line that starts a step, and ends on a line of the
    document that is not above its start.  It starts on the first line of
    the range itself unless a line [steps:] lies below the start found
    and not below the range: within one list of steps a range that is not
    on the first line of a step gives no step.  The flags of the step are
    backed by its lines: the lines of the label, the name and the command
    are lines of the step that hold [label:], [name:] and [command:]. *)
Theorem analyzeStepAtRange_info (rang : Range) (lines : list string) :
  0 ≤ Line (Start rang) →
  ∃ found,
    analyzeStepAtRange rang lines = Some found
    ∧ ∀ info, found = Some info →
        0 ≤ StepInfo.StartLine info ≤ Line (Start rang)
        ∧ StepInfo.StartLine info ≤ StepInfo.EndLine info
        ∧ StepInfo.EndLine info < Z.of_nat (length lines)
        ∧ (∃ raw, lines !! Z.to_nat (StepInfo.StartLine info) = Some raw
                  ∧ isStepStart raw = true)
        ∧ (StepInfo.StartLine info = Line (Start rang)
           ∨ ∃ (j : nat) header,
               StepInfo.StartLine info < Z.of_nat j ≤ Line (Start rang)
               ∧ lines !! j = Some header ∧ TrimSpace header = "steps:")
        ∧ stepFlagsOk lines (StepInfo.StartLine info) (StepInfo.EndLine info)
            info.
Proof. apply analyzeStepAtRange_spec. Qed.

Lemma analyzeStepAtRange_info_witness :
  ∃ found,
    analyzeStepAtRange
      {| Start := {| Line := 1; Character := 4 |};
         End_ := {| Line := 1; Character := 5 |} |}
      ["steps:"; "  - name: build"; "    command: make"]
    = Some found.
Proof.
  destruct (analyzeStepAtRange_info
              {| Start := {| Line := 1; Character := 4 |};
                 End_ := {| Line := 1; Character := 5 |} |}
              ["steps:"; "  - name: build"; "    command: make"]
              ltac:(simpl; lia)) as (found & Hfound & _).
  by exists found.
Defined.

Lemma createConvertNameToLabelAction_returns (dm : DocumentManager)
    (uri : string) (stepInfo : StepInfo.t) :
  0 ≤ StepInfo.NameLine stepInfo →
  ∃ action edit,
    createConvertNameToLabelAction dm uri stepInfo = Some action
    ∧ Title action = "Convert 'name' to 'label'"
    ∧ Edit action = Some {[ uri := [edit] ]}.
Proof.
  intros Hpos. unfold createConvertNameToLabelAction.
  destruct (GetDocument dm uri) as [doc|]; [|by eexists _, _].
  destruct (Z.leb_spec (Z.of_nat (length (Document.Lines doc)))
              (StepInfo.NameLine stepInfo)); [by eexists _, _|].
  destruct (Z.ltb_spec (StepInfo.NameLine stepInfo) 0); [lia|].
  destruct (lookup_lt_is_Some_2 (Document.Lines doc)
              (Z.to_nat (StepInfo.NameLine stepInfo)) ltac:(lia))
    as [originalLine ->].
  cbn [mbind option_bind]. by eexists _, _.
Qed.

(** X19: the code actions offered.  For a range whose first line is not
    negative, [CodeAction] returns (no index is out of range).  It offers
    something only for a Buildkite file that is open and a range for which
    [analyzeStepAtRange] finds a step.  Every action offered but
    [Extract to separate step], which carries no edit, carries one edit,
    of the document asked about.  [Add command to step] is never offered
    together with an action on a command, and [Add label to step] never
    together with [Add key to step] or with the conversion of [name]. *)
Theorem CodeAction_offers (dm : DocumentManager) (uri : string) (rang : Range) :
  0 ≤ Line (Start rang) →
  ∃ actions,
    CodeAction_ dm uri rang = Some actions
    ∧ (actions ≠ [] →
       isBuildkiteFile uri = true
       ∧ ∃ doc info,
           GetDocument dm uri = Some doc
           ∧ analyzeStepAtRange rang (Document.Lines doc) = Some (Some info))
    ∧ (∀ action, action ∈ actions →
         match Edit action with
         | None => Title action = "Extract to separate step"
         | Some changes =>
             Title action ≠ "Extract to separate step"
             ∧ ∃ edit, changes = {[ uri := [edit] ]}
         end)
    ∧ (∀ a b, a ∈ actions → b ∈ actions →
         Title a = "Add command to step" →
         Title b ≠ "Fix empty command"
         ∧ Title b ≠ "Convert to commands array"
         ∧ Title b ≠ "Extract to separate step")
    ∧ (∀ a b, a ∈ actions → b ∈ actions →
         Title a = "Add label to step" →
         Title b ≠ "Add key to step"
         ∧ Title b ≠ "Convert 'name' to 'label'").
Proof.
  intros Hpos. unfold CodeAction_.
  assert (∃ actions : list CodeAction,
            Some [] = Some actions
            ∧ (actions ≠ [] →
               isBuildkiteFile uri = true
               ∧ ∃ doc info,
                   GetDocument dm uri = Some doc
                   ∧ analyzeStepAtRange rang (Document.Lines doc)
                     = Some (Some info))
            ∧ (∀ action, action ∈ actions →
                 match Edit action with
                 | None => Title action = "Extract to separate step"
                 | Some changes =>
                     Title action ≠ "Extract to separate step"
                     ∧ ∃ edit, changes = {[ uri := [edit] ]}
                 end)
            ∧ (∀ a b, a ∈ actions → b ∈ actions →
                 Title a = "Add command to step" →
                 Title b ≠ "Fix empty command"
                 ∧ Title b ≠ "Convert to commands array"
                 ∧ Title b ≠ "Extract to separate step")
            ∧ (∀ a b, a ∈ actions → b ∈ actions →
                 Title a = "Add label to step" →
                 Title b ≠ "Add key to step"
                 ∧ Title b ≠ "Convert 'name' to 'label'")) as Hnone.
  { exists []. split_and!; try done; intros;
      by match goal with H : _ ∈ [] |- _ => apply elem_of_nil in H end. }
  destruct (isBuildkiteFile uri) eqn:Hfile; cbn [negb]; [|exact Hnone].
  destruct (GetDocument dm uri) as [doc|] eqn:Hdoc; [|exact Hnone].
  unfold getQuickFixActions, getRefactorActions.
  destruct (analyzeStepAtRange_spec rang (Document.Lines doc) Hpos)
    as (found & Hfound & Hspec).
  rewrite Hfound.
  cbn [mbind option_bind]. destruct found as [info|]; [|exact Hnone].
  clear Hnone.
  destruct (Hspec info eq_refl) as (Hstart & _ & _ & _ & _ & Hflags).
  destruct Hflags as (_ & Hname & _ & _ & _ & Htype).
  assert (StepInfo.HasName info = true → 0 ≤ StepInfo.NameLine info) as HnameLine.
  { intros [Hrange _]%Hname. lia. }
  assert (∃ convert,
            (if StepInfo.HasName info && negb (StepInfo.HasLabel info)
             then action ← createConvertNameToLabelAction dm uri info;
                  Some [action]
             else Some []) = Some convert
            ∧ (convert = []
               ∨ StepInfo.HasName info = true ∧ StepInfo.HasLabel info = false
                 ∧ ∃ action edit,
                     convert = [action]
                     ∧ Title action = "Convert 'name' to 'label'"
                     ∧ Edit action = Some {[ uri := [edit] ]}))
    as (convert & -> & Hconvert).
  { destruct (StepInfo.HasName info) eqn:Hn; cbn [andb];
      [|by exists []; split; [|left]].
    destruct (StepInfo.HasLabel info) eqn:Hl; cbn [negb];
      [by exists []; split; [|left]|].
    destruct (createConvertNameToLabelAction_returns dm uri info
                (HnameLine eq_refl)) as (action & edit & -> & Ht & He).
    exists [action]. split; [done|]. right. split_and!; try done.
    by exists action, edit. }
  cbn [mbind option_bind]. eexists. split; [done|].
  split; [intros _; split; [done|by exists doc, info]|].
  unfold createAddLabelAction, createAddKeyAction, createFixEmptyCommandAction,
    createAddStepTypeAction, createConvertToCommandsArrayAction,
    createExtractStepAction, editAction.
  destruct Hconvert
    as [->|(Hn & Hl & action & edit & -> & Htitle & Hedit)].
  - destruct (StepInfo.HasLabel info), (StepInfo.HasName info),
      (StepInfo.HasKey info), (StepInfo.IsCommandStep info) eqn:Hcmd,
      (StepInfo.HasEmptyCommand info), (StepInfo.HasSingleCommand info),
      (StepInfo.HasStepType info);
      try (by specialize (Htype eq_refl)); cbn [andb orb negb app].
    all: split_and!;
      [ intros a Ha; apply list_elem_of_In in Ha; simpl in Ha;
        repeat (destruct Ha as [<-|Ha]; [cbn; first [reflexivity|split; [done|eexists; reflexivity]]|]);
        done
      | intros a b Ha Hb; apply list_elem_of_In in Ha, Hb; simpl in Ha, Hb;
        repeat (destruct Ha as [<-|Ha]; [try done|]); try done;
        repeat (destruct Hb as [<-|Hb]; [try done|]); done
      | intros a b Ha Hb; apply list_elem_of_In in Ha, Hb; simpl in Ha, Hb;
        repeat (destruct Ha as [<-|Ha]; [try done|]); try done;
        repeat (destruct Hb as [<-|Hb]; [try done|]); done ].
  - rewrite Hn, Hl.
    destruct (StepInfo.HasKey info), (StepInfo.IsCommandStep info) eqn:Hcmd,
      (StepInfo.HasEmptyCommand info), (StepInfo.HasSingleCommand info),
      (StepInfo.HasStepType info);
      try (by specialize (Htype eq_refl)); cbn [andb orb negb app].
    all: split_and!;
      [ intros a Ha; apply list_elem_of_In in Ha; simpl in Ha;
        destruct Ha as [<-|Ha];
        [rewrite Hedit, Htitle; split; [done|eexists; reflexivity]|];
        repeat (destruct Ha as [<-|Ha]; [cbn; first [reflexivity|split; [done|eexists; reflexivity]]|]);
        done
      | intros a b Ha Hb; apply list_elem_of_In in Ha, Hb; simpl in Ha, Hb;
        destruct Ha as [<-|Ha]; [by rewrite Htitle|];
        destruct Hb as [<-|Hb];
          [rewrite Htitle; repeat (destruct Ha as [<-|Ha]; [try done|]); done|];
        repeat (destruct Ha as [<-|Ha]; [try done|]); try done;
        repeat (destruct Hb as [<-|Hb]; [try done|]); done
      | intros a b Ha Hb; apply list_elem_of_In in Ha, Hb; simpl in Ha, Hb;
        destruct Ha as [<-|Ha]; [by rewrite Htitle|];
        destruct Hb as [<-|Hb];
          [rewrite Htitle; repeat (destruct Ha as [<-|Ha]; [try done|]); done|];
        repeat (destruct Ha as [<-|Ha]; [try done|]); try done;
        repeat (destruct Hb as [<-|Hb]; [try done|]); done ].
Qed.

Lemma CodeAction_offers_witness :
  ∃ actions,
    CodeAction_
      (OpenDocument NewDocumentManager "pipeline.yml" 1
         ("steps:" +:+ nl +:+ "  - name: build" +:+ nl +:+ "    command: make"))
      "pipeline.yml"
      {| Start := {| Line := 1; Character := 4 |};
         End_ := {| Line := 1; Character := 5 |} |}
    = Some actions.
Proof.
  destruct (CodeAction_offers
              (OpenDocument NewDocumentManager "pipeline.yml" 1
                 ("steps:" +:+ nl +:+ "  - name: build" +:+ nl
                  +:+ "    command: make"))
              "pipeline.yml"
              {| Start := {| Line := 1; Character := 4 |};
                 End_ := {| Line := 1; Character := 5 |} |}
              ltac:(simpl; lia)) as (actions & Hactions & _).
  by exists actions.
Defined.

End CodeActionFacts.

(** * The outline of a pipeline *)
Section SymbolFacts.
Import lsp protocol.

Lemma Index_first_char (c : ascii) (key rest : string) :
  free_of c key = true →
  Index (key +:+ String c rest) (String c "") = len key.
Proof.
  intros Hkey. unfold Index.
  assert (∀ i, index_from i (key +:+ String c rest) (String c "")
               = i + len key) as H; [|by rewrite H].
  induction key as [|d key IH]; intros i.
  - rewrite app_empty_l. cbn [index_from HasPrefix].
    rewrite Ascii.eqb_refl. unfold len. simpl. lia.
  - simpl in Hkey. apply andb_prop in Hkey as [Hd Hkey].
    rewrite app_cons. cbn [index_from HasPrefix].
    destruct (Ascii.eqb d c); [done|]. cbn [andb].
    rewrite (IH Hkey). unfold len. simpl. lia.
Qed.

Lemma LastIndex_last (c : ascii) (s : string) :
  LastIndex (s +:+ String c "") (String c "") = len s.
Proof.
  unfold LastIndex. generalize (-1).
  assert (∀ i found,
            last_index_from i (s +:+ String c "") (String c "") found
            = i + len s) as H; [|intros; by rewrite H].
  induction s as [|d s IH]; intros i found.
  - rewrite app_empty_l. cbn [last_index_from HasPrefix].
    rewrite Ascii.eqb_refl. unfold len. simpl. lia.
  - rewrite app_cons. cbn [last_index_from]. rewrite IH.
    unfold len. simpl. lia.
Qed.

Lemma TrimSpace_spaces (pad s : string) :
  all_bytes (λ c, Ascii.eqb c SP) pad = true →
  TrimSpace (pad +:+ s) = TrimSpace s.
Proof.
  induction pad as [|c pad IH]; [done|]. simpl.
  intros [->%Ascii.eqb_eq Hpad]%andb_prop.
  rewrite app_cons, TrimSpace_space. by apply IH.
Qed.

(** A text between two quotes of the same kind has no white space to
    trim. *)
Lemma TrimSpace_quoted (quote : ascii) (value : string) :
  quote = DQ ∨ quote = SQ →
  TrimSpace (String quote (value +:+ String quote ""))
  = String quote (value +:+ String quote "").
Proof.
  intros Hq. unfold TrimSpace.
  assert (∀ s, trimLeftSpace (String quote s) = String quote s) as Hleft.
  { intros s. destruct Hq as [->| ->]; by destruct s as [|d [|e s]]. }
  assert (∀ s, trimLeftSpace_rev (String quote s) = String quote s) as Hright.
  { intros s. destruct Hq as [->| ->]; destruct s as [|d [|e s]]; try done;
      cbn; repeat match goal with
                  | |- context [Ascii.eqb ?x ?y] => destruct (Ascii.eqb x y)
                  end; done. }
  rewrite Hleft.
  replace (String.rev (String quote (value +:+ String quote "")))
    with (String quote (String.rev value +:+ String quote "")).
  - rewrite Hright.
    change (String quote (String.rev value +:+ String quote ""))
      with (String quote "" +:+ String.rev value +:+ String quote "").
    rewrite <- app_assoc_s, rev_app_distr, rev_app_distr, rev_involutive_s.
    done.
  - change (String quote (value +:+ String quote ""))
      with (String quote "" +:+ value +:+ String quote "").
    rewrite <- app_assoc_s, rev_app_distr, rev_app_distr. done.
Qed.

(** X20: the value that the outline reads from a line.  A line without a
    colon, or with nothing but spaces behind its first colon, gives the
    empty text.  A value between two double or two single quotes behind
    the first colon of the line is returned without the quotes, whatever
    it contains; a value that is not quoted and does not open a list or a
    map is returned as it stands. *)
Theorem extractQuotedValue_round_trip :
  (∀ line, free_of ":" line = true → extractQuotedValue line = "")
  ∧ (∀ key pad,
       free_of ":" key = true →
       all_bytes (λ c, Ascii.eqb c SP) pad = true →
       extractQuotedValue (key +:+ ":" +:+ pad) = "")
  ∧ (∀ key pad quote value,
       free_of ":" key = true →
       all_bytes (λ c, Ascii.eqb c SP) pad = true →
       quote = DQ ∨ quote = SQ →
       extractQuotedValue
         (key +:+ ":" +:+ pad +:+ String quote (value +:+ String quote ""))
       = value)
  ∧ (∀ key pad first value,
       free_of ":" key = true →
       all_bytes (λ c, Ascii.eqb c SP) pad = true →
       TrimSpace (String first value) = String first value →
       first ≠ DQ → first ≠ SQ → first ≠ "["%char → first ≠ "{"%char →
       extractQuotedValue (key +:+ ":" +:+ pad +:+ String first value)
       = String first value).
Proof.
  assert (∀ key rest,
            free_of ":" key = true →
            Index (key +:+ ":" +:+ rest) ":" = len key
            ∧ slice_from (key +:+ ":" +:+ rest) (len key + 1) = rest)
    as Hcolon.
  { intros key rest Hkey.
    change (key +:+ ":" +:+ rest) with (key +:+ String ":" rest).
    split; [by apply Index_first_char|].
    unfold slice_from.
    replace (Z.to_nat (len key + 1)) with (String.length (key +:+ ":"))
      by (rewrite length_app_s; unfold len; simpl; lia).
    change (key +:+ String ":" rest) with (key +:+ ":" +:+ rest).
    by rewrite <- app_assoc_s, drop_bytes_app. }
  split_and!.
  - intros line Hfree. unfold extractQuotedValue.
    apply Index_char_free in Hfree. by rewrite Hfree.
  - intros key pad Hkey Hpad. unfold extractQuotedValue.
    destruct (Hcolon key pad Hkey) as [-> ->].
    pose proof (len_nonneg key).
    destruct (Z.eqb_spec (len key) (-1)); [lia|]. cbn [negb].
    rewrite <- (app_empty_r pad), TrimSpace_spaces by done.
    by rewrite TrimSpace_empty.
  - intros key pad quote value Hkey Hpad Hq. unfold extractQuotedValue.
    destruct (Hcolon key (pad +:+ String quote (value +:+ String quote ""))
                Hkey) as [-> ->].
    pose proof (len_nonneg key).
    destruct (Z.eqb_spec (len key) (-1)); [lia|]. cbn [negb].
    rewrite TrimSpace_spaces, TrimSpace_quoted by done.
    assert (len (String quote (value +:+ String quote "")) = len value + 2)
      as Hlen.
    { unfold len. simpl. rewrite length_app_s. simpl. lia. }
    rewrite Hlen. pose proof (len_nonneg value).
    destruct (Z.leb_spec 2 (len value + 2)); [|lia].
    replace (Ascii.eqb quote DQ || Ascii.eqb quote SQ) with true
      by (by destruct Hq as [->| ->]).
    cbn [andb].
    change (String quote (value +:+ String quote ""))
      with ((String quote value) +:+ String quote "").
    rewrite LastIndex_last.
    replace (len (String quote value)) with (len value + 1)
      by (unfold len; simpl; lia).
    destruct (Z.ltb_spec 0 (len value + 1)); [|lia].
    unfold slice. change (Z.to_nat 1) with 1%nat.
    rewrite app_cons. cbn [drop_bytes].
    replace (Z.to_nat (len value + 1 - 1)) with (String.length value)
      by (unfold len; lia).
    by rewrite take_bytes_app.
  - intros key pad first value Hkey Hpad Htrim Hdq Hsq Hlist Hmap.
    unfold extractQuotedValue.
    destruct (Hcolon key (pad +:+ String first value) Hkey) as [-> ->].
    pose proof (len_nonneg key).
    destruct (Z.eqb_spec (len key) (-1)); [lia|]. cbn [negb].
    rewrite TrimSpace_spaces, Htrim by done.
    destruct (Ascii.eqb_spec first DQ); [done|].
    destruct (Ascii.eqb_spec first SQ); [done|].
    rewrite andb_false_r. cbn [String.eqb negb andb HasPrefix].
    destruct (Ascii.eqb_spec first "["); [done|].
    destruct (Ascii.eqb_spec first "{"); [done|]. done.
Qed.

Lemma createStepSymbol_returns (lines : list string) (index startLine endLine : Z) :
  0 ≤ startLine < Z.of_nat (length lines) →
  ∃ child,
    createStepSymbol lines index startLine endLine = Some (Some child)
    ∧ Start (SymbolRange child) = {| Line := u32 startLine; Character := 0 |}
    ∧ End_ (SymbolRange child) = {| Line := u32 endLine; Character := 0 |}
    ∧ Children child = [].
Proof.
  intros Hrange. unfold createStepSymbol.
  destruct (Z.leb_spec (Z.of_nat (length lines)) startLine); [lia|].
  destruct (describeStep _ _ _ _) as [[stepType stepLabel] stepKind].
  destruct (Z.ltb_spec startLine 0); [lia|].
  destruct (lookup_lt_is_Some_2 lines (Z.to_nat startLine) ltac:(lia))
    as [first ->].
  cbn [mbind option_bind]. by eexists.
Qed.

Lemma findStepsLine_spec (lines : list string) (i : Z) :
  0 ≤ i →
  (findStepsLine lines i = -1 ∨ i ≤ findStepsLine lines i)
  ∧ (Forall (λ line, TrimSpace line ≠ "steps:") lines →
     findStepsLine lines i = -1)
  ∧ (findStepsLine lines i = -1 →
     Forall (λ line, TrimSpace line ≠ "steps:") lines)
  ∧ (i ≤ findStepsLine lines i →
     ∃ header,
       lines !! Z.to_nat (findStepsLine lines i - i) = Some header
       ∧ TrimSpace header = "steps:"
       ∧ findStepsLine lines i - i < Z.of_nat (length lines)
       ∧ ∀ (j : nat) line,
           Z.of_nat j < findStepsLine lines i - i →
           lines !! j = Some line → TrimSpace line ≠ "steps:").
Proof.
  revert i. induction lines as [|line lines IH]; intros i Hpos;
    cbn [findStepsLine].
  - split_and!; [by left|done|by intros; apply Forall_nil|lia].
  - destruct (String.eqb_spec (TrimSpace line) "steps:") as [Hheader|Hne].
    + split_and!; [right; lia| |lia|].
      * intros Hall. by apply Forall_cons in Hall as [? _].
      * intros _. exists line. rewrite Z.sub_diag.
        split_and!; [done|done|simpl; lia|intros; lia].
    + destruct (IH (i + 1) ltac:(lia)) as (Hor & Hnone & Hall & Hfound).
      split_and!.
      * destruct Hor; [by left|right; lia].
      * intros Hforall. apply Hnone. by apply Forall_cons in Hforall as [_ ?].
      * intros Heq. apply Forall_cons. split; [done|]. by apply Hall.
      * intros Hle. destruct Hor as [Heq|Hle']; [lia|].
        destruct (Hfound Hle') as (header & Hlook & Hh & Hlen & Hbefore).
        exists header.
        replace (Z.to_nat (findStepsLine lines (i + 1) - i))
          with (S (Z.to_nat (findStepsLine lines (i + 1) - (i + 1)))) by lia.
        split_and!; [done|done|simpl; lia|].
        intros [|j] line' Hj Hline'; [by injection Hline' as <-|].
        apply (Hbefore j); [lia|done].
Qed.

Lemma collectSteps_spec (lines : list string) (lo : Z) :
  0 ≤ lo →
  ∀ (rest : list string) (i : Z) (children : list DocumentSymbol)
    (currentStepStart stepIndex : Z) (all : list Z),
    drop (Z.to_nat i) lines = rest → lo < i →
    stepsSoFar lines lo i children currentStepStart stepIndex all →
    ∃ children' currentStepStart' stepIndex' all',
      collectSteps lines rest i children currentStepStart stepIndex
      = Some (children', currentStepStart', stepIndex')
      ∧ stepsSoFar lines lo (Z.of_nat (length lines)) children'
          currentStepStart' stepIndex' all'.
Proof.
  intros Hlo rest.
  induction rest as [|line rest IH];
    intros i children cur idx all Hdrop Hi Hstate; cbn [collectSteps].
  - exists children, cur, idx, all. split; [done|].
    assert (Z.of_nat (length lines) ≤ i) as Hlen.
    { apply (f_equal length) in Hdrop. rewrite length_drop in Hdrop.
      simpl in Hdrop. lia. }
    destruct Hstate as (Hidx & Hcur & Hall & Hsorted & Hchildren).
    split_and!; try done.
    eapply Forall_impl; [exact Hall|]. intros s [Hs (l & Hl & Hitem)].
    split; [|by exists l]. apply lookup_lt_Some in Hl. lia.
  - assert (lines !! Z.to_nat i = Some line) as Hline.
    { rewrite <- (Nat.add_0_r (Z.to_nat i)), <- lookup_drop, Hdrop. done. }
    assert (drop (Z.to_nat (i + 1)) lines = rest) as Hrest.
    { rewrite (drop_S lines line _ Hline) in Hdrop.
      replace (Z.to_nat (i + 1)) with (S (Z.to_nat i)) by lia.
      by injection Hdrop. }
    pose proof (lookup_lt_Some _ _ _ Hline) as Hlt.
    destruct (startsUnindented line).
    { exists children, cur, idx, all. split; [done|].
      destruct Hstate as (Hidx & Hcur & Hall & Hsorted & Hchildren).
      split_and!; try done.
      eapply Forall_impl; [exact Hall|]. intros s [Hs (l & Hl & Hitem)].
      split; [lia|by exists l]. }
    change (HasPrefix (TrimLeft line indentChars) "- "
            && (leadingSpaces line =? 2)) with (startsStepItem line).
    destruct (startsStepItem line) eqn:Hitem.
    2:{ apply (IH (i + 1) children cur idx all); [done|lia|].
        destruct Hstate as (Hidx & Hcur & Hall & Hsorted & Hchildren).
        split_and!; try done.
        eapply Forall_impl; [exact Hall|]. intros s [Hs (l & Hl & Hit)].
        split; [lia|by exists l]. }
    destruct Hstate as (Hidx & Hcur & Hall & Hsorted & Hchildren).
    destruct (Z.eqb_spec cur (-1)) as [->|Hne]; cbn [negb].
    + cbn [mbind option_bind]. destruct Hcur as [-> ->].
      apply (IH (i + 1) [] i idx [i]); [done|lia|].
      unfold stepsSoFar. destruct (Z.eqb_spec i (-1)); [lia|].
      split_and!; try done.
      * by exists [].
      * apply Forall_singleton. split; [lia|by exists line].
    + destruct Hcur as (closed & -> & Hclosed).
      apply Forall_app in Hall as [Hallclosed Hallcur].
      apply Forall_singleton in Hallcur as [Hcurrange Hcuritem].
      destruct (createStepSymbol_returns lines idx cur (i - 1) ltac:(lia))
        as (child & Hchild & _).
      rewrite Hchild. cbn [mbind option_bind].
      apply (IH (i + 1) (children ++ [child]) i (idx + 1)
               ((closed ++ [cur]) ++ [i])); [done|lia|].
      unfold stepsSoFar. destruct (Z.eqb_spec i (-1)); [lia|].
      split_and!.
      * rewrite length_app. simpl. lia.
      * exists (closed ++ [cur]). split; [done|].
        rewrite !length_app. simpl. lia.
      * apply Forall_app. split; [apply Forall_app; split|].
        -- eapply Forall_impl; [exact Hallclosed|].
           intros s [Hs (l & Hl & Hit)]. split; [lia|by exists l].
        -- apply Forall_singleton. split; [lia|done].
        -- apply Forall_singleton. split; [lia|by exists line].
      * intros k s s' Hk HSk.
        destruct (decide (S k < length (closed ++ [cur]))%nat) as [Hin|Hout].
        -- rewrite lookup_app_l in Hk by lia.
           rewrite lookup_app_l in HSk by lia. by apply (Hsorted k).
        -- rewrite lookup_app_r in HSk by lia.
           apply list_lookup_singleton_Some in HSk as [Hzero <-].
           assert (k = length closed) as ->
             by (rewrite length_app in *; simpl in *; lia).
           rewrite lookup_app_l in Hk by (rewrite length_app; simpl; lia).
           rewrite lookup_app_r in Hk by lia.
           rewrite Nat.sub_diag in Hk. injection Hk as <-. lia.
      * intros k child' Hk.
        destruct (decide (k < length children)%nat) as [Hin|Hout].
        -- rewrite lookup_app_l in Hk by done.
           destruct (Hchildren k child' Hk) as (s & next & Hs & Hnext & Hsym).
           exists s, next. split_and!; [| |done].
           ++ apply lookup_app_l_Some. done.
           ++ apply lookup_app_l_Some. done.
        -- rewrite lookup_app_r in Hk by lia.
           apply list_lookup_singleton_Some in Hk as [Hzero <-].
           assert (k = length children) as -> by lia.
           exists cur, i. split_and!.
           ++ rewrite lookup_app_l by (rewrite length_app; simpl; lia).
              rewrite <- Hclosed, lookup_app_r by lia.
              by rewrite Nat.sub_diag.
           ++ rewrite lookup_app_r by (rewrite length_app; simpl; lia).
              rewrite length_app, <- Hclosed. simpl.
              by replace (S (length closed) - (length closed + 1))%nat
                with 0%nat by lia.
           ++ by rewrite <- Hidx.
Qed.

Lemma sectionEnd_spec (rest : list string) (i endLine : Z) :
  sectionEnd rest i = Some endLine →
  i - 1 ≤ endLine < i - 1 + Z.of_nat (length rest).
Proof.
  revert i. induction rest as [|line rest IH]; intros i; [done|].
  cbn [sectionEnd]. destruct (startsUnindented line).
  - intros [= <-]. simpl. lia.
  - intros H%IH. simpl. lia.
Qed.

(** X21: the steps of the outline.  [extractStepsSymbol] returns (no
    index is out of range), and it gives no symbol exactly when no line
    of the document is [steps:].  Otherwise the symbol is that of the
    first such line; its name carries the number of its children and its
    range ends on a line of the document that is not above that line.
    The children are the steps in the order of the document: one for
    every line that starts a list item behind two spaces, between the
    line [steps:] and the next line that is not indented; each is the
    symbol that [createStepSymbol] makes of the lines from its start to
    the line before the start of the next step, the last one to the last
    line of the document. *)
Theorem extractStepsSymbol_outline (lines : list string) :
  ∃ found,
    extractStepsSymbol lines = Some found
    ∧ (found = None ↔ Forall (λ line, TrimSpace line ≠ "steps:") lines)
    ∧ ∀ symbol, found = Some symbol →
        ∃ (stepsLine : nat) header (endLine : Z) (starts : list Z),
          lines !! stepsLine = Some header
          ∧ TrimSpace header = "steps:"
          ∧ (∀ (j : nat) line, (j < stepsLine)%nat →
               lines !! j = Some line → TrimSpace line ≠ "steps:")
          ∧ SymbolName symbol
            = "steps ("
              +:+ fmt.verb_d (Z.of_nat (length (Children symbol))) +:+ ")"
          ∧ SymbolRange symbol
            = {| Start := {| Line := u32 (Z.of_nat stepsLine); Character := 0 |};
                 End_ := {| Line := u32 endLine; Character := 0 |} |}
          ∧ Z.of_nat stepsLine ≤ endLine < Z.of_nat (length lines)
          ∧ length starts = length (Children symbol)
          ∧ Forall (λ s, Z.of_nat stepsLine < s < Z.of_nat (length lines)
                         ∧ ∃ line, lines !! Z.to_nat s = Some line
                                   ∧ startsStepItem line = true) starts
          ∧ (∀ (k : nat) s s',
               starts !! k = Some s → starts !! S k = Some s' → s < s')
          ∧ (∀ (k : nat) child, Children symbol !! k = Some child →
               ∃ s, starts !! k = Some s
                    ∧ createStepSymbol lines (Z.of_nat k) s
                        (default (Z.of_nat (length lines)) (starts !! S k) - 1)
                      = Some (Some child)).
Proof.
  unfold extractStepsSymbol.
  destruct (findStepsLine_spec lines 0 ltac:(lia))
    as (Hor & Hnone & Hall & Hfound).
  destruct (Z.eqb_spec (findStepsLine lines 0) (-1)) as [Heq|Hne].
  { exists None. split_and!; [done| |done]. split; [by intros _; apply Hall|done]. }
  destruct Hor as [?|Hpos]; [done|].
  destruct (Hfound Hpos) as (header & Hheader & Htrim & Hlen & Hbefore).
  rewrite Z.sub_0_r in Hheader, Hlen, Hbefore.
  set (stepsLine := findStepsLine lines 0) in *.
  destruct (collectSteps_spec lines stepsLine Hpos
              (drop (Z.to_nat (stepsLine + 1)) lines) (stepsLine + 1)
              [] (-1) 0 [] eq_refl ltac:(lia))
    as (children & cur & idx & all & -> & Hstate).
  { by split_and!. }
  cbn [mbind option_bind].
  destruct Hstate as (Hidx & Hcur & Hforall & Hsorted & Hchildren).
  assert (∃ endLine,
            default (Z.of_nat (length lines) - 1)
              (sectionEnd (drop (Z.to_nat (stepsLine + 1)) lines)
                 (stepsLine + 1)) = endLine
            ∧ stepsLine ≤ endLine < Z.of_nat (length lines))
    as (endLine & -> & HendLine).
  { eexists. split; [done|].
    destruct (sectionEnd _ _) as [e|] eqn:He; simpl; [|lia].
    apply sectionEnd_spec in He. rewrite length_drop in He. lia. }
  destruct (Z.eqb_spec cur (-1)) as [->|Hopen]; cbn [negb mbind option_bind].
  - destruct Hcur as [-> ->]. eexists. split; [done|].
    split; [split; [done|]|].
    { intros Hforall'. exfalso.
      apply (Forall_lookup_1 _ _ _ _ Hforall') in Hheader. done. }
    intros symbol [= <-]. exists (Z.to_nat stepsLine), header, endLine, [].
    rewrite Z2Nat.id by done.
    split_and!; try done; try lia. intros j line Hj. apply Hbefore. lia.
  - destruct Hcur as (closed & -> & Hclosed).
    apply Forall_app in Hforall as [Hallclosed Hallcur].
    apply Forall_singleton in Hallcur as [Hcurrange Hcuritem].
    destruct (createStepSymbol_returns lines idx cur
                (Z.of_nat (length lines) - 1) ltac:(lia))
      as (child & Hchild & _).
    rewrite Hchild. cbn [mbind option_bind]. eexists. split; [done|].
    split; [split; [done|]|].
    { intros Hforall'. exfalso.
      apply (Forall_lookup_1 _ _ _ _ Hforall') in Hheader. done. }
    intros symbol [= <-].
    exists (Z.to_nat stepsLine), header, endLine, (closed ++ [cur]).
    rewrite Z2Nat.id by done. cbn [SymbolName SymbolRange Children].
    split_and!; try done; try lia.
    + intros j line Hj. apply Hbefore. lia.
    + rewrite !length_app. simpl. lia.
    + apply Forall_app. split; [done|]. by apply Forall_singleton.
    + intros k child' Hk.
      destruct (decide (k < length children)%nat) as [Hin|Hout].
      * rewrite lookup_app_l in Hk by done.
        destruct (Hchildren k child' Hk) as (s & next & Hs & Hnext & Hsym).
        exists s. rewrite Hnext. by split.
      * rewrite lookup_app_r in Hk by lia.
        apply list_lookup_singleton_Some in Hk as [Hzero <-].
        assert (k = length children) as -> by lia.
        exists cur. split.
        -- rewrite <- Hclosed, lookup_app_r by lia. by rewrite Nat.sub_diag.
        -- rewrite lookup_ge_None_2 by (rewrite length_app; simpl; lia).
           simpl. by rewrite <- Hidx.
Qed.

End SymbolFacts.

(** * The diagnostics of a pipeline *)
Section DiagnosticFacts.
Import lsp protocol.




Lemma ascending_snoc (l : list Z) (x : Z) :
  ascending l → Forall (λ s, s < x) l → ascending (l ++ [x]).
Proof.
  intros Hasc Hall k s s' Hk HSk.
  destruct (decide (S k < length l)%nat) as [Hin|Hout].
  - rewrite lookup_app_l in Hk by lia. rewrite lookup_app_l in HSk by lia.
    by apply (Hasc k).
  - pose proof (lookup_lt_Some _ _ _ HSk) as Hlen.
    rewrite length_app in Hlen. simpl in Hlen.
    rewrite lookup_app_l in Hk by lia.
    rewrite lookup_app_r in HSk by lia.
    apply list_lookup_singleton_Some in HSk as [_ <-].
    by apply (Forall_lookup_1 _ _ _ _ Hall Hk).
Qed.

Lemma findStepLines_from_spec (lines : list string) :
  ∀ (rest : list string) (i : nat) (inSteps : bool) (stepLines : list Z),
    drop i lines = rest →
    (inSteps = true →
     ∃ (j : nat) header,
       (j < i)%nat ∧ lines !! j = Some header ∧ TrimSpace header = "steps:") →
    ascending stepLines →
    Forall (λ s, 0 ≤ s < Z.of_nat i
                 ∧ ∃ line (j : nat) header,
                     lines !! Z.to_nat s = Some line
                     ∧ startsStepItem line = true
                     ∧ Z.of_nat j < s
                     ∧ lines !! j = Some header
                     ∧ TrimSpace header = "steps:") stepLines →
    ascending (findStepLines_from rest (Z.of_nat i) inSteps stepLines)
    ∧ Forall (λ s, 0 ≤ s < Z.of_nat (length lines)
                   ∧ ∃ line (j : nat) header,
                       lines !! Z.to_nat s = Some line
                       ∧ startsStepItem line = true
                       ∧ Z.of_nat j < s
                       ∧ lines !! j = Some header
                       ∧ TrimSpace header = "steps:")
        (findStepLines_from rest (Z.of_nat i) inSteps stepLines).
Proof.
  intros rest. induction rest as [|line rest IH];
    intros i inSteps stepLines Hdrop Hsteps Hasc Hall; cbn [findStepLines_from].
  - split; [done|]. eapply Forall_impl; [exact Hall|].
    intros s [Hs Hline]. split; [|done].
    destruct Hline as (l & _ & _ & Hl%lookup_lt_Some & _). lia.
  - assert (lines !! i = Some line) as Hline.
    { rewrite <- (Nat.add_0_r i), <- lookup_drop, Hdrop. done. }
    assert (drop (S i) lines = rest) as Hrest.
    { rewrite (drop_S lines line i Hline) in Hdrop. by injection Hdrop. }
    pose proof (lookup_lt_Some _ _ _ Hline) as Hlt.
    replace (Z.of_nat i + 1) with (Z.of_nat (S i)) by lia.
    assert (Forall (λ s, 0 ≤ s < Z.of_nat (S i)
                         ∧ ∃ line (j : nat) header,
                             lines !! Z.to_nat s = Some line
                             ∧ startsStepItem line = true
                             ∧ Z.of_nat j < s
                             ∧ lines !! j = Some header
                             ∧ TrimSpace header = "steps:") stepLines)
      as Hall'.
    { eapply Forall_impl; [exact Hall|]. intros s [Hs Hl]. split; [lia|done]. }
    destruct (String.eqb_spec (TrimSpace line) "steps:") as [Hheader|_].
    { apply IH; try done. intros _. exists i, line. split_and!; [lia|done|done]. }
    assert (inSteps = true →
            ∃ (j : nat) header,
              (j < S i)%nat ∧ lines !! j = Some header
              ∧ TrimSpace header = "steps:") as Hsteps'.
    { intros (j & header & Hj & Hh & Ht)%Hsteps. exists j, header.
      split_and!; [lia|done|done]. }
    destruct inSteps; cbn [andb]; [|by apply IH].
    destruct (startsUnindented line).
    { split; [done|]. eapply Forall_impl; [exact Hall|].
      intros s [Hs Hl]. split; [|done].
      destruct Hl as (l & _ & _ & Hl%lookup_lt_Some & _). lia. }
    change (HasPrefix (TrimLeft line indentChars) "- "
            && (leadingSpaces line =? 2)) with (startsStepItem line).
    destruct (startsStepItem line) eqn:Hitem; [|by apply IH].
    apply IH; try done.
    + apply ascending_snoc; [done|].
      eapply Forall_impl; [exact Hall|]. by intros s [[_ Hs] _].
    + apply Forall_app. split; [done|]. apply Forall_singleton.
      split; [lia|].
      destruct (Hsteps eq_refl) as (j & header & Hj & Hh & Ht).
      exists line, j, header. rewrite Nat2Z.id. split_and!; try done. lia.
Qed.

(** In a document whose lines after the first [steps:] are all indented
    or empty, with no second [steps:], the loop takes every line that
    starts a step. *)
Lemma findStepLines_from_body (body : list string) :
  Forall (λ line, startsUnindented line = false ∧ TrimSpace line ≠ "steps:")
    body →
  ∀ (i : Z) (stepLines : list Z) s,
    s ∈ findStepLines_from body i true stepLines
    ↔ s ∈ stepLines
      ∨ ∃ (k : nat) line,
          body !! k = Some line ∧ startsStepItem line = true
          ∧ s = i + Z.of_nat k.
Proof.
  induction body as [|line body IH]; intros Hbody i stepLines s;
    cbn [findStepLines_from].
  - split; [by left|]. by intros [?|(k & line & ? & _)].
  - apply Forall_cons in Hbody as [[Hind Hne] Hbody].
    destruct (String.eqb_spec (TrimSpace line) "steps:"); [done|].
    rewrite Hind. cbn [andb].
    change (HasPrefix (TrimLeft line indentChars) "- "
            && (leadingSpaces line =? 2)) with (startsStepItem line).
    destruct (startsStepItem line) eqn:Hitem; rewrite (IH Hbody).
    + rewrite elem_of_app, list_elem_of_singleton. split.
      * intros [[?| ->]|(k & l & Hl & Hi & ->)]; [by left| |].
        -- right. exists 0%nat, line. split_and!; [done|done|lia].
        -- right. exists (S k), l. split_and!; [done|done|lia].
      * intros [?|([|k] & l & Hl & Hi & ->)]; [by left; left| |].
        -- left. right. lia.
        -- right. exists k, l. split_and!; [done|done|lia].
    + split.
      * intros [?|(k & l & Hl & Hi & ->)]; [by left|].
        right. exists (S k), l. split_and!; [done|done|lia].
      * intros [?|([|k] & l & Hl & Hi & ->)]; [by left| |].
        -- injection Hl as <-. congruence.
        -- right. exists k, l. split_and!; [done|done|lia].
Qed.

Lemma findStepLines_from_before (pre rest : list string) (i : Z)
    (stepLines : list Z) :
  Forall (λ line, TrimSpace line ≠ "steps:") pre →
  findStepLines_from (pre ++ rest) i false stepLines
  = findStepLines_from rest (i + Z.of_nat (length pre)) false stepLines.
Proof.
  revert i. induction pre as [|line pre IH]; intros i Hpre.
  - simpl. by rewrite Z.add_0_r.
  - apply Forall_cons in Hpre as [Hne Hpre].
    cbn [app findStepLines_from].
    destruct (String.eqb_spec (TrimSpace line) "steps:"); [done|].
    cbn [andb]. rewrite IH by done. f_equal. simpl. lia.
Qed.

(** X23: the lines on which the diagnostics place the steps.  The lines
    that [findStepLines] returns grow strictly; each is a line of the
    document that starts a list item behind exactly two spaces and lies
    below a line [steps:].  In a document made of lines without
    [steps:], a line [steps:] and lines that are indented or empty and
    not [steps:], they are all such lines below the header. *)
Theorem findStepLines_steps (lines : list string) :
  ascending (findStepLines lines)
  ∧ Forall (λ s, 0 ≤ s < Z.of_nat (length lines)
                 ∧ ∃ line (j : nat) header,
                     lines !! Z.to_nat s = Some line
                     ∧ startsStepItem line = true
                     ∧ Z.of_nat j < s
                     ∧ lines !! j = Some header
                     ∧ TrimSpace header = "steps:") (findStepLines lines)
  ∧ (∀ pre header body,
       lines = pre ++ header :: body →
       Forall (λ line, TrimSpace line ≠ "steps:") pre →
       TrimSpace header = "steps:" →
       Forall (λ line, startsUnindented line = false
                       ∧ TrimSpace line ≠ "steps:") body →
       ∀ s, s ∈ findStepLines lines
            ↔ ∃ (k : nat) line,
                body !! k = Some line ∧ startsStepItem line = true
                ∧ s = Z.of_nat (length pre) + 1 + Z.of_nat k).
Proof.
  split_and!.
  - by apply (findStepLines_from_spec lines lines 0%nat false []).
  - by apply (findStepLines_from_spec lines lines 0%nat false []).
  - intros pre header body -> Hpre Hheader Hbody s.
    unfold findStepLines. rewrite findStepLines_from_before by done.
    cbn [findStepLines_from]. rewrite Hheader.
    change (String.eqb "steps:" "steps:") with true. cbv iota.
    rewrite findStepLines_from_body by done.
    split.
    + intros [?%elem_of_nil|(k & line & Hk & Hi & ->)]; [done|].
      exists k, line. split_and!; [done|done|lia].
    + intros (k & line & Hk & Hi & ->). right.
      exists k, line. split_and!; [done|done|lia].
Qed.

Lemma validateSingleStep_position (stepData : gmap string json.value)
    (lineNum stepNumber : Z) (d : Diagnostic) :
  d ∈ validateSingleStep stepData lineNum stepNumber →
  Source d = "buildkite-ls"
  ∧ Code d ≠ ""
  ∧ (Start (Range_ d) = {| Line := lineNum; Character := 2 |}
     ∨ Start (Range_ d) = {| Line := u32 (lineNum + 1); Character := 4 |}).
Proof.
  unfold validateSingleStep. intros H.
  repeat match type of H with
         | _ ∈ (_ ++ _) => apply elem_of_app in H as [H|H]
         | _ ∈ (if ?b then _ else _) => destruct b
         | _ ∈ (match ?x with _ => _ end) => destruct x
         | _ ∈ [] => by apply elem_of_nil in H
         | _ ∈ [_] => apply list_elem_of_singleton in H as ->
         end.
  all: split_and!; [done|done|by (left + right)].
Qed.

(** X24: the diagnostics of the steps.  A diagnostic is among those of
    [validateSteps] exactly when [steps] is a list and the diagnostic is
    one that [validateSingleStep] gives for an item of the list that is a
    map, with the number of the item counted from one and the line that
    [findStepLines] gives for its index, or the index itself when the
    document shows fewer steps.  An item that is not a map, as a bare
    [wait], gets no diagnostic but is counted.  Every such diagnostic
    bears the source [buildkite-ls] and a code, and starts on the line of
    its step or on the next one. *)
Theorem validateSteps_diagnostics (pipelineData : gmap string json.value)
    (lines : list string) (d : Diagnostic) :
  (d ∈ validateSteps pipelineData lines
   ↔ ∃ steps (k : nat) stepData,
       pipelineData !! "steps" = Some (json.Array steps)
       ∧ steps !! k = Some (json.Object stepData)
       ∧ d ∈ validateSingleStep stepData
               (stepLineNum (findStepLines lines) k) (Z.of_nat k + 1))
  ∧ (d ∈ validateSteps pipelineData lines →
     Source d = "buildkite-ls"
     ∧ Code d ≠ ""
     ∧ ∃ (k : nat),
         Start (Range_ d)
         = {| Line := stepLineNum (findStepLines lines) k; Character := 2 |}
         ∨ Start (Range_ d)
           = {| Line := u32 (stepLineNum (findStepLines lines) k + 1);
                Character := 4 |})
  ∧ (∀ (k : nat),
       stepLineNum (findStepLines lines) k
       = match findStepLines lines !! k with
         | Some line => u32 line
         | None => u32 (Z.of_nat k)
         end).
Proof.
  assert (d ∈ validateSteps pipelineData lines
          ↔ ∃ steps (k : nat) stepData,
              pipelineData !! "steps" = Some (json.Array steps)
              ∧ steps !! k = Some (json.Object stepData)
              ∧ d ∈ validateSingleStep stepData
                      (stepLineNum (findStepLines lines) k) (Z.of_nat k + 1))
    as Hiff.
  { unfold validateSteps.
    destruct (pipelineData !! "steps") as [[| | | |steps|]|].
    1-4, 6-7: split; [by intros ?%elem_of_nil|by intros (? & ? & ? & [=] & _)].
    rewrite list_elem_of_join. split.
    - intros (ds & Hd & Hds).
      apply list_elem_of_lookup in Hds as [k Hk].
      rewrite list_lookup_imap in Hk.
      destruct (steps !! k) as [stepItem|] eqn:Hitem; [|done].
      simpl in Hk. injection Hk as <-.
      destruct stepItem as [| | | | |stepData]; try by apply elem_of_nil in Hd.
      by exists steps, k, stepData.
    - intros (steps' & k & stepData & [= <-] & Hk & Hd).
      eexists. split; [exact Hd|].
      apply list_elem_of_lookup. exists k.
      rewrite list_lookup_imap, Hk. done. }
  split_and!; [done| |done].
  intros (steps & k & stepData & _ & _ & Hd)%Hiff.
  apply validateSingleStep_position in Hd as (Hsource & Hcode & Hstart).
  split_and!; [done|done|]. by exists k.
Qed.

End DiagnosticFacts.

(** * Plugins that cannot be fetched *)
Section OfflinePlugins.
Import lsp protocol.

Variable httpGet : string → plugins.response.
Variable marshalConfiguration : gmap string yaml.value → string + string.
Variable marshalConfig : json.value → string + string.
Variable validate : string → string → string + schema.Result.t.

Lemma ValidatePluginConfig_offline (code : Z) (r : plugins.Registry.t)
    (pluginName : string) (config : json.value) (now1 now2 now3 : Z) :
  (∀ url, httpGet url = plugins.BadStatus code) →
  plugins.Registry.plugins r !! pluginName = None →
  ∃ err,
    plugins.ValidatePluginConfig httpGet marshalConfiguration marshalConfig
      validate r pluginName config now1 now2 now3
    = Some (r, Some ("failed to get schema for plugin " +:+ pluginName
                     +:+ ": " +:+ err)).
Proof.
  intros Hdown Hcache.
  unfold plugins.ValidatePluginConfig, plugins.GetPluginSchema.
  rewrite Hcache.
  assert (∃ err,
            plugins.fetchPluginSchema httpGet marshalConfiguration pluginName
            = Some (inl err)) as [err ->].
  { unfold plugins.fetchPluginSchema.
    destruct (String.eqb_spec pluginName "") as [->|Hne]; [by eexists|].
    destruct (parse_FullRef pluginName Hne) as (p & -> & _).
    cbn [mbind option_bind].
    rewrite (fetchFrom_BadStatus httpGet marshalConfiguration code) by done.
    by eexists. }
  cbn [mbind option_bind]. by exists err.
Qed.

(** X25: plugins whose schema cannot be fetched.  When every request
    is answered with a status other than 200 and none of the plugins of a
    step is in the cache, the loop of [validatePluginConfigurations] over
    the plugins of the step returns (no nil schema is dereferenced),
    leaves the registry as it was and gives one error for every plugin, in
    their order: its code is [plugin-config-error], its message names the
    plugin and says that the schema could not be got, and its range runs
    from the line of the step to the second line after it. *)
Theorem validatePluginRefs_offline (code : Z) (now1 now2 now3 : Z)
    (r : plugins.Registry.t) (pluginRefs : list plugins.PluginReference.t)
    (lineNum : Z) :
  (∀ url, httpGet url = plugins.BadStatus code) →
  Forall (λ ref, plugins.Registry.plugins r
                   !! plugins.PluginReference.Name ref = None) pluginRefs →
  ∃ diagnostics,
    validatePluginRefs
      (λ registry pluginName config,
         plugins.ValidatePluginConfig httpGet marshalConfiguration
           marshalConfig validate registry pluginName config now1 now2 now3)
      r pluginRefs lineNum
    = Some (r, diagnostics)
    ∧ length diagnostics = length pluginRefs
    ∧ ∀ (k : nat) ref, pluginRefs !! k = Some ref →
        ∃ d,
          diagnostics !! k = Some d
          ∧ Code d = "plugin-config-error"
          ∧ Severity d = DiagnosticSeverityError
          ∧ HasPrefix (Message d)
              ("Plugin '" +:+ plugins.PluginReference.Name ref
               +:+ "' configuration error: failed to get schema for plugin "
               +:+ plugins.PluginReference.Name ref +:+ ": ") = true
          ∧ Range_ d
            = {| Start := {| Line := lineNum; Character := 0 |};
                 End_ := {| Line := u32 (lineNum + 2); Character := 0 |} |}.
Proof.
  intros Hdown. induction pluginRefs as [|ref refs IH]; intros Hcache.
  - exists []. split_and!; [done|done|]. by intros k ref.
  - apply Forall_cons in Hcache as [Href Hrefs].
    destruct (IH Hrefs) as (diagnostics & Hloop & Hlen & Hds).
    cbn [validatePluginRefs].
    destruct (ValidatePluginConfig_offline code r
                (plugins.PluginReference.Name ref)
                (plugins.PluginReference.Config ref) now1 now2 now3
                Hdown Href) as [err ->].
    cbn [mbind option_bind]. rewrite Hloop. cbn [mbind option_bind].
    eexists. split_and!; [done|by simpl; rewrite Hlen|].
    intros [|k] ref' Hk.
    + injection Hk as <-. eexists. split_and!; try done.
      cbn [Message diagnostic]. apply HasPrefix_spec.
      exists err. by rewrite !app_assoc_s.
    + by apply Hds.
Qed.

End OfflinePlugins.

Lemma validatePluginRefs_offline_witness :
  ∃ diagnostics,
    lsp.validatePluginRefs
      (λ registry pluginName config,
         plugins.ValidatePluginConfig (λ _, plugins.BadStatus 404)
           (λ _, inr "{}") (λ _, inr "{}") (λ _ _, inl "unused")
           registry pluginName config 0 0 0)
      plugins.NewRegistry
      [ {| plugins.PluginReference.Name := "docker#v5.0.0";
           plugins.PluginReference.Config := json.Nil |} ] 3
    = Some (plugins.NewRegistry, diagnostics)
    ∧ length diagnostics = 1%nat.
Proof.
  destruct (validatePluginRefs_offline (λ _, plugins.BadStatus 404)
              (λ _, inr "{}") (λ _, inr "{}") (λ _ _, inl "unused")
              404 0 0 0 plugins.NewRegistry
              [ {| plugins.PluginReference.Name := "docker#v5.0.0";
                   plugins.PluginReference.Config := json.Nil |} ] 3)
    as (diagnostics & Hloop & Hlen & _); [done|by repeat constructor|].
  by exists diagnostics.
Defined.

(** * The parsed pipeline *)
Section ParserFacts.
Import parser.

(** One round of [findNodeRecursive] on a path that is not used up. *)
Lemma findNodeRecursive_step (node : yaml.Node) (path : list string)
    (depth : nat) (target : string) :
  path !! depth = Some target →
  findNodeRecursive node path (Z.of_nat depth)
  = if bool_decide (yaml.Kind_ node = yaml.MappingNode)
    then match mappingValue (yaml.Content node) target with
         | Some value => findNodeRecursive value path (Z.of_nat depth + 1)
         | None => Some None
         end
    else Some None.
Proof.
  intros Htarget. pose proof (lookup_lt_Some _ _ _ Htarget) as Hlt.
  destruct node as [kind v content]. cbn [findNodeRecursive yaml.Kind_ yaml.Content].
  destruct (Z.leb_spec (Z.of_nat (length path)) (Z.of_nat depth)); [lia|].
  destruct (bool_decide (kind = yaml.MappingNode)); cbn [negb]; [|done].
  destruct (Z.ltb_spec (Z.of_nat depth) 0); [lia|].
  rewrite Nat2Z.id, Htarget. cbn [mbind option_bind].
  remember (length content) as n eqn:Hn. revert content Hn.
  induction n as [n IH] using lt_wf_ind. intros content Hn.
  destruct content as [|key [|value rest]]; [done|done|].
  cbn [mappingValue]. destruct (String.eqb (yaml.Value key) target); [done|].
  apply (IH (length rest)); [simpl in Hn; lia|done].
Qed.

Lemma findNodeRecursive_end (node : yaml.Node) (path : list string) (depth : Z) :
  Z.of_nat (length path) ≤ depth →
  findNodeRecursive node path depth = Some (Some node).
Proof.
  intros Hle. destruct node as [kind v content]. cbn [findNodeRecursive].
  by destruct (Z.leb_spec (Z.of_nat (length path)) depth); [|lia].
Qed.

(** The search from the depth [d] reads the path from its element [d]
    on. *)
Lemma findNodeRecursive_shift (pre path : list string) :
  ∀ (n : nat) (node : yaml.Node) (d : nat),
    (length path - d = n)%nat →
    findNodeRecursive node (pre ++ path) (Z.of_nat (length pre + d))
    = findNodeRecursive node path (Z.of_nat d).
Proof.
  induction n as [|n IH]; intros node d Hn.
  - rewrite !findNodeRecursive_end; [done|lia|rewrite length_app; lia].
  - destruct (lookup_lt_is_Some_2 path d ltac:(lia)) as [target Htarget].
    rewrite (findNodeRecursive_step node path d target Htarget).
    rewrite (findNodeRecursive_step node (pre ++ path) (length pre + d) target)
      by (rewrite lookup_app_r by lia;
          by replace (length pre + d - length pre)%nat with d by lia).
    destruct (bool_decide _); [|done].
    destruct (mappingValue _ _) as [value|]; [|done].
    replace (Z.of_nat (length pre + d) + 1)
      with (Z.of_nat (length pre + S d)) by lia.
    replace (Z.of_nat d + 1) with (Z.of_nat (S d)) by lia.
    apply IH. lia.
Qed.

Lemma findNodeRecursive_cons (node : yaml.Node) (key : string)
    (rest : list string) :
  findNodeRecursive node (key :: rest) 0
  = if bool_decide (yaml.Kind_ node = yaml.MappingNode)
    then match mappingValue (yaml.Content node) key with
         | Some value => findNodeRecursive value rest 0
         | None => Some None
         end
    else Some None.
Proof.
  pose proof (findNodeRecursive_step node (key :: rest) 0 key eq_refl) as Hstep.
  change (Z.of_nat 0) with 0 in Hstep. rewrite Hstep.
  destruct (bool_decide _); [|done].
  destruct (mappingValue _ _) as [value|]; [|done].
  apply (findNodeRecursive_shift [key] rest (length rest) value 0). lia.
Qed.

(** X26: the node at a path.  From the depth 0 [findNodeRecursive]
    returns (no index is out of range), and so does [FindNodeByPath].  The
    empty path leads to the node
    itself; a path that is not empty leads nowhere from a node that is not
    a mapping, an element of a sequence included, and from a mapping it
    goes on from the value of the first key that bears the name of the
    path's head, or nowhere when there is none.  So the search along a
    path in two parts is the search along the second part from the node
    that the first part leads to. *)
Theorem findNodeRecursive_paths :
  (∀ node path, ∃ found, findNodeRecursive node path 0 = Some found)
  ∧ (∀ p path, ∃ found, FindNodeByPath p path = Some found)
  ∧ (∀ node, findNodeRecursive node [] 0 = Some (Some node))
  ∧ (∀ node key rest,
       yaml.Kind_ node ≠ yaml.MappingNode →
       findNodeRecursive node (key :: rest) 0 = Some None)
  ∧ (∀ node key rest,
       yaml.Kind_ node = yaml.MappingNode →
       findNodeRecursive node (key :: rest) 0
       = match mappingValue (yaml.Content node) key with
         | Some value => findNodeRecursive value rest 0
         | None => Some None
         end)
  ∧ (∀ node path1 path2,
       findNodeRecursive node (path1 ++ path2) 0
       = match findNodeRecursive node path1 0 with
         | Some (Some found) => findNodeRecursive found path2 0
         | other => other
         end).
Proof.
  assert (∀ node path, ∃ found, findNodeRecursive node path 0 = Some found)
    as Hreturns.
  { intros node path. revert node.
    induction path as [|key rest IH]; intros node.
    + rewrite findNodeRecursive_end by (simpl; lia). eauto.
    + rewrite findNodeRecursive_cons. destruct (bool_decide _); [|eauto].
      destruct (mappingValue _ _) as [value|]; [apply IH|eauto]. }
  split_and!.
  - exact Hreturns.
  - intros p path. unfold FindNodeByPath.
    destruct (Pipeline.YAMLNode p) as [root|]; [|eauto].
    destruct (yaml.Content root) as [|first rest]; [eauto|].
    cbn [length]. destruct (Z.eqb_spec (Z.of_nat (S (length rest))) 0); [lia|].
    cbn [lookup list_lookup mbind option_bind]. apply Hreturns.
  - intros node. by apply findNodeRecursive_end.
  - intros node key rest Hkind. rewrite findNodeRecursive_cons.
    by rewrite bool_decide_eq_false_2.
  - intros node key rest Hkind. rewrite findNodeRecursive_cons.
    by rewrite bool_decide_eq_true_2.
  - intros node path1 path2. revert node.
    induction path1 as [|key rest IH]; intros node.
    + cbn [app]. by rewrite (findNodeRecursive_end node [] 0) by (simpl; lia).
    + cbn [app]. rewrite !findNodeRecursive_cons.
      destruct (bool_decide _); [|done].
      destruct (mappingValue _ _) as [value|]; [apply IH|done].
Qed.

Lemma firstLine_spec (test : string → bool) (lines : list string) (i : Z) :
  match firstLine test lines i with
  | Some n =>
      ∃ (k : nat) line,
        n = i + Z.of_nat k + 1
        ∧ lines !! k = Some line ∧ test line = true
        ∧ ∀ (j : nat) earlier,
            (j < k)%nat → lines !! j = Some earlier → test earlier = false
  | None => Forall (λ line, test line = false) lines
  end.
Proof.
  revert i. induction lines as [|line lines IH]; intros i;
    [by apply Forall_nil|].
  cbn [firstLine]. destruct (test line) eqn:Htest.
  - exists 0%nat, line. split_and!; [lia|done|done|]. intros; lia.
  - specialize (IH (i + 1)).
    destruct (firstLine test lines (i + 1)) as [n|].
    + destruct IH as (k & l & -> & Hl & Ht & Hbefore).
      exists (S k), l. split_and!; [lia|done|done|].
      intros [|j] earlier Hj Hearlier; [by injection Hearlier as <-|].
      apply (Hbefore j); [lia|done].
    + by apply Forall_cons.
Qed.

Lemma GetLineForError_spec (p : Pipeline.t) (errorMsg : string) :
  1 ≤ GetLineForError p errorMsg
    ≤ Z.of_nat (length (Split (Pipeline.Content p) LF))
  ∧ GetLineForError p errorMsg = GetLineForError p ""
  ∧ (Forall (λ line, Forall (λ pattern, Contains line pattern = false)
                       invalidPatterns)
       (Split (Pipeline.Content p) LF) →
     GetLineForError p errorMsg = 1)
  ∧ (∀ before pattern after (k : nat) line,
       invalidPatterns = before ++ pattern :: after →
       Forall (λ earlier,
                 Forall (λ line, Contains line earlier = false)
                   (Split (Pipeline.Content p) LF)) before →
       Split (Pipeline.Content p) LF !! k = Some line →
       Contains line pattern = true →
       (∀ (j : nat) above,
          (j < k)%nat → Split (Pipeline.Content p) LF !! j = Some above →
          Contains above pattern = false) →
       GetLineForError p errorMsg = Z.of_nat k + 1).
Proof.
  unfold GetLineForError.
  set (lines := Split (Pipeline.Content p) LF).
  assert (∀ test,
            match firstLine test lines 0 with
            | Some n => 1 ≤ n ≤ Z.of_nat (length lines)
            | None => True
            end) as Hrange.
  { intros test. pose proof (firstLine_spec test lines 0) as Hspec.
    destruct (firstLine test lines 0) as [n|]; [|done].
    destruct Hspec as (k & line & -> & Hk%lookup_lt_Some & _). lia. }
  assert (1 ≤ Z.of_nat (length lines)) as Hlen.
  { pose proof (Split_nonempty (Pipeline.Content p) LF) as Hne.
    fold lines in Hne. destruct lines; [done|simpl; lia]. }
  assert (∀ patterns,
            match firstPattern patterns lines with
            | Some n => 1 ≤ n ≤ Z.of_nat (length lines)
            | None =>
                Forall (λ pattern,
                          Forall (λ line, Contains line pattern = false) lines)
                  patterns
            end) as Hpatterns.
  { induction patterns as [|pattern patterns IH]; cbn [firstPattern]; [done|].
    pose proof (Hrange (λ line, Contains line pattern)) as Hr.
    pose proof (firstLine_spec (λ line, Contains line pattern) lines 0) as Hs.
    destruct (firstLine _ lines 0) as [n|]; [done|].
    destruct (firstPattern patterns lines); [done|]. by apply Forall_cons. }
  assert (firstPattern invalidPatterns lines = None →
          firstLine (λ line, Contains (TrimSpace line) "invalid_field:") lines 0
          = None) as Hfallback.
  { intros Hnone. pose proof (Hpatterns invalidPatterns) as Hp.
    rewrite Hnone in Hp. apply Forall_cons in Hp as [Hfield _].
    pose proof (firstLine_spec
                  (λ line, Contains (TrimSpace line) "invalid_field:") lines 0)
      as Hs.
    destruct (firstLine _ lines 0) as [n|]; [|done].
    destruct Hs as (k & line & _ & Hk & Htest & _). exfalso.
    apply (Forall_lookup_1 _ _ _ _ Hfield) in Hk.
    apply Contains_spec in Htest as (a & b & Hab).
    destruct (TrimSpace_infix line) as (a' & b' & Hline).
    assert (Contains line "invalid_field" = true) as Hc; [|congruence].
    apply Contains_spec. exists (a' +:+ a), (":" +:+ b +:+ b').
    rewrite Hline at 1. rewrite Hab.
    change "invalid_field:" with ("invalid_field" +:+ ":").
    by rewrite !app_assoc_s. }
  split; [|split; [|split]].
  - pose proof (Hpatterns invalidPatterns) as Hp.
    destruct (firstPattern invalidPatterns lines) as [n|] eqn:Hfirst; [done|].
    rewrite Hfallback by done. destruct (Contains errorMsg _); lia.
  - destruct (firstPattern invalidPatterns lines) as [n|] eqn:Hfirst; [done|].
    rewrite Hfallback by done. by destruct (Contains errorMsg _).
  - intros Hnone.
    assert (firstPattern invalidPatterns lines = None) as Hfirst.
    { pose proof (Hpatterns invalidPatterns) as Hp.
      destruct (firstPattern invalidPatterns lines) as [n|] eqn:Hfirst;
        [|done].
      exfalso. clear -Hnone Hfirst. unfold invalidPatterns in *.
      cbn [firstPattern] in Hfirst.
      repeat match type of Hfirst with
             | context [firstLine ?t lines 0] =>
                 let Hs := fresh "Hs" in
                 pose proof (firstLine_spec t lines 0) as Hs;
                 destruct (firstLine t lines 0);
                 [destruct Hs as (k & line & _ & Hk & Ht & _);
                  apply (Forall_lookup_1 _ _ _ _ Hnone) in Hk;
                  apply Forall_cons in Hk as [H1 [H2 [H3 _]%Forall_cons]%Forall_cons];
                  simpl in Ht; congruence|]
             end. done. }
    rewrite Hfirst, Hfallback by done. by destruct (Contains errorMsg _).
  - intros before pattern after k line Hsplit Hbefore Hk Hcontains Habove.
    assert (∀ patterns,
              firstPattern (patterns ++ pattern :: after) lines
              = match firstPattern patterns lines with
                | Some n => Some n
                | None => Some (Z.of_nat k + 1)
                end) as Hfirst.
    { induction patterns as [|q patterns IH]; cbn [app firstPattern].
      - pose proof (firstLine_spec (λ line, Contains line pattern) lines 0)
          as Hs.
        revert Hs.
        destruct (firstLine (λ line, Contains line pattern) lines 0) as [n|];
          intros Hs.
        + destruct Hs as (k' & line' & -> & Hk' & Ht & Hb'). f_equal.
          destruct (Nat.lt_trichotomy k k') as [Hlt|[->|Hgt]]; [|done|].
          * by rewrite (Hb' k line Hlt Hk) in Hcontains.
          * by rewrite (Habove k' line' Hgt Hk') in Ht.
        + apply (Forall_lookup_1 _ _ _ _ Hs) in Hk. simpl in Hk. congruence.
      - destruct (firstLine (λ line, Contains line q) lines 0);
          [reflexivity|apply IH]. }
    rewrite Hsplit, Hfirst.
    assert (firstPattern before lines = None) as ->; [|done].
    clear -Hbefore. induction before as [|q before IH]; [done|].
    apply Forall_cons in Hbefore as [Hq Hbefore]. cbn [firstPattern].
    pose proof (firstLine_spec (λ line, Contains line q) lines 0) as Hs.
    destruct (firstLine _ lines 0) as [n|]; [|by apply IH].
    destruct Hs as (k & line & _ & Hk & Ht & _).
    apply (Forall_lookup_1 _ _ _ _ Hq) in Hk. simpl in *. congruence.
Qed.

(** X27: the line of a schema error.  The line that [GetLineForError]
    reports lies between 1 and the number of lines of the document, and it
    does not depend on the message of the error: the search that looks at
    the message can only find a line that the search before it has found.
    The line is 1 when no line holds one of the three patterns; otherwise
    it is the first line that holds the first of the patterns, in the
    order [invalid_field], [unknown_property], [bad_field], that occurs in
    the document at all. *)
Theorem GetLineForError_line (p : Pipeline.t) (errorMsg : string) :
  1 ≤ GetLineForError p errorMsg
    ≤ Z.of_nat (length (Split (Pipeline.Content p) LF))
  ∧ GetLineForError p errorMsg = GetLineForError p ""
  ∧ (Forall (λ line, Forall (λ pattern, Contains line pattern = false)
                       invalidPatterns)
       (Split (Pipeline.Content p) LF) →
     GetLineForError p errorMsg = 1)
  ∧ (∀ before pattern after (k : nat) line,
       invalidPatterns = before ++ pattern :: after →
       Forall (λ earlier,
                 Forall (λ line, Contains line earlier = false)
                   (Split (Pipeline.Content p) LF)) before →
       Split (Pipeline.Content p) LF !! k = Some line →
       Contains line pattern = true →
       (∀ (j : nat) above,
          (j < k)%nat → Split (Pipeline.Content p) LF !! j = Some above →
          Contains above pattern = false) →
       GetLineForError p errorMsg = Z.of_nat k + 1).
Proof. apply GetLineForError_spec. Qed.

End ParserFacts.

(** * The handlers *)
Section HandlerFacts.
Import lsp protocol.

Variable GetPluginSchema :
  plugins.Registry.t → string
  → option (plugins.Registry.t * (string + option plugins.PluginSchema.t)).
Variable ValidatePluginConfig :
  plugins.Registry.t → string → json.value
  → option (plugins.Registry.t * option string).
Variable ParseYAML : string → string + parser.Pipeline.t.
Variable validateSchema : string → schema.validation.
Variable unmarshalPipeline : string → option (gmap string json.value).
Variable ToLower : string → string.
Variable completionsFromRegistry : string → Z → option (list CompletionItem).

(** X28: requests about a position that has no context.  For a
    Buildkite file that is not open, or a position whose line is not a
    line of the open document, as the line behind a final line feed, the
    document manager hands out a nil context.  [Hover] then returns no
    hover and leaves the server as it is; [Completion], [SignatureHelp]
    and [Definition] read a field of the nil context for their log and do
    not return. *)
Theorem handlers_without_context (s : Server.t) (uri : string)
    (position : Position) :
  isBuildkiteFile uri = true →
  (∀ doc, GetDocument (Server.documentManager s) uri = Some doc →
          Z.of_nat (length (Document.Lines doc)) ≤ Line position) →
  GetContentAtPosition (Server.documentManager s) uri position = Some None
  ∧ Hover GetPluginSchema s uri position = Some (s, None)
  ∧ Completion completionsFromRegistry s uri position = None
  ∧ SignatureHelp_ GetPluginSchema s uri position = None
  ∧ Definition_ ToLower s uri position = None.
Proof.
  intros Hfile Hdoc.
  assert (GetContentAtPosition (Server.documentManager s) uri position
          = Some None) as Hctx.
  { unfold GetContentAtPosition, GetDocument in *.
    destruct (Server.documentManager s !! uri) as [doc|]; [|done].
    specialize (Hdoc doc eq_refl).
    by destruct (Z.leb_spec (Z.of_nat (length (Document.Lines doc)))
                   (Line position)); [|lia]. }
  unfold Hover, Completion, SignatureHelp_, Definition_.
  rewrite Hfile, Hctx. cbn [negb mbind option_bind getContextualHoverContent].
  split_and!; try done. by destruct s.
Qed.

(** X29: the life of a document.  On a server whose document manager
    was built by the operations, a change notification does what opening
    the text of its last change would do, whatever the changes before it,
    and one without changes does nothing and sends nothing.  After
    [DidOpen] has returned, the document stored for the URI holds the
    version, the text and the lines of the text, the documents of the other
    URIs are as before and, for a file that is not a Buildkite file, no
    diagnostics were sent and the plugin registry is as before; after
    [DidClose] no document is stored for the URI. *)
Theorem DidChange_last_change (s : Server.t) (uri : string) (version : Z)
    (contentChanges : list string) :
  reachable (Server.documentManager s) →
  DidChange ValidatePluginConfig ParseYAML validateSchema unmarshalPipeline
    s uri version contentChanges
  = match last contentChanges with
    | Some lastChange =>
        DidOpen ValidatePluginConfig ParseYAML validateSchema unmarshalPipeline
          s uri version lastChange
    | None => Some (s, None)
    end
  ∧ (∀ text s' sent,
       DidOpen ValidatePluginConfig ParseYAML validateSchema unmarshalPipeline
         s uri version text = Some (s', sent) →
       reachable (Server.documentManager s')
       ∧ GetDocument (Server.documentManager s') uri
         = Some {| Document.URI := uri;
                   Document.Version := version;
                   Document.Content := text;
                   Document.Lines := splitLines text |}
       ∧ (∀ other, other ≠ uri →
            GetDocument (Server.documentManager s') other
            = GetDocument (Server.documentManager s) other)
       ∧ (isBuildkiteFile uri = false →
          sent = None
          ∧ Server.pluginRegistry s' = Server.pluginRegistry s)
       ∧ GetDocument (Server.documentManager (DidClose s' uri)) uri = None).
Proof.
  intros Hdm. split.
  - unfold DidChange. rewrite last_lookup.
    destruct contentChanges as [|change changes]; [done|].
    cbn [length]. destruct (Z.ltb_spec 0 (Z.of_nat (S (length changes))));
      [|lia].
    replace (S (length changes) - 1)%nat with (pred (S (length changes)))
      by lia.
    destruct (lookup_lt_is_Some_2 (change :: changes)
                (pred (S (length changes))) ltac:(simpl; lia))
      as [lastChange ->].
    cbn [mbind option_bind]. unfold DidOpen.
    by rewrite (proj2 (reachable_invariant _ Hdm)).
  - intros text s' sent. unfold DidOpen.
    destruct (validateDocument _ _ _ _ _ _ _) as [[registry sent']|] eqn:Hv;
      [|done].
    cbn [mbind option_bind]. intros [= <- <-].
    cbn [Server.documentManager Server.pluginRegistry DidClose].
    unfold GetDocument, OpenDocument, CloseDocument.
    split_and!.
    + by apply reachable_open.
    + by rewrite lookup_insert_eq.
    + intros other Hne. by rewrite lookup_insert_ne.
    + intros Hfile. unfold validateDocument in Hv. rewrite Hfile in Hv.
      cbn [negb] in Hv. by injection Hv as <- <-.
    + by rewrite lookup_delete_eq.
Qed.


End HandlerFacts.

Lemma handlers_without_context_witness :
  lsp.Completion (λ _ _, Some [])
    {| lsp.Server.documentManager :=
         lsp.OpenDocument lsp.NewDocumentManager "pipeline.yml" 1
           ("steps:" +:+ nl);
       lsp.Server.pluginRegistry := plugins.NewRegistry |}
    "pipeline.yml" {| protocol.Line := 1; protocol.Character := 0 |}
  = None.
Proof.
  apply (handlers_without_context (λ r _, Some (r, inl "no network"))
           (λ text, text) (λ _ _, Some [])
           {| lsp.Server.documentManager :=
                lsp.OpenDocument lsp.NewDocumentManager "pipeline.yml" 1
                  ("steps:" +:+ nl);
              lsp.Server.pluginRegistry := plugins.NewRegistry |}
           "pipeline.yml" {| protocol.Line := 1; protocol.Character := 0 |}).
  - reflexivity.
  - intros doc. cbn [lsp.Server.documentManager].
    unfold lsp.GetDocument, lsp.OpenDocument. rewrite lookup_insert_eq.
    intros [= <-]. vm_compute. discriminate.
Defined.

Lemma DidChange_last_change_witness :
  lsp.DidChange (λ r _ _, Some (r, None)) (λ _, inl "no parser")
    (λ _, schema.SchemaError "no schema") (λ _, None)
    {| lsp.Server.documentManager := lsp.NewDocumentManager;
       lsp.Server.pluginRegistry := plugins.NewRegistry |}
    "pipeline.yml" 2 ["steps: []"; "steps:"]
  = lsp.DidOpen (λ r _ _, Some (r, None)) (λ _, inl "no parser")
      (λ _, schema.SchemaError "no schema") (λ _, None)
      {| lsp.Server.documentManager := lsp.NewDocumentManager;
         lsp.Server.pluginRegistry := plugins.NewRegistry |}
      "pipeline.yml" 2 "steps:".
Proof.
  apply (DidChange_last_change (λ r _ _, Some (r, None)) (λ _, inl "no parser")
           (λ _, schema.SchemaError "no schema") (λ _, None)
           {| lsp.Server.documentManager := lsp.NewDocumentManager;
              lsp.Server.pluginRegistry := plugins.NewRegistry |}
           "pipeline.yml" 2 ["steps: []"; "steps:"]).
  apply reachable_new.
Defined.
